(* ===== verification/_CoqProject ===== *)
-Q . S2P
Prelude.v
JsArray.v
JsValue.v
Redis.v
Room.v
Json.v
Prog.v
Service.v
Model.v
Invariant.v
Refine.v
LeaveMany.v
Reach.v
Scene.v
Correct.v
Safety.v
ServiceSpec.v
Findings.v
Interleave.v
Socket.v
Gateway.v
GatewaySpec.v
Session.v
Adapter.v
Typing.v
Progress.v
Race.v
Crash.v
Pool.v
Contract.v
Endpoint.v
Equiv.v
Overlap.v
OverlapTypes.v
OverlapStore.v
Footprint.v
Keys.v
Apart.v
Serial.v
OverlapSerial.v
