(* ===== verification/Prelude.v ===== *)
(** * Room coordination of the chat communication server: a verification library

    ** The program

    The program is a NestJS websocket server.  Its room coordinator,
    [RoomService] in [src/src/module/chat/service/room.service.ts],
    keeps every room as a JSON text in a shared Redis store, together
    with one list of room ids per user; it holds no state of its own.
    The gateway [TextChatGateway] in
    [src/src/module/chat/text-chat.gateway.ts] has one handler per
    client event: it calls the coordinator (or, for presence and private
    messages, services that are not part of the sources), then moves the
    caller's socket between socket.io rooms and emits the news.
    [RedisIoAdapter] in [src/src/adapter/redis.adapter.ts] prepares the
    adapter through which the processes of the server share their
    broadcasts.  The flag [AppConfig.allowJoinMultipleRooms] decides
    whether a user may be in several rooms at once.

    ** The files, bottom up

    - [Prelude] (this file): the hint database [chat], the tactic
      [case_cond], facts on lists the components share, and [count].
    - [JsArray]: [indexOf], [includes], [push] and [splice] with the
      conventions of JavaScript (index -1 when absent, negative start
      counted from the end), and the reference operations
      [remove_first] and [removelast] they are compared with.
    - [JsValue]: the JSON scalars a user id or a room id may be at run
      time ([value]), [String(v)] ([to_string]) and truthiness.  Ids are
      values and not numbers or strings because the store only sees
      their text, and because the gateway passes them in an order the
      signatures do not expect.
    - [Redis]: the keyspace as a finite map from (namespace, id text)
      to a string or a list, the seven commands the service issues
      ([apply_command]), pipelines ([exec_pipeline]), the typing of the
      keyspace.  Modelled from the Redis command reference; ioredis is
      not part of the sources.  A pipeline is applied in one piece.
    - [Room]: the [Room] record with the in-place field updates, and
      the class [JSON.Codec], the interface between the service and
      the JSON library: a printer, a parser, and the law that a printed
      room parses to itself.
    - [Json]: the instance of that class, a printer that writes a room
      the way [JSON.stringify] does and a parser for these texts, with
      the round trip.  Both stand in for the built-ins, which are not
      part of the sources: they discharge the law of the class and make
      the scenarios run.  The parser takes as fuel the length of the
      text, which bounds the number of array elements it can meet.
    - [Prog]: a handler as a finite tree of requests to the store (one
      node per [await]), exceptions as values ([exn]), and [run], which
      executes one handler alone; [now] is what [Date.now()] answers.
    - [Service]: [Module RoomService], one definition per method of
      [room.service.ts] in the order of the file ([isMemberOfAny],
      [book], [get], [getMany], [join], [leave], [leaveMany], [kick],
      [transferOwnership], [invite], [respondInvitation]), with every
      guard, early return and pipeline of the source, and the edits of
      the room object as functions ([join_update], [depart],
      [invite_update], [respond_update], [settle]).
    - [Model]: the abstract side.  [db] is what the store holds,
      decoded: rooms by id, room ids by user, socket ids by user.
      [Module Pure] reads every method as a function from a database
      to an outcome and a database.
    - [Invariant]: [room_ok] (the owner is a member, nobody is invited
      twice, no member is invited) and [inv] (rooms sit under their id
      and are [room_ok], members are user ids, the list of a user names
      a room as often as the room names the user, and at most one room
      is listed per user when several are not allowed); every pure
      reading preserves [inv].
    - [Refine], [LeaveMany]: [represents s d] relates a store to the
      database it holds; each program of [Service], run on a store that
      represents [d], answers what its pure reading answers on [d] and
      leaves a store that represents the database of the pure reading.
      [LeaveMany] has the closed form of the loop of [leaveMany].
    - [Reach]: the requests a client can make ([request], [perform]),
      scripts of requests, and the stores reachable from the empty
      store; every reachable store represents a database that
      satisfies [inv].
    - [Scene]: concrete scripts and stores, run with the codec of
      [Json], for the examples.
    - [Correct]: one theorem per method that writes: on a consistent
      store it computes its pure reading and the invariant holds again.
    - [Safety]: the invariants read off a reachable store with the
      service's own [get]; failed requests fail with a domain error and
      write nothing.
    - [ServiceSpec]: the testable properties of the specification, on
      the programs, and two scenarios run with the concrete codec.
    - [Findings]: where the code departs from what it means to do.
    - [Interleave]: two handlers taking turns at their requests to the
      store ([advance], the turn of the scheduler: one handler runs up
      to and including its next request); an interleaving in which one
      handler ends before the other starts is a sequential run.
    - [Socket]: [Module SocketIO], the part of socket.io the gateway
      relies on: the rooms of each connected socket ([join], [leave]),
      where an emission goes ([target]) and which sockets it reaches
      ([receivers]).  Modelled from the library, which is not part of
      the sources.
    - [Gateway]: [Module TextChatGateway], one definition per handler
      of [text-chat.gateway.ts] in the order of the file
      ([handleConnection], [handleDisconnect], [sendPrivateMessage],
      [handleCreateRoom], [handleJoinRoom], [handleLeaveRoom],
      [handleKickOutOfRoom], [handleSendGroupMessage],
      [handleTransferOwnership], [handleInviteToRoom],
      [handleRespondInvitation]).  A handler is a state transformer on
      a [world]: the store, the state of the outside services, the
      rooms of the sockets, and the log of socket actions.  The calls of
      the coordinator keep the order of arguments of the call site; a
      property read [room.x] goes through the class [RoomProps], whose
      instance for the object a handler bound to [room] says which
      properties that object has; the outside services are the class
      [Services], with no law.  The decorators of a handler are its
      [endpoint] ([onJoinRoom], ...): the event of [@SubscribeMessage]
      and the interceptors of [@UseInterceptors]; [deliver] takes a
      message through the interceptors to the handler inside the
      exception filter of the class ([UseFilters]).  What the session
      layer answers for a socket is the class [Interceptors].
    - [GatewaySpec]: [handles] states a room handler against the pure
      reading of the method it calls: the store follows the pure
      function, the sockets move and the news is emitted only when the
      method returned.  One theorem per handler, what a thrown error
      leaves, what presence and private messages reach, and two runs on
      concrete worlds.  [serve] handles a sequence of inputs; over any
      such run a socket that sends nothing stays in the rooms it was
      in, because every handler moves the caller's socket only.
    - [Session]: what a session that ends leaves behind:
      [handleDisconnect] calls no method of the coordinator, so the
      user stays a member of the rooms of the closed socket.
    - [Endpoint]: the decorators are consistent (each handler binds
      the name it is subscribed under), and whatever is thrown on the
      way to a handler or inside it is reported once, to the socket of
      the request, which stays connected.
    - [Adapter]: [Module RedisIoAdapter], the two methods of
      [redis.adapter.ts] on the one field of the object:
      [connectToRedis] makes the publishing client and its duplicate,
      connects both and keeps the adapter made of them;
      [createIOServer] passes the port and the options to the server
      of the framework and installs what the field holds.  The clients
      and the server are the libraries', modelled from these calls.
    - [Typing]: every command a method can send fits the namespace of
      its key ([typed]), so on a typed store no reply is an error and
      the store stays typed.
    - [Progress]: [within n] bounds the awaited requests of a method
      over all replies; every request is served within six, two
      requests both finish under every schedule that gives each six
      turns, and the number of commands [leaveMany] sends is counted.
    - [Race]: two handlers that are both served their reads before
      either writes ([reads_to]), under every order of the reads: each
      writes what it computed from the store both started from.  Two
      joins of one room lose the first joiner and the invariant of the
      index; two bookings of one user both pass the guard and lose the
      single-room policy.  Both hold on every consistent store.
    - [Crash]: the store fails between two requests of a method.
      [writes n] bounds the requests that write; every method writes
      once, with its last request, and an accepted invitation twice, so
      what a failure leaves after any number of turns satisfies [inv].
      [torn] cuts a pipeline after its first commands, which is where
      the invariant can be lost.
    - [Pool]: any number of handlers in flight ([pool]) under any
      schedule of their turns ([dispatch]): the keys keep their types,
      every handler that gets six turns finishes, and the schedule that
      serves the handlers one after the other is a sequential run.
    - [Contract]: the operations table of the specification, one
      [contract] per row: what the operation requires of the database
      (decidable), what it ensures when that holds, and the kinds of
      error ([ErrorKind.t]) it rejects with when it does not.
      [honours] states a program against a row: it returns exactly
      when the row's precondition holds, the result and the database
      are those of the row, the store represents that database and
      [inv] holds; it throws otherwise, with a message of a kind the
      row names, and writes nothing.  Every method honours its row;
      [join] and [invite] do on the rooms where the index they splice
      at is the one the row means ([join_agrees], [invite_agrees]).
    - [Equiv]: [p ≡ q], programs that send the same requests and
      differ in how their continuations are written; [bind] is a
      monad up to it, and [run], [advance], [finished], [within] and
      [typed] respect it, so programs are rewritten inside them.
    - [Overlap]: the messages of the gateway handled at the same
      time.  A handler is cut at its [await] of the coordinator
      ([awaits]); a message that arrives passes the interceptors and
      is [pending] while its method takes its turns at the store
      ([proceed]); when the method has returned, the rest of the
      handler runs in one piece inside the filter.  [overlap] follows
      a schedule of arrivals and turns.  The schedule that treats the
      inputs one by one is [serve]; under every schedule a socket that
      sends nothing stays in its rooms and a message that gets six
      turns is answered; a scenario shows the race of [Race] on the
      sockets.  The method in a handler is a request of [Reach]
      up to [≡].
    - [OverlapTypes]: the keys keep their types under every schedule
      when the outside services keep them (class [Outside], the one
      law asked of them).
    - [OverlapStore]: what the store sees of a message on its way is
      its method; what the handler does after it writes nothing
      ([calm]).
    - [Footprint]: every command acts on one key ([target]); the keys
      a handler sends commands to along its run are its footprint
      ([keys_sent], [confined]).  A handler confined to a set of keys
      answers and writes the same on stores that [agree] on the set
      and leaves the other keys alone ([local_to]); steps local to
      disjoint sets commute, so every interleaving of two handlers
      with disjoint footprints is their sequential run.
    - [Keys]: [footprint] gives the keys of each request of the
      service: the room it names, the list of rooms and the socket of
      the users it names and, for an accepted invitation when one room
      only is allowed, the rooms the guest is listed in.  On a store
      the service can be in, every method stays within them (a room is
      written back under the key it was read from).
    - [Apart]: pools whose handlers are each within keys of their own
      ([separate]), pairwise disjoint ([apart]): a turn of one changes
      neither the answers of the others nor what the pool, run to its
      end, writes; the order of a sequential run does not matter.
    - [Serial]: requests of the service whose keys are pairwise
      disjoint leave the store of a sequential run under every
      schedule of the pool, answer as in that run ([said],
      [replies]), and can be served in any order.  The races of
      [Race], and one between an acceptance and an invitation to the
      room the guest leaves, are between requests whose keys meet.
    - [OverlapSerial]: [Overlap] and [Serial] together.  For
      handlers of the gateway suspended in their calls of the
      coordinator ([asks]), the store behind the gateway is, under
      every order of the turns, the store the methods they call leave
      in the pool of [Pool].  When the keys of these requests are
      pairwise disjoint, all are answered and that store is the one of
      a sequential run of the requests.  The handlers of the gateway are the requests of
      [Reach] up to [≡], which footprints respect.

    ** Assumptions and bounds

    - The key prefixes of [CacheNamespace] are assumed prefix-disjoint,
      so a key is a pair of a namespace and the text of an id.
    - A pipeline whose [exec()] is called again sends its whole queue
      again, the queue is not cleared: [leaveMany] calls [exec()] inside
      its loop, which [leaveMany_step] records in [sent].  The calls
      inside the loop are not awaited and the last one is: the handler
      is suspended once, and [leaveMany] is one request node whose
      pipeline is everything sent, in the order it was sent.
    - A pipeline is served in one piece ([exec_pipeline]): no command
      of another handler falls between two of its commands.  Redis
      serves the commands of a connection in the order they were sent
      and a pipeline is sent as one batch, so this holds of the
      handlers of one process, which share a connection; between
      several processes it is an assumption, since a pipeline is not a
      transaction.  The races of [Race] need no more than this: they
      are between the reads and the write of a method.
    - Integers are unbounded ([Z]); user ids and clock values are far
      below the range where a JavaScript number stops being exact.
    - Except in [Interleave], [Progress], [Race], [Pool], [Overlap],
      [Footprint], [Apart], [Serial] and [OverlapSerial], one handler
      runs at a time; the
      invariants are those of such runs, and of the concurrent runs
      of requests with pairwise disjoint keys ([Serial]).  No fuel is
      needed for the handlers: programs are finite trees and [run] is
      structural.  The bound of six turns is that of the longest
      method, [respondInvitation]: [get], the guard, the three requests
      of [leaveMany], the final pipeline.
    - The lines of the sources that only name something the program
      uses (the imports of the interceptors, the interfaces the class
      of the gateway implements, the calls of [JSON] and of the [redis]
      package) are not where its behaviour is: [interceptor],
      [on_connection], [on_disconnect], [stringify_room], [parse_room]
      and [RedisClient] are modelled from what the specification and
      the libraries say.
    - socket.io is read as its version 4 on one process: [to] returns a
      new broadcast operator, [undefined] is a room name like any
      other, an emission to no room at all reaches every connected
      socket.
    - A handler of the gateway receives the payload its signature
      names.  (Only [sendPrivateMessage] decorates that parameter; what
      the framework passes to the others is not part of the model.)
    - The interceptors and the filter are not in the sources and are
      read by their names: [EventNameBindingInterceptor] records the
      name of the event, [SocketUserIdBindingInterceptor] sets the
      user id of the socket to what the session layer answers or
      throws, both before the handler; [WsExceptionsFilter] emits one
      [Error] to the socket of the request and nothing else.
    - The row of [respondInvitation] in the operations table is read
      with the single-active-room rule of the specification: the
      guest leaves the other rooms when one room only is allowed.
    - In [Overlap] a handler is suspended at the requests of the
      coordinator's method it awaits, and nowhere else: the socket
      actions after the [await] are synchronous, and the handlers that
      call the outside services only ([handleConnection],
      [handleDisconnect], [sendPrivateMessage]) run in one piece, as do
      the interceptors, since what these await is not in the sources.
    - The keys of a request are read on the store it is received
      on; the footprint of a handler is that of its run from that
      store, which is why [Keys] asks for a store the service can be
      in: there a room holds its own id.
    - A store that fails stops the method at a request: the requests
      made so far were served in full, the others not at all.  A
      pipeline served in part is [torn], and no theorem covers the
      methods on such a store.

    ** Not modelled

    The validation pipe and the injection of the handlers' parameters;
    the metadata of [@WebSocketGateway] (namespace, origins); how the
    session layer finds the user of a socket and the shape of a report
    on the wire; the implementations of [UserService],
    [ConnectionService] and [MessageService], which are not in the
    sources; what the Redis
    adapter does between processes; acknowledgements and namespaces of
    socket.io; reconnection to the store and retries; suspension of a
    handler inside a call of the outside services. *)

From stdpp Require Export base tactics option list.
From Stdlib Require Export ZArith Lia.

(** The development's hint database: lemmas that close the routine side
    conditions on lists and lookups are registered here by each file. *)
Create HintDb chat discriminated.
Create Rewrite HintDb chat.

(** [case_cond]: case analysis on the first [decide] or [if] of the goal,
    the way the code's guards are read. *)
Ltac case_cond :=
  match goal with
  | |- context [decide ?P] => destruct (decide P)
  | |- context [bool_decide ?P] => destruct (bool_decide_reflect P)
  | |- context [if ?b then _ else _] => destruct b eqn:?
  end.

Section list_facts.
Context {A : Type}.
Implicit Types (x y : A) (l k : list A).

Lemma elem_of_snoc l x y : y ∈ (l ++ [x]) ↔ y ∈ l ∨ y = x.
Proof. rewrite elem_of_app, list_elem_of_singleton. tauto. Qed.

Lemma NoDup_snoc_iff l x : NoDup (l ++ [x]) ↔ (x ∉ l) ∧ NoDup l.
Proof.
  rewrite NoDup_app. split.
  - intros (Hl & Hx & _). split; [|done].
    intros Hin. apply (Hx x Hin). by apply list_elem_of_singleton.
  - intros [Hx Hl]. split_and!; [done| |apply NoDup_singleton].
    intros y Hy ->%list_elem_of_singleton. done.
Qed.

Lemma elem_of_removelast l y : y ∈ removelast l → y ∈ l.
Proof.
  induction l as [|z l IH]; [done|]. destruct l as [|z' l]; simpl.
  - by intros ?%elem_of_nil.
  - rewrite !elem_of_cons. intros [->|H]; [by left|]. right.
    by apply elem_of_cons, IH.
Qed.

Lemma NoDup_removelast l : NoDup l → NoDup (removelast l).
Proof.
  induction l as [|z l IH]; [done|]. destruct l as [|z' l]; simpl.
  - constructor.
  - intros [Hz Hl]%NoDup_cons. apply NoDup_cons. split; [|by apply IH].
    intros Hin. apply Hz. by apply elem_of_removelast.
Qed.

Lemma filter_all (P : A → Prop) `{!∀ x, Decision (P x)} l :
  (∀ x, x ∈ l → P x) → filter P l = l.
Proof.
  induction l as [|z l IH]; [done|]. intros Hall. rewrite filter_cons.
  rewrite decide_True by (apply Hall; by left). f_equal. apply IH.
  intros x Hx. apply Hall. by right.
Qed.

Lemma NoDup_short l : length l ≤ 1 → NoDup l.
Proof.
  destruct l as [|x [|y l]]; simpl; [constructor|intros _; apply NoDup_singleton|lia].
Qed.

Lemma length_pos_nonempty l : (0 <? Z.of_nat (length l))%Z = bool_decide (l ≠ []).
Proof.
  destruct l as [|x l]; [done|]. rewrite (bool_decide_true (x :: l ≠ [])) by done.
  apply Z.ltb_lt. simpl. lia.
Qed.

End list_facts.

#[export] Hint Resolve elem_of_removelast NoDup_removelast : chat.

(** ** Counting occurrences

    The index of a user and the member list of a room are kept in step
    occurrence by occurrence, so the invariants count. *)

Section count.
Context `{EqDecision A}.
Implicit Types (x y : A) (l k : list A).

Fixpoint count x l : nat :=
  match l with
  | [] => 0
  | y :: l' => (if decide (x = y) then 1 else 0) + count x l'
  end.

Lemma count_app x l k : count x (l ++ k) = count x l + count x k.
Proof. induction l as [|z l IH]; simpl; [done|]. rewrite IH. lia. Qed.

Lemma count_snoc x y l : count x (l ++ [y]) = count x l + (if decide (x = y) then 1 else 0).
Proof. rewrite count_app. simpl. lia. Qed.

Lemma count_pos x l : 0 < count x l ↔ x ∈ l.
Proof.
  induction l as [|z l IH]; simpl; [by rewrite elem_of_nil; lia|].
  rewrite elem_of_cons, <- IH. destruct (decide (x = z)); [intuition lia|]. intuition lia.
Qed.

Lemma count_zero x l : count x l = 0 ↔ x ∉ l.
Proof. rewrite <- count_pos. lia. Qed.

Lemma count_singleton x y : count x [y] = if decide (x = y) then 1 else 0.
Proof. simpl. lia. Qed.

Lemma count_replicate x y n : count x (replicate n y) = if decide (x = y) then n else 0.
Proof. induction n as [|n IH]; simpl; rewrite ?IH; destruct (decide (x = y)); lia. Qed.

Lemma count_le_length x l : count x l ≤ length l.
Proof. induction l as [|z l IH]; simpl; [done|]. destruct (decide (x = z)); lia. Qed.

Lemma count_NoDup l : NoDup l ↔ ∀ x, count x l ≤ 1.
Proof.
  induction l as [|z l IH]; simpl; [split; [intros _ x; lia|constructor]|].
  rewrite NoDup_cons, IH, <- count_zero. split.
  - intros [Hz Hl] x. specialize (Hl x). destruct (decide (x = z)) as [->|]; lia.
  - intros Hall. split.
    + specialize (Hall z). rewrite decide_True in Hall by done. lia.
    + intros x. specialize (Hall x). destruct (decide (x = z)); lia.
Qed.

End count.
