(* ===== verification/JsArray.v ===== *)
(** * JsArray: the JavaScript array primitives used by the room service

    [room.service.ts] edits the three id lists of a room with
    [Array.prototype.indexOf], [splice], [includes] and [push].  They are
    modelled on [list A] for a type with decidable equality (strict
    equality [===] on the values the service stores).  [indexOf] returns
    [-1] when the element is absent, and [splice] reads a negative start
    from the end of the array, so [splice (indexOf x l) 1 l] removes the
    LAST element when [x] is absent: both cases are characterised here. *)

From S2P Require Import Prelude.

#[local] Open Scope Z_scope.

Section JsArray.
Context {A : Type} `{EqDecision A}.
Implicit Types (x y : A) (l k : list A) (i : Z).

(** [l.indexOf(x)] searched from position [i]. *)
Fixpoint indexOf_from (x : A) (l : list A) (i : Z) : Z :=
  match l with
  | [] => -1
  | y :: l' => if decide (y = x) then i else indexOf_from x l' (i + 1)
  end.

(** [l.indexOf(x)]: the first position of [x], or [-1]. *)
Definition indexOf (x : A) (l : list A) : Z := indexOf_from x l 0.

(** [l.includes(x)]. *)
Definition includes (x : A) (l : list A) : bool := bool_decide (x ∈ l).

(** [l.push(x)]: the array after the push. *)
Definition push (l : list A) (x : A) : list A := l ++ [x].

(** [l.splice(start, deleteCount)]: the array after the call.  A negative
    [start] counts from the end (clamped at 0), a [start] beyond the
    length is the length, and [deleteCount] is clamped to what is left. *)
Definition splice (start deleteCount : Z) (l : list A) : list A :=
  let len := Z.of_nat (length l) in
  let from := if start <? 0 then Z.max (len + start) 0 else Z.min start len in
  let cnt := Z.min (Z.max deleteCount 0) (len - from) in
  take (Z.to_nat from) l ++ drop (Z.to_nat (from + cnt)) l.

(** Reference definition: remove the first occurrence of [x], if any. *)
Fixpoint remove_first (x : A) (l : list A) : list A :=
  match l with
  | [] => []
  | y :: l' => if decide (y = x) then l' else y :: remove_first x l'
  end.

(** ** indexOf *)

Lemma indexOf_from_notin x l i : x ∉ l → indexOf_from x l i = -1.
Proof.
  revert i. induction l as [|y l IH]; intros i Hx; [done|]. simpl.
  apply not_elem_of_cons in Hx as [Hne Hx]. rewrite decide_False by done. auto.
Qed.

Lemma indexOf_from_in x l i :
  x ∈ l → ∃ n : nat, indexOf_from x l i = i + Z.of_nat n ∧
                     l !! n = Some x ∧ x ∉ take n l.
Proof.
  revert i. induction l as [|y l IH]; intros i Hx; [by apply elem_of_nil in Hx|].
  simpl. destruct (decide (y = x)) as [->|Hne].
  - exists 0%nat. split_and!; [lia|done|apply not_elem_of_nil].
  - apply elem_of_cons in Hx as [->|Hx]; [done|].
    destruct (IH (i + 1) Hx) as (n & Hi & Hn & Hpre). exists (S n).
    split_and!; [lia|done|]. simpl. apply not_elem_of_cons. by split.
Qed.

Lemma indexOf_notin x l : x ∉ l → indexOf x l = -1.
Proof. apply indexOf_from_notin. Qed.

Lemma indexOf_in x l :
  x ∈ l → ∃ n : nat, indexOf x l = Z.of_nat n ∧ l !! n = Some x ∧ x ∉ take n l.
Proof.
  intros Hx. destruct (indexOf_from_in x l 0 Hx) as (n & Hi & Hn & Hp).
  exists n. split_and!; [unfold indexOf; lia|done|done].
Qed.

Lemma indexOf_neg_iff x l : indexOf x l = -1 ↔ x ∉ l.
Proof.
  split; [|apply indexOf_notin]. intros Hi Hx.
  destruct (indexOf_in x l Hx) as (n & Hn & _). lia.
Qed.

Lemma indexOf_eqb x l : (indexOf x l =? -1) = negb (includes x l).
Proof.
  unfold includes. destruct (bool_decide_reflect (x ∈ l)) as [Hx|Hx]; simpl.
  - apply Z.eqb_neq. by rewrite indexOf_neg_iff; intros ?.
  - apply Z.eqb_eq. by apply indexOf_notin.
Qed.

Lemma indexOf_bounds x l : -1 ≤ indexOf x l < Z.of_nat (length l).
Proof.
  destruct (decide (x ∈ l)) as [Hx|Hx].
  - destruct (indexOf_in x l Hx) as (n & -> & Hn & _).
    apply lookup_lt_Some in Hn. lia.
  - rewrite indexOf_notin by done. lia.
Qed.

(** ** splice *)

(** Deleting one element at a position inside the array is stdpp's
    [delete] on lists. *)
Lemma splice_one_nat (n : nat) l :
  (n < length l)%nat → splice (Z.of_nat n) 1 l = delete n l.
Proof.
  intros Hn. unfold splice.
  rewrite (proj2 (Z.ltb_ge _ _)) by lia.
  replace (Z.min (Z.of_nat n) _) with (Z.of_nat n) by lia.
  replace (Z.min (Z.max 1 0) _) with 1 by lia.
  rewrite Nat2Z.id. replace (Z.to_nat (Z.of_nat n + 1)) with (S n) by lia.
  revert n Hn. induction l as [|y l IH]; intros [|n] Hn; simpl in *; try lia.
  - by rewrite drop_0.
  - f_equal. apply IH. lia.
Qed.

(** A start at or beyond the length deletes nothing. *)
Lemma splice_beyond start l :
  Z.of_nat (length l) ≤ start → splice start 1 l = l.
Proof.
  intros Hn. unfold splice.
  rewrite (proj2 (Z.ltb_ge _ _)) by lia.
  replace (Z.min start _) with (Z.of_nat (length l)) by lia.
  replace (Z.min (Z.max 1 0) _) with 0 by lia.
  rewrite Z.add_0_r, Nat2Z.id, firstn_all, drop_all. apply app_nil_r.
Qed.

(** [splice(-1, 1)] drops the last element. *)
Lemma splice_minus_one l : splice (-1) 1 l = removelast l.
Proof.
  unfold splice. change (-1 <? 0) with true. cbv iota.
  destruct (decide (l = [])) as [->|Hne]; [done|].
  assert (0 < length l)%nat by (destruct l; simpl; [done|lia]).
  replace (Z.max (Z.of_nat (length l) + -1) 0) with (Z.of_nat (length l) - 1) by lia.
  replace (Z.min (Z.max 1 0) _) with 1 by lia.
  replace (Z.to_nat (Z.of_nat (length l) - 1 + 1)) with (length l) by lia.
  replace (Z.to_nat (Z.of_nat (length l) - 1)) with (Nat.pred (length l)) by lia.
  by rewrite drop_all, app_nil_r, removelast_firstn_len.
Qed.

Lemma delete_remove_first x l (n : nat) :
  l !! n = Some x → x ∉ take n l → delete n l = remove_first x l.
Proof.
  revert n. induction l as [|y l IH]; intros [|n]; simpl; try done.
  - intros [= ->] _. by rewrite decide_True.
  - intros Hn [Hne Hx]%not_elem_of_cons. rewrite decide_False by done.
    f_equal. by apply IH.
Qed.

(** The idiom of the service on a present element: the first occurrence
    is removed. *)
Lemma splice_indexOf_in x l :
  x ∈ l → splice (indexOf x l) 1 l = remove_first x l.
Proof.
  intros Hx. destruct (indexOf_in x l Hx) as (n & -> & Hn & Hpre).
  rewrite splice_one_nat by (by eapply lookup_lt_Some).
  by apply delete_remove_first.
Qed.

(** The idiom of the service on an absent element: [indexOf] answers
    [-1] and the LAST element of the array is removed. *)
Lemma splice_indexOf_notin x l :
  x ∉ l → splice (indexOf x l) 1 l = removelast l.
Proof. intros Hx. rewrite indexOf_notin by done. apply splice_minus_one. Qed.

(** ** remove_first *)

Lemma remove_first_notin x l : x ∉ l → remove_first x l = l.
Proof.
  induction l as [|y l IH]; [done|]. intros [Hne Hx]%not_elem_of_cons.
  simpl. rewrite decide_False by done. f_equal. auto.
Qed.

Lemma elem_of_remove_first x y l : y ∈ remove_first x l → y ∈ l.
Proof.
  induction l as [|z l IH]; [done|]. simpl. case_cond.
  - apply list_elem_of_further.
  - rewrite !elem_of_cons. intros [->|Hy]; [by left|right; auto].
Qed.

Lemma elem_of_remove_first_ne x y l : y ≠ x → y ∈ remove_first x l ↔ y ∈ l.
Proof.
  intros Hne. split; [apply elem_of_remove_first|].
  induction l as [|z l IH]; [done|]. simpl. case_cond; subst.
  - rewrite elem_of_cons. by intros [?|?].
  - rewrite !elem_of_cons. intros [->|Hy]; [by left|right; auto].
Qed.

Lemma NoDup_remove_first x l : NoDup l → NoDup (remove_first x l).
Proof.
  induction l as [|z l IH]; [done|]. intros [Hz Hl]%NoDup_cons. simpl.
  case_cond; [done|]. apply NoDup_cons. split; [|auto].
  intros Hin. by apply Hz, (elem_of_remove_first x).
Qed.

Lemma not_elem_of_remove_first x l : NoDup l → x ∉ remove_first x l.
Proof.
  induction l as [|z l IH]; [intros _; apply not_elem_of_nil|].
  intros [Hz Hl]%NoDup_cons. simpl. case_cond; subst; [done|].
  apply not_elem_of_cons. split; [congruence|auto].
Qed.

Lemma length_remove_first x l :
  x ∈ l → S (length (remove_first x l)) = length l.
Proof.
  induction l as [|z l IH]; [by intros ?%elem_of_nil|]. simpl.
  case_cond; [done|]. intros [->|Hx]%elem_of_cons; [done|].
  simpl. f_equal. auto.
Qed.

Lemma remove_first_snoc x l : x ∉ l → remove_first x (l ++ [x]) = l.
Proof.
  induction l as [|z l IH]; simpl.
  - intros _. by rewrite decide_True.
  - intros [Hne Hx]%not_elem_of_cons. rewrite decide_False by done.
    f_equal. auto.
Qed.

(** On a duplicate-free list, removing the first occurrence removes
    every occurrence, and removing several elements in turn keeps what
    is none of them, in whatever order and however often each is named. *)
Lemma remove_first_filter x l : NoDup l → remove_first x l = filter (λ y, y ≠ x) l.
Proof.
  induction l as [|z l IH]; [done|]. intros [Hz Hl]%NoDup_cons. simpl.
  rewrite filter_cons. destruct (decide (z = x)) as [->|Hne].
  - rewrite decide_False by (by intros ?). symmetry. apply filter_all.
    by intros y Hy ->.
  - rewrite decide_True by done. by rewrite IH.
Qed.

Lemma foldl_remove_first_filter (xs : list A) l :
  NoDup l → foldl (λ k x, remove_first x k) l xs = filter (λ y, y ∉ xs) l.
Proof.
  revert l. induction xs as [|x xs IH]; intros l Hl; simpl.
  - symmetry. apply filter_all. intros y _. apply not_elem_of_nil.
  - rewrite IH by (by apply NoDup_remove_first).
    rewrite remove_first_filter, list_filter_filter by done.
    apply list_filter_iff. intros y. rewrite not_elem_of_cons. tauto.
Qed.

Lemma length_remove_first_le x l : (length (remove_first x l) ≤ length l)%nat.
Proof.
  induction l as [|z l IH]; simpl; [done|]. case_cond; simpl; lia.
Qed.

Lemma count_remove_first x y l :
  count y (remove_first x l) = (count y l - (if decide (y = x) then 1 else 0))%nat.
Proof.
  induction l as [|z l IH]; simpl; [done|]. destruct (decide (z = x)) as [->|Hxz].
  - destruct (decide (y = x)); lia.
  - simpl. rewrite IH. destruct (decide (y = z)) as [->|]; [|lia].
    rewrite decide_False by done. lia.
Qed.

Lemma splice_nat (n : nat) l : splice (Z.of_nat n) 1 l = delete n l.
Proof.
  destruct (decide (n < length l)%nat) as [Hn|Hn]; [by apply splice_one_nat|].
  rewrite splice_beyond, delete_take_drop, take_ge, drop_ge by lia. by rewrite app_nil_r.
Qed.

Lemma indexOf_snoc_notin x l : x ∉ l → indexOf x (l ++ [x]) = Z.of_nat (length l).
Proof.
  intros Hx. destruct (indexOf_in x (l ++ [x])) as (n & -> & Hn & _).
  { apply elem_of_app. right. by left. }
  f_equal. destruct (decide (n < length l)%nat) as [Hlt|Hge].
  - rewrite lookup_app_l in Hn by done. by apply list_elem_of_lookup_2 in Hn.
  - apply lookup_lt_Some in Hn. rewrite length_app in Hn. simpl in Hn. lia.
Qed.

(** ** [splice] at [indexOf]: the idiom of the service

    The element is removed when it is there; the last element is
    removed when it is not.  Either way what remains was there before. *)

Lemma elem_of_splice_indexOf x y l : y ∈ splice (indexOf x l) 1 l → y ∈ l.
Proof.
  destruct (decide (x ∈ l)) as [Hin|Hno].
  - rewrite splice_indexOf_in by done. apply elem_of_remove_first.
  - rewrite splice_indexOf_notin by done. apply elem_of_removelast.
Qed.

Lemma NoDup_splice_indexOf x l : NoDup l → NoDup (splice (indexOf x l) 1 l).
Proof.
  intros Hl. destruct (decide (x ∈ l)) as [Hin|Hno].
  - rewrite splice_indexOf_in by done. by apply NoDup_remove_first.
  - rewrite splice_indexOf_notin by done. by apply NoDup_removelast.
Qed.

Lemma not_elem_of_splice_indexOf x l : NoDup l → x ∉ splice (indexOf x l) 1 l.
Proof.
  intros Hl. destruct (decide (x ∈ l)) as [Hin|Hno].
  - rewrite splice_indexOf_in by done. by apply not_elem_of_remove_first.
  - intros Hx. by apply Hno, (elem_of_splice_indexOf x).
Qed.

(** ** push and includes *)

Lemma elem_of_push l x y : y ∈ push l x ↔ y ∈ l ∨ y = x.
Proof. apply elem_of_snoc. Qed.

Lemma includes_true x l : includes x l = true ↔ x ∈ l.
Proof. apply bool_decide_eq_true. Qed.

Lemma includes_false x l : includes x l = false ↔ x ∉ l.
Proof. apply bool_decide_eq_false. Qed.

End JsArray.

#[export] Hint Resolve elem_of_remove_first NoDup_remove_first
  not_elem_of_remove_first : chat.
#[export] Hint Rewrite @splice_minus_one @remove_first_snoc : chat.
