(* ===== verification/JsValue.v ===== *)
(** * JsValue: the scalar values that reach the room service

    TypeScript's parameter types ([joinerId: number], [roomId: string],
    [isAccpeted: boolean]) are erased at run time, and the gateway passes
    fields of a decoded JSON payload.  The service therefore works on JSON
    scalars: [null], booleans, numbers and strings.  Numbers are the
    integer user ids and clock readings of the program, kept in [Z].

    [to_string] is the conversion a template literal applies
    ([`${CacheNamespace.Room}${roomId}`]) and [String(Date.now())] uses;
    [truthy] is the test an [if] applies; equality of two values is
    JavaScript's strict equality [===]. *)

From stdpp Require Import strings pretty countable.
From S2P Require Import Prelude.

#[local] Open Scope string_scope.

Inductive value : Type :=
| VNull
| VBool (b : bool)
| VNum (n : Z)
| VStr (s : string).

#[export] Instance value_eq_dec : EqDecision value.
Proof. solve_decision. Defined.

(** Values are keys of JavaScript [Set]s and [Map]s (the rooms of a
    socket): they can be counted. *)
#[export] Instance value_countable : Countable value.
Proof.
  refine (inj_countable'
    (λ v, match v with
          | VNull => inl ()
          | VBool b => inr (inl b)
          | VNum n => inr (inr (inl n))
          | VStr s => inr (inr (inr s))
          end)
    (λ x, match x with
          | inl _ => VNull
          | inr (inl b) => VBool b
          | inr (inr (inl n)) => VNum n
          | inr (inr (inr s)) => VStr s
          end) _).
  by intros [].
Defined.

(** [String(v)], and the conversion inside a template literal. *)
Definition to_string (v : value) : string :=
  match v with
  | VNull => "null"
  | VBool true => "true"
  | VBool false => "false"
  | VNum n => pretty n
  | VStr s => s
  end.

(** The condition of [if (v)]. *)
Definition truthy (v : value) : bool :=
  match v with
  | VNull => false
  | VBool b => b
  | VNum n => negb (n =? 0)%Z
  | VStr s => negb (String.eqb s EmptyString)
  end.

(** [typeof v === 'number'], the declared type of every user id. *)
Definition is_number (v : value) : bool :=
  match v with VNum _ => true | _ => false end.

(** [typeof v === 'string'], the declared type of every room id. *)
Definition is_string (v : value) : bool :=
  match v with VStr _ => true | _ => false end.

(** Two numbers print alike only when they are equal: distinct user ids
    never share a key of the store. *)
Lemma to_string_num_inj (n m : Z) :
  to_string (VNum n) = to_string (VNum m) → n = m.
Proof. simpl. apply (inj pretty). Qed.

Lemma to_string_number_inj (u v : value) :
  is_number u = true → is_number v = true → to_string u = to_string v → u = v.
Proof.
  destruct u, v; try done. intros _ _ Heq. f_equal. by apply to_string_num_inj.
Qed.

(** Without the declared types the conversion is not injective: the
    number 7 and the string "7" address the same key. *)
Lemma to_string_collision : to_string (VNum 7) = to_string (VStr "7").
Proof. reflexivity. Qed.

Lemma is_number_inv (v : value) : is_number v = true → ∃ n, v = VNum n.
Proof. destruct v; try done. eauto. Qed.

Lemma is_string_inv (v : value) : is_string v = true → ∃ s, v = VStr s.
Proof. destruct v; try done. eauto. Qed.

Lemma to_string_str (s : string) : to_string (VStr s) = s.
Proof. done. Qed.

#[export] Hint Rewrite to_string_str : chat.
