(* ===== verification/Redis.v ===== *)
(** * Redis: the shared key-value store behind the room service

    The service holds no state of its own: every room and every index is
    a key of one Redis keyspace, reached through the [ioredis] client.
    Neither Redis nor the client is part of the repository; this file
    models the commands the service issues ([GET], [SET], [DEL], [LPUSH],
    [LREM], [LRANGE], [LLEN]) with the semantics Redis documents, and a
    pipeline as the in-order execution of its queued commands.

    A key is a namespace of [CacheNamespace] followed by an id.  The three
    namespaces are assumed to be distinct prefixes none of which extends
    another, so a key is the pair of its namespace and the id text. *)

From stdpp Require Import strings gmap.
From S2P Require Import Prelude JsArray JsValue.

#[local] Open Scope Z_scope.

(** The members of the [CacheNamespace] enum that the service uses. *)
Module CacheNamespace.
Inductive t : Type := Room | UId2RIds | UID2SId.
End CacheNamespace.

#[export] Instance CacheNamespace_eq_dec : EqDecision CacheNamespace.t.
Proof. solve_decision. Defined.

#[export] Instance CacheNamespace_countable : Countable CacheNamespace.t.
Proof.
  refine (inj_countable'
    (λ n, match n with
          | CacheNamespace.Room => 0%nat
          | CacheNamespace.UId2RIds => 1%nat
          | CacheNamespace.UID2SId => 2%nat
          end)
    (λ i, match i with
          | 0%nat => CacheNamespace.Room
          | 1%nat => CacheNamespace.UId2RIds
          | _ => CacheNamespace.UID2SId
          end) _).
  by intros [].
Defined.

Abbreviation key := (CacheNamespace.t * string)%type.

(** [`${ns}${v}`]: the key a template literal builds. *)
Definition key_of (ns : CacheNamespace.t) (v : value) : key := (ns, to_string v).

(** What a key holds: a string, or a list of strings (head first). *)
Inductive entry : Type :=
| EString (s : string)
| EList (l : list string).

#[export] Instance entry_eq_dec : EqDecision entry.
Proof. solve_decision. Defined.

Abbreviation store := (gmap key entry).

Inductive command : Type :=
| GET (k : key)
| SET (k : key) (v : string)
| DEL (k : key)
| LPUSH (k : key) (v : string)
| LREM (k : key) (count : Z) (v : string)
| LRANGE (k : key) (start stop : Z)
| LLEN (k : key).

(** A reply of the server: the null bulk string, a bulk string, an
    integer, an array, the status OK, or an error such as WRONGTYPE. *)
Inductive reply : Type :=
| RNil
| RBulk (s : string)
| RInt (n : Z)
| RArray (l : list string)
| ROk
| RError.

#[export] Instance reply_eq_dec : EqDecision reply.
Proof. solve_decision. Defined.

(** [LREM] with a positive count: the first [n] occurrences from the head. *)
Fixpoint lrem_head (n : nat) (v : string) (l : list string) : list string :=
  match n, l with
  | O, _ => l
  | _, [] => []
  | S n', x :: l' =>
      if decide (x = v) then lrem_head n' v l' else x :: lrem_head n v l'
  end.

(** [LREM key count v]: [count > 0] removes from the head, [count < 0]
    from the tail, [count = 0] every occurrence. *)
Definition lrem (count : Z) (v : string) (l : list string) : list string :=
  if count =? 0 then filter (λ x, x ≠ v) l
  else if 0 <? count then lrem_head (Z.to_nat count) v l
  else reverse (lrem_head (Z.to_nat (- count)) v (reverse l)).

(** [LRANGE key start stop]: both ends inclusive, negative offsets count
    from the tail, out-of-range ends are clamped. *)
Definition lrange (start stop : Z) (l : list string) : list string :=
  let len := Z.of_nat (length l) in
  let start' := if start <? 0 then Z.max (len + start) 0 else start in
  let stop' := if stop <? 0 then len + stop else Z.min stop (len - 1) in
  if (stop' <? start') || (len <=? start') then []
  else take (Z.to_nat (stop' - start' + 1)) (drop (Z.to_nat start') l).

(** One command against the keyspace: the keyspace after it and the reply.
    A list emptied by [LREM] is removed, as Redis removes empty lists; a
    command on a key of the other type replies with an error and changes
    nothing, except [SET] and [DEL], which apply to any key. *)
Definition apply_command (c : command) (s : store) : store * reply :=
  match c with
  | GET k =>
      match s !! k with
      | None => (s, RNil)
      | Some (EString v) => (s, RBulk v)
      | Some (EList _) => (s, RError)
      end
  | SET k v => (<[k := EString v]> s, ROk)
  | DEL k =>
      match s !! k with
      | None => (s, RInt 0)
      | Some _ => (delete k s, RInt 1)
      end
  | LPUSH k v =>
      match s !! k with
      | None => (<[k := EList [v]]> s, RInt 1)
      | Some (EList l) => (<[k := EList (v :: l)]> s, RInt (Z.of_nat (S (length l))))
      | Some (EString _) => (s, RError)
      end
  | LREM k count v =>
      match s !! k with
      | None => (s, RInt 0)
      | Some (EList l) =>
          let l' := lrem count v l in
          (match l' with [] => delete k s | _ => <[k := EList l']> s end,
           RInt (Z.of_nat (length l) - Z.of_nat (length l')))
      | Some (EString _) => (s, RError)
      end
  | LRANGE k start stop =>
      match s !! k with
      | None => (s, RArray [])
      | Some (EList l) => (s, RArray (lrange start stop l))
      | Some (EString _) => (s, RError)
      end
  | LLEN k =>
      match s !! k with
      | None => (s, RInt 0)
      | Some (EList l) => (s, RInt (Z.of_nat (length l)))
      | Some (EString _) => (s, RError)
      end
  end.

(** [pipeline().c1.c2 ... .exec()]: the queued commands run in order and
    the replies come back in the same order. *)
Fixpoint exec_pipeline (cs : list command) (s : store) : store * list reply :=
  match cs with
  | [] => (s, [])
  | c :: cs' =>
      let '(s1, r) := apply_command c s in
      let '(s2, rs) := exec_pipeline cs' s1 in
      (s2, r :: rs)
  end.

(** The list under a key, empty when the key is absent. *)
Definition list_at (s : store) (k : key) : list string :=
  match s !! k with Some (EList l) => l | _ => [] end.

(** The string under a key. *)
Definition string_at (s : store) (k : key) : option string :=
  match s !! k with Some (EString v) => Some v | _ => None end.

(** Writing a list back the way Redis keeps lists: an empty list is no
    key at all. *)
Definition set_list (k : key) (l : list string) (s : store) : store :=
  match l with
  | [] => delete k s
  | _ => <[k := EList l]> s
  end.

(** The key does not hold a string: list commands are accepted there. *)
Definition list_slot (s : store) (k : key) : Prop :=
  ∀ v, s !! k ≠ Some (EString v).

(** The key does not hold a list: string commands are accepted there. *)
Definition string_slot (s : store) (k : key) : Prop :=
  ∀ l, s !! k ≠ Some (EList l).

(** ** Typing of the keyspace

    Room records and socket ids are strings, the rooms of a user are a
    non-empty list.  [command_typed] is the discipline the service
    follows: string commands on string namespaces, list commands on the
    list namespace. *)

Definition entry_typed (k : key) (e : entry) : Prop :=
  match k.1, e with
  | CacheNamespace.UId2RIds, EList l => l ≠ []
  | CacheNamespace.UId2RIds, EString _ => False
  | _, EString _ => True
  | _, EList _ => False
  end.

Definition store_typed (s : store) : Prop :=
  ∀ k e, s !! k = Some e → entry_typed k e.

Definition is_list_ns (k : key) : bool :=
  match k.1 with CacheNamespace.UId2RIds => true | _ => false end.

Definition command_typed (c : command) : bool :=
  match c with
  | GET k | SET k _ => negb (is_list_ns k)
  | DEL _ => true
  | LPUSH k _ | LREM k _ _ | LRANGE k _ _ | LLEN k => is_list_ns k
  end.

(** ** Lists *)

Lemma lrem_one (v : string) (l : list string) : lrem 1 v l = remove_first v l.
Proof.
  unfold lrem. simpl. change (Z.to_nat 1) with 1%nat.
  induction l as [|x l IH]; [done|]. simpl. case_cond; [by destruct l|].
  f_equal. apply IH.
Qed.

Lemma lrange_all (l : list string) : lrange 0 (-1) l = l.
Proof.
  unfold lrange. simpl. destruct l as [|x l]; [done|].
  set (len := Z.of_nat (length (x :: l))).
  assert (0 < len) by (subst len; simpl; lia).
  rewrite (proj2 (Z.ltb_ge _ _)), (proj2 (Z.leb_gt _ _)) by lia. simpl.
  replace (Z.to_nat (len + -1 - 0 + 1)) with (length (x :: l)) by lia.
  apply firstn_all.
Qed.

Lemma lrange_nil (a b : Z) : lrange a b [] = [].
Proof.
  unfold lrange. simpl.
  destruct (a <? 0) eqn:Ha; [|apply Z.ltb_ge in Ha];
    rewrite (proj2 (Z.leb_le 0 _)) by lia; by rewrite orb_true_r.
Qed.

Lemma lrem_nil (n : Z) (v : string) : lrem n v [] = [].
Proof.
  unfold lrem. destruct (n =? 0); [done|].
  destruct (0 <? n); [by destruct (Z.to_nat n)|by destruct (Z.to_nat (- n))].
Qed.

(** ** Pipelines *)

Lemma exec_pipeline_cons (c : command) (cs : list command) (s : store) :
  exec_pipeline (c :: cs) s =
    ((exec_pipeline cs (apply_command c s).1).1,
     (apply_command c s).2 :: (exec_pipeline cs (apply_command c s).1).2).
Proof.
  cbn [exec_pipeline]. destruct (apply_command c s) as [s1 r]. cbn [fst snd].
  by destruct (exec_pipeline cs s1).
Qed.

Lemma apply_SET (k : key) (v : string) (s : store) :
  apply_command (SET k v) s = (<[k := EString v]> s, ROk).
Proof. done. Qed.

Lemma exec_pipeline_app (cs1 cs2 : list command) (s : store) :
  exec_pipeline (cs1 ++ cs2) s =
  let '(s1, r1) := exec_pipeline cs1 s in
  let '(s2, r2) := exec_pipeline cs2 s1 in
  (s2, r1 ++ r2).
Proof.
  revert s. induction cs1 as [|c cs1 IH]; intros s; simpl.
  - by destruct (exec_pipeline cs2 s).
  - destruct (apply_command c s) as [s1 r]. rewrite IH.
    destruct (exec_pipeline cs1 s1) as [s2 rs1].
    by destruct (exec_pipeline cs2 s2).
Qed.

Lemma exec_pipeline_length (cs : list command) (s : store) :
  length (exec_pipeline cs s).2 = length cs.
Proof.
  revert s. induction cs as [|c cs IH]; intros s; [done|]. simpl.
  destruct (apply_command c s) as [s1 r]. specialize (IH s1).
  destruct (exec_pipeline cs s1). simpl in *. by f_equal.
Qed.

(** A pipeline of reads leaves the keyspace as it was and answers each
    read from it. *)
Lemma exec_pipeline_gets {A : Type} (f : A → key) (l : list A) (s : store) :
  exec_pipeline ((λ a, GET (f a)) <$> l) s =
    (s, (λ a, (apply_command (GET (f a)) s).2) <$> l).
Proof.
  induction l as [|a l IH]; [done|]. rewrite !fmap_cons, exec_pipeline_cons.
  replace (apply_command (GET (f a)) s).1 with s; [by rewrite IH|].
  simpl. by destruct (s !! f a) as [[]|].
Qed.

(** ** The typing discipline is preserved and excludes WRONGTYPE *)

Lemma store_typed_insert (s : store) (k : key) (e : entry) :
  store_typed s → entry_typed k e → store_typed (<[k := e]> s).
Proof.
  intros Hs He k' e'. rewrite lookup_insert. case_cond; [by intros [= <-]; subst|].
  apply Hs.
Qed.

Lemma store_typed_delete (s : store) (k : key) :
  store_typed s → store_typed (delete k s).
Proof. intros Hs k' e' [_ H]%lookup_delete_Some. by apply Hs. Qed.

Lemma store_typed_empty : store_typed ∅.
Proof. intros k e. by rewrite lookup_empty. Qed.

Lemma apply_command_typed (c : command) (s : store) :
  store_typed s → command_typed c = true →
  store_typed (apply_command c s).1 ∧ (apply_command c s).2 ≠ RError.
Proof.
  intros Hs Hc.
  destruct c as [k|k v|k|k v|k n v|k a b|k]; simpl in *;
    unfold is_list_ns in Hc;
    destruct (s !! k) as [[w|l]|] eqn:Hk; simpl;
    try (apply Hs in Hk; unfold entry_typed in Hk);
    destruct k as [[] i]; simpl in *; try done;
    (split; [|done]);
    auto using store_typed_insert, store_typed_delete;
    try (by apply store_typed_insert).
  destruct (lrem _ _ _) eqn:Hl; [by apply store_typed_delete|].
  by apply store_typed_insert.
Qed.

Lemma exec_pipeline_typed (cs : list command) (s : store) :
  store_typed s → forallb command_typed cs = true →
  store_typed (exec_pipeline cs s).1 ∧ RError ∉ (exec_pipeline cs s).2.
Proof.
  revert s. induction cs as [|c cs IH]; intros s Hs Hcs; simpl.
  - split; [done|apply not_elem_of_nil].
  - apply andb_prop in Hcs as [Hc Hcs].
    destruct (apply_command_typed c s Hs Hc) as [Hs1 Hr].
    destruct (apply_command c s) as [s1 r]. simpl in *.
    destruct (IH s1 Hs1 Hcs) as [Hs2 Hrs].
    destruct (exec_pipeline cs s1) as [s2 rs]. simpl in *.
    split; [done|]. apply not_elem_of_cons. by split.
Qed.

Lemma store_typed_list_slot (s : store) (i : string) :
  store_typed s → list_slot s (CacheNamespace.UId2RIds, i).
Proof. intros Hs v Hk. by apply Hs in Hk. Qed.

Lemma store_typed_string_slot (s : store) (ns : CacheNamespace.t) (i : string) :
  store_typed s → ns ≠ CacheNamespace.UId2RIds → string_slot s (ns, i).
Proof. intros Hs Hns l Hk. apply Hs in Hk. by destruct ns. Qed.

Lemma store_typed_list_nonempty (s : store) (i : string) (l : list string) :
  store_typed s → s !! (CacheNamespace.UId2RIds, i) = Some (EList l) → l ≠ [].
Proof. intros Hs Hk. by apply Hs in Hk. Qed.

#[export] Hint Resolve store_typed_list_slot store_typed_string_slot
  store_typed_empty : chat.

(** ** The commands in terms of [list_at] and [string_at] *)

Section views.
Implicit Types (s : store) (k : key) (l : list string) (v : string).

Lemma list_at_insert s k l : list_at (<[k := EList l]> s) k = l.
Proof. unfold list_at. by rewrite lookup_insert_eq. Qed.

Lemma list_at_insert_ne s k k' e : k ≠ k' → list_at (<[k := e]> s) k' = list_at s k'.
Proof. intros Hne. unfold list_at. by rewrite lookup_insert_ne. Qed.

Lemma list_at_delete s k : list_at (delete k s) k = [].
Proof. unfold list_at. by rewrite lookup_delete_eq. Qed.

Lemma list_at_delete_ne s k k' : k ≠ k' → list_at (delete k s) k' = list_at s k'.
Proof. intros Hne. unfold list_at. by rewrite lookup_delete_ne. Qed.

Lemma list_at_set_list s k l : list_at (set_list k l s) k = l.
Proof. destruct l; simpl; [apply list_at_delete|apply list_at_insert]. Qed.

Lemma list_at_set_list_ne s k k' l : k ≠ k' → list_at (set_list k l s) k' = list_at s k'.
Proof.
  intros Hne. destruct l; simpl; [by apply list_at_delete_ne|by apply list_at_insert_ne].
Qed.

Lemma lookup_set_list_ne s k k' l : k ≠ k' → set_list k l s !! k' = s !! k'.
Proof.
  intros Hne. destruct l; simpl; [by rewrite lookup_delete_ne|by rewrite lookup_insert_ne].
Qed.

Lemma apply_LLEN s k :
  list_slot s k →
  apply_command (LLEN k) s = (s, RInt (Z.of_nat (length (list_at s k)))).
Proof.
  intros Hk. unfold list_at. simpl. destruct (s !! k) as [[v|l]|] eqn:Hs; try done.
  by destruct (Hk v).
Qed.

Lemma apply_LRANGE s k a b :
  list_slot s k →
  apply_command (LRANGE k a b) s = (s, RArray (lrange a b (list_at s k))).
Proof.
  intros Hk. unfold list_at. simpl. destruct (s !! k) as [[v|l]|] eqn:Hs; try done.
  - by destruct (Hk v).
  - by rewrite lrange_nil.
Qed.

Lemma apply_LPUSH s k v :
  list_slot s k →
  apply_command (LPUSH k v) s =
    (<[k := EList (v :: list_at s k)]> s, RInt (Z.of_nat (S (length (list_at s k))))).
Proof.
  intros Hk. unfold list_at. simpl. destruct (s !! k) as [[w|l]|] eqn:Hs; try done.
  by destruct (Hk w).
Qed.

Lemma apply_LREM s k n v :
  list_slot s k →
  (apply_command (LREM k n v) s).1 = set_list k (lrem n v (list_at s k)) s.
Proof.
  intros Hk. unfold list_at. simpl. destruct (s !! k) as [[w|l]|] eqn:Hs; simpl.
  - by destruct (Hk w).
  - by destruct (lrem n v l).
  - rewrite lrem_nil. simpl. symmetry. by apply delete_id.
Qed.

Lemma apply_DEL_store s k : (apply_command (DEL k) s).1 = delete k s.
Proof.
  simpl. destruct (s !! k) eqn:Hk; [done|]. simpl. symmetry. by apply delete_id.
Qed.

Lemma apply_DEL s k :
  apply_command (DEL k) s = (delete k s, RInt (match s !! k with Some _ => 1 | None => 0 end)).
Proof. simpl. destruct (s !! k) eqn:Hk; [done|]. by rewrite delete_id. Qed.

Lemma apply_GET s k :
  string_slot s k →
  apply_command (GET k) s =
    (s, match string_at s k with Some v => RBulk v | None => RNil end).
Proof.
  intros Hk. unfold string_at. simpl. destruct (s !! k) as [[w|l]|] eqn:Hs; try done.
  by destruct (Hk l).
Qed.

End views.
