(* ===== verification/Room.v ===== *)
(** * Room: the room record and its JSON boundary

    A room is the object literal that [book] builds and every other
    operation reads back from the store.  The store holds its JSON text:
    the service writes [JSON.stringify(room)] and reads with
    [JSON.parse(roomJSON)].  What the service needs of the two is stated
    as the class [JSON.Codec]: parsing what was printed gives the room
    back.  The service and its theorems are developed against the class;
    [Json] provides the instance. *)

From stdpp Require Import strings.
From S2P Require Import Prelude JsArray JsValue.

(** The [Room] type: [id] is the text of the creation time, the three
    lists hold user ids in insertion order. *)
Record Room : Type := mkRoom {
  id : string;
  isPublic : bool;
  ownerId : value;
  memberIds : list value;
  waitingIds : list value;
  refusedIds : list value;
}.

#[export] Instance Room_eq_dec : EqDecision Room.
Proof. solve_decision. Defined.

(** Assignments to one field of a room object. *)
Definition set_ownerId (r : Room) (v : value) : Room :=
  mkRoom (id r) (isPublic r) v (memberIds r) (waitingIds r) (refusedIds r).

Definition set_memberIds (r : Room) (l : list value) : Room :=
  mkRoom (id r) (isPublic r) (ownerId r) l (waitingIds r) (refusedIds r).

Definition set_waitingIds (r : Room) (l : list value) : Room :=
  mkRoom (id r) (isPublic r) (ownerId r) (memberIds r) l (refusedIds r).

Definition set_refusedIds (r : Room) (l : list value) : Room :=
  mkRoom (id r) (isPublic r) (ownerId r) (memberIds r) (waitingIds r) l.

Module JSON.

(** [stringify] is [JSON.stringify] on a room, [parse] is [JSON.parse]
    followed by the cast to [Room]; [None] stands for the [SyntaxError]
    that [JSON.parse] throws on a text that is not a room. *)
Class Codec : Type := {
  stringify : Room → string;
  parse : string → option Room;
  parse_stringify : ∀ r : Room, parse (stringify r) = Some r;
}.

End JSON.

Section codec_facts.
Context `{!JSON.Codec}.

Lemma stringify_inj (r1 r2 : Room) :
  JSON.stringify r1 = JSON.stringify r2 → r1 = r2.
Proof.
  intros Heq. apply (inj Some).
  by rewrite <- !JSON.parse_stringify, Heq.
Qed.

End codec_facts.

(** ** Field updates commute with the projections *)

Lemma id_set_memberIds r l : id (set_memberIds r l) = id r.
Proof. done. Qed.
Lemma id_set_ownerId r v : id (set_ownerId r v) = id r.
Proof. done. Qed.
Lemma id_set_waitingIds r l : id (set_waitingIds r l) = id r.
Proof. done. Qed.
Lemma id_set_refusedIds r l : id (set_refusedIds r l) = id r.
Proof. done. Qed.

#[export] Hint Rewrite id_set_memberIds id_set_ownerId id_set_waitingIds
  id_set_refusedIds : chat.
#[export] Hint Rewrite @JSON.parse_stringify : chat.
