(* ===== verification/Json.v ===== *)
(** * Json: the JSON text of a room

    [JSON.stringify(room)] prints the six fields of a room in the order
    of the object literal of [book]; [JSON.parse] reads the text back.
    The printer follows ECMAScript's [JSON.stringify] on this shape:
    strings are quoted with the two-character escapes for backspace, tab,
    line feed, form feed, carriage return, quote and backslash, other
    control characters as [\u00XX]; integers are printed in decimal.
    Texts are byte strings (UTF-8), so bytes from 128 on pass unchanged.
    The parser accepts the texts the printer writes (the only texts the
    service ever stores under a room key); the round trip is the law of
    [JSON.Codec]. *)

From Stdlib Require Import Ascii String.
From stdpp Require Import strings pretty.
From S2P Require Import Prelude JsValue Room.

#[local] Open Scope string_scope.
#[local] Open Scope list_scope.

Definition dquote : ascii := "034"%char.
Definition backslash : ascii := "092"%char.

(** ** Printer *)

(** The lower-case hexadecimal digit of a number below 16. *)
Definition hex_char (n : N) : ascii :=
  ascii_of_N (if (n <? 10)%N then 48 + n else 87 + n)%N.

Definition escape_char (c : ascii) : string :=
  let n := N_of_ascii c in
  match n with
  | 8 => "\b" | 9 => "\t" | 10 => "\n" | 12 => "\f" | 13 => "\r"
  | 34 => String backslash (String dquote EmptyString)
  | 92 => String backslash (String backslash EmptyString)
  | _ =>
      if (n <? 32)%N
      then "\u00" +:+ String (hex_char (n / 16)) (String (hex_char (n mod 16)) EmptyString)
      else String c EmptyString
  end%N.

Fixpoint escape (s : string) : string :=
  match s with
  | EmptyString => EmptyString
  | String c s' => escape_char c +:+ escape s'
  end.

Definition stringify_string (s : string) : string :=
  String dquote (escape s +:+ String dquote EmptyString).

Definition stringify_bool (b : bool) : string := if b then "true" else "false".

Definition stringify_value (v : value) : string :=
  match v with
  | VNull => "null"
  | VBool b => stringify_bool b
  | VNum n => pretty n
  | VStr s => stringify_string s
  end.

(** The elements of an array and its closing bracket. *)
Fixpoint stringify_values (l : list value) : string :=
  match l with
  | [] => "]"
  | [v] => stringify_value v +:+ "]"
  | v :: l' => stringify_value v +:+ "," +:+ stringify_values l'
  end.

Definition stringify_array (l : list value) : string := "[" +:+ stringify_values l.

(** [,"name":] as it separates two fields of the object. *)
Definition field (name : string) : string :=
  String dquote (name +:+ String dquote ":").

Definition stringify_room (r : Room) : string :=
  "{" +:+ field "id" +:+ stringify_string (id r) +:+
  "," +:+ field "isPublic" +:+ stringify_bool (isPublic r) +:+
  "," +:+ field "ownerId" +:+ stringify_value (ownerId r) +:+
  "," +:+ field "memberIds" +:+ stringify_array (memberIds r) +:+
  "," +:+ field "waitingIds" +:+ stringify_array (waitingIds r) +:+
  "," +:+ field "refusedIds" +:+ stringify_array (refusedIds r) +:+ "}".

(** ** Parser: each part reads a prefix and answers with the rest *)

Fixpoint expect (p s : string) : option string :=
  match p with
  | EmptyString => Some s
  | String c p' =>
      match s with
      | String d s' => if Ascii.eqb c d then expect p' s' else None
      | EmptyString => None
      end
  end.

Definition hex_value (c : ascii) : option N :=
  let n := N_of_ascii c in
  if (48 <=? n)%N && (n <=? 57)%N then Some (n - 48)%N
  else if (97 <=? n)%N && (n <=? 102)%N then Some (n - 87)%N
  else None.

(** The character a two-character escape stands for. *)
Definition simple_escape (e : ascii) : option ascii :=
  match e with
  | "b" => Some "008" | "t" => Some "009" | "n" => Some "010"
  | "f" => Some "012" | "r" => Some "013"
  | "034" => Some dquote | "092" => Some backslash | "/" => Some "/"
  | _ => None
  end%char.

Definition cons_char (c : ascii) (r : option (string * string)) : option (string * string) :=
  match r with
  | Some (d, rest) => Some (String c d, rest)
  | None => None
  end.

(** The characters of a string up to its closing quote. *)
Fixpoint parse_chars (s : string) : option (string * string) :=
  match s with
  | EmptyString => None
  | String c s1 =>
      if Ascii.eqb c dquote then Some (EmptyString, s1)
      else if Ascii.eqb c backslash then
        match s1 with
        | String e s2 =>
            match simple_escape e with
            | Some d => cons_char d (parse_chars s2)
            | None =>
                match e, s2 with
                | "u"%char, String "0" (String "0" (String h1 (String h2 s3))) =>
                    match hex_value h1, hex_value h2 with
                    | Some a, Some b => cons_char (ascii_of_N (16 * a + b)) (parse_chars s3)
                    | _, _ => None
                    end
                | _, _ => None
                end
            end
        | EmptyString => None
        end
      else if (N_of_ascii c <? 32)%N then None
      else cons_char c (parse_chars s1)
  end.

Definition parse_string (s : string) : option (string * string) :=
  match s with
  | String c s' => if Ascii.eqb c dquote then parse_chars s' else None
  | EmptyString => None
  end.

Definition digit_value (c : ascii) : option N :=
  let n := N_of_ascii c in
  if (48 <=? n)%N && (n <=? 57)%N then Some (n - 48)%N else None.

Fixpoint parse_digits (acc : N) (s : string) : N * string :=
  match s with
  | String c s' =>
      match digit_value c with
      | Some d => parse_digits (acc * 10 + d) s'
      | None => (acc, s)
      end
  | EmptyString => (acc, s)
  end.

(** The next character is not a digit (or there is none). *)
Definition no_digit_head (s : string) : bool :=
  match s with
  | String c _ => match digit_value c with Some _ => false | None => true end
  | EmptyString => true
  end.

Definition parse_number (s : string) : option (Z * string) :=
  match s with
  | String "-" s' =>
      if no_digit_head s' then None
      else let '(n, rest) := parse_digits 0 s' in Some (- Z.of_N n, rest)%Z
  | _ =>
      if no_digit_head s then None
      else let '(n, rest) := parse_digits 0 s in Some (Z.of_N n, rest)
  end.

Definition parse_bool (s : string) : option (bool * string) :=
  match expect "true" s with
  | Some rest => Some (true, rest)
  | None => match expect "false" s with
            | Some rest => Some (false, rest)
            | None => None
            end
  end.

Definition parse_value (s : string) : option (value * string) :=
  match s with
  | String "n" _ => rest ← expect "null" s; Some (VNull, rest)
  | String "t" _ | String "f" _ => '(b, rest) ← parse_bool s; Some (VBool b, rest)
  | String "034" _ => '(t, rest) ← parse_string s; Some (VStr t, rest)
  | _ => '(n, rest) ← parse_number s; Some (VNum n, rest)
  end.

(** The elements of a non-empty array and its closing bracket; [fuel]
    bounds the number of elements. *)
Fixpoint parse_values (fuel : nat) (s : string) : option (list value * string) :=
  match fuel with
  | O => None
  | S fuel' =>
      match parse_value s with
      | Some (v, String "," s') =>
          '(l, rest) ← parse_values fuel' s'; Some (v :: l, rest)
      | Some (v, String "]" s') => Some ([v], s')
      | _ => None
      end
  end.

Definition parse_array (s : string) : option (list value * string) :=
  match s with
  | String "[" (String "]" s') => Some ([], s')
  | String "[" s' => parse_values (String.length s') s'
  | _ => None
  end.

Definition parse_room (s : string) : option Room :=
  s ← expect ("{" +:+ field "id") s;
  '(i, s) ← parse_string s;
  s ← expect ("," +:+ field "isPublic") s;
  '(p, s) ← parse_bool s;
  s ← expect ("," +:+ field "ownerId") s;
  '(o, s) ← parse_value s;
  s ← expect ("," +:+ field "memberIds") s;
  '(m, s) ← parse_array s;
  s ← expect ("," +:+ field "waitingIds") s;
  '(w, s) ← parse_array s;
  s ← expect ("," +:+ field "refusedIds") s;
  '(f, s) ← parse_array s;
  match s with
  | String "}" EmptyString => Some (mkRoom i p o m w f)
  | _ => None
  end.

(** ** Round trip *)

Lemma string_app_assoc (a b c : string) : (a +:+ b) +:+ c = a +:+ (b +:+ c).
Proof.
  induction a as [|x a IH]; [done|].
  change (String x ((a +:+ b) +:+ c) = String x (a +:+ (b +:+ c))). by rewrite IH.
Qed.

Lemma expect_app (p rest : string) : expect p (p +:+ rest) = Some rest.
Proof.
  induction p as [|c p IH]; [done|].
  change (String c p +:+ rest) with (String c (p +:+ rest)).
  cbn [expect]. by rewrite Ascii.eqb_refl.
Qed.

(** One escaped character reads back as the character. *)
Lemma parse_chars_escape_char (c : ascii) (t : string) :
  parse_chars (escape_char c +:+ t) = cons_char c (parse_chars t).
Proof. by destruct c as [[] [] [] [] [] [] [] []]. Qed.

Lemma parse_chars_escape (s rest : string) :
  parse_chars (escape s +:+ String dquote rest) = Some (s, rest).
Proof.
  induction s as [|c s IH].
  - change (parse_chars (String dquote rest) = Some (EmptyString, rest)). done.
  - cbn [escape]. by rewrite string_app_assoc, parse_chars_escape_char, IH.
Qed.

Lemma parse_string_stringify (s rest : string) :
  parse_string (stringify_string s +:+ rest) = Some (s, rest).
Proof.
  unfold stringify_string, parse_string.
  change (String dquote ?a +:+ rest) with (String dquote (a +:+ rest)).
  cbn iota. rewrite Ascii.eqb_refl, string_app_assoc.
  change (String dquote EmptyString +:+ rest) with (String dquote rest).
  apply parse_chars_escape.
Qed.

(** *** Numbers *)

Lemma digit_value_pretty (d : N) :
  (d < 10)%N → digit_value (pretty_N_char d) = Some d.
Proof.
  intros Hd.
  assert (d = 0 ∨ d = 1 ∨ d = 2 ∨ d = 3 ∨ d = 4 ∨ d = 5 ∨ d = 6 ∨ d = 7
          ∨ d = 8 ∨ d = 9)%N as Hc by lia.
  by repeat (destruct Hc as [->|Hc]; [done|]); subst.
Qed.

Lemma div_mod_10_digits (x acc : N) :
  (x `div` 10 = 0)%N → (acc * 10 + x `mod` 10 = acc * 10 + x)%N.
Proof.
  intros Hq. pose proof (N.div_mod x 10 ltac:(lia)) as Hx. rewrite Hq in Hx. lia.
Qed.

(** The digits of a positive number start with a digit and read back as
    the number, whatever was read before them. *)
Lemma parse_digits_pretty_go (x : N) (s : string) :
  (0 < x)%N →
  ∃ (d : N) (t : string) (m : N), (d < 10)%N ∧
    pretty_N_go x s = String (pretty_N_char d) t ∧
    ∀ acc, parse_digits acc (pretty_N_go x s) = parse_digits (acc * m + x) s.
Proof.
  revert s. induction (N.lt_wf_0 x) as [x _ IH]. intros s Hx.
  rewrite pretty_N_go_step by done.
  assert (x `mod` 10 < 10)%N as Hd by (apply N.mod_lt; lia).
  destruct (decide (x `div` 10 = 0)%N) as [Hq|Hq].
  - rewrite Hq, pretty_N_go_0. exists (x `mod` 10)%N, s, 10%N.
    split_and!; [done|done|]. intros acc. cbn [parse_digits].
    rewrite digit_value_pretty by done. f_equal. by apply div_mod_10_digits.
  - destruct (IH (x `div` 10)%N) with (s := String (pretty_N_char (x `mod` 10)) s)
      as (d & t & m & Hd' & Hhead & Hparse);
      [apply N.div_lt; lia|by apply N.neq_0_lt_0|].
    exists d, t, (m * 10)%N. split_and!; [done|done|]. intros acc.
    rewrite Hparse. cbn [parse_digits]. rewrite digit_value_pretty by done.
    f_equal. pose proof (N.div_mod x 10 ltac:(lia)) as Hx10.
    remember (x `div` 10)%N as q. remember (x `mod` 10)%N as r. lia.
Qed.

Lemma parse_digits_stop (acc : N) (s : string) :
  no_digit_head s = true → parse_digits acc s = (acc, s).
Proof. destruct s as [|c s]; [done|]. simpl. by destruct (digit_value c). Qed.

Lemma no_digit_head_pretty_char (d : N) (t : string) :
  (d < 10)%N → no_digit_head (String (pretty_N_char d) t) = false.
Proof. intros Hd. simpl. by rewrite digit_value_pretty. Qed.

Lemma string_app_cons (c : ascii) (s t : string) : String c s +:+ t = String c (s +:+ t).
Proof. done. Qed.

Lemma pretty_N_go_app (x : N) (s t : string) :
  pretty_N_go x s +:+ t = pretty_N_go x (s +:+ t).
Proof.
  revert s. induction (N.lt_wf_0 x) as [x _ IH]. intros s.
  destruct (decide (0 < x)%N) as [Hx|Hx].
  - rewrite !(pretty_N_go_step x) by done. rewrite IH by (apply N.div_lt; lia). done.
  - replace x with 0%N by lia. by rewrite !pretty_N_go_0.
Qed.

Lemma digit_cases (d : N) :
  (d < 10)%N →
  (d = 0 ∨ d = 1 ∨ d = 2 ∨ d = 3 ∨ d = 4 ∨ d = 5 ∨ d = 6 ∨ d = 7 ∨ d = 8 ∨ d = 9)%N.
Proof. lia. Qed.

(** A text that starts with a digit is read as the number its digits
    spell. *)
Lemma parse_number_digits (d x : N) (t rest : string) :
  (d < 10)%N →
  parse_digits 0 (String (pretty_N_char d) t) = (x, rest) →
  parse_number (String (pretty_N_char d) t) = Some (Z.of_N x, rest).
Proof.
  intros Hd Hp. unfold parse_number.
  pose proof (digit_cases d Hd) as Hcases.
  repeat (destruct Hcases as [->|Hcases]; [cbn in *; by rewrite Hp|]).
  subst d. cbn in *. by rewrite Hp.
Qed.

Lemma parse_number_N (x : N) (rest : string) :
  (0 < x)%N → no_digit_head rest = true →
  parse_number (pretty_N_go x EmptyString +:+ rest) = Some (Z.of_N x, rest).
Proof.
  intros Hx Hrest. rewrite pretty_N_go_app.
  change (EmptyString +:+ rest) with rest.
  destruct (parse_digits_pretty_go x rest Hx) as (d & t & m & Hd & Hhead & Hparse).
  rewrite Hhead. apply parse_number_digits; [done|].
  rewrite <- Hhead, Hparse. by apply parse_digits_stop.
Qed.

Lemma parse_number_pretty (n : Z) (rest : string) :
  no_digit_head rest = true →
  parse_number (pretty n +:+ rest) = Some (n, rest).
Proof.
  intros Hrest. destruct n as [|p|p]; unfold pretty, pretty_Z.
  - change ("0" +:+ rest) with (String (pretty_N_char 0) rest).
    apply (parse_number_digits 0 0); [done|].
    exact (parse_digits_stop 0 rest Hrest).
  - unfold pretty, pretty_positive, pretty, pretty_N. rewrite decide_False by done.
    by apply (parse_number_N (N.pos p)).
  - unfold pretty, pretty_positive, pretty, pretty_N. rewrite decide_False by done.
    rewrite string_app_assoc.
    change ("-" +:+ ?a) with (String "-" a).
    assert (parse_number (pretty_N_go (N.pos p) EmptyString +:+ rest)
            = Some (Z.of_N (N.pos p), rest)) as Hp by (by apply parse_number_N).
    revert Hp. rewrite pretty_N_go_app. change (EmptyString +:+ rest) with rest.
    destruct (parse_digits_pretty_go (N.pos p) rest) as (d & t & m & Hd & Hhead & Hparse);
      [done|].
    rewrite Hhead. intros _. unfold parse_number.
    rewrite no_digit_head_pretty_char by done.
    rewrite <- Hhead, Hparse, parse_digits_stop by done. done.
Qed.

(** *** Values, arrays, rooms *)

Lemma parse_bool_stringify (b : bool) (rest : string) :
  parse_bool (stringify_bool b +:+ rest) = Some (b, rest).
Proof. destruct b; unfold parse_bool; simpl; by rewrite ?expect_app. Qed.

Lemma parse_value_stringify (v : value) (rest : string) :
  no_digit_head rest = true →
  parse_value (stringify_value v +:+ rest) = Some (v, rest).
Proof.
  intros Hrest. destruct v as [|b|n|t]; cbn [stringify_value].
  - done.
  - destruct b; unfold parse_value; cbn; by rewrite ?Ascii.eqb_refl.
  - pose proof (parse_number_pretty n rest Hrest) as Hn. revert Hn.
    unfold parse_value, parse_number.
    destruct (pretty n +:+ rest) as [|c u]; [done|].
    destruct c as [[] [] [] [] [] [] [] []]; try done; by intros ->.
  - pose proof (parse_string_stringify t rest) as Ht. revert Ht.
    unfold parse_value, stringify_string.
    change (String dquote ?a +:+ rest) with (String dquote (a +:+ rest)).
    by intros ->.
Qed.

Lemma parse_values_stringify (l : list value) (rest : string) (fuel : nat) :
  l ≠ [] → (length l ≤ fuel)%nat →
  parse_values fuel (stringify_values l +:+ rest) = Some (l, rest).
Proof.
  revert fuel. induction l as [|v l IH]; [done|]. intros [|fuel] _ Hfuel; [simpl in *; lia|].
  destruct l as [|v' l].
  - cbn [stringify_values parse_values]. rewrite string_app_assoc.
    change ("]" +:+ rest) with (String "]" rest). by rewrite parse_value_stringify.
  - change (stringify_values (v :: v' :: l))
      with (stringify_value v +:+ "," +:+ stringify_values (v' :: l)).
    cbn [parse_values]. rewrite !string_app_assoc.
    change ("," +:+ ?a) with (String "," a). rewrite parse_value_stringify by done.
    rewrite IH; [done|done|simpl in *; lia].
Qed.

Lemma length_string_app (a b : string) :
  String.length (a +:+ b) = (String.length a + String.length b)%nat.
Proof.
  induction a as [|c a IH]; [done|].
  change (S (String.length (a +:+ b)) = S (String.length a + String.length b)).
  by rewrite IH.
Qed.

(** The text of an array is at least as long as the array: the length of
    the text is fuel enough. *)
Lemma length_stringify_values (l : list value) (rest : string) :
  (length l ≤ String.length (stringify_values l +:+ rest))%nat.
Proof.
  induction l as [|v l IH]; [simpl; lia|]. destruct l as [|v' l].
  - cbn [stringify_values]. rewrite !length_string_app. simpl. lia.
  - change (stringify_values (v :: v' :: l))
      with (stringify_value v +:+ "," +:+ stringify_values (v' :: l)).
    rewrite !string_app_assoc, length_string_app.
    change ("," +:+ ?a) with (String "," a). simpl in *. lia.
Qed.

Lemma parse_array_stringify (l : list value) (rest : string) :
  parse_array (stringify_array l +:+ rest) = Some (l, rest).
Proof.
  unfold stringify_array. rewrite string_app_assoc.
  change ("[" +:+ ?a) with (String "[" a). destruct l as [|v l]; [done|].
  pose proof (parse_values_stringify (v :: l) rest _ ltac:(done)
                (length_stringify_values (v :: l) rest)) as Hp.
  unfold parse_array.
  destruct (stringify_values (v :: l) +:+ rest) as [|c u] eqn:Hs; [done|].
  destruct (decide (c = "]"%char)) as [->|Hc]; [done|].
  by destruct c as [[] [] [] [] [] [] [] []].
Qed.

(** One field separator read by [expect], and the parser's sequencing
    unfolded up to the next part. *)
Ltac field_step :=
  cbn [mbind option_bind];
  rewrite <- (string_app_assoc _ (field _)), expect_app;
  cbn [mbind option_bind].

(** The law of the codec: a printed room parses to itself. *)
Lemma parse_room_stringify (r : Room) : parse_room (stringify_room r) = Some r.
Proof.
  destruct r as [i p o m w f]. unfold parse_room, stringify_room.
  cbn [id isPublic ownerId memberIds waitingIds refusedIds].
  field_step. rewrite parse_string_stringify.
  field_step. rewrite parse_bool_stringify.
  field_step. rewrite parse_value_stringify by done.
  field_step. rewrite parse_array_stringify.
  field_step. rewrite parse_array_stringify.
  field_step. by rewrite parse_array_stringify.
Qed.

#[export] Instance json_codec : JSON.Codec :=
  {| JSON.stringify := stringify_room;
     JSON.parse := parse_room;
     JSON.parse_stringify := parse_room_stringify |}.

(** C30: a room and its JSON text determine each other: the text parses
    back to the room, so two rooms with the same text are the same
    room. *)
Theorem room_text_faithful (r1 r2 : Room) :
  parse_room (stringify_room r1) = Some r1
  ∧ (stringify_room r1 = stringify_room r2 → r1 = r2).
Proof.
  split; [apply parse_room_stringify|]. intros Heq.
  pose proof (parse_room_stringify r1) as H1. rewrite Heq, parse_room_stringify in H1.
  by injection H1.
Qed.
