(* ===== verification/Prog.v ===== *)
(** * Prog: asynchronous methods as programs over the store

    Every method of the service is [async]: it runs until it awaits a
    round trip to Redis, and resumes with the reply.  A method is
    modelled as a finite tree of such requests:

    - [Call c k]   [await this.redis.c(...)], one command; the promise is
                   rejected when the server replies with an error;
    - [Exec cs k]  [await pipeline. ... .exec()], the queued commands in
                   one round trip; errors come back inside the replies;
    - [Now k]      [Date.now()];
    - [Throw e]    [throw e]; [Ret a] is [return a].

    [run] executes a program alone against a store, each round trip
    applied at once: the semantics of one handler with no other client
    of the store in between. *)

From stdpp Require Import strings gmap.
From S2P Require Import Prelude JsValue Redis.

(** What a method throws: the [WsException] of a violated rule, the
    [SyntaxError] of [JSON.parse], the [TypeError] of destructuring a
    reply that is not there, the rejection of a single command. *)
Inductive exn : Type :=
| WsException (message : string)
| SyntaxError
| TypeError
| ReplyError.

#[export] Instance exn_eq_dec : EqDecision exn.
Proof. solve_decision. Defined.

(** How a call ends. *)
Inductive outcome (A : Type) : Type :=
| Ok (a : A)
| Err (e : exn).
Arguments Ok {A} a.
Arguments Err {A} e.

Inductive prog (A : Type) : Type :=
| Ret (a : A)
| Throw (e : exn)
| Call (c : command) (k : reply → prog A)
| Exec (cs : list command) (k : list reply → prog A)
| Now (k : Z → prog A).
Arguments Ret {A} a.
Arguments Throw {A} e.
Arguments Call {A} c k.
Arguments Exec {A} cs k.
Arguments Now {A} k.

(** Sequencing: the rest of an [async] body after an awaited call. *)
Fixpoint bind {A B : Type} (p : prog A) (f : A → prog B) : prog B :=
  match p with
  | Ret a => f a
  | Throw e => Throw e
  | Call c k => Call c (λ r, bind (k r) f)
  | Exec cs k => Exec cs (λ rs, bind (k rs) f)
  | Now k => Now (λ t, bind (k t) f)
  end.

Declare Scope prog_scope.
Delimit Scope prog_scope with prog.
Bind Scope prog_scope with prog.

Notation "'let*' x := p 'in' q" := (bind p (λ x, q))
  (at level 10, x name, p at level 100, q at level 200,
   format "'[v' 'let*'  x  :=  p  'in' '/' q ']'") : prog_scope.

(** The awaited forms with the trivial continuation. *)
Definition call (c : command) : prog reply := Call c Ret.
Definition exec (cs : list command) : prog (list reply) := Exec cs Ret.
Definition date_now : prog Z := Now Ret.

(** One handler running alone: [now] is what [Date.now()] answers. *)
Fixpoint run {A : Type} (now : Z) (p : prog A) (s : store) : outcome A * store :=
  match p with
  | Ret a => (Ok a, s)
  | Throw e => (Err e, s)
  | Call c k =>
      let '(s', r) := apply_command c s in
      match r with
      | RError => (Err ReplyError, s')
      | _ => run now (k r) s'
      end
  | Exec cs k =>
      let '(s', rs) := exec_pipeline cs s in
      run now (k rs) s'
  | Now k => run now (k now) s
  end.

(** Continuing a run after a first part that may have thrown. *)
Definition outcome_bind {A B : Type}
    (r : outcome A * store) (f : A → store → outcome B * store)
    : outcome B * store :=
  match r with
  | (Ok a, s) => f a s
  | (Err e, s) => (Err e, s)
  end.

Section run_facts.
Context {A B : Type}.
Implicit Types (p : prog A) (f : A → prog B) (s : store).

Lemma run_bind now p f s :
  run now (bind p f) s = outcome_bind (run now p s) (λ a s', run now (f a) s').
Proof.
  revert s. induction p as [a|e|c k IH|cs k IH|k IH]; intros s; simpl; try done.
  - destruct (apply_command c s) as [s' r]. destruct r; simpl; auto.
  - destruct (exec_pipeline cs s) as [s' rs]. auto.
Qed.

Lemma run_bind_ok now p f s a s' :
  run now p s = (Ok a, s') → run now (bind p f) s = run now (f a) s'.
Proof. intros Hp. by rewrite run_bind, Hp. Qed.

Lemma run_bind_err now p f s e s' :
  run now p s = (Err e, s') → run now (bind p f) s = (Err e, s').
Proof. intros Hp. by rewrite run_bind, Hp. Qed.

Lemma run_exec now (cs : list command) (f : list reply → prog B) s :
  run now (bind (exec cs) f) s =
  run now (f (exec_pipeline cs s).2) (exec_pipeline cs s).1.
Proof. simpl. by destruct (exec_pipeline cs s). Qed.

Lemma run_now now (f : Z → prog B) s :
  run now (bind date_now f) s = run now (f now) s.
Proof. done. Qed.

End run_facts.

#[export] Hint Rewrite @run_bind @run_exec @run_now : chat.
