(* ===== verification/Service.v ===== *)
(** * Service: the room coordinator [RoomService]

    One definition per method of [room.service.ts], in the order of the
    file, each a program over the store ([Prog]).  The configuration flag
    [AppConfig.allowJoinMultipleRooms] is a parameter of the section, and
    the JSON boundary is the class [JSON.Codec].  A room object that a
    method mutates in place is the [room] rebound by each [let]. *)

From stdpp Require Import strings gmap.
From S2P Require Import Prelude JsArray JsValue Redis Room Prog.

#[local] Open Scope string_scope.
#[local] Open Scope list_scope.
#[local] Open Scope Z_scope.
#[local] Open Scope prog_scope.

(** The object [kick] returns: [kickedMemberSId] when the kicker kicks
    themself, [kickedMemberSocketId] (the reply of the socket lookup)
    otherwise; the other field is absent. *)
Module KickResult.
Record t : Type := mk {
  room : Room;
  kickedMemberSId : option value;
  kickedMemberSocketId : option reply;
}.
End KickResult.

(** The object [invite] returns. *)
Module InviteResult.
Record t : Type := mk {
  room : Room;
  guestSocketId : string;
}.
End InviteResult.

(** The object [respondInvitation] returns. *)
Module RespondResult.
Record t : Type := mk {
  room : Room;
  leftRooms : list Room;
}.
End RespondResult.

Module RoomService.

(** ** The in-memory edits of a room object

    Each is the block of assignments one method applies to the room it
    has read, before anything is written back. *)

(** [join]: the joiner is pushed on [memberIds]; one element is spliced
    out of [waitingIds] at the joiner's index there, and one out of
    [refusedIds] at the joiner's index in the ALREADY EDITED
    [waitingIds]. *)
Definition join_update (joinerId : value) (room : Room) : Room :=
  let room := set_memberIds room (push (memberIds room) joinerId) in
  let room := set_waitingIds room
    (splice (indexOf joinerId (waitingIds room)) 1 (waitingIds room)) in
  set_refusedIds room
    (splice (indexOf joinerId (waitingIds room)) 1 (refusedIds room)).

(** [leave], [leaveMany] and [kick]: one element is spliced out of
    [memberIds] at the user's index and the user is pushed on
    [refusedIds]. *)
Definition depart (userId : value) (room : Room) : Room :=
  let room := set_memberIds room
    (splice (indexOf userId (memberIds room)) 1 (memberIds room)) in
  set_refusedIds room (push (refusedIds room) userId).

(** [invite]: the guest is pushed on [waitingIds], and one element is
    spliced out of [refusedIds] at the guest's index in [waitingIds]. *)
Definition invite_update (guestId : value) (room : Room) : Room :=
  let room := set_waitingIds room (push (waitingIds room) guestId) in
  set_refusedIds room
    (splice (indexOf guestId (waitingIds room)) 1 (refusedIds room)).

(** [respondInvitation]: the guest leaves [waitingIds] and is pushed on
    [memberIds] (accepted) or on [refusedIds] (declined). *)
Definition respond_update (guestId : value) (accepted : bool) (room : Room) : Room :=
  let room := set_waitingIds room
    (splice (indexOf guestId (waitingIds room)) 1 (waitingIds room)) in
  if accepted
  then set_memberIds room (push (memberIds room) guestId)
  else set_refusedIds room (push (refusedIds room) guestId).

Section RoomService.
Context (allowJoinMultipleRooms : bool) `{!JSON.Codec}.

Definition isMemberOfAny (memberId : value) : prog bool :=
  let* roomIds := call (LLEN (key_of CacheNamespace.UId2RIds memberId)) in
  Ret (match roomIds with RInt n => 0 <? n | _ => false end).

(** The guard [!AppConfig.allowJoinMultipleRooms && (await
    this.isMemberOfAny(id))] of [book], [join] and [respondInvitation]:
    the index is consulted only when the flag is off. *)
Definition singleRoomGuard (userId : value) : prog bool :=
  if negb allowJoinMultipleRooms then isMemberOfAny userId else Ret false.

Definition book (bookerId : value) (isPublic : bool) : prog Room :=
  let* busy := singleRoomGuard bookerId in
  if busy
  then Throw (WsException "Please leave current room before creating a new one")
  else
    let* now := date_now in
    let id := to_string (VNum now) in
    let room := mkRoom id isPublic bookerId [bookerId] [] [] in
    let* _ := exec [SET (CacheNamespace.Room, id) (JSON.stringify room);
                    LPUSH (key_of CacheNamespace.UId2RIds bookerId) (Room.id room)] in
    Ret room.

Definition get (roomId : value) : prog Room :=
  let* roomJSON := call (GET (key_of CacheNamespace.Room roomId)) in
  match roomJSON with
  | RBulk text =>
      match JSON.parse text with
      | Some room => Ret room
      | None => Throw SyntaxError
      end
  | _ => Throw (WsException "Room does not exist!")
  end.

(** The [forEach] over the replies of [getMany]: a reply that is a string
    is parsed and pushed, any other is skipped. *)
Fixpoint getMany_collect (vals : list reply) (rooms : list Room) : prog (list Room) :=
  match vals with
  | [] => Ret rooms
  | RBulk text :: vals' =>
      match JSON.parse text with
      | Some room => getMany_collect vals' (push rooms room)
      | None => Throw SyntaxError
      end
  | _ :: vals' => getMany_collect vals' rooms
  end.

Definition getMany (roomIds : list value) : prog (list Room) :=
  let* vals := exec ((λ rId, GET (key_of CacheNamespace.Room rId)) <$> roomIds) in
  getMany_collect vals [].

Definition join (joinerId roomId : value) : prog Room :=
  let* busy := singleRoomGuard joinerId in
  if busy
  then Throw (WsException "Please leave current room before joining another one!")
  else
    let* room := get roomId in
    if negb (isPublic room)
    then Throw (WsException "This room is private!")
    else
      let room := join_update joinerId room in
      let* _ := exec [SET (CacheNamespace.Room, id room) (JSON.stringify room);
                      LPUSH (key_of CacheNamespace.UId2RIds joinerId) (id room)] in
      Ret room.

(** The block shared by [leave] and [leaveMany] once the leaver is out of
    [memberIds]: an empty room is deleted; otherwise the first remaining
    member becomes owner if the leaver was, and the room is written back.
    The result is the room as the method returns it and the command
    queued on the pipeline. *)
Definition settle (leaverId : value) (room : Room) : Room * command :=
  match memberIds room with
  | [] => (room, DEL (CacheNamespace.Room, id room))
  | first :: _ =>
      let room :=
        if decide (leaverId = ownerId room) then set_ownerId room first else room in
      (room, SET (CacheNamespace.Room, id room) (JSON.stringify room))
  end.

Definition leave (leaverId roomId : value) : prog Room :=
  let* room := get roomId in
  let deletedMemberIndex := indexOf leaverId (memberIds room) in
  if deletedMemberIndex =? -1
  then Throw (WsException "You are not in this room!")
  else
    let room := depart leaverId room in
    let '(room, cmd) := settle leaverId room in
    let* _ := exec [cmd; LREM (key_of CacheNamespace.UId2RIds leaverId) 1 (id room)] in
    Ret room.

(** One turn of the [rooms.map] callback of [leaveMany].  [queue] is the
    pipeline's command queue; the [.exec()] at the end of the callback
    sends the whole queue as it stands, without clearing it, so [sent]
    accumulates what has gone to the server. *)
Definition leaveMany_step (leaverId : value)
    (acc : list Room * list command * list command) (room : Room)
    : list Room * list command * list command :=
  let '(rooms, queue, sent) := acc in
  let room := depart leaverId room in
  let '(room, cmd) := settle leaverId room in
  let queue := queue ++ [cmd; LREM (key_of CacheNamespace.UId2RIds leaverId) 1 (id room)] in
  (push rooms room, queue, sent ++ queue).

(** [leaveMany] from [const rooms = await this.getMany(roomIds)] on. *)
Definition leaveMany_rooms (leaverId : value) (roomIds : list value) : prog (list Room) :=
  let* rooms := getMany roomIds in
  let '(rooms, queue, sent) := foldl (leaveMany_step leaverId) ([], [], []) rooms in
  let* _ := exec (sent ++ queue) in
  Ret rooms.

Definition leaveMany (leaverId : value) (roomIds : list value) : prog (list Room) :=
  match roomIds with
  | [] =>
      let* listed := call (LRANGE (key_of CacheNamespace.UId2RIds leaverId) 0 (-1)) in
      match listed with
      | RArray (rId :: rIds) => leaveMany_rooms leaverId (VStr <$> rId :: rIds)
      | _ => Ret []
      end
  | _ => leaveMany_rooms leaverId roomIds
  end.

Definition kick (kickerId memberId roomId : value) : prog KickResult.t :=
  if decide (kickerId = memberId)
  then
    let* room := leave kickerId roomId in
    Ret (KickResult.mk room (Some kickerId) None)
  else
    let* room := get roomId in
    if decide (Room.ownerId room ≠ kickerId)
    then Throw (WsException "You are not owner of this room!")
    else
      let deletedMemberIndex := indexOf memberId (memberIds room) in
      if deletedMemberIndex =? -1
      then Throw (WsException "Member is not in this room!")
      else
        let room := depart memberId room in
        let* replies :=
          exec [GET (key_of CacheNamespace.UID2SId memberId);
                SET (CacheNamespace.Room, id room) (JSON.stringify room);
                LREM (key_of CacheNamespace.UId2RIds memberId) 1 (id room)] in
        match replies with
        | kickedMemberSId :: _ => Ret (KickResult.mk room None (Some kickedMemberSId))
        | [] => Throw TypeError
        end.

Definition transferOwnership (ownerId candidateId roomId : value) : prog Room :=
  let* room := get roomId in
  if decide (Room.ownerId room ≠ ownerId)
  then Throw (WsException "You are not owner of this room!")
  else
    if bool_decide (ownerId = candidateId) || negb (includes candidateId (memberIds room))
    then Throw (WsException "New owner must be a member in this room!")
    else
      let room := set_ownerId room candidateId in
      let* _ := call (SET (CacheNamespace.Room, id room) (JSON.stringify room)) in
      Ret room.

Definition invite (inviter guestId roomId : value) : prog InviteResult.t :=
  let* replies := exec [GET (key_of CacheNamespace.Room roomId);
                        GET (key_of CacheNamespace.UID2SId guestId)] in
  match replies with
  | [roomJSON; guestSId] =>
      match roomJSON with
      | RBulk text =>
          match JSON.parse text with
          | None => Throw SyntaxError
          | Some room =>
              match guestSId with
              | RBulk sid =>
                  if negb (includes inviter (memberIds room))
                  then Throw (WsException "You are not in this room!")
                  else
                    if includes guestId (memberIds room) || includes guestId (waitingIds room)
                    then Throw (WsException "This user has been invited!")
                    else
                      let room := invite_update guestId room in
                      let* _ := call (SET (CacheNamespace.Room, id room) (JSON.stringify room)) in
                      Ret (InviteResult.mk room sid)
              | _ => Throw (WsException "Please only invite online user!")
              end
          end
      | _ => Throw (WsException "Room does not exist!")
      end
  | _ => Throw TypeError
  end.

Definition respondInvitation (guestId isAccpeted roomId : value) : prog RespondResult.t :=
  let* room := get roomId in
  let deletedWaitingIndex := indexOf guestId (waitingIds room) in
  if deletedWaitingIndex =? -1
  then Throw (WsException "You are not invited to this room!")
  else
    if truthy isAccpeted
    then
      let* busy := singleRoomGuard guestId in
      let* leftRooms := if busy then leaveMany guestId [] else Ret [] in
      let room := respond_update guestId true room in
      let* _ := exec [LPUSH (key_of CacheNamespace.UId2RIds guestId) (id room);
                      SET (CacheNamespace.Room, id room) (JSON.stringify room)] in
      Ret (RespondResult.mk room leftRooms)
    else
      let room := respond_update guestId false room in
      let* _ := exec [SET (CacheNamespace.Room, id room) (JSON.stringify room)] in
      Ret (RespondResult.mk room []).

End RoomService.
End RoomService.
