(* ===== verification/Model.v ===== *)
(** * Model: the decoded database and the pure reading of each method

    What the store holds, decoded: the rooms by id, the room ids listed
    under each user, the socket id of each reachable user.  [Pure] reads
    every method of [RoomService] as a function on this database: the
    guards and the in-memory edits are the service's own ([join_update],
    [depart], [settle], ...), while each round trip to Redis and each
    JSON text is replaced by the lookup or update it stands for.  [Refine]
    proves that the programs of [Service] compute these functions. *)

From stdpp Require Import strings gmap.
From S2P Require Import Prelude JsArray JsValue Redis Room Prog Service.
Import RoomService.

#[local] Open Scope string_scope.
#[local] Open Scope list_scope.

Record db : Type := mkDb {
  rooms : gmap string Room;
  joined : gmap string (list string);
  sockets : gmap string string;
}.

Definition empty_db : db := mkDb ∅ ∅ ∅.

Section views.
Implicit Types (d : db) (u rid : value) (r : Room).

(** The room ids listed under a user, most recent first. *)
Definition joined_of d u : list string := default [] (joined d !! to_string u).

(** The room stored under an id. *)
Definition room_of d rid : option Room := rooms d !! to_string rid.

(** The socket id of a user, when the user is connected. *)
Definition socket_of d u : option string := sockets d !! to_string u.

Definition put_room r d : db := mkDb (<[id r := r]> (rooms d)) (joined d) (sockets d).

Definition del_room (i : string) d : db := mkDb (delete i (rooms d)) (joined d) (sockets d).

(** The list of a user is replaced; an empty list is no entry. *)
Definition set_joined u (l : list string) d : db :=
  mkDb (rooms d)
       (match l with [] => delete (to_string u) (joined d) | _ => <[to_string u := l]> (joined d) end)
       (sockets d).

(** The session layer records the socket of a user who connects and
    forgets it when the user disconnects. *)
Definition put_socket u (sid : string) d : db :=
  mkDb (rooms d) (joined d) (<[to_string u := sid]> (sockets d)).

Definition del_socket u d : db := mkDb (rooms d) (joined d) (delete (to_string u) (sockets d)).

(** A room is written and its id is pushed on the user's list. *)
Definition enter u r d : db := set_joined u (id r :: joined_of d u) (put_room r d).

(** One occurrence of a room id leaves the user's list. *)
Definition unlist u (i : string) d : db := set_joined u (remove_first i (joined_of d u)) d.

End views.

Module Pure.
Section Pure.
Context (allowJoinMultipleRooms : bool).
Implicit Types (d : db) (u rid : value) (r room : Room).

Definition isMemberOfAny u d : bool := bool_decide (joined_of d u ≠ []).

Definition singleRoomGuard u d : bool :=
  negb allowJoinMultipleRooms && isMemberOfAny u d.

Definition book (now : Z) u (isPublic : bool) d : outcome Room * db :=
  if singleRoomGuard u d
  then (Err (WsException "Please leave current room before creating a new one"), d)
  else
    let room := mkRoom (to_string (VNum now)) isPublic u [u] [] [] in
    (Ok room, enter u room d).

Definition get rid d : outcome Room * db :=
  match room_of d rid with
  | Some room => (Ok room, d)
  | None => (Err (WsException "Room does not exist!"), d)
  end.

Definition getMany (rids : list value) d : outcome (list Room) * db :=
  (Ok (omap (room_of d) rids), d).

Definition join u rid d : outcome Room * db :=
  if singleRoomGuard u d
  then (Err (WsException "Please leave current room before joining another one!"), d)
  else
    match room_of d rid with
    | None => (Err (WsException "Room does not exist!"), d)
    | Some room =>
        if negb (isPublic room)
        then (Err (WsException "This room is private!"), d)
        else let room := join_update u room in (Ok room, enter u room d)
    end.

(** The room part of [settle]: the first remaining member inherits a
    room its owner has left. *)
Definition settled u room : Room :=
  match memberIds room with
  | [] => room
  | first :: _ => if decide (u = ownerId room) then set_ownerId room first else room
  end.

(** The command part of [settle]: an empty room is deleted, any other is
    written back. *)
Definition commit room d : db :=
  match memberIds room with
  | [] => del_room (id room) d
  | _ => put_room room d
  end.

(** The pipeline of [leave]: the room is settled and the user's list
    loses the room id. *)
Definition vacate u room d : db := unlist u (id room) (commit room d).

Definition leave u rid d : outcome Room * db :=
  match room_of d rid with
  | None => (Err (WsException "Room does not exist!"), d)
  | Some room =>
      if negb (includes u (memberIds room))
      then (Err (WsException "You are not in this room!"), d)
      else let room := settled u (depart u room) in (Ok room, vacate u room d)
  end.

(** The ids [leaveMany] works on: those given, or the user's list. *)
Definition leaveMany_ids u (rids : list value) d : list value :=
  match rids with
  | [] => VStr <$> joined_of d u
  | _ => rids
  end.

(** The rooms [leaveMany] returns: each room found, after the leaver
    has left it. *)
Definition left_rooms u (rids : list value) d : list Room :=
  (λ room, settled u (depart u room)) <$> omap (room_of d) (leaveMany_ids u rids d).

(** The rooms whose commands the [exec()] calls inside the loop of
    [leaveMany] send: the pipeline's queue is never cleared, so after
    each room everything queued so far goes out again.  [P] is what was
    queued before the rooms [L]. *)
Fixpoint resent (P L : list Room) : list Room :=
  match L with
  | [] => []
  | r :: L' => (P ++ [r]) ++ resent (P ++ [r]) L'
  end.

(** Every room found is settled and vacated, in the order the server
    receives the commands: the re-sent prefixes, then the final
    [exec()] of the whole queue. *)
Definition leaveMany u (rids : list value) d : outcome (list Room) * db :=
  let left := left_rooms u rids d in
  (Ok left, foldl (λ d' room, vacate u room d') d (resent [] left ++ left)).

(** What [GET] of the socket key answers. *)
Definition socket_reply u d : reply :=
  match socket_of d u with Some sid => RBulk sid | None => RNil end.

Definition kick (kicker member rid : value) d : outcome KickResult.t * db :=
  if decide (kicker = member)
  then
    match leave kicker rid d with
    | (Ok room, d') => (Ok (KickResult.mk room (Some kicker) None), d')
    | (Err e, d') => (Err e, d')
    end
  else
    match room_of d rid with
    | None => (Err (WsException "Room does not exist!"), d)
    | Some room =>
        if decide (ownerId room ≠ kicker)
        then (Err (WsException "You are not owner of this room!"), d)
        else
          if negb (includes member (memberIds room))
          then (Err (WsException "Member is not in this room!"), d)
          else
            let room := depart member room in
            (Ok (KickResult.mk room None (Some (socket_reply member d))),
             unlist member (id room) (put_room room d))
    end.

Definition transferOwnership (owner candidate rid : value) d : outcome Room * db :=
  match room_of d rid with
  | None => (Err (WsException "Room does not exist!"), d)
  | Some room =>
      if decide (ownerId room ≠ owner)
      then (Err (WsException "You are not owner of this room!"), d)
      else
        if bool_decide (owner = candidate) || negb (includes candidate (memberIds room))
        then (Err (WsException "New owner must be a member in this room!"), d)
        else let room := set_ownerId room candidate in (Ok room, put_room room d)
  end.

Definition invite (inviter guest rid : value) d : outcome InviteResult.t * db :=
  match room_of d rid with
  | None => (Err (WsException "Room does not exist!"), d)
  | Some room =>
      match socket_of d guest with
      | None => (Err (WsException "Please only invite online user!"), d)
      | Some sid =>
          if negb (includes inviter (memberIds room))
          then (Err (WsException "You are not in this room!"), d)
          else
            if includes guest (memberIds room) || includes guest (waitingIds room)
            then (Err (WsException "This user has been invited!"), d)
            else
              let room := invite_update guest room in
              (Ok (InviteResult.mk room sid), put_room room d)
      end
  end.

Definition respondInvitation (guest isAccpeted rid : value) d
    : outcome RespondResult.t * db :=
  match room_of d rid with
  | None => (Err (WsException "Room does not exist!"), d)
  | Some room =>
      if negb (includes guest (waitingIds room))
      then (Err (WsException "You are not invited to this room!"), d)
      else
        if truthy isAccpeted
        then
          let leftRooms := if singleRoomGuard guest d then left_rooms guest [] d else [] in
          let d1 := if singleRoomGuard guest d then (leaveMany guest [] d).2 else d in
          let room := respond_update guest true room in
          (Ok (RespondResult.mk room leftRooms),
           put_room room (set_joined guest (id room :: joined_of d1 guest) d1))
        else
          let room := respond_update guest false room in
          (Ok (RespondResult.mk room []), put_room room d)
  end.

End Pure.
End Pure.

(** ** Facts on the database updates *)

Section db_facts.
Implicit Types (d : db) (u rid : value) (r : Room) (l : list string) (i : string).

Lemma db_eq d1 d2 :
  rooms d1 = rooms d2 → joined d1 = joined d2 → sockets d1 = sockets d2 → d1 = d2.
Proof. destruct d1, d2. simpl. by intros -> -> ->. Qed.

Lemma joined_of_set_joined u l d : joined_of (set_joined u l d) u = l.
Proof.
  unfold joined_of, set_joined. destruct l; simpl;
    [by rewrite lookup_delete_eq|by rewrite lookup_insert_eq].
Qed.

Lemma joined_of_set_joined_ne u v l d :
  to_string u ≠ to_string v → joined_of (set_joined u l d) v = joined_of d v.
Proof.
  intros Hne. unfold joined_of, set_joined. destruct l; simpl;
    [by rewrite lookup_delete_ne|by rewrite lookup_insert_ne].
Qed.

Lemma set_joined_twice u l1 l2 d :
  set_joined u l2 (set_joined u l1 d) = set_joined u l2 d.
Proof.
  apply db_eq; [done| |done]. unfold set_joined. simpl.
  destruct l1, l2; simpl;
    by rewrite ?delete_delete_eq, ?insert_delete_eq, ?delete_insert_eq, ?insert_insert_eq.
Qed.

(** Writing the room before or after the list gives the same database:
    [respondInvitation] pushes first, [book] and [join] write first. *)
Lemma put_room_set_joined u r d :
  put_room r (set_joined u (id r :: joined_of d u) d) = enter u r d.
Proof. done. Qed.

Lemma joined_of_put_room u r d : joined_of (put_room r d) u = joined_of d u.
Proof. done. Qed.

Lemma joined_of_del_room u i d : joined_of (del_room i d) u = joined_of d u.
Proof. done. Qed.

Lemma room_of_set_joined rid u l d : room_of (set_joined u l d) rid = room_of d rid.
Proof. done. Qed.

Lemma room_of_put_room d rid room :
  id room = to_string rid → room_of (put_room room d) rid = Some room.
Proof. intros Hid. unfold room_of, put_room. cbn. by rewrite Hid, lookup_insert_eq. Qed.

Lemma room_of_enter d u rid room :
  id room = to_string rid → room_of (enter u room d) rid = Some room.
Proof. apply room_of_put_room. Qed.

End db_facts.

#[export] Hint Rewrite joined_of_set_joined joined_of_put_room joined_of_del_room
  room_of_set_joined set_joined_twice : chat.

(** ** Folding [vacate] over rooms: what [leaveMany] leaves behind *)

Section vacate_facts.
Context (u : value).
Implicit Types (d : db) (r : Room) (R X L : list Room) (m : gmap string Room).

(** The effect of [commit] on the rooms. *)
Definition room_write m r : gmap string Room :=
  match memberIds r with
  | [] => delete (id r) m
  | _ => <[id r := r]> m
  end.

Abbreviation vac := (λ d r, Pure.vacate u r d).
Abbreviation rem := (λ (l : list string) r, remove_first (id r) l).

Lemma rooms_vacate r d : rooms (Pure.vacate u r d) = room_write (rooms d) r.
Proof. unfold Pure.vacate, Pure.commit, room_write. by destruct (memberIds r). Qed.

Lemma sockets_vacate r d : sockets (Pure.vacate u r d) = sockets d.
Proof. unfold Pure.vacate, Pure.commit. by destruct (memberIds r). Qed.

Lemma vacate_joined r d :
  Pure.vacate u r d =
  set_joined u (remove_first (id r) (joined_of d u)) (Pure.commit r d).
Proof. unfold Pure.vacate, unlist, Pure.commit. by destruct (memberIds r). Qed.

Lemma joined_of_vacate r d :
  joined_of (Pure.vacate u r d) u = remove_first (id r) (joined_of d u).
Proof. by rewrite vacate_joined, joined_of_set_joined. Qed.

Lemma rooms_foldl_vacate R d : rooms (foldl vac d R) = foldl room_write (rooms d) R.
Proof.
  revert d. induction R as [|r R IH]; intros d; [done|]. simpl.
  by rewrite IH, rooms_vacate.
Qed.

Lemma sockets_foldl_vacate R d : sockets (foldl vac d R) = sockets d.
Proof.
  revert d. induction R as [|r R IH]; intros d; [done|]. simpl.
  by rewrite IH, sockets_vacate.
Qed.

Lemma joined_of_foldl_vacate R d :
  joined_of (foldl vac d R) u = foldl rem (joined_of d u) R.
Proof.
  revert d. induction R as [|r R IH]; intros d; [done|]. simpl.
  by rewrite IH, joined_of_vacate.
Qed.

(** The lists of the other users are untouched, and the leaver's list is
    written at least once as soon as one room is vacated. *)
Lemma joined_foldl_vacate r R d :
  joined (foldl vac d (r :: R)) =
  joined (set_joined u (foldl rem (joined_of d u) (r :: R)) d).
Proof.
  revert r d. induction R as [|r' R IH]; intros r d.
  - cbn [foldl]. rewrite vacate_joined. unfold Pure.commit. by destruct (memberIds r).
  - change (foldl vac d (r :: r' :: R)) with (foldl vac (Pure.vacate u r d) (r' :: R)).
    rewrite IH, joined_of_vacate. rewrite vacate_joined at 1.
    rewrite set_joined_twice. unfold Pure.commit. by destruct (memberIds r).
Qed.

Lemma resent_snoc (Q P : list Room) r :
  Pure.resent Q (P ++ [r]) = Pure.resent Q P ++ (Q ++ P ++ [r]).
Proof.
  revert Q. induction P as [|p P IH]; intros Q; cbn [Pure.resent app].
  - by rewrite !app_nil_r.
  - rewrite IH. by rewrite <- !app_assoc.
Qed.

Lemma resent_snoc_nil (P : list Room) r :
  Pure.resent [] (P ++ [r]) = Pure.resent [] P ++ P ++ [r].
Proof. apply resent_snoc. Qed.

Lemma elem_of_resent (Q P : list Room) r : r ∈ Pure.resent Q P → r ∈ Q ∨ r ∈ P.
Proof.
  revert Q. induction P as [|p P IH]; intros Q; cbn [Pure.resent].
  - by intros ?%elem_of_nil.
  - rewrite !elem_of_app, list_elem_of_singleton, elem_of_cons.
    intros [[?|?]|[[?|?%list_elem_of_singleton]%elem_of_app|?]%IH]; auto.
Qed.

(** A key no room of the list carries keeps its room. *)
Lemma lookup_foldl_write_notin R m (k : string) :
  k ∉ (id <$> R) → foldl room_write m R !! k = m !! k.
Proof.
  revert m. induction R as [|r R IH]; intros m HR; [done|].
  rewrite fmap_cons, not_elem_of_cons in HR. destruct HR as [Hr HR].
  simpl. rewrite IH by done.
  unfold room_write. destruct (memberIds r);
    [by rewrite lookup_delete_ne|by rewrite lookup_insert_ne].
Qed.

(** A key some room of the list carries ends with what the list wrote
    last, whatever was there before. *)
Lemma lookup_foldl_write_in R m1 m2 (k : string) :
  k ∈ (id <$> R) → foldl room_write m1 R !! k = foldl room_write m2 R !! k.
Proof.
  revert m1 m2. induction R as [|r R IH]; intros m1 m2 HR; [by apply elem_of_nil in HR|].
  simpl. destruct (decide (k ∈ (id <$> R))) as [Hin|Hno]; [by apply IH|].
  rewrite !lookup_foldl_write_notin by done.
  rewrite fmap_cons, elem_of_cons in HR. destruct HR as [->|?]; [|done].
  unfold room_write. destruct (memberIds r);
    [by rewrite !lookup_delete_eq|by rewrite !lookup_insert_eq].
Qed.

(** Rooms vacated first and vacated again later leave no trace: the
    queue of [leaveMany] may repeat its prefixes. *)
Lemma foldl_room_write_absorb X L m :
  (∀ r, r ∈ X → r ∈ L) → foldl room_write m (X ++ L) = foldl room_write m L.
Proof.
  intros Hsub. rewrite foldl_app. apply map_eq. intros k.
  destruct (decide (k ∈ (id <$> L))) as [Hin|Hno]; [by apply lookup_foldl_write_in|].
  rewrite !lookup_foldl_write_notin; try done.
  intros (r & -> & Hr)%list_elem_of_fmap. apply Hno, list_elem_of_fmap. eauto.
Qed.

Lemma foldl_rem_filter R l :
  NoDup l → foldl rem l R = filter (λ i, i ∉ (id <$> R)) l.
Proof.
  intros Hl. rewrite <- (foldl_remove_first_filter (id <$> R) l) by done.
  by rewrite foldl_fmap.
Qed.

Lemma foldl_rem_absorb X L l :
  NoDup l → (∀ r, r ∈ X → r ∈ L) → foldl rem l (X ++ L) = foldl rem l L.
Proof.
  intros Hl Hsub. rewrite !foldl_rem_filter by done. apply list_filter_iff.
  intros i. rewrite fmap_app, not_elem_of_app. split; [tauto|]. intros Hi. split; [|done].
  intros (r & -> & Hr)%list_elem_of_fmap. apply Hi, list_elem_of_fmap. eauto.
Qed.

(** The same on the database: this is what makes the re-sent queue of
    [leaveMany] harmless when the leaver's list has no repetition. *)
Lemma foldl_vacate_absorb X L d :
  NoDup (joined_of d u) → (∀ r, r ∈ X → r ∈ L) →
  foldl vac d (X ++ L) = foldl vac d L.
Proof.
  intros Hl Hsub. apply db_eq.
  - rewrite !rooms_foldl_vacate. by apply foldl_room_write_absorb.
  - destruct X as [|x X]; [done|].
    destruct L as [|r L]; [by destruct (not_elem_of_nil x); apply Hsub; left|].
    rewrite joined_foldl_vacate. change ((x :: X) ++ r :: L) with (x :: (X ++ r :: L)).
    rewrite joined_foldl_vacate. f_equal. f_equal.
    by apply (foldl_rem_absorb (x :: X) (r :: L)).
  - by rewrite !sockets_foldl_vacate.
Qed.

(** When the leaver's list has no repetition, the re-sent commands of
    [leaveMany] change nothing: every room found is vacated once. *)
Lemma leaveMany_no_repeat (rids : list value) d :
  NoDup (joined_of d u) →
  (Pure.leaveMany u rids d).2 =
  foldl (λ d' room, Pure.vacate u room d') d (Pure.left_rooms u rids d).
Proof.
  intros Hl. unfold Pure.leaveMany. cbn [snd]. apply foldl_vacate_absorb; [done|].
  intros r [[]%elem_of_nil|Hr]%elem_of_resent. done.
Qed.

End vacate_facts.
