(* ===== verification/Invariant.v ===== *)
(** * Invariant: what every stored room and every index entry satisfies

    [room_ok] is the invariant of one room (its owner is a member, so
    the room is not empty; nobody is invited twice; no member is still
    invited).  [inv] is the invariant of the database: every room sits
    under its own id and is [room_ok]; the list of a user names a room
    exactly as often as the room names the user as member; and, when
    joining several rooms is not allowed, no list has more than one
    entry.  Each in-memory edit of [Service] preserves [room_ok] under
    the guard its method checks, and each pure reading of [Model]
    preserves [inv]. *)

From stdpp Require Import strings gmap.
From S2P Require Import Prelude JsArray JsValue Redis Room Prog Service Model.
Import RoomService.

#[local] Open Scope string_scope.
#[local] Open Scope list_scope.

(** ** One room *)

Section room_ok.
Implicit Types (u v : value) (r room : Room).

Record room_ok (r : Room) : Prop := mk_room_ok {
  ok_owner : ownerId r ∈ memberIds r;
  ok_waiting : NoDup (waitingIds r);
  ok_disjoint : ∀ u, u ∈ memberIds r → u ∉ waitingIds r;
}.

Lemma room_ok_nonempty r : room_ok r → memberIds r ≠ [].
Proof. intros [Ho _ _] Hm. rewrite Hm in Ho. by apply elem_of_nil in Ho. Qed.

(** What each edit does to the member list. *)
Lemma memberIds_join_update u r : memberIds (join_update u r) = memberIds r ++ [u].
Proof. done. Qed.

Lemma memberIds_depart u r :
  u ∈ memberIds r → memberIds (depart u r) = remove_first u (memberIds r).
Proof. intros Hu. unfold depart. cbn. by apply splice_indexOf_in. Qed.

Lemma memberIds_invite_update u r : memberIds (invite_update u r) = memberIds r.
Proof. done. Qed.

Lemma memberIds_respond_update u (b : bool) r :
  memberIds (respond_update u b r) = if b then memberIds r ++ [u] else memberIds r.
Proof. by destruct b. Qed.

Lemma id_join_update u r : id (join_update u r) = id r.
Proof. done. Qed.
Lemma id_depart u r : id (depart u r) = id r.
Proof. done. Qed.
Lemma id_invite_update u r : id (invite_update u r) = id r.
Proof. done. Qed.
Lemma id_respond_update u (b : bool) r : id (respond_update u b r) = id r.
Proof. by destruct b. Qed.

Lemma id_settled u r : id (Pure.settled u r) = id r.
Proof.
  unfold Pure.settled. destruct (memberIds r); [done|].
  by destruct (decide (u = ownerId r)).
Qed.

Lemma memberIds_settled u r : memberIds (Pure.settled u r) = memberIds r.
Proof.
  unfold Pure.settled. destruct (memberIds r) eqn:Hm; [done|].
  by destruct (decide (u = ownerId r)).
Qed.

(** [book]: the fresh room. *)
Lemma room_ok_book (i : string) (b : bool) u : room_ok (mkRoom i b u [u] [] []).
Proof.
  split; cbn; [by apply list_elem_of_singleton|constructor|].
  intros v _. apply not_elem_of_nil.
Qed.

(** [join]: whoever joins, invited or not, is not invited afterwards. *)
Lemma room_ok_join_update u r : room_ok r → room_ok (join_update u r).
Proof.
  intros [Ho Hw Hd]. split; cbn.
  - apply elem_of_app. by left.
  - by apply NoDup_splice_indexOf.
  - intros v [Hv| ->%list_elem_of_singleton]%elem_of_app.
    + intros Hin%elem_of_splice_indexOf. by apply (Hd v).
    + by apply not_elem_of_splice_indexOf.
Qed.

Lemma waitingIds_settled u r : waitingIds (Pure.settled u r) = waitingIds r.
Proof.
  unfold Pure.settled. destruct (memberIds r); [done|].
  by destruct (decide (u = ownerId r)).
Qed.

(** The owner after [settle]: the first member if the leaver owned the
    room, the owner as before otherwise. *)
Lemma ownerId_settled_in u r :
  memberIds r ≠ [] → (ownerId r ≠ u → ownerId r ∈ memberIds r) →
  ownerId (Pure.settled u r) ∈ memberIds r.
Proof.
  intros Hne Ho. unfold Pure.settled. destruct (memberIds r) as [|first rest] eqn:Hm; [done|].
  destruct (decide (u = ownerId r)) as [Heq|Hneq]; cbn; [by left|].
  apply Ho. intros Heq. by apply Hneq.
Qed.

(** [leave]: a member leaves a room that does not become empty. *)
Lemma room_ok_settled_depart u r :
  room_ok r → u ∈ memberIds r → memberIds (depart u r) ≠ [] →
  room_ok (Pure.settled u (depart u r)).
Proof.
  intros [Ho Hw Hd] Hu Hne. split; rewrite ?memberIds_settled, ?waitingIds_settled.
  - apply ownerId_settled_in; [done|]. intros Hou.
    rewrite memberIds_depart by done. by apply elem_of_remove_first_ne.
  - done.
  - intros v. rewrite memberIds_depart by done. intros Hv%elem_of_remove_first.
    by apply Hd.
Qed.

(** [kick]: the owner removes another member. *)
Lemma room_ok_depart u r :
  room_ok r → u ∈ memberIds r → ownerId r ≠ u → room_ok (depart u r).
Proof.
  intros [Ho Hw Hd] Hu Hne. split; rewrite ?memberIds_depart by done; cbn.
  - by apply elem_of_remove_first_ne.
  - done.
  - intros v Hv%elem_of_remove_first. by apply Hd.
Qed.

(** [transferOwnership]: the new owner is a member. *)
Lemma room_ok_set_ownerId u r : room_ok r → u ∈ memberIds r → room_ok (set_ownerId r u).
Proof. intros [Ho Hw Hd] Hu. by split. Qed.

(** [invite]: the guest is neither a member nor invited yet. *)
Lemma room_ok_invite_update u r :
  room_ok r → u ∉ memberIds r → u ∉ waitingIds r → room_ok (invite_update u r).
Proof.
  intros [Ho Hw Hd] Hm Hn. split; cbn; [done|by apply NoDup_snoc_iff|].
  intros v Hv [Hin| ->]%elem_of_snoc; [by apply (Hd v)|done].
Qed.

(** [respondInvitation]: the guest is no longer invited, accepted or not. *)
Lemma room_ok_respond_update u (b : bool) r : room_ok r → room_ok (respond_update u b r).
Proof.
  intros [Ho Hw Hd]. destruct b; split; cbn;
    try (by apply NoDup_splice_indexOf); try done.
  - apply elem_of_app. by left.
  - intros v [Hv| ->%list_elem_of_singleton]%elem_of_app.
    + intros Hin%elem_of_splice_indexOf. by apply (Hd v).
    + by apply not_elem_of_splice_indexOf.
  - intros v Hv Hin%elem_of_splice_indexOf. by apply (Hd v).
Qed.

End room_ok.

(** ** The database *)

Section inv.
Context (allowJoinMultipleRooms : bool).
Implicit Types (d : db) (u v rid : value) (r room : Room) (i : string) (l : list string).

(** The members of the room stored under an id; none when there is no
    such room. *)
Definition members_of d i : list value := from_option memberIds [] (rooms d !! i).

Record inv (d : db) : Prop := mk_inv {
  inv_key : ∀ i r, rooms d !! i = Some r → id r = i;
  inv_room : ∀ i r, rooms d !! i = Some r → room_ok r;
  inv_members : ∀ i u, u ∈ members_of d i → is_number u = true;
  inv_index : ∀ u i, is_number u = true →
    count i (joined_of d u) = count u (members_of d i);
  inv_single : allowJoinMultipleRooms = false →
    ∀ u, is_number u = true → (length (joined_of d u) ≤ 1)%nat;
}.

Lemma inv_empty : inv empty_db.
Proof.
  split; unfold joined_of, members_of, empty_db; cbn [rooms joined].
  - intros i r. by rewrite lookup_empty.
  - intros i r. by rewrite lookup_empty.
  - intros i u. rewrite lookup_empty. by intros ?%elem_of_nil.
  - intros u i _. by rewrite !lookup_empty.
  - intros _ u _. rewrite lookup_empty. cbn. lia.
Qed.

(** *** Reading the database *)

Lemma joined_of_set_joined_num u v l d :
  is_number u = true → is_number v = true →
  joined_of (set_joined u l d) v = if decide (v = u) then l else joined_of d v.
Proof.
  intros Hu Hv. destruct (decide (v = u)) as [->|Hne]; [apply joined_of_set_joined|].
  apply joined_of_set_joined_ne. intros Heq. apply Hne. symmetry.
  by apply to_string_number_inj.
Qed.

Lemma members_of_put_room r d i :
  members_of (put_room r d) i = if decide (i = id r) then memberIds r else members_of d i.
Proof.
  unfold members_of, put_room. cbn. destruct (decide (i = id r)) as [->|Hne].
  - by rewrite lookup_insert_eq.
  - by rewrite lookup_insert_ne.
Qed.

(** [commit] deletes exactly the rooms without members, so the members
    under the id are those of the room it was given either way. *)
Lemma members_of_commit r d i :
  members_of (Pure.commit r d) i =
  if decide (i = id r) then memberIds r else members_of d i.
Proof.
  unfold Pure.commit. destruct (memberIds r) eqn:Hm; [|by rewrite members_of_put_room, Hm].
  unfold members_of, del_room. cbn. destruct (decide (i = id r)) as [->|Hne].
  - by rewrite lookup_delete_eq.
  - by rewrite lookup_delete_ne.
Qed.

Lemma joined_of_commit r d u : joined_of (Pure.commit r d) u = joined_of d u.
Proof. unfold Pure.commit. by destruct (memberIds r). Qed.

Lemma commit_nonempty r d : memberIds r ≠ [] → Pure.commit r d = put_room r d.
Proof. unfold Pure.commit. by destruct (memberIds r). Qed.

Lemma members_of_room d rid room :
  inv d → room_of d rid = Some room → members_of d (id room) = memberIds room.
Proof.
  intros Hi Hr. unfold members_of. rewrite (inv_key d Hi _ _ Hr). unfold room_of in Hr.
  by rewrite Hr.
Qed.

Lemma room_of_id d rid room : inv d → room_of d rid = Some room → id room = to_string rid.
Proof. intros Hi Hr. by apply (inv_key d Hi). Qed.

Lemma room_of_ok d rid room : inv d → room_of d rid = Some room → room_ok room.
Proof. intros Hi Hr. by apply (inv_room d Hi _ _ Hr). Qed.

(** A user listed under a room is a member of it. *)
Lemma listed_member d u i :
  inv d → is_number u = true → i ∈ joined_of d u → u ∈ members_of d i.
Proof. intros Hi Hu. rewrite <- !count_pos, (inv_index d Hi) by done. lia. Qed.

(** A member of a room is listed under it, when the member is a user id. *)
Lemma member_listed d u rid room :
  inv d → is_number u = true → room_of d rid = Some room →
  u ∈ memberIds room → id room ∈ joined_of d u.
Proof.
  intros Hi Hu Hr. rewrite <- !count_pos, (inv_index d Hi) by done.
  by rewrite (members_of_room d rid room).
Qed.

(** *** The three updates of the database *)

(** A room is rewritten with the members it had. *)
Lemma inv_put_room r d :
  inv d → room_ok r → memberIds r = members_of d (id r) → inv (put_room r d).
Proof.
  intros [Hk Hr Ht Hx Hs] Hok Hm. split.
  - intros i r'. cbn. intros [[<- <-]|[_ ?]]%lookup_insert_Some; eauto.
  - intros i r'. cbn. intros [[<- <-]|[_ ?]]%lookup_insert_Some; eauto.
  - intros i u. rewrite members_of_put_room. case_cond; rewrite ?Hm; apply Ht.
  - intros u i Hu. rewrite members_of_put_room, joined_of_put_room, Hx by done.
    destruct (decide (i = id r)) as [->|]; by rewrite ?Hm.
  - intros Hf u Hu. by apply Hs.
Qed.

(** A room is written with one more member, [u], and pushed on the
    list of [u]; under the single-room policy the list was empty. *)
Lemma inv_enter u r d :
  inv d → is_number u = true → room_ok r →
  memberIds r = members_of d (id r) ++ [u] →
  (allowJoinMultipleRooms = false → joined_of d u = []) →
  inv (enter u r d).
Proof.
  intros [Hk Hr Ht Hx Hs] Hu Hok Hm Hfree. unfold enter. split.
  - intros i r'. cbn. intros [[<- <-]|[_ ?]]%lookup_insert_Some; eauto.
  - intros i r'. cbn. intros [[<- <-]|[_ ?]]%lookup_insert_Some; eauto.
  - intros i v. change (members_of (set_joined ?a ?b ?c) i) with (members_of c i).
    rewrite members_of_put_room. case_cond; [|apply Ht].
    rewrite Hm. intros [?| ->]%elem_of_snoc; eauto.
  - intros v i Hv. rewrite joined_of_set_joined_num by done.
    change (members_of (set_joined ?a ?b ?c) i) with (members_of c i).
    rewrite members_of_put_room, joined_of_put_room.
    destruct (decide (v = u)) as [->|Hvu], (decide (i = id r)) as [->|Hi];
      rewrite ?Hm, ?count_snoc; cbn [count]; rewrite ?Hx by done;
      repeat case_cond; try done; lia.
  - intros Hf v Hv. rewrite joined_of_set_joined_num by done.
    destruct (decide (v = u)) as [->|]; [|by apply Hs].
    rewrite Hfree by done. cbn. lia.
Qed.

(** A room is settled with one occurrence of [u] less among its
    members, and one occurrence of its id leaves the list of [u]. *)
Lemma inv_vacate u r d :
  inv d → is_number u = true → (memberIds r ≠ [] → room_ok r) →
  memberIds r = remove_first u (members_of d (id r)) →
  inv (Pure.vacate u r d).
Proof.
  intros [Hk Hr Ht Hx Hs] Hu Hok Hm. unfold Pure.vacate, unlist.
  assert (∀ i r', rooms (Pure.commit r d) !! i = Some r' →
            (i = id r ∧ r' = r ∧ memberIds r ≠ []) ∨ rooms d !! i = Some r') as Hlook.
  { intros i r'. unfold Pure.commit. destruct (memberIds r) eqn:Hmr; cbn.
    - intros [_ ?]%lookup_delete_Some. by right.
    - intros [[<- <-]|[_ ?]]%lookup_insert_Some; [by left|by right]. }
  split.
  - intros i r' [(-> & -> & _)|?]%Hlook; eauto.
  - intros i r' [(-> & -> & ?)|?]%Hlook; eauto.
  - intros i v. change (members_of (set_joined ?a ?b ?c) i) with (members_of c i).
    rewrite members_of_commit. case_cond; [|apply Ht].
    rewrite Hm. intros ?%elem_of_remove_first. eauto.
  - intros v i Hv. rewrite joined_of_set_joined_num by done.
    change (members_of (set_joined ?a ?b ?c) i) with (members_of c i).
    rewrite members_of_commit, !joined_of_commit.
    destruct (decide (v = u)) as [->|Hvu], (decide (i = id r)) as [->|Hi];
      rewrite ?Hm, ?count_remove_first, ?Hx by done; repeat case_cond; try done; lia.
  - intros Hf v Hv. rewrite joined_of_set_joined_num, !joined_of_commit by done.
    destruct (decide (v = u)) as [->|]; [|by apply Hs].
    etrans; [apply length_remove_first_le|by apply Hs].
Qed.

End inv.

(** ** Every method preserves the invariant

    The acting user is a user id (a number, as the signatures declare);
    room ids may be any value, since a room is only ever looked up.
    [book] needs the clock to give an id no stored room carries. *)

Section methods_inv.
Context (allowJoinMultipleRooms : bool).
Implicit Types (d : db) (u v rid : value) (r room : Room) (i : string).

#[local] Abbreviation inv := (inv allowJoinMultipleRooms).

Lemma guard_free u d :
  Pure.singleRoomGuard allowJoinMultipleRooms u d = false →
  allowJoinMultipleRooms = false → joined_of d u = [].
Proof.
  unfold Pure.singleRoomGuard, Pure.isMemberOfAny. intros Hg ->. cbn in Hg.
  apply bool_decide_eq_false in Hg. destruct (joined_of d u); [done|]. by destruct Hg.
Qed.

Lemma guard_single u d :
  Pure.singleRoomGuard allowJoinMultipleRooms u d = true → allowJoinMultipleRooms = false.
Proof. unfold Pure.singleRoomGuard. by destruct allowJoinMultipleRooms. Qed.

(** A member leaves a room: the step shared by [leave], [kick] on
    oneself and [leaveMany]. *)
Lemma inv_leave_room u rid room d :
  inv d → is_number u = true → room_of d rid = Some room → u ∈ memberIds room →
  inv (Pure.vacate u (Pure.settled u (depart u room)) d).
Proof.
  intros Hi Hu Hr Hin. apply inv_vacate; [done|done| |]; rewrite memberIds_settled.
  - intros Hne. apply room_ok_settled_depart; eauto using room_of_ok.
  - by rewrite id_settled, id_depart, (members_of_room allowJoinMultipleRooms d rid), memberIds_depart.
Qed.

Lemma book_inv now u (isPublic : bool) d :
  inv d → is_number u = true → room_of d (VNum now) = None →
  inv (Pure.book allowJoinMultipleRooms now u isPublic d).2.
Proof.
  intros Hi Hu Hfresh. unfold Pure.book.
  destruct (Pure.singleRoomGuard _ u d) eqn:Hg; [done|]. cbn [snd].
  apply inv_enter; [done|done|apply room_ok_book| |by apply guard_free].
  unfold members_of. cbn [id memberIds]. unfold room_of in Hfresh. by rewrite Hfresh.
Qed.

Lemma join_inv u rid d :
  inv d → is_number u = true → inv (Pure.join allowJoinMultipleRooms u rid d).2.
Proof.
  intros Hi Hu. unfold Pure.join. destruct (Pure.singleRoomGuard _ u d) eqn:Hg; [done|].
  destruct (room_of d rid) as [room|] eqn:Hr; [|done]. destruct (isPublic room); [|done].
  cbn [negb snd]. apply inv_enter; [done|done| | |by apply guard_free].
  - apply room_ok_join_update. eauto using room_of_ok.
  - by rewrite id_join_update, (members_of_room allowJoinMultipleRooms d rid).
Qed.

Lemma leave_inv u rid d : inv d → is_number u = true → inv (Pure.leave u rid d).2.
Proof.
  intros Hi Hu. unfold Pure.leave. destruct (room_of d rid) as [room|] eqn:Hr; [|done].
  destruct (includes u (memberIds room)) eqn:Hin; [|done]. cbn [negb snd].
  apply includes_true in Hin. by apply (inv_leave_room u rid).
Qed.

Lemma kick_inv kicker member rid d :
  inv d → is_number member = true → inv (Pure.kick kicker member rid d).2.
Proof.
  intros Hi Hu. unfold Pure.kick. destruct (decide (kicker = member)) as [->|Hne].
  - pose proof (leave_inv member rid d Hi Hu) as Hl.
    by destruct (Pure.leave member rid d) as [[room|e] d'].
  - destruct (room_of d rid) as [room|] eqn:Hr; [|done].
    destruct (decide (ownerId room ≠ kicker)) as [|Ho%dec_stable]; [done|].
    destruct (includes member (memberIds room)) eqn:Hin; [|done]. cbn [negb snd].
    apply includes_true in Hin.
    assert (room_ok (depart member room)) as Hok
      by (apply room_ok_depart; [eauto using room_of_ok|done|congruence]).
    rewrite <- (commit_nonempty (depart member room)) by by apply room_ok_nonempty.
    apply inv_vacate; [done|done|done|].
    by rewrite id_depart, (members_of_room allowJoinMultipleRooms d rid), memberIds_depart.
Qed.

Lemma transferOwnership_inv owner candidate rid d :
  inv d → inv (Pure.transferOwnership owner candidate rid d).2.
Proof.
  intros Hi. unfold Pure.transferOwnership.
  destruct (room_of d rid) as [room|] eqn:Hr; [|done].
  destruct (decide (ownerId room ≠ owner)); [done|].
  destruct (bool_decide (owner = candidate)); [done|].
  destruct (includes candidate (memberIds room)) eqn:Hin; [|done]. cbn [orb negb snd].
  apply includes_true in Hin. apply inv_put_room; [done| |].
  - apply room_ok_set_ownerId; eauto using room_of_ok.
  - by rewrite id_set_ownerId, (members_of_room allowJoinMultipleRooms d rid).
Qed.

Lemma invite_inv inviter guest rid d :
  inv d → inv (Pure.invite inviter guest rid d).2.
Proof.
  intros Hi. unfold Pure.invite. destruct (room_of d rid) as [room|] eqn:Hr; [|done].
  destruct (socket_of d guest); [|done].
  destruct (includes inviter (memberIds room)); [|done].
  destruct (includes guest (memberIds room)) eqn:Hm; [done|].
  destruct (includes guest (waitingIds room)) eqn:Hw; [done|]. cbn [orb negb snd].
  apply includes_false in Hm, Hw. apply inv_put_room; [done| |].
  - apply room_ok_invite_update; eauto using room_of_ok.
  - by rewrite id_invite_update, (members_of_room allowJoinMultipleRooms d rid).
Qed.

(** [leaveMany] of all the rooms of a user, under the single-room
    policy: the list has at most one room, the user is a member of it,
    and the commands sent twice change nothing the second time.  The
    user ends in no room and no other room is touched. *)
Lemma leaveMany_single u d :
  inv d → is_number u = true → allowJoinMultipleRooms = false →
  let d' := (Pure.leaveMany u [] d).2 in
  inv d' ∧ joined_of d' u = [] ∧ ∀ i, i ∉ joined_of d u → members_of d' i = members_of d i.
Proof.
  intros Hi Hu Hf. pose proof (inv_single _ d Hi Hf u Hu) as Hlen. cbn zeta.
  rewrite leaveMany_no_repeat by by apply NoDup_short.
  pose proof (listed_member allowJoinMultipleRooms d u) as Hmem. unfold Pure.left_rooms, Pure.leaveMany_ids.
  destruct (joined_of d u) as [|i [|j l]] eqn:Hj; [done| |cbn in Hlen; lia].
  specialize (Hmem i Hi Hu (list_elem_of_here _ _)). unfold members_of in Hmem.
  cbn [fmap list_fmap omap list_omap].
  change (rooms d !! i) with (room_of d (VStr i)) in Hmem.
  destruct (room_of d (VStr i)) as [room|] eqn:Hr; [|by apply elem_of_nil in Hmem].
  cbn [fmap list_fmap foldl from_option] in *.
  pose proof (inv_key _ d Hi i room Hr) as Hid. split_and!.
  - by apply (inv_leave_room u (VStr i)).
  - rewrite joined_of_vacate, Hj, id_settled, id_depart, Hid. cbn. by rewrite decide_True.
  - intros k Hk%not_elem_of_cons. rewrite vacate_joined.
    change (members_of (set_joined ?a ?b ?c) k) with (members_of c k).
    rewrite members_of_commit, id_settled, id_depart, Hid. by rewrite decide_False by tauto.
Qed.

(** The database in which an invitation is accepted: the guest has
    left every room if the policy asks for it, and the room read before
    is still as it was read. *)
Lemma accept_ready guest rid room d :
  inv d → is_number guest = true → room_of d rid = Some room →
  guest ∈ waitingIds room →
  let d1 := if Pure.singleRoomGuard allowJoinMultipleRooms guest d
            then (Pure.leaveMany guest [] d).2 else d in
  inv d1 ∧ (allowJoinMultipleRooms = false → joined_of d1 guest = [])
  ∧ members_of d1 (id room) = memberIds room.
Proof.
  intros Hi Hu Hr Hw. cbn zeta.
  destruct (Pure.singleRoomGuard _ guest d) eqn:Hg.
  - destruct (leaveMany_single guest d Hi Hu (guard_single _ _ Hg)) as (Hi' & Hj & Hm).
    split_and!; [done|done|]. rewrite Hm; [by apply (members_of_room allowJoinMultipleRooms d rid)|].
    intros Hin%(listed_member allowJoinMultipleRooms); [|done..].
    rewrite (members_of_room allowJoinMultipleRooms d rid) in Hin by done.
    by apply (ok_disjoint room (room_of_ok _ d rid room Hi Hr) guest).
  - split_and!; [done|by apply guard_free|by apply (members_of_room allowJoinMultipleRooms d rid)].
Qed.

Lemma respondInvitation_inv guest isAccpeted rid d :
  inv d → is_number guest = true →
  inv (Pure.respondInvitation allowJoinMultipleRooms guest isAccpeted rid d).2.
Proof.
  intros Hi Hu. unfold Pure.respondInvitation.
  destruct (room_of d rid) as [room|] eqn:Hr; [|done].
  destruct (includes guest (waitingIds room)) eqn:Hw; [|done]. cbn [negb].
  apply includes_true in Hw. pose proof (room_of_ok _ d rid room Hi Hr) as Hok.
  destruct (truthy isAccpeted); cbn [snd].
  - destruct (accept_ready guest rid room d Hi Hu Hr Hw) as (Hi1 & Hj & Hm).
    rewrite put_room_set_joined. apply inv_enter; [done|done| | |done].
    + by apply room_ok_respond_update.
    + by rewrite id_respond_update, Hm.
  - apply inv_put_room; [done|by apply room_ok_respond_update|].
    by rewrite id_respond_update, (members_of_room allowJoinMultipleRooms d rid).
Qed.

End methods_inv.
