(* ===== verification/Refine.v ===== *)
(** * Refine: the programs of [Service] compute the functions of [Model]

    [represents s d]: the store [s] holds the database [d], every room
    as its JSON text under the room namespace, every user's list under
    the list namespace, every socket id under the socket namespace, and
    nothing else.  For each method, running its program on a store that
    represents [d] gives the outcome of its pure reading on [d] and a
    store that represents the database the pure reading returns. *)

From stdpp Require Import strings gmap.
From S2P Require Import Prelude JsArray JsValue Redis Room Prog Service Model.
Import RoomService.

#[local] Open Scope string_scope.
#[local] Open Scope list_scope.
#[local] Open Scope Z_scope.

Section represents.
Context `{!JSON.Codec}.
Implicit Types (s : store) (d : db) (u rid : value) (r : Room) (i : string).

Definition represents (s : store) (d : db) : Prop :=
  ∀ (ns : CacheNamespace.t) (i : string),
    s !! (ns, i) =
    match ns with
    | CacheNamespace.Room => (λ r, EString (JSON.stringify r)) <$> rooms d !! i
    | CacheNamespace.UId2RIds => EList <$> joined d !! i
    | CacheNamespace.UID2SId => EString <$> sockets d !! i
    end.

(** A program and a pure function agree on every represented database. *)
Definition refines {A : Type} (now : Z) (p : prog A) (f : db → outcome A * db) : Prop :=
  ∀ s d, represents s d →
    ∃ s', run now p s = ((f d).1, s') ∧ represents s' (f d).2.

(** What a run leaves, without naming the store. *)
Lemma refines_run {A : Type} now (p : prog A) f s d :
  refines now p f → represents s d →
  (run now p s).1 = (f d).1 ∧ represents (run now p s).2 (f d).2.
Proof. intros Hp Hr. destruct (Hp s d Hr) as (s' & -> & Hr'). by split. Qed.

Lemma represents_empty : represents ∅ empty_db.
Proof. intros ns i. rewrite lookup_empty. by destruct ns. Qed.

(** A database has one store. *)
Lemma represents_inj s s' d : represents s d → represents s' d → s = s'.
Proof. intros Hr Hr'. apply map_eq. intros [ns i]. by rewrite Hr, Hr'. Qed.

Lemma represents_room s d i :
  represents s d →
  s !! (CacheNamespace.Room, i) = (λ r, EString (JSON.stringify r)) <$> rooms d !! i.
Proof. intros Hr. apply (Hr CacheNamespace.Room). Qed.

Lemma represents_joined s d i :
  represents s d → s !! (CacheNamespace.UId2RIds, i) = EList <$> joined d !! i.
Proof. intros Hr. apply (Hr CacheNamespace.UId2RIds). Qed.

Lemma represents_socket s d i :
  represents s d → s !! (CacheNamespace.UID2SId, i) = EString <$> sockets d !! i.
Proof. intros Hr. apply (Hr CacheNamespace.UID2SId). Qed.

Lemma represents_list_slot s d i :
  represents s d → list_slot s (CacheNamespace.UId2RIds, i).
Proof. intros Hr v. rewrite (represents_joined s d) by done. by destruct (joined d !! i). Qed.

Lemma represents_room_slot s d i :
  represents s d → string_slot s (CacheNamespace.Room, i).
Proof. intros Hr v. rewrite (represents_room s d) by done. by destruct (rooms d !! i). Qed.

Lemma represents_socket_slot s d i :
  represents s d → string_slot s (CacheNamespace.UID2SId, i).
Proof. intros Hr v. rewrite (represents_socket s d) by done. by destruct (sockets d !! i). Qed.

Lemma represents_list_at s d u :
  represents s d → list_at s (key_of CacheNamespace.UId2RIds u) = joined_of d u.
Proof.
  intros Hr. unfold list_at, joined_of, key_of.
  rewrite (represents_joined s d) by done. by destruct (joined d !! _).
Qed.

Lemma represents_string_at_room s d rid :
  represents s d →
  string_at s (key_of CacheNamespace.Room rid) = JSON.stringify <$> room_of d rid.
Proof.
  intros Hr. unfold string_at, room_of, key_of.
  rewrite (represents_room s d) by done. by destruct (rooms d !! _).
Qed.

Lemma represents_string_at_socket s d u :
  represents s d → string_at s (key_of CacheNamespace.UID2SId u) = socket_of d u.
Proof.
  intros Hr. unfold string_at, socket_of, key_of.
  rewrite (represents_socket s d) by done. by destruct (sockets d !! _).
Qed.

(** ** Each write of the service, on the store and on the database *)

Lemma represents_put_room s d r :
  represents s d →
  represents (<[(CacheNamespace.Room, id r) := EString (JSON.stringify r)]> s) (put_room r d).
Proof.
  intros Hr ns i. destruct (decide ((CacheNamespace.Room, id r) = (ns, i))) as [[= <- <-]|Hne].
  - rewrite lookup_insert_eq. simpl. by rewrite lookup_insert_eq.
  - rewrite lookup_insert_ne by done. rewrite Hr. destruct ns; try done.
    simpl. rewrite lookup_insert_ne; [done|congruence].
Qed.

Lemma represents_del_room s d i :
  represents s d → represents (delete (CacheNamespace.Room, i) s) (del_room i d).
Proof.
  intros Hr ns j. destruct (decide ((CacheNamespace.Room, i) = (ns, j))) as [[= <- <-]|Hne].
  - rewrite lookup_delete_eq. simpl. by rewrite lookup_delete_eq.
  - rewrite lookup_delete_ne by done. rewrite Hr. destruct ns; try done.
    simpl. rewrite lookup_delete_ne; [done|congruence].
Qed.

Lemma represents_put_socket s d u (sid : string) :
  represents s d →
  represents (<[key_of CacheNamespace.UID2SId u := EString sid]> s) (put_socket u sid d).
Proof.
  intros Hr ns i. unfold key_of.
  destruct (decide ((CacheNamespace.UID2SId, to_string u) = (ns, i))) as [[= <- <-]|Hne].
  - rewrite lookup_insert_eq. simpl. by rewrite lookup_insert_eq.
  - rewrite lookup_insert_ne by done. rewrite Hr. destruct ns; try done.
    simpl. rewrite lookup_insert_ne; [done|congruence].
Qed.

Lemma represents_del_socket s d u :
  represents s d →
  represents (delete (key_of CacheNamespace.UID2SId u) s) (del_socket u d).
Proof.
  intros Hr ns i. unfold key_of.
  destruct (decide ((CacheNamespace.UID2SId, to_string u) = (ns, i))) as [[= <- <-]|Hne].
  - rewrite lookup_delete_eq. simpl. by rewrite lookup_delete_eq.
  - rewrite lookup_delete_ne by done. rewrite Hr. destruct ns; try done.
    simpl. rewrite lookup_delete_ne; [done|congruence].
Qed.

Lemma represents_set_joined s d u (l : list string) :
  represents s d →
  represents (set_list (key_of CacheNamespace.UId2RIds u) l s) (set_joined u l d).
Proof.
  intros Hr ns j. unfold key_of.
  destruct (decide ((CacheNamespace.UId2RIds, to_string u) = (ns, j))) as [[= <- <-]|Hne].
  - destruct l; simpl; [by rewrite !lookup_delete_eq|by rewrite !lookup_insert_eq].
  - rewrite lookup_set_list_ne by done. rewrite Hr. destruct ns; try done.
    destruct l; simpl; [rewrite lookup_delete_ne|rewrite lookup_insert_ne]; congruence.
Qed.

(** ** Each command of the service, on a represented database *)

Lemma apply_SET_rep s d r :
  represents s d →
  represents (apply_command (SET (CacheNamespace.Room, id r) (JSON.stringify r)) s).1
             (put_room r d).
Proof. intros Hr. by apply represents_put_room. Qed.

Lemma apply_DEL_rep s d i :
  represents s d →
  represents (apply_command (DEL (CacheNamespace.Room, i)) s).1 (del_room i d).
Proof. intros Hr. rewrite apply_DEL_store. by apply represents_del_room. Qed.

Lemma apply_LPUSH_rep s d u (x : string) :
  represents s d →
  represents (apply_command (LPUSH (key_of CacheNamespace.UId2RIds u) x) s).1
             (set_joined u (x :: joined_of d u) d).
Proof.
  intros Hr. rewrite apply_LPUSH by (by eapply represents_list_slot).
  rewrite (represents_list_at s d) by done.
  by apply (represents_set_joined s d u (x :: joined_of d u)).
Qed.

Lemma apply_LREM_rep s d u (x : string) :
  represents s d →
  represents (apply_command (LREM (key_of CacheNamespace.UId2RIds u) 1 x) s).1
             (unlist u x d).
Proof.
  intros Hr. rewrite apply_LREM by (by eapply represents_list_slot).
  rewrite (represents_list_at s d), lrem_one by done.
  by apply represents_set_joined.
Qed.

Lemma apply_GET_room_rep s d rid :
  represents s d →
  apply_command (GET (key_of CacheNamespace.Room rid)) s =
    (s, match room_of d rid with Some r => RBulk (JSON.stringify r) | None => RNil end).
Proof.
  intros Hr. rewrite apply_GET by (by eapply represents_room_slot).
  rewrite (represents_string_at_room s d) by done. by destruct (room_of d rid).
Qed.

Lemma apply_GET_socket_rep s d u :
  represents s d →
  apply_command (GET (key_of CacheNamespace.UID2SId u)) s = (s, Pure.socket_reply u d).
Proof.
  intros Hr. rewrite apply_GET by (by eapply represents_socket_slot).
  by rewrite (represents_string_at_socket s d).
Qed.

(** [SET] of a room, then [LPUSH] of its id under a user. *)
Lemma enter_rep s d u r :
  represents s d →
  represents
    (apply_command (LPUSH (key_of CacheNamespace.UId2RIds u) (id r))
       (apply_command (SET (CacheNamespace.Room, id r) (JSON.stringify r)) s).1).1
    (enter u r d).
Proof.
  intros Hr. apply (apply_LPUSH_rep _ (put_room r d)). by apply apply_SET_rep.
Qed.

(** The command [settle] queues, then [LREM] of the room id. *)
Lemma vacate_rep s d u r :
  represents s d →
  represents
    (apply_command (LREM (key_of CacheNamespace.UId2RIds u) 1 (id (settle u r).1))
       (apply_command (settle u r).2 s).1).1
    (Pure.vacate u (Pure.settled u r) d).
Proof.
  intros Hr. unfold Pure.vacate, Pure.commit, Pure.settled, settle.
  destruct (memberIds r) as [|first rest] eqn:Hm; cbn [fst snd].
  - rewrite Hm. apply (apply_LREM_rep _ (del_room (id r) d)). by apply apply_DEL_rep.
  - set (r' := if decide (u = ownerId r) then set_ownerId r first else r).
    assert (memberIds r' = first :: rest) as ->
      by (subst r'; by destruct (decide (u = ownerId r))).
    apply (apply_LREM_rep _ (put_room r' d)). by apply apply_SET_rep.
Qed.

Lemma settle_fst u r : (settle u r).1 = Pure.settled u r.
Proof. unfold settle, Pure.settled. by destruct (memberIds r). Qed.

End represents.

#[export] Hint Resolve represents_list_slot represents_room_slot
  represents_socket_slot represents_put_room represents_del_room
  represents_set_joined represents_empty apply_SET_rep apply_DEL_rep
  apply_LPUSH_rep apply_LREM_rep : chat.

(** ** The reads of the service *)

Section reads.
Context (allowJoinMultipleRooms : bool) `{!JSON.Codec}.
Implicit Types (s : store) (d : db) (u rid : value) (now : Z).

Lemma run_isMemberOfAny now s d u :
  represents s d →
  run now (isMemberOfAny u) s = (Ok (Pure.isMemberOfAny u d), s).
Proof.
  intros Hr. unfold isMemberOfAny, call, Pure.isMemberOfAny. cbn [bind run].
  rewrite apply_LLEN by (by eapply represents_list_slot). cbn [run].
  by rewrite length_pos_nonempty, (represents_list_at s d).
Qed.

Lemma run_singleRoomGuard now s d u :
  represents s d →
  run now (singleRoomGuard allowJoinMultipleRooms u) s =
    (Ok (Pure.singleRoomGuard allowJoinMultipleRooms u d), s).
Proof.
  intros Hr. unfold singleRoomGuard, Pure.singleRoomGuard.
  destruct allowJoinMultipleRooms; [done|]. by apply run_isMemberOfAny.
Qed.

Lemma run_get now s d rid :
  represents s d → run now (get rid) s = ((Pure.get rid d).1, s).
Proof.
  intros Hr. unfold get, call, Pure.get. cbn [bind run].
  rewrite (apply_GET_room_rep s d) by done.
  destruct (room_of d rid) as [r|]; cbn; [|done]. by rewrite JSON.parse_stringify.
Qed.

Lemma run_get_ok now s d rid room s' :
  represents s d → run now (get rid) s = (Ok room, s') →
  room_of d rid = Some room ∧ s' = s.
Proof.
  intros Hr. rewrite (run_get now s d) by done. unfold Pure.get.
  destruct (room_of d rid); cbn; by intros [= <- <-].
Qed.

(** The replies of the reads of [getMany], collected: the rooms found,
    in the order of the ids; an id with no room is skipped. *)
Lemma run_getMany_collect now s d (rids : list value) (acc : list Room) :
  represents s d →
  run now (getMany_collect
             ((λ rid, (apply_command (GET (key_of CacheNamespace.Room rid)) s).2) <$> rids)
             acc) s
  = (Ok (acc ++ omap (room_of d) rids), s).
Proof.
  intros Hr. revert acc. induction rids as [|rid rids IH]; intros acc.
  - cbn. by rewrite app_nil_r.
  - rewrite fmap_cons, (apply_GET_room_rep s d) by done. cbn [snd omap list_omap].
    destruct (room_of d rid) as [room|]; cbn [getMany_collect].
    + rewrite JSON.parse_stringify, IH. unfold push. by rewrite <- app_assoc.
    + apply IH.
Qed.

Lemma run_getMany now s d (rids : list value) :
  represents s d → run now (getMany rids) s = (Ok (omap (room_of d) rids), s).
Proof.
  intros Hr. unfold getMany. rewrite run_exec, exec_pipeline_gets. cbn [fst snd].
  by rewrite (run_getMany_collect now s d rids []).
Qed.

End reads.

(** The steps every refinement proof repeats: run the guard, run [get],
    run a pipeline, conclude on an unchanged store. *)
Ltac run_guard Hr :=
  rewrite run_bind, (run_singleRoomGuard _ _ _ _ _ Hr); cbn [outcome_bind].
Ltac run_get Hr :=
  rewrite run_bind, (run_get _ _ _ _ Hr); unfold Pure.get; cbn [outcome_bind].
Ltac run_pipeline :=
  rewrite run_exec, !exec_pipeline_cons; cbn [exec_pipeline run fst snd].
Ltac stays s := exists s; by split.

(** ** The methods *)

Section methods.
Context (allowJoinMultipleRooms : bool) `{!JSON.Codec}.
Implicit Types (s : store) (d : db) (u rid : value) (now : Z).

Lemma book_refines now u isPublic :
  refines now (book allowJoinMultipleRooms u isPublic)
          (Pure.book allowJoinMultipleRooms now u isPublic).
Proof.
  intros s d Hr. unfold book, Pure.book. run_guard Hr.
  destruct (Pure.singleRoomGuard _ u d); [stays s|].
  rewrite run_now. run_pipeline. eexists. split; [done|]. by apply enter_rep.
Qed.

Lemma get_refines now rid : refines now (get rid) (Pure.get rid).
Proof.
  intros s d Hr. exists s. rewrite (run_get now s d) by done. split; [done|].
  unfold Pure.get. by destruct (room_of d rid).
Qed.

Lemma join_refines now u rid :
  refines now (join allowJoinMultipleRooms u rid) (Pure.join allowJoinMultipleRooms u rid).
Proof.
  intros s d Hr. unfold join, Pure.join. run_guard Hr.
  destruct (Pure.singleRoomGuard _ u d); [stays s|]. run_get Hr.
  destruct (room_of d rid) as [room|]; [|stays s]. cbn [fst outcome_bind].
  destruct (isPublic room); [|stays s]. cbn [negb]. run_pipeline.
  eexists. split; [done|]. by apply enter_rep.
Qed.

Lemma leave_refines now u rid : refines now (leave u rid) (Pure.leave u rid).
Proof.
  intros s d Hr. unfold leave, Pure.leave. run_get Hr.
  destruct (room_of d rid) as [room|]; [|stays s]. cbn [fst outcome_bind].
  rewrite indexOf_eqb. destruct (includes u (memberIds room)); [|stays s]. cbn [negb].
  pose proof (vacate_rep s d u (depart u room) Hr) as Hv.
  pose proof (settle_fst u (depart u room)) as Hf.
  destruct (settle u (depart u room)) as [room' cmd]. cbn [fst snd] in Hv, Hf. subst room'.
  run_pipeline. eexists. by split.
Qed.

Lemma transferOwnership_refines now owner candidate rid :
  refines now (transferOwnership owner candidate rid)
          (Pure.transferOwnership owner candidate rid).
Proof.
  intros s d Hr. unfold transferOwnership, Pure.transferOwnership. run_get Hr.
  destruct (room_of d rid) as [room|]; [|stays s]. cbn [fst outcome_bind].
  destruct (decide (ownerId room ≠ owner)); [stays s|].
  destruct (bool_decide (owner = candidate) || _); [stays s|].
  unfold call. cbn [bind run]. rewrite apply_SET. cbn [run].
  eexists. split; [done|]. by apply represents_put_room.
Qed.

Lemma kick_refines now kicker member rid :
  refines now (kick kicker member rid) (Pure.kick kicker member rid).
Proof.
  intros s d Hr. unfold kick, Pure.kick. destruct (decide (kicker = member)) as [->|Hne].
  - destruct (leave_refines now member rid s d Hr) as (s' & Hrun & Hr').
    rewrite run_bind, Hrun. destruct (Pure.leave member rid d) as [[room|e] d']; by exists s'.
  - run_get Hr. destruct (room_of d rid) as [room|]; [|stays s]. cbn [fst outcome_bind].
    destruct (decide (ownerId room ≠ kicker)); [stays s|].
    rewrite indexOf_eqb. destruct (includes member (memberIds room)); [|stays s]. cbn [negb].
    run_pipeline. rewrite (apply_GET_socket_rep s d) by done. cbn [fst snd].
    eexists. split; [done|].
    apply (apply_LREM_rep _ (put_room (depart member room) d)). by apply apply_SET_rep.
Qed.

Lemma invite_refines now inviter guest rid :
  refines now (invite inviter guest rid) (Pure.invite inviter guest rid).
Proof.
  intros s d Hr. unfold invite, Pure.invite. run_pipeline.
  rewrite (apply_GET_room_rep s d), (apply_GET_socket_rep s d) by done. cbn [fst snd].
  unfold Pure.socket_reply.
  destruct (room_of d rid) as [room|]; [|stays s]. rewrite JSON.parse_stringify.
  destruct (socket_of d guest) as [sid|]; [|stays s].
  destruct (includes inviter (memberIds room)); [|stays s]. cbn [negb].
  destruct (includes guest (memberIds room) || _); [stays s|].
  unfold call. cbn [bind run]. rewrite apply_SET. cbn [run].
  eexists. split; [done|]. by apply represents_put_room.
Qed.

Lemma getMany_refines now (rids : list value) :
  refines now (getMany rids) (Pure.getMany rids).
Proof. intros s d Hr. exists s. by rewrite (run_getMany now s d). Qed.

End methods.
