(* ===== verification/LeaveMany.v ===== *)
(** * LeaveMany: the loop of [leaveMany] and the methods built on it

    [leaveMany] queues two commands per room on one pipeline and calls
    [exec()] inside the loop.  This file gives the closed form of the
    loop (what is returned, queued and sent), runs the commands on a
    represented database, and proves that [leaveMany] and
    [respondInvitation] compute their pure readings. *)

From stdpp Require Import strings gmap.
From S2P Require Import Prelude JsArray JsValue Redis Room Prog Service Model.
From S2P Require Import Invariant Refine.
Import RoomService.

#[local] Open Scope string_scope.
#[local] Open Scope list_scope.
#[local] Open Scope Z_scope.

Section leaveMany_loop.
Context `{!JSON.Codec}.
Implicit Types (s : store) (d : db) (u : value) (r : Room) (L P : list Room).

(** The command [settle] queues for a room, read off the settled room. *)
Definition commit_cmd r : command :=
  match memberIds r with
  | [] => DEL (CacheNamespace.Room, id r)
  | _ => SET (CacheNamespace.Room, id r) (JSON.stringify r)
  end.

(** The two commands one turn of the loop appends to the queue. *)
Definition vacate_cmds u r : list command :=
  [commit_cmd r; LREM (key_of CacheNamespace.UId2RIds u) 1 (id r)].

Lemma settle_snd u r : (settle u r).2 = commit_cmd (Pure.settled u r).
Proof.
  unfold commit_cmd. rewrite memberIds_settled, id_settled.
  unfold settle, Pure.settled. destruct (memberIds r); [done|].
  by destruct (decide (u = ownerId r)).
Qed.

(** The loop of [leaveMany], closed form: the rooms returned, the queue,
    and what the in-loop [exec()] calls have sent. *)
Lemma leaveMany_fold u (found : list Room) rs0 P :
  let left := λ room, Pure.settled u (depart u room) in
  foldl (leaveMany_step u)
        (rs0, flat_map (vacate_cmds u) P, flat_map (vacate_cmds u) (Pure.resent [] P)) found
  = (rs0 ++ (left <$> found),
     flat_map (vacate_cmds u) (P ++ (left <$> found)),
     flat_map (vacate_cmds u) (Pure.resent [] P ++ Pure.resent P (left <$> found))).
Proof.
  intros left. revert rs0 P. induction found as [|room found IH]; intros rs0 P.
  - cbn. by rewrite !app_nil_r.
  - cbn [foldl leaveMany_step].
    pose proof (settle_fst u (depart u room)) as Hf.
    pose proof (settle_snd u (depart u room)) as Hs.
    destruct (settle u (depart u room)) as [room' cmd]. cbn [fst snd] in Hf, Hs. subst.
    change [commit_cmd ?r; LREM ?k 1 (id ?r)] with (flat_map (vacate_cmds u) [r]).
    rewrite <- !flat_map_app, <- resent_snoc_nil. unfold push. rewrite IH, fmap_cons.
    cbn [Pure.resent]. rewrite resent_snoc_nil. by rewrite <- !app_assoc.
Qed.

(** The loop from its initial state. *)
Lemma leaveMany_loop u (found : list Room) :
  let left := (λ room, Pure.settled u (depart u room)) <$> found in
  foldl (leaveMany_step u) ([], [], []) found
  = (left, flat_map (vacate_cmds u) left, flat_map (vacate_cmds u) (Pure.resent [] left)).
Proof. apply (leaveMany_fold u found [] []). Qed.

Lemma commit_rep s d r :
  represents s d → represents (apply_command (commit_cmd r) s).1 (Pure.commit r d).
Proof.
  intros Hr. unfold commit_cmd, Pure.commit.
  destruct (memberIds r); [by apply apply_DEL_rep|by apply apply_SET_rep].
Qed.

(** The commands of a list of rooms, run as one pipeline, vacate the
    rooms in order. *)
Lemma exec_vacates s d u (R : list Room) :
  represents s d →
  represents (exec_pipeline (flat_map (vacate_cmds u) R) s).1
             (foldl (λ d' r, Pure.vacate u r d') d R).
Proof.
  revert s d. induction R as [|r R IH]; intros s d Hr; [done|].
  cbn [flat_map vacate_cmds app foldl]. rewrite !exec_pipeline_cons. cbn [fst].
  apply IH. apply (apply_LREM_rep _ (Pure.commit r d)). by apply commit_rep.
Qed.

End leaveMany_loop.

(** ** The methods *)

Section many.
Context (allowJoinMultipleRooms : bool) `{!JSON.Codec}.
Implicit Types (s : store) (d : db) (u rid : value) (now : Z).

(** [leaveMany] once the ids are known. *)
Lemma run_leaveMany_rooms now s d u (rids : list value) :
  represents s d →
  let left := (λ room, Pure.settled u (depart u room)) <$> omap (room_of d) rids in
  ∃ s', run now (leaveMany_rooms u rids) s = (Ok left, s')
        ∧ represents s' (foldl (λ d' r, Pure.vacate u r d') d (Pure.resent [] left ++ left)).
Proof.
  intros Hr left. unfold leaveMany_rooms.
  rewrite run_bind, (run_getMany now s d) by done. cbn [outcome_bind].
  rewrite leaveMany_loop, run_exec, <- flat_map_app. fold left. cbn [run].
  eexists. split; [done|]. by apply exec_vacates.
Qed.

Lemma leaveMany_refines now u (rids : list value) :
  refines now (leaveMany u rids) (Pure.leaveMany u rids).
Proof.
  intros s d Hr. unfold leaveMany, Pure.leaveMany, Pure.left_rooms. cbn [fst snd].
  destruct rids as [|rid rids]; [|by apply run_leaveMany_rooms].
  unfold call. cbn [bind run Pure.leaveMany_ids].
  rewrite apply_LRANGE, lrange_all, (represents_list_at s d) by eauto with chat.
  destruct (joined_of d u) as [|i l]; [stays s|]. by apply run_leaveMany_rooms.
Qed.

Lemma respondInvitation_refines now guest isAccpeted rid :
  refines now (respondInvitation allowJoinMultipleRooms guest isAccpeted rid)
          (Pure.respondInvitation allowJoinMultipleRooms guest isAccpeted rid).
Proof.
  intros s d Hr. unfold respondInvitation, Pure.respondInvitation. run_get Hr.
  destruct (room_of d rid) as [room|]; [|stays s]. cbn [fst outcome_bind].
  rewrite indexOf_eqb. destruct (includes guest (waitingIds room)); [|stays s]. cbn [negb].
  destruct (truthy isAccpeted).
  - run_guard Hr. destruct (Pure.singleRoomGuard _ guest d).
    + destruct (leaveMany_refines now guest [] s d Hr) as (s' & Hrun & Hr').
      rewrite run_bind, Hrun. cbn [Pure.leaveMany fst snd outcome_bind] in *. run_pipeline.
      eexists. split; [done|]. by apply apply_SET_rep, apply_LPUSH_rep.
    + cbn [bind]. run_pipeline.
      eexists. split; [done|]. by apply apply_SET_rep, apply_LPUSH_rep.
  - run_pipeline. eexists. split; [done|]. by apply apply_SET_rep.
Qed.

End many.
