(* ===== verification/Reach.v ===== *)
(** * Reach: the stores the service can be in

    [request] is what a client can ask of the coordinator: one
    constructor per method the gateway calls, and the two writes of the
    session layer, which records the socket of a user ([Connect]) and
    forgets it ([Disconnect]).  [perform] is the program of a request,
    [effect] its pure reading.  A store is reachable when requests with
    user ids for their users, each run alone, lead to it from the empty
    store; every reachable store is consistent. *)

From stdpp Require Import strings gmap.
From S2P Require Import Prelude JsArray JsValue Redis Room Prog Service Model.
From S2P Require Import Invariant Refine LeaveMany.
Import RoomService.

#[local] Open Scope string_scope.
#[local] Open Scope list_scope.
#[local] Open Scope Z_scope.
#[local] Open Scope prog_scope.

Inductive request : Type :=
  | Book (u : value) (isPublic : bool)
  | Join (u rid : value)
  | Leave (u rid : value)
  | Kick (kicker member rid : value)
  | TransferOwnership (owner candidate rid : value)
  | Invite (inviter guest rid : value)
  | RespondInvitation (guest isAccpeted rid : value)
  | Connect (u : value) (sid : string)
  | Disconnect (u : value).

(** Every user of the request is a user id. *)
Definition well_typed (q : request) : bool :=
  match q with
  | Book u _ | Join u _ | Leave u _ | Connect u _ | Disconnect u => is_number u
  | Kick a b _ | TransferOwnership a b _ | Invite a b _ => is_number a && is_number b
  | RespondInvitation u _ _ => is_number u
  end.

(** A program run for its effect. *)
Definition void {A : Type} (p : prog A) : prog unit := let* _ := p in Ret tt.

Section reach.
Context (allowJoinMultipleRooms : bool) `{!JSON.Codec}.
Implicit Types (s : store) (d : db) (q : request) (now : Z).

#[local] Abbreviation inv := (inv allowJoinMultipleRooms).

Definition perform q : prog unit :=
  match q with
  | Book u isPublic => void (book allowJoinMultipleRooms u isPublic)
  | Join u rid => void (join allowJoinMultipleRooms u rid)
  | Leave u rid => void (leave u rid)
  | Kick kicker member rid => void (kick kicker member rid)
  | TransferOwnership owner candidate rid => void (transferOwnership owner candidate rid)
  | Invite inviter guest rid => void (invite inviter guest rid)
  | RespondInvitation guest isAccpeted rid =>
      void (respondInvitation allowJoinMultipleRooms guest isAccpeted rid)
  | Connect u sid => void (call (SET (key_of CacheNamespace.UID2SId u) sid))
  | Disconnect u => void (call (DEL (key_of CacheNamespace.UID2SId u)))
  end.

(** The outcome of a pure reading, its value forgotten. *)
Definition erase {A : Type} (r : outcome A * db) : outcome unit * db :=
  (match r.1 with Ok _ => Ok tt | Err e => Err e end, r.2).

Definition answer now q d : outcome unit * db :=
  match q with
  | Book u isPublic => erase (Pure.book allowJoinMultipleRooms now u isPublic d)
  | Join u rid => erase (Pure.join allowJoinMultipleRooms u rid d)
  | Leave u rid => erase (Pure.leave u rid d)
  | Kick kicker member rid => erase (Pure.kick kicker member rid d)
  | TransferOwnership owner candidate rid =>
      erase (Pure.transferOwnership owner candidate rid d)
  | Invite inviter guest rid => erase (Pure.invite inviter guest rid d)
  | RespondInvitation guest isAccpeted rid =>
      erase (Pure.respondInvitation allowJoinMultipleRooms guest isAccpeted rid d)
  | Connect u sid => (Ok tt, put_socket u sid d)
  | Disconnect u => (Ok tt, del_socket u d)
  end.

Definition effect now q d : db := (answer now q d).2.

(** The clock of a [Book] request reads a time no stored room is named
    after. *)
Definition fresh now q s : Prop :=
  match q with
  | Book _ _ => s !! key_of CacheNamespace.Room (VNum now) = None
  | _ => True
  end.

Inductive reachable : store → Prop :=
  | reach_empty : reachable ∅
  | reach_step s now q :
      reachable s → well_typed q = true → fresh now q s →
      reachable (run now (perform q) s).2.

Lemma refines_void {A : Type} now (p : prog A) f :
  refines now p f → refines now (void p) (λ d, erase (f d)).
Proof.
  intros Hp s d Hr. destruct (Hp s d Hr) as (s' & Hrun & Hr'). exists s'.
  unfold void, erase. rewrite run_bind, Hrun. split; [|done]. by destruct (f d).1.
Qed.

Lemma perform_refines now q : refines now (perform q) (answer now q).
Proof.
  destruct q; cbn [perform answer];
    try (apply refines_void;
         auto using book_refines, join_refines, leave_refines, kick_refines,
           transferOwnership_refines, invite_refines, respondInvitation_refines);
    intros s d Hr; unfold void, call; cbn [bind run].
  - rewrite apply_SET. cbn [run]. eexists. split; [done|]. by apply represents_put_socket.
  - rewrite apply_DEL. cbn [run]. eexists. split; [done|]. by apply represents_del_socket.
Qed.

Lemma perform_effect now q s d :
  represents s d → represents (run now (perform q) s).2 (effect now q d).
Proof. intros Hr. by destruct (perform_refines now q s d Hr) as (s' & -> & Hr'). Qed.

Lemma effect_inv now q s d :
  represents s d → inv d → well_typed q = true → fresh now q s → inv (effect now q d).
Proof.
  intros Hr Hi Hq Hf. destruct q; unfold effect; cbn [answer erase snd well_typed] in *;
    try apply andb_prop in Hq as [? ?];
    auto using join_inv, leave_inv, kick_inv, transferOwnership_inv, invite_inv,
      respondInvitation_inv.
  - apply book_inv; [done|done|]. unfold fresh, key_of in Hf.
    rewrite (represents_room s d) in Hf by done. unfold room_of.
    by destruct (rooms d !! to_string (VNum now)).
  - by destruct Hi.
  - by destruct Hi.
Qed.

(** Every reachable store represents a database that satisfies the
    invariant. *)
Lemma reachable_consistent s : reachable s → ∃ d, represents s d ∧ inv d.
Proof.
  induction 1 as [|s now q _ (d & Hr & Hi) Hq Hf].
  - exists empty_db. split; [apply represents_empty|apply inv_empty].
  - exists (effect now q d). split; [by apply perform_effect|by apply (effect_inv now q s)].
Qed.

(** ** Sequences of requests

    A script is a list of requests, each with the time its handler
    reads; [play] runs it on a store, [replay] on a database.
    [admissible] checks what [reachable] asks of every step. *)

Definition script : Type := list (Z * request).

Definition play (qs : script) s : store :=
  foldl (λ s' '(now, q), (run now (perform q) s').2) s qs.

Definition replay (qs : script) d : db :=
  foldl (λ d' '(now, q), effect now q d') d qs.

Definition fresh_b now q s : bool :=
  match q with
  | Book _ _ => bool_decide (s !! key_of CacheNamespace.Room (VNum now) = None)
  | _ => true
  end.

Fixpoint admissible (qs : script) s : bool :=
  match qs with
  | [] => true
  | (now, q) :: qs' =>
      well_typed q && fresh_b now q s && admissible qs' (run now (perform q) s).2
  end.

Lemma fresh_b_fresh now q s : fresh_b now q s = true → fresh now q s.
Proof. destruct q; try done. apply bool_decide_eq_true. Qed.

Lemma play_reachable (qs : script) s :
  reachable s → admissible qs s = true → reachable (play qs s).
Proof.
  revert s. induction qs as [|[now q] qs IH]; intros s Hs Hqs; [done|].
  cbn [admissible] in Hqs. apply andb_prop in Hqs as [[Hq Hf]%andb_prop Hqs].
  cbn [play foldl]. apply IH; [|done]. apply reach_step; [done|done|by apply fresh_b_fresh].
Qed.

Lemma play_consistent (qs : script) s d :
  represents s d → inv d → admissible qs s = true →
  represents (play qs s) (replay qs d) ∧ inv (replay qs d).
Proof.
  revert s d. induction qs as [|[now q] qs IH]; intros s d Hr Hi Hqs; [done|].
  cbn [admissible] in Hqs. apply andb_prop in Hqs as [[Hq Hf]%andb_prop Hqs].
  cbn [play replay foldl]. apply IH; [by apply perform_effect| |done].
  apply (effect_inv now q s); [done|done|done|by apply fresh_b_fresh].
Qed.

End reach.
