(* ===== verification/Scene.v ===== *)
(** * Scene: concrete stores for the examples

    Scripts run from the empty store with the concrete codec of [Json]
    and the single-room policy in force: a public room ["7"] booked by
    user 1 and joined by user 2, a private room ["8"] of user 3, and
    an invitation of user 3 to room ["7"]. *)

From stdpp Require Import strings gmap.
From S2P Require Import Prelude JsArray JsValue Redis Room Json Prog Service.
From S2P Require Import Model Invariant Refine LeaveMany Reach.
Import RoomService.

#[local] Open Scope string_scope.
#[local] Open Scope list_scope.
#[local] Open Scope Z_scope.

Definition booked : script := [(7, Book (VNum 1) true)].

Definition joined2 : script := booked ++ [(8, Join (VNum 2) (VStr "7"))].

Definition online : script :=
  [(1, Connect (VNum 3) "k3"); (7, Book (VNum 1) true); (8, Book (VNum 3) false)].

Definition invited : script := online ++ [(9, Invite (VNum 1) (VNum 3) (VStr "7"))].

(** Room ["7"] once user 2 has joined it. *)
Definition room72 : Room := mkRoom "7" true (VNum 1) [VNum 1; VNum 2] [] [].

(** The store and the database a script leads to, under the single-room
    policy. *)
Definition store_of (qs : script) : store := play false qs ∅.
Definition db_of (qs : script) : db := replay false qs empty_db.

Lemma scene_reachable (qs : script) :
  admissible false qs ∅ = true → reachable false (store_of qs).
Proof. intros Hqs. apply play_reachable; [apply reach_empty|done]. Qed.

Lemma scene_consistent (qs : script) :
  admissible false qs ∅ = true →
  represents (store_of qs) (db_of qs) ∧ inv false (db_of qs).
Proof.
  intros Hqs. apply play_consistent; [apply represents_empty|apply inv_empty|done].
Qed.

Lemma booked_admissible : admissible false booked ∅ = true.
Proof. vm_compute. reflexivity. Qed.

Lemma joined2_admissible : admissible false joined2 ∅ = true.
Proof. vm_compute. reflexivity. Qed.

Lemma online_admissible : admissible false online ∅ = true.
Proof. vm_compute. reflexivity. Qed.

Lemma invited_admissible : admissible false invited ∅ = true.
Proof. vm_compute. reflexivity. Qed.

Lemma joined2_room now :
  run now (get (VStr "7")) (store_of joined2) = (Ok room72, store_of joined2).
Proof. vm_compute. reflexivity. Qed.
