(* ===== verification/Correct.v ===== *)
(** * Correct: each method of [RoomService] on a consistent store

    A store is consistent when it represents a database that satisfies
    the invariant.  For each method that writes, run alone on a
    consistent store with user ids for its users: the outcome is that of
    its pure reading, errors included, and the store it leaves
    represents the database the pure reading returns, which satisfies
    the invariant again. *)

From stdpp Require Import strings gmap.
From S2P Require Import Prelude JsArray JsValue Redis Room Json Prog Service.
From S2P Require Import Model Invariant Refine LeaveMany Reach Scene.
Import RoomService.

#[local] Open Scope string_scope.
#[local] Open Scope list_scope.
#[local] Open Scope Z_scope.

Section correct.
Context (allowJoinMultipleRooms : bool) `{!JSON.Codec}.
Implicit Types (s : store) (d : db) (u rid : value) (now : Z).

#[local] Abbreviation inv := (inv allowJoinMultipleRooms).

(** [computes now p f s d]: on [s], which represents [d], the program
    [p] answers what [f] answers on [d] and leaves a store that
    represents the database of [f], on which the invariant holds. *)
Definition computes {A : Type} (now : Z) (p : prog A) (f : db → outcome A * db)
    (s : store) (d : db) : Prop :=
  ∃ s', run now p s = ((f d).1, s') ∧ represents s' (f d).2 ∧ inv (f d).2.

Lemma refines_computes {A : Type} now (p : prog A) f s d :
  refines now p f → represents s d → inv (f d).2 → computes now p f s d.
Proof. intros Hp Hr Hi. destruct (Hp s d Hr) as (s' & Hrun & Hr'). by exists s'. Qed.

(** [book] on a consistent store, at a time whose text is the id of
    no stored room: the outcome and the database of [Pure.book], and
    the invariant holds again. *)
Theorem book_correct now u (isPublic : bool) s d :
  represents s d → inv d → is_number u = true → room_of d (VNum now) = None →
  computes now (book allowJoinMultipleRooms u isPublic)
           (Pure.book allowJoinMultipleRooms now u isPublic) s d.
Proof.
  intros Hr Hi Hu Hfresh.
  apply refines_computes; [apply book_refines|done|by apply book_inv].
Qed.

(** C3: [join] on a consistent store: the outcome and the database of
    [Pure.join], and the invariant holds again. *)
Theorem join_correct now u rid s d :
  represents s d → inv d → is_number u = true →
  computes now (join allowJoinMultipleRooms u rid)
           (Pure.join allowJoinMultipleRooms u rid) s d.
Proof.
  intros Hr Hi Hu. apply refines_computes; [apply join_refines|done|by apply join_inv].
Qed.

(** [leave] on a consistent store: the outcome and the database of
    [Pure.leave], and the invariant holds again. *)
Theorem leave_correct now u rid s d :
  represents s d → inv d → is_number u = true →
  computes now (leave u rid) (Pure.leave u rid) s d.
Proof.
  intros Hr Hi Hu. apply refines_computes; [apply leave_refines|done|by apply leave_inv].
Qed.

(** [kick] on a consistent store: the outcome and the database of
    [Pure.kick], and the invariant holds again. *)
Theorem kick_correct now kicker member rid s d :
  represents s d → inv d → is_number member = true →
  computes now (kick kicker member rid) (Pure.kick kicker member rid) s d.
Proof.
  intros Hr Hi Hu. apply refines_computes; [apply kick_refines|done|by apply kick_inv].
Qed.

(** [transferOwnership] on a consistent store: the outcome and the
    database of [Pure.transferOwnership], and the invariant holds
    again. *)
Theorem transferOwnership_correct now owner candidate rid s d :
  represents s d → inv d →
  computes now (transferOwnership owner candidate rid)
           (Pure.transferOwnership owner candidate rid) s d.
Proof.
  intros Hr Hi.
  apply refines_computes; [apply transferOwnership_refines|done|by apply transferOwnership_inv].
Qed.

(** C7: [invite] on a consistent store: the outcome and the database of
    [Pure.invite], and the invariant holds again. *)
Theorem invite_correct now inviter guest rid s d :
  represents s d → inv d →
  computes now (invite inviter guest rid) (Pure.invite inviter guest rid) s d.
Proof.
  intros Hr Hi. apply refines_computes; [apply invite_refines|done|by apply invite_inv].
Qed.

(** [respondInvitation] on a consistent store: the outcome and the
    database of [Pure.respondInvitation], which leaves every other room
    first when the single-room policy asks for it, and the invariant
    holds again. *)
Theorem respondInvitation_correct now guest isAccpeted rid s d :
  represents s d → inv d → is_number guest = true →
  computes now (respondInvitation allowJoinMultipleRooms guest isAccpeted rid)
           (Pure.respondInvitation allowJoinMultipleRooms guest isAccpeted rid) s d.
Proof.
  intros Hr Hi Hu.
  apply refines_computes; [apply respondInvitation_refines|done|by apply respondInvitation_inv].
Qed.

(** C6: [leaveMany] without room ids, under the single-room policy: the
    rooms returned and the database are those of [Pure.leaveMany], the
    invariant holds again and the user is listed in no room. *)
Theorem leaveMany_correct now u s d :
  represents s d → inv d → is_number u = true → allowJoinMultipleRooms = false →
  computes now (leaveMany u []) (Pure.leaveMany u []) s d
  ∧ joined_of (Pure.leaveMany u [] d).2 u = [].
Proof.
  intros Hr Hi Hu Hf. destruct (leaveMany_single _ u d Hi Hu Hf) as (Hi' & Hj & _).
  split; [|done]. by apply refines_computes; [apply leaveMany_refines|..].
Qed.

End correct.

(** ** The theorems on concrete stores *)

Lemma book_correct_witness :
  computes false 7 (book false (VNum 1) true) (Pure.book false 7 (VNum 1) true) ∅ empty_db.
Proof.
  apply book_correct; [apply represents_empty|apply inv_empty|reflexivity|reflexivity].
Defined.

Lemma join_correct_witness :
  computes false 8 (join false (VNum 2) (VStr "7")) (Pure.join false (VNum 2) (VStr "7"))
           (store_of booked) (db_of booked).
Proof.
  destruct (scene_consistent booked booked_admissible) as [Hr Hi].
  apply join_correct; [exact Hr|exact Hi|reflexivity].
Defined.

Lemma leave_correct_witness :
  computes false 9 (leave (VNum 1) (VStr "7")) (Pure.leave (VNum 1) (VStr "7"))
           (store_of joined2) (db_of joined2).
Proof.
  destruct (scene_consistent joined2 joined2_admissible) as [Hr Hi].
  apply leave_correct; [exact Hr|exact Hi|reflexivity].
Defined.

Lemma kick_correct_witness :
  computes false 9 (kick (VNum 1) (VNum 2) (VStr "7")) (Pure.kick (VNum 1) (VNum 2) (VStr "7"))
           (store_of joined2) (db_of joined2).
Proof.
  destruct (scene_consistent joined2 joined2_admissible) as [Hr Hi].
  apply kick_correct; [exact Hr|exact Hi|reflexivity].
Defined.

Lemma transferOwnership_correct_witness :
  computes false 9 (transferOwnership (VNum 1) (VNum 2) (VStr "7"))
           (Pure.transferOwnership (VNum 1) (VNum 2) (VStr "7"))
           (store_of joined2) (db_of joined2).
Proof.
  destruct (scene_consistent joined2 joined2_admissible) as [Hr Hi].
  apply transferOwnership_correct; [exact Hr|exact Hi].
Defined.

Lemma invite_correct_witness :
  computes false 9 (invite (VNum 1) (VNum 3) (VStr "7"))
           (Pure.invite (VNum 1) (VNum 3) (VStr "7")) (store_of online) (db_of online).
Proof.
  destruct (scene_consistent online online_admissible) as [Hr Hi].
  apply invite_correct; [exact Hr|exact Hi].
Defined.

Lemma respondInvitation_correct_witness :
  computes false 10 (respondInvitation false (VNum 3) (VBool true) (VStr "7"))
           (Pure.respondInvitation false (VNum 3) (VBool true) (VStr "7"))
           (store_of invited) (db_of invited).
Proof.
  destruct (scene_consistent invited invited_admissible) as [Hr Hi].
  apply respondInvitation_correct; [exact Hr|exact Hi|reflexivity].
Defined.

Lemma leaveMany_correct_witness :
  computes false 9 (leaveMany (VNum 2) []) (Pure.leaveMany (VNum 2) [])
           (store_of joined2) (db_of joined2)
  ∧ joined_of (Pure.leaveMany (VNum 2) [] (db_of joined2)).2 (VNum 2) = [].
Proof.
  destruct (scene_consistent joined2 joined2_admissible) as [Hr Hi].
  apply leaveMany_correct; [exact Hr|exact Hi|reflexivity|reflexivity].
Defined.
