(* ===== verification/Safety.v ===== *)
(** * Safety: what holds of every reachable store

    The invariants of the data model, read off the store with the
    service's own [get] and the user's list, and the policy of one room
    per user when joining several rooms is not allowed.  A request
    that fails, fails with a domain error and leaves the store as it
    was. *)

From stdpp Require Import strings gmap.
From S2P Require Import Prelude JsArray JsValue Redis Room Json Prog Service.
From S2P Require Import Model Invariant Refine LeaveMany Reach Scene.
Import RoomService.

#[local] Open Scope string_scope.
#[local] Open Scope list_scope.
#[local] Open Scope Z_scope.

Section safety.
Context (allowJoinMultipleRooms : bool) `{!JSON.Codec}.
Implicit Types (s : store) (d : db) (u rid : value) (room : Room) (now : Z).

#[local] Abbreviation inv := (inv allowJoinMultipleRooms).
#[local] Abbreviation reachable := (reachable allowJoinMultipleRooms).

(** The list of room ids the store keeps for a user. *)
Definition rooms_of s u : list string := list_at s (key_of CacheNamespace.UId2RIds u).

(** [get] finds the room under the id. *)
Definition fetches s rid room : Prop :=
  ∃ now s', run now (get rid) s = (Ok room, s').

(** The failures the service raises itself. *)
Definition domain_error (e : exn) : Prop := ∃ m, e = WsException m.

(** A room [get] returns on a reachable store is a room of a database
    that satisfies the invariant. *)
Lemma reachable_get s rid room :
  reachable s → fetches s rid room →
  ∃ d, represents s d ∧ inv d ∧ room_of d rid = Some room.
Proof.
  intros (d & Hr & Hi)%reachable_consistent (now & s' & Hrun). exists d.
  by destruct (run_get_ok now s d rid room s' Hr Hrun).
Qed.

(** C11: the owner of every room of a reachable store is one of its
    members; in particular no stored room is empty. *)
Theorem reachable_owner_member s rid room :
  reachable s → fetches s rid room → ownerId room ∈ memberIds room.
Proof.
  intros Hs Hrun. destruct (reachable_get s rid room Hs Hrun) as (d & _ & Hi & Hr).
  apply ok_owner. by apply (room_of_ok allowJoinMultipleRooms d rid).
Qed.

(** C12: in every room of a reachable store, no member is still
    invited, and nobody is invited twice. *)
Theorem reachable_members_not_waiting s rid room :
  reachable s → fetches s rid room →
  NoDup (waitingIds room) ∧ ∀ u, u ∈ memberIds room → u ∉ waitingIds room.
Proof.
  intros Hs Hrun. destruct (reachable_get s rid room Hs Hrun) as (d & _ & Hi & Hr).
  destruct (room_of_ok allowJoinMultipleRooms d rid room Hi Hr) as [_ Hw Hd]. by split.
Qed.

(** C13: on a reachable store the list of a user names a room exactly
    as often as the room names the user as member. *)
Theorem reachable_index_agrees s u rid room :
  reachable s → is_number u = true → fetches s rid room →
  count (id room) (rooms_of s u) = count u (memberIds room).
Proof.
  intros Hs Hu Hrun. destruct (reachable_get s rid room Hs Hrun) as (d & Hr & Hi & Hroom).
  unfold rooms_of. rewrite (represents_list_at s d) by done.
  by rewrite (inv_index allowJoinMultipleRooms d Hi), (members_of_room allowJoinMultipleRooms d rid).
Qed.

(** On a reachable store no list entry dangles: a room id listed
    under a user is the id of a stored room of which the user is a
    member. *)
Theorem reachable_no_dangling s u (i : string) :
  reachable s → is_number u = true → i ∈ rooms_of s u →
  ∃ room, fetches s (VStr i) room ∧ id room = i ∧ u ∈ memberIds room.
Proof.
  intros (d & Hr & Hi)%reachable_consistent Hu Hin. unfold rooms_of in Hin.
  rewrite (represents_list_at s d) in Hin by done.
  apply (listed_member allowJoinMultipleRooms) in Hin; [|done..]. unfold members_of in Hin.
  destruct (rooms d !! i) as [room|] eqn:Hroom; [|by apply elem_of_nil in Hin].
  exists room. split_and!; [|by apply (inv_key allowJoinMultipleRooms d Hi)|done].
  exists 0, s. rewrite (run_get 0 s d) by done. unfold Pure.get, room_of. cbn [to_string].
  by rewrite Hroom.
Qed.

(** C14: when joining several rooms is not allowed, every user of a
    reachable store is listed in at most one room. *)
Theorem reachable_single_room s u :
  allowJoinMultipleRooms = false → reachable s → is_number u = true →
  (length (rooms_of s u) ≤ 1)%nat.
Proof.
  intros Hf (d & Hr & Hi)%reachable_consistent Hu. unfold rooms_of.
  rewrite (represents_list_at s d) by done. by apply (inv_single allowJoinMultipleRooms d Hi).
Qed.

(** When joining several rooms is not allowed, no room of a
    reachable store lists a member twice. *)
Theorem reachable_members_NoDup s rid room :
  allowJoinMultipleRooms = false → reachable s →
  fetches s rid room → NoDup (memberIds room).
Proof.
  intros Hf Hs Hrun. destruct (reachable_get s rid room Hs Hrun) as (d & Hr & Hi & Hroom).
  apply count_NoDup. intros u. destruct (decide (u ∈ memberIds room)) as [Hin|Hno].
  - rewrite <- (members_of_room allowJoinMultipleRooms d rid) in * by done.
    pose proof (inv_members allowJoinMultipleRooms d Hi _ _ Hin) as Hu. rewrite <- (inv_index allowJoinMultipleRooms d Hi) by done.
    etrans; [apply count_le_length|by apply (inv_single allowJoinMultipleRooms d Hi)].
  - apply count_zero in Hno. lia.
Qed.

(** Every room of a reachable store is stored under its own id. *)
Theorem reachable_room_id s rid room :
  reachable s → fetches s rid room → id room = to_string rid.
Proof.
  intros Hs Hrun. destruct (reachable_get s rid room Hs Hrun) as (d & _ & Hi & Hr).
  by apply (inv_key allowJoinMultipleRooms d Hi).
Qed.

(** A pure reading that fails names a rule of the domain and returns
    the database it was given. *)
Lemma answer_err now (q : request) d e :
  (answer allowJoinMultipleRooms now q d).1 = Err e →
  (answer allowJoinMultipleRooms now q d).2 = d ∧ ∃ m, e = WsException m.
Proof.
  destruct q; cbn [answer erase fst snd];
    unfold Pure.book, Pure.join, Pure.kick, Pure.leave, Pure.transferOwnership,
      Pure.invite, Pure.respondInvitation;
    repeat case_match; intros; cbn [fst snd] in *; simplify_eq; eauto.
Qed.

(** C15: a request that fails on a store that represents a database
    fails with a domain error, never with a reply or parse error, and
    leaves the store as it was. *)
Theorem errors_leave_store now (q : request) s d e s' :
  represents s d → run now (perform allowJoinMultipleRooms q) s = (Err e, s') →
  s' = s ∧ domain_error e.
Proof.
  intros Hr Hrun. destruct (perform_refines allowJoinMultipleRooms now q s d Hr) as (s1 & Hrun1 & Hr1).
  rewrite Hrun in Hrun1. injection Hrun1 as He <-. symmetry in He.
  destruct (answer_err now q d e He) as [Hd Hm]. split; [|done].
  rewrite Hd in Hr1. by apply (represents_inj _ _ d).
Qed.

End safety.

(** ** The theorems on concrete stores *)

Lemma joined2_fetches : fetches (store_of joined2) (VStr "7") room72.
Proof. exists 9, (store_of joined2). apply joined2_room. Qed.

Lemma reachable_owner_member_witness : ownerId room72 ∈ memberIds room72.
Proof.
  apply (reachable_owner_member false (store_of joined2) (VStr "7") room72);
    [apply scene_reachable, joined2_admissible|apply joined2_fetches].
Defined.

Lemma reachable_members_not_waiting_witness :
  NoDup (waitingIds room72) ∧ ∀ u, u ∈ memberIds room72 → u ∉ waitingIds room72.
Proof.
  apply (reachable_members_not_waiting false (store_of joined2) (VStr "7") room72);
    [apply scene_reachable, joined2_admissible|apply joined2_fetches].
Defined.

Lemma reachable_index_agrees_witness :
  count (id room72) (rooms_of (store_of joined2) (VNum 2)) = count (VNum 2) (memberIds room72).
Proof.
  apply (reachable_index_agrees false (store_of joined2) (VNum 2) (VStr "7") room72);
    [apply scene_reachable, joined2_admissible|reflexivity|apply joined2_fetches].
Defined.

Lemma reachable_no_dangling_witness :
  ∃ room, fetches (store_of joined2) (VStr "7") room
          ∧ id room = "7" ∧ VNum 2 ∈ memberIds room.
Proof.
  apply (reachable_no_dangling false (store_of joined2) (VNum 2) "7");
    [apply scene_reachable, joined2_admissible|reflexivity|].
  vm_compute. apply list_elem_of_here.
Defined.

Lemma reachable_single_room_witness : (length (rooms_of (store_of joined2) (VNum 2)) ≤ 1)%nat.
Proof.
  apply (reachable_single_room false (store_of joined2) (VNum 2));
    [reflexivity|apply scene_reachable, joined2_admissible|reflexivity].
Defined.

Lemma reachable_members_NoDup_witness : NoDup (memberIds room72).
Proof.
  apply (reachable_members_NoDup false (store_of joined2) (VStr "7") room72);
    [reflexivity|apply scene_reachable, joined2_admissible|apply joined2_fetches].
Defined.

Lemma reachable_room_id_witness : id room72 = to_string (VStr "7").
Proof.
  apply (reachable_room_id false (store_of joined2) (VStr "7") room72);
    [apply scene_reachable, joined2_admissible|apply joined2_fetches].
Defined.

(** User 2, already in room ["7"], books a room under the single-room
    policy: the request is refused and nothing is written. *)
Lemma errors_leave_store_witness :
  store_of joined2 = store_of joined2
  ∧ domain_error (WsException "Please leave current room before creating a new one").
Proof.
  destruct (scene_consistent joined2 joined2_admissible) as [Hr _].
  apply (errors_leave_store false 9 (Book (VNum 2) true) (store_of joined2) (db_of joined2));
    [exact Hr|vm_compute; reflexivity].
Defined.
