(* ===== verification/ServiceSpec.v ===== *)
(** * ServiceSpec: the behaviours the specification singles out

    Each theorem is one of the testable properties of the
    specification, stated on the programs of [Service] run on a store:
    what [book] followed by [get] returns, what [join] adds, what
    [leave] does to the last member and to the owner, who may [kick],
    what declining and accepting an invitation leave behind, and the
    scenario of two users in one room. *)

From stdpp Require Import strings gmap.
From S2P Require Import Prelude JsArray JsValue Redis Room Json Prog Service.
From S2P Require Import Model Invariant Refine LeaveMany Reach Scene.
Import RoomService.

#[local] Open Scope string_scope.
#[local] Open Scope list_scope.
#[local] Open Scope Z_scope.

(** What a program answers on a store, and the store it leaves. *)
Definition result {A : Type} (now : Z) (p : prog A) (s : store) : outcome A := (run now p s).1.
Definition after {A : Type} (now : Z) (p : prog A) (s : store) : store := (run now p s).2.

Section spec.
Context (allowJoinMultipleRooms : bool) `{!JSON.Codec}.
Implicit Types (s : store) (d : db) (u v rid : value) (room : Room) (now : Z).

#[local] Abbreviation inv := (inv allowJoinMultipleRooms).

Lemma refines_after {A : Type} now (p : prog A) f s d :
  refines now p f → represents s d →
  result now p s = (f d).1 ∧ represents (after now p s) (f d).2.
Proof.
  intros Hp Hr. unfold result, after. by destruct (Hp s d Hr) as (s' & -> & Hr').
Qed.

(** [get] on a store that represents a database. *)
Lemma result_get now s d rid :
  represents s d → result now (get rid) s = (Pure.get rid d).1.
Proof. intros Hr. unfold result. by rewrite (run_get now s d). Qed.

(** [book] then [get]: when the policy lets the booker in, [book]
    returns a room whose only member and owner is the booker, with
    nobody invited or refused, and [get] of its id returns that room. *)
Theorem book_then_get now now' u (isPublic : bool) s d :
  represents s d → Pure.singleRoomGuard allowJoinMultipleRooms u d = false →
  let room := mkRoom (to_string (VNum now)) isPublic u [u] [] [] in
  result now (book allowJoinMultipleRooms u isPublic) s = Ok room
  ∧ result now' (get (VNum now)) (after now (book allowJoinMultipleRooms u isPublic) s)
    = Ok room.
Proof.
  intros Hr Hg room.
  destruct (refines_after now _ _ s d (book_refines allowJoinMultipleRooms now u isPublic) Hr)
    as [Hres Hr'].
  unfold Pure.book in Hres, Hr'. rewrite Hg in Hres, Hr'. split; [done|].
  rewrite (result_get now' _ _ _ Hr'). unfold Pure.get. cbn [snd].
  by rewrite (room_of_enter _ u (VNum now) room).
Qed.

(** [join] of a public room, when the policy lets the joiner in:
    the joiner is appended to [memberIds], once if the joiner was not a
    member, and [get] returns the room [join] returned. *)
Theorem join_adds_member now now' u rid room s d :
  represents s d → inv d → Pure.singleRoomGuard allowJoinMultipleRooms u d = false →
  room_of d rid = Some room → isPublic room = true →
  ∃ room', result now (join allowJoinMultipleRooms u rid) s = Ok room'
    ∧ memberIds room' = memberIds room ++ [u]
    ∧ (u ∉ memberIds room → count u (memberIds room') = 1%nat)
    ∧ result now' (get rid) (after now (join allowJoinMultipleRooms u rid) s) = Ok room'.
Proof.
  intros Hr Hi Hg Hroom Hpub.
  destruct (refines_after now _ _ s d (join_refines allowJoinMultipleRooms now u rid) Hr)
    as [Hres Hr'].
  unfold Pure.join in Hres, Hr'. rewrite Hg, Hroom, Hpub in Hres, Hr'.
  exists (join_update u room). split_and!; [done|done| |].
  - intros Hno%count_zero. rewrite memberIds_join_update, count_snoc, Hno.
    by rewrite decide_True.
  - rewrite (result_get now' _ _ _ Hr'). unfold Pure.get. cbn [negb snd].
    rewrite (room_of_enter _ u rid); [done|].
    rewrite id_join_update. by apply (room_of_id allowJoinMultipleRooms d).
Qed.

Lemma room_of_vacate d u rid room :
  id room = to_string rid →
  room_of (Pure.vacate u room d) rid = if decide (memberIds room = []) then None else Some room.
Proof.
  intros Hid. unfold room_of. rewrite rooms_vacate. unfold room_write. rewrite <- Hid.
  destruct (memberIds room); [by rewrite lookup_delete_eq|by rewrite lookup_insert_eq].
Qed.

(** What [leave] answers and leaves when the leaver is a member. *)
Lemma leave_member now u rid room s d :
  represents s d → inv d → room_of d rid = Some room → u ∈ memberIds room →
  let room' := Pure.settled u (depart u room) in
  result now (leave u rid) s = Ok room'
  ∧ memberIds room' = remove_first u (memberIds room)
  ∧ ∀ now', result now' (get rid) (after now (leave u rid) s)
            = if decide (memberIds room' = []) then Err (WsException "Room does not exist!")
              else Ok room'.
Proof.
  intros Hr Hi Hroom Hin room'.
  destruct (refines_after now _ _ s d (leave_refines now u rid) Hr) as [Hres Hr'].
  unfold Pure.leave in Hres, Hr'. rewrite Hroom, (proj2 (includes_true _ _) Hin) in Hres, Hr'.
  split_and!; [done|by unfold room'; rewrite memberIds_settled, memberIds_depart|].
  intros now'. rewrite (result_get now' _ _ _ Hr'). unfold Pure.get. cbn [negb snd].
  rewrite (room_of_vacate _ u rid); [by destruct (decide _)|].
  rewrite id_settled, id_depart. by apply (room_of_id allowJoinMultipleRooms d).
Qed.

(** [leave] by the last member deletes the room: [leave] returns
    the emptied room and a following [get] finds no room. *)
Theorem leave_last_member now now' u rid room s d :
  represents s d → inv d → room_of d rid = Some room → memberIds room = [u] →
  (∃ room', result now (leave u rid) s = Ok room' ∧ memberIds room' = [])
  ∧ result now' (get rid) (after now (leave u rid) s)
    = Err (WsException "Room does not exist!").
Proof.
  intros Hr Hi Hroom Hm.
  destruct (leave_member now u rid room s d Hr Hi Hroom) as (Hres & Hmem & Hget).
  { rewrite Hm. by left. }
  rewrite Hm in Hmem. cbn in Hmem. rewrite decide_True in Hmem by done.
  split; [eauto|]. rewrite Hget, Hmem. by rewrite decide_True.
Qed.

(** [leave] by the owner while members remain hands the room to
    the first remaining member, and the room stays stored. *)
Theorem leave_owner_hands_over now now' u v (rest : list value) rid room s d :
  represents s d → inv d → room_of d rid = Some room →
  ownerId room = u → u ∈ memberIds room → remove_first u (memberIds room) = v :: rest →
  ∃ room', result now (leave u rid) s = Ok room'
    ∧ ownerId room' = v ∧ memberIds room' = v :: rest
    ∧ result now' (get rid) (after now (leave u rid) s) = Ok room'.
Proof.
  intros Hr Hi Hroom Ho Hin Hrest.
  destruct (leave_member now u rid room s d Hr Hi Hroom Hin) as (Hres & Hmem & Hget).
  rewrite Hrest in Hmem. eexists. split_and!; [done| |done|].
  - unfold Pure.settled. rewrite memberIds_settled in Hmem. rewrite Hmem.
    cbn. by rewrite decide_True.
  - rewrite Hget, Hmem. by rewrite decide_False.
Qed.

(** [kick] of another user by someone who does not own the room
    is refused, member or not, and nothing is written. *)
Theorem kick_not_owner now kicker member rid room s d :
  represents s d → room_of d rid = Some room →
  kicker ≠ member → ownerId room ≠ kicker →
  result now (kick kicker member rid) s = Err (WsException "You are not owner of this room!")
  ∧ after now (kick kicker member rid) s = s.
Proof.
  intros Hr Hroom Hne Ho.
  destruct (kick_refines now kicker member rid s d Hr) as (s' & Hrun & Hr').
  unfold result, after. rewrite Hrun. unfold Pure.kick in *.
  rewrite decide_False, Hroom, decide_True in * by done. split; [done|].
  by apply (represents_inj _ _ d).
Qed.

(** [invite] then [respondInvitation] with a refusal: the guest
    is not a member, is recorded in [refusedIds], and is no longer in
    [waitingIds]. *)
Theorem invite_then_decline now now' inviter guest rid room (sid : string) s d :
  represents s d → inv d → room_of d rid = Some room → socket_of d guest = Some sid →
  inviter ∈ memberIds room → guest ∉ memberIds room → guest ∉ waitingIds room →
  ∃ room',
    result now' (respondInvitation allowJoinMultipleRooms guest (VBool false) rid)
           (after now (invite inviter guest rid) s)
    = Ok (RespondResult.mk room' [])
    ∧ (guest ∉ memberIds room') ∧ guest ∈ refusedIds room' ∧ (guest ∉ waitingIds room').
Proof.
  intros Hr Hi Hroom Hsid Hin Hm Hw.
  destruct (refines_after now _ _ s d (invite_refines now inviter guest rid) Hr) as [_ Hr1].
  unfold Pure.invite in Hr1. rewrite Hroom, Hsid in Hr1.
  rewrite (proj2 (includes_true _ _) Hin), (proj2 (includes_false _ _) Hm),
    (proj2 (includes_false _ _) Hw) in Hr1. cbn [negb orb snd] in Hr1.
  destruct (refines_after now' _ _ _ _
              (respondInvitation_refines allowJoinMultipleRooms now' guest (VBool false) rid) Hr1)
    as [Hres _].
  unfold Pure.respondInvitation in Hres. rewrite (room_of_put_room _ rid) in Hres
    by (rewrite id_invite_update; by apply (room_of_id allowJoinMultipleRooms d)).
  rewrite (proj2 (includes_true guest (waitingIds (invite_update guest room)))) in Hres
    by (apply elem_of_push; by right).
  eexists. split; [exact Hres|]. cbn. split_and!; [done|apply elem_of_push; by right|].
  apply not_elem_of_splice_indexOf, NoDup_snoc_iff. split; [done|].
  by destruct (room_of_ok allowJoinMultipleRooms d rid room Hi Hroom).
Qed.

(** [get] on any store: no room under the key, a text that parses, a
    text that does not, or a key that holds a list; the store is never
    changed. *)
Theorem get_answers now rid s :
  result now (get rid) s =
    match s !! key_of CacheNamespace.Room rid with
    | None => Err (WsException "Room does not exist!")
    | Some (EString text) =>
        match JSON.parse text with Some room => Ok room | None => Err SyntaxError end
    | Some (EList _) => Err ReplyError
    end
  ∧ after now (get rid) s = s.
Proof.
  unfold result, after, get, call. cbn [bind run apply_command].
  destruct (s !! key_of CacheNamespace.Room rid) as [[text|l]|]; cbn [run]; [|done..].
  by destruct (JSON.parse text).
Qed.

(** [getMany] never fails on a store that represents a database: it
    returns the rooms found, in the order of the ids, and skips the
    ids that name no room; the store is not changed. *)
Theorem getMany_skips_missing now (rids : list value) s d :
  represents s d →
  result now (getMany rids) s = Ok (omap (room_of d) rids)
  ∧ after now (getMany rids) s = s.
Proof. intros Hr. unfold result, after. by rewrite (run_getMany now s d). Qed.

(** [isMemberOfAny] answers whether the list of the user is not
    empty, and [singleRoomGuard] refuses exactly the users listed in a
    room while joining several rooms is not allowed. *)
Theorem guard_answers now u s d :
  represents s d →
  result now (isMemberOfAny u) s = Ok (bool_decide (joined_of d u ≠ []))
  ∧ result now (singleRoomGuard allowJoinMultipleRooms u) s
    = Ok (negb allowJoinMultipleRooms && bool_decide (joined_of d u ≠ [])).
Proof.
  intros Hr. unfold result.
  by rewrite (run_isMemberOfAny now s d), (run_singleRoomGuard _ now s d).
Qed.

End spec.

(** ** The theorems on concrete stores *)

Lemma getMany_skips_missing_witness :
  result 9 (getMany [VStr "5"; VStr "7"]) (store_of joined2)
  = Ok (omap (room_of (db_of joined2)) [VStr "5"; VStr "7"])
  ∧ after 9 (getMany [VStr "5"; VStr "7"]) (store_of joined2) = store_of joined2.
Proof.
  destruct (scene_consistent joined2 joined2_admissible) as [Hr _].
  apply (getMany_skips_missing 9 [VStr "5"; VStr "7"] (store_of joined2) (db_of joined2)).
  exact Hr.
Defined.

Lemma guard_answers_witness :
  result 9 (isMemberOfAny (VNum 2)) (store_of joined2)
  = Ok (bool_decide (joined_of (db_of joined2) (VNum 2) ≠ []))
  ∧ result 9 (singleRoomGuard false (VNum 2)) (store_of joined2)
    = Ok (negb false && bool_decide (joined_of (db_of joined2) (VNum 2) ≠ [])).
Proof.
  destruct (scene_consistent joined2 joined2_admissible) as [Hr _].
  apply (guard_answers false 9 (VNum 2) (store_of joined2) (db_of joined2)). exact Hr.
Defined.

Lemma book_then_get_witness :
  let room := mkRoom "7" true (VNum 1) [VNum 1] [] [] in
  result 7 (book false (VNum 1) true) ∅ = Ok room
  ∧ result 9 (get (VNum 7)) (after 7 (book false (VNum 1) true) ∅) = Ok room.
Proof.
  apply (book_then_get false 7 9 (VNum 1) true ∅ empty_db);
    [apply represents_empty|reflexivity].
Defined.

Lemma join_adds_member_witness :
  ∃ room', result 8 (join false (VNum 2) (VStr "7")) (store_of booked) = Ok room'
    ∧ memberIds room' = [VNum 1] ++ [VNum 2]
    ∧ (VNum 2 ∉ [VNum 1] → count (VNum 2) (memberIds room') = 1%nat)
    ∧ result 9 (get (VStr "7")) (after 8 (join false (VNum 2) (VStr "7")) (store_of booked))
      = Ok room'.
Proof.
  destruct (scene_consistent booked booked_admissible) as [Hr Hi].
  apply (join_adds_member false 8 9 (VNum 2) (VStr "7")
           (mkRoom "7" true (VNum 1) [VNum 1] [] []) (store_of booked) (db_of booked));
    [exact Hr|exact Hi|reflexivity|reflexivity|reflexivity].
Defined.

Lemma leave_last_member_witness :
  (∃ room', result 8 (leave (VNum 1) (VStr "7")) (store_of booked) = Ok room'
            ∧ memberIds room' = [])
  ∧ result 9 (get (VStr "7")) (after 8 (leave (VNum 1) (VStr "7")) (store_of booked))
    = Err (WsException "Room does not exist!").
Proof.
  destruct (scene_consistent booked booked_admissible) as [Hr Hi].
  apply (leave_last_member false 8 9 (VNum 1) (VStr "7")
           (mkRoom "7" true (VNum 1) [VNum 1] [] []) (store_of booked) (db_of booked));
    [exact Hr|exact Hi|reflexivity|reflexivity].
Defined.

Lemma leave_owner_hands_over_witness :
  ∃ room', result 9 (leave (VNum 1) (VStr "7")) (store_of joined2) = Ok room'
    ∧ ownerId room' = VNum 2 ∧ memberIds room' = [VNum 2]
    ∧ result 10 (get (VStr "7")) (after 9 (leave (VNum 1) (VStr "7")) (store_of joined2))
      = Ok room'.
Proof.
  destruct (scene_consistent joined2 joined2_admissible) as [Hr Hi].
  apply (leave_owner_hands_over false 9 10 (VNum 1) (VNum 2) [] (VStr "7") room72
           (store_of joined2) (db_of joined2));
    [exact Hr|exact Hi|reflexivity|reflexivity|apply list_elem_of_here|reflexivity].
Defined.

Lemma kick_not_owner_witness :
  result 9 (kick (VNum 2) (VNum 1) (VStr "7")) (store_of joined2)
  = Err (WsException "You are not owner of this room!")
  ∧ after 9 (kick (VNum 2) (VNum 1) (VStr "7")) (store_of joined2) = store_of joined2.
Proof.
  destruct (scene_consistent joined2 joined2_admissible) as [Hr Hi].
  apply (kick_not_owner 9 (VNum 2) (VNum 1) (VStr "7") room72 (store_of joined2) (db_of joined2));
    [exact Hr|reflexivity|discriminate|discriminate].
Defined.

Lemma invite_then_decline_witness :
  ∃ room',
    result 10 (respondInvitation false (VNum 3) (VBool false) (VStr "7"))
           (after 9 (invite (VNum 1) (VNum 3) (VStr "7")) (store_of online))
    = Ok (RespondResult.mk room' [])
    ∧ (VNum 3 ∉ memberIds room') ∧ VNum 3 ∈ refusedIds room' ∧ (VNum 3 ∉ waitingIds room').
Proof.
  destruct (scene_consistent online online_admissible) as [Hr Hi].
  apply (invite_then_decline false 9 10 (VNum 1) (VNum 3) (VStr "7")
           (mkRoom "7" true (VNum 1) [VNum 1] [] []) "k3" (store_of online) (db_of online));
    [exact Hr|exact Hi|reflexivity|reflexivity|apply list_elem_of_here| |apply not_elem_of_nil].
  by intros [=]%list_elem_of_singleton.
Defined.

(** ** Scenarios, run with the concrete codec *)

(** Accepting an invitation under the single-room policy: user 3,
    alone in room ["8"], accepts the invitation to room ["7"].  The
    answer carries room ["7"] with user 3 as member and the room left;
    room ["8"], now empty, is gone, and user 3 is listed in room ["7"]
    only. *)
Example accept_leaves_other_room :
  let p := respondInvitation false (VNum 3) (VBool true) (VStr "7") in
  result 10 p (store_of invited)
  = Ok (RespondResult.mk (mkRoom "7" true (VNum 1) [VNum 1; VNum 3] [] [])
                         [mkRoom "8" false (VNum 3) [] [] [VNum 3]])
  ∧ result 11 (get (VStr "8")) (after 10 p (store_of invited))
    = Err (WsException "Room does not exist!")
  ∧ list_at (after 10 p (store_of invited)) (key_of CacheNamespace.UId2RIds (VNum 3)) = ["7"].
Proof. vm_compute. done. Qed.

(** The scenario of the specification: user 1 books a public
    room, user 2 joins it, user 1 leaves and user 2 owns the room, user
    2 leaves and the room is gone; the store is empty again. *)
Example two_users_scenario :
  let s1 := after 7 (book false (VNum 1) true) ∅ in
  let s2 := after 8 (join false (VNum 2) (VStr "7")) s1 in
  let s3 := after 9 (leave (VNum 1) (VStr "7")) s2 in
  let s4 := after 10 (leave (VNum 2) (VStr "7")) s3 in
  result 7 (book false (VNum 1) true) ∅ = Ok (mkRoom "7" true (VNum 1) [VNum 1] [] [])
  ∧ result 8 (join false (VNum 2) (VStr "7")) s1
    = Ok (mkRoom "7" true (VNum 1) [VNum 1; VNum 2] [] [])
  ∧ result 9 (leave (VNum 1) (VStr "7")) s2
    = Ok (mkRoom "7" true (VNum 2) [VNum 2] [] [VNum 1])
  ∧ result 11 (get (VStr "7")) s4 = Err (WsException "Room does not exist!")
  ∧ s4 = ∅.
Proof. vm_compute. done. Qed.
