(* ===== verification/Findings.v ===== *)
(** * Findings: where the code departs from what it means to do

    The service removes an element with [list.splice(list.indexOf(x), 1)]
    without testing the index.  When [x] is not in the list the index
    is -1 and [splice] removes the LAST element.  The theorems below
    follow that idiom, and three other defects, through the methods:
    what [join] and [invite] do to [waitingIds] and [refusedIds], two
    rooms booked in the same millisecond, a user who joins twice, and
    [leaveMany] on a room the user is not in. *)

From stdpp Require Import strings gmap.
From S2P Require Import Prelude JsArray JsValue Redis Room Json Prog Service.
From S2P Require Import Model Invariant Refine LeaveMany Reach Scene ServiceSpec.
Import RoomService.

#[local] Open Scope string_scope.
#[local] Open Scope list_scope.
#[local] Open Scope Z_scope.

(** A list without its last element: what [splice(-1, 1)] leaves. *)
Definition drop_last {A : Type} (l : list A) : list A := removelast l.

(** The store after a script, with joining several rooms allowed. *)
Definition open_store (qs : script) : store := play true qs ∅.

(** The room ids listed under a user. *)
Definition listed (s : store) (u : value) : list string :=
  list_at s (key_of CacheNamespace.UId2RIds u).

(** A list without the element at position [n], if there is one. *)
Definition without_nth {A : Type} (n : nat) (l : list A) : list A := delete n l.

Section edits.
Implicit Types (u v : value) (r : Room).

(** The idiom itself, on every list: [splice] at [indexOf] with
    count 1 removes the first occurrence of the element when there is
    one, and the last element of the list when there is none. *)
Theorem splice_at_indexOf (x : value) (l : list value) :
  splice (indexOf x l) 1 l = if includes x l then remove_first x l else drop_last l.
Proof.
  destruct (includes x l) eqn:Hin.
  - apply splice_indexOf_in. by apply includes_true.
  - apply splice_indexOf_notin. by apply includes_false.
Qed.

(** C40: [join] by a user who was not invited removes the last
    invitation of the room: somebody else is no longer invited. *)
Theorem join_drops_last_invitation u r :
  u ∉ waitingIds r → waitingIds (join_update u r) = drop_last (waitingIds r).
Proof. intros Hu. by apply splice_indexOf_notin. Qed.

(** [join] never removes the joiner from [refusedIds] on purpose:
    the index is looked up in [waitingIds] after the joiner has been
    removed from it, so it is -1 and the last entry of [refusedIds] is
    dropped, whoever that is. *)
Theorem join_drops_last_refusal u r :
  NoDup (waitingIds r) → refusedIds (join_update u r) = drop_last (refusedIds r).
Proof.
  intros Hw.
  change (refusedIds (join_update u r)) with
    (splice (indexOf u (splice (indexOf u (waitingIds r)) 1 (waitingIds r))) 1 (refusedIds r)).
  rewrite (proj2 (indexOf_neg_iff u _)); [apply splice_minus_one|].
  by apply not_elem_of_splice_indexOf.
Qed.

(** [invite] removes from [refusedIds] the entry at the position
    the guest has in [waitingIds], not the guest: a refused guest stays
    in [refusedIds] unless the two positions happen to agree. *)
Theorem invite_removes_by_position u r :
  u ∉ waitingIds r →
  refusedIds (invite_update u r) = without_nth (length (waitingIds r)) (refusedIds r)
  ∧ (u ∈ refusedIds r → (length (refusedIds r) ≤ length (waitingIds r))%nat →
     u ∈ refusedIds (invite_update u r)).
Proof.
  intros Hu.
  change (refusedIds (invite_update u r)) with
    (splice (indexOf u (waitingIds r ++ [u])) 1 (refusedIds r)).
  rewrite indexOf_snoc_notin, splice_nat by done.
  split; [done|]. intros Hin Hlen. unfold without_nth.
  by rewrite delete_take_drop, take_ge, drop_ge, app_nil_r by lia.
Qed.

(** [leaveMany] on a room the user is not a member of removes the
    last member of that room. *)
Theorem depart_removes_last_member u r :
  u ∉ memberIds r → memberIds (depart u r) = drop_last (memberIds r).
Proof. intros Hu. by apply splice_indexOf_notin. Qed.

End edits.

Section policy.
Context `{!JSON.Codec}.

(** With joining several rooms allowed, [respondInvitation] never
    makes the guest leave a room: the rooms left are none.  The guest
    leaves the other rooms exactly when joining several rooms is NOT
    allowed. *)
Theorem accept_leaves_nothing_when_allowed now guest isAccpeted rid s d (r : RespondResult.t) :
  represents s d → result now (respondInvitation true guest isAccpeted rid) s = Ok r →
  RespondResult.leftRooms r = [].
Proof.
  intros Hr. unfold result.
  destruct (respondInvitation_refines true now guest isAccpeted rid s d Hr) as (s' & -> & _).
  unfold Pure.respondInvitation. cbn [fst].
  repeat case_match; cbn [fst]; intros; by simplify_eq.
Qed.

End policy.

(** ** The theorems on concrete rooms and stores *)

(** Room ["7"] with user 3 invited and user 4 refused. *)
Definition room7 : Room := mkRoom "7" true (VNum 1) [VNum 1] [VNum 3] [VNum 4].

Lemma join_drops_last_invitation_witness :
  waitingIds (join_update (VNum 2) room7) = drop_last [VNum 3].
Proof.
  apply (join_drops_last_invitation (VNum 2) room7).
  by intros [=]%list_elem_of_singleton.
Defined.

Lemma join_drops_last_refusal_witness :
  refusedIds (join_update (VNum 3) room7) = drop_last [VNum 4].
Proof. apply (join_drops_last_refusal (VNum 3) room7), NoDup_singleton. Defined.

Lemma invite_removes_by_position_witness :
  refusedIds (invite_update (VNum 4) room7) = delete 1%nat [VNum 4]
  ∧ (VNum 4 ∈ [VNum 4] → (1 ≤ 1)%nat → VNum 4 ∈ refusedIds (invite_update (VNum 4) room7)).
Proof.
  apply (invite_removes_by_position (VNum 4) room7).
  by intros [=]%list_elem_of_singleton.
Defined.

Lemma depart_removes_last_member_witness :
  memberIds (depart (VNum 5) room72) = drop_last [VNum 1; VNum 2].
Proof.
  apply (depart_removes_last_member (VNum 5) room72).
  intros [[=]|[[=]|[]%elem_of_nil]%elem_of_cons]%elem_of_cons.
Defined.

Lemma accept_leaves_nothing_when_allowed_witness :
  RespondResult.leftRooms
    (RespondResult.mk (mkRoom "7" true (VNum 1) [VNum 1; VNum 3] [] []) []) = [].
Proof.
  apply (accept_leaves_nothing_when_allowed 10 (VNum 3) (VBool true) (VStr "7")
           (open_store invited) (replay true invited empty_db)).
  - apply play_consistent; [apply represents_empty|apply inv_empty|].
    vm_compute. reflexivity.
  - vm_compute. reflexivity.
Defined.

(** ** Scenarios, run with the concrete codec *)

(** Two rooms booked in the same millisecond share their id: the
    second record replaces the first, and the first booker is listed in
    a room of which they are not a member. *)
Example book_same_millisecond :
  let s1 := after 7 (book false (VNum 1) true) ∅ in
  let s2 := after 7 (book false (VNum 2) false) s1 in
  result 9 (get (VStr "7")) s2 = Ok (mkRoom "7" false (VNum 2) [VNum 2] [] [])
  ∧ listed s2 (VNum 1) = ["7"].
Proof. vm_compute. done. Qed.

(** With joining several rooms allowed, a user who joins the same
    room twice is a member twice and is listed twice. *)
Example join_twice_duplicates :
  let p := join true (VNum 2) (VStr "7") in
  let s2 := after 9 p (after 8 p (open_store booked)) in
  result 10 (get (VStr "7")) s2 = Ok (mkRoom "7" true (VNum 1) [VNum 1; VNum 2; VNum 2] [] [])
  ∧ listed s2 (VNum 2) = ["7"; "7"].
Proof. vm_compute. done. Qed.

(** [leaveMany] with the id of a room the user is not in: user 5
    leaves room ["7"] of users 1 and 2; user 2 is no longer a member,
    user 5 is recorded as refused, and user 2 is still listed in the
    room. *)
Example leaveMany_removes_another_member :
  let p := leaveMany (VNum 5) [VStr "7"] in
  result 9 p (store_of joined2) = Ok [mkRoom "7" true (VNum 1) [VNum 1] [] [VNum 5]]
  ∧ result 10 (get (VStr "7")) (after 9 p (store_of joined2))
    = Ok (mkRoom "7" true (VNum 1) [VNum 1] [] [VNum 5])
  ∧ listed (after 9 p (store_of joined2)) (VNum 2) = ["7"].
Proof. vm_compute. done. Qed.
