(* ===== verification/Interleave.v ===== *)
(** * Interleave: two handlers on the same store

    Every request to the store is a point where a handler is suspended
    and another may run; reading the clock is not.  [advance] runs one
    handler up to and including its next request, [schedule] lets two
    handlers take turns, and [interleaved] then runs what is left of
    them to the end.  Turns given to one handler only are a sequential
    run.  What the read-modify-write of the service loses when the
    turns alternate is in [Race]. *)

From stdpp Require Import strings gmap.
From S2P Require Import Prelude JsArray JsValue Redis Room Json Prog Service.
From S2P Require Import Model Invariant Refine LeaveMany Reach Scene ServiceSpec.
Import RoomService.

#[local] Open Scope string_scope.
#[local] Open Scope list_scope.
#[local] Open Scope Z_scope.

(** Whose turn it is. *)
Inductive turn : Type := L | R.

#[export] Instance turn_eq_dec : EqDecision turn.
Proof. solve_decision. Defined.

(** One turn of a handler: up to and including its next request. *)
Fixpoint advance {A : Type} (now : Z) (p : prog A) (s : store) : prog A * store :=
  match p with
  | Ret a => (Ret a, s)
  | Throw e => (Throw e, s)
  | Call c k =>
      let '(s', r) := apply_command c s in
      (match r with RError => Throw ReplyError | _ => k r end, s')
  | Exec cs k => let '(s', rs) := exec_pipeline cs s in (k rs, s')
  | Now k => advance now (k now) s
  end.

(** A handler that has returned or thrown. *)
Fixpoint finished {A : Type} (now : Z) (p : prog A) : bool :=
  match p with
  | Ret _ | Throw _ => true
  | Now k => finished now (k now)
  | _ => false
  end.

Section two_handlers.
Context {A B : Type}.
Implicit Types (p : prog A) (q : prog B) (s : store) (ts : list turn).

(** The two handlers take turns; each reads its own clock. *)
Fixpoint schedule (now1 now2 : Z) ts p q s : prog A * prog B * store :=
  match ts with
  | [] => (p, q, s)
  | L :: ts' => let '(p', s') := advance now1 p s in schedule now1 now2 ts' p' q s'
  | R :: ts' => let '(q', s') := advance now2 q s in schedule now1 now2 ts' p q' s'
  end.

(** After the turns, what is left of the first handler runs to its
    end, then what is left of the second. *)
Definition interleaved (now1 now2 : Z) ts p q s : outcome A * outcome B * store :=
  let '(p', q', s') := schedule now1 now2 ts p q s in
  let '(a, s1) := run now1 p' s' in
  let '(b, s2) := run now2 q' s1 in
  (a, b, s2).

(** The two handlers one after the other. *)
Definition sequential (now1 now2 : Z) p q s : outcome A * outcome B * store :=
  interleaved now1 now2 [] p q s.

End two_handlers.

Section one_handler.
Context {A : Type}.
Implicit Types (p : prog A) (s : store).

(** A turn does not change where the handler ends. *)
Lemma run_advance now p s : run now (advance now p s).1 (advance now p s).2 = run now p s.
Proof.
  induction p as [a|e|c k IH|cs k IH|k IH]; cbn [advance run]; [done|done| | |apply IH].
  - destruct (apply_command c s) as [s' r]. by destruct r.
  - by destruct (exec_pipeline cs s) as [s' rs].
Qed.

(** A finished handler ignores its turns. *)
Lemma advance_finished now p s :
  finished now p = true → (advance now p s).2 = s ∧ finished now (advance now p s).1 = true.
Proof.
  induction p as [a|e|c k IH|cs k IH|k IH]; cbn [advance finished]; try done. apply IH.
Qed.

(** A finished handler answers the same on every store and writes
    nothing. *)
Lemma run_finished now p s s' :
  finished now p = true → run now p s' = ((run now p s).1, s').
Proof.
  induction p as [a|e|c k IH|cs k IH|k IH]; cbn [run finished]; try done. apply IH.
Qed.

End one_handler.

Section facts.
Context {A B : Type}.
Implicit Types (p : prog A) (q : prog B) (s : store) (ts : list turn).

Lemma sequential_finished now1 now2 p q s :
  finished now1 p = true →
  sequential now1 now2 p q s = ((run now1 p s).1, (run now2 q s).1, (run now2 q s).2).
Proof.
  intros Hp. unfold sequential, interleaved. cbn [schedule].
  rewrite (run_finished now1 p s s Hp). by destruct (run now2 q s).
Qed.

(** Once the first handler has finished, the turns no longer matter. *)
Lemma finished_turns ts now1 now2 p q s :
  finished now1 p = true → interleaved now1 now2 ts p q s = sequential now1 now2 p q s.
Proof.
  revert p q s. induction ts as [|[|] ts IH]; intros p q s Hp; [done| |].
  - destruct (advance_finished now1 p s Hp) as [Hs Hp'].
    pose proof (run_advance now1 p s) as Hrun.
    pose proof (IH (advance now1 p s).1 q (advance now1 p s).2 Hp') as Hts.
    unfold interleaved in *. cbn [schedule].
    destruct (advance now1 p s) as [p' s']. cbn [fst snd] in *. subst s'.
    rewrite Hts, !sequential_finished by done. by rewrite Hrun.
  - pose proof (run_advance now2 q s) as Hrun.
    pose proof (IH p (advance now2 q s).1 (advance now2 q s).2 Hp) as Hts.
    unfold interleaved in *. cbn [schedule].
    destruct (advance now2 q s) as [q' s']. cbn [fst snd] in *.
    rewrite Hts, !sequential_finished by done.
    by rewrite Hrun, (run_finished now1 p s s').
Qed.

(** Nor do they once the second handler has finished. *)
Lemma finished_second_turns ts now1 now2 p q s :
  finished now2 q = true → interleaved now1 now2 ts p q s = sequential now1 now2 p q s.
Proof.
  revert p q s. induction ts as [|[|] ts IH]; intros p q s Hq; [done| |].
  - pose proof (run_advance now1 p s) as Hrun.
    pose proof (IH (advance now1 p s).1 q (advance now1 p s).2 Hq) as Hts.
    unfold sequential, interleaved in *. cbn [schedule] in *.
    destruct (advance now1 p s) as [p' s']. cbn [fst snd] in *. by rewrite Hts, Hrun.
  - destruct (advance_finished now2 q s Hq) as [Hs Hq'].
    pose proof (run_advance now2 q s) as Hrun.
    pose proof (IH p (advance now2 q s).1 (advance now2 q s).2 Hq') as Hts.
    unfold sequential, interleaved in *. cbn [schedule] in *.
    destruct (advance now2 q s) as [q' s']. cbn [fst snd] in *. subst s'. rewrite Hts.
    destruct (run now1 p s) as [a s1].
    by rewrite (run_finished now2 q' s s1), (run_finished now2 q s s1), Hrun.
Qed.

(** Turns taken one part after the other. *)
Lemma interleaved_app ts ts' now1 now2 p q s :
  interleaved now1 now2 (ts ++ ts') p q s
  = interleaved now1 now2 ts' (schedule now1 now2 ts p q s).1.1
      (schedule now1 now2 ts p q s).1.2 (schedule now1 now2 ts p q s).2.
Proof.
  revert p q s. induction ts as [|[|] ts IH]; intros p q s; [done| |];
    unfold interleaved in *; cbn [app schedule];
    [destruct (advance now1 p s)|destruct (advance now2 q s)]; apply IH.
Qed.

(** An interleaving in which the first handler comes to its end
    before the second takes a turn is a sequential run: [n] turns of
    the first handler that finish it, then any turns. *)
Theorem finished_first_sequential (n : nat) ts now1 now2 p q s :
  finished now1 (schedule now1 now2 (replicate n L) p q s).1.1 = true →
  interleaved now1 now2 (replicate n L ++ ts) p q s = sequential now1 now2 p q s.
Proof.
  revert p s. induction n as [|n IH]; intros p s Hp; [by apply finished_turns|].
  pose proof (run_advance now1 p s) as Hrun. specialize (IH (advance now1 p s).1 (advance now1 p s).2).
  unfold interleaved, sequential in *. cbn [replicate app schedule] in *.
  destruct (advance now1 p s) as [p' s']. cbn [fst snd] in *.
  rewrite IH by done. unfold interleaved. cbn [schedule]. by rewrite Hrun.
Qed.

End facts.

(** Two joins of one room, the first finished after three turns: the
    later turns change nothing. *)
Lemma finished_first_sequential_witness :
  let p := join false (VNum 2) (VStr "7") in
  let q := join false (VNum 3) (VStr "7") in
  interleaved 8 9 (replicate 3 L ++ [R; L; R]) p q (store_of booked)
  = sequential 8 9 p q (store_of booked).
Proof.
  apply (finished_first_sequential 3 [R; L; R] 8 9). vm_compute. reflexivity.
Defined.
