(* ===== verification/Socket.v ===== *)
(** * Socket: rooms and broadcasts of socket.io

    The gateway talks to its clients through socket.io: a socket joins
    and leaves rooms, and an emission goes to one socket or to the
    sockets of some rooms.  This file models the part of the library the
    gateway relies on (version 4, where [to] returns a new broadcast
    operator and leaves its receiver unchanged):

    - a room name is any JavaScript value, [undefined] included: the
      adapter keeps rooms in a [Map] and the rooms of a socket in a
      [Set], and neither refuses [undefined] as a key;
    - a connected socket sits in the room named by its own id;
    - an emission to NO room at all ([to([])]) is a broadcast to every
      connected socket; an emission to rooms that nobody sits in reaches
      nobody. *)

From stdpp Require Import strings gmap.
From S2P Require Import Prelude JsValue.

(** The argument of [join], [leave] and [to]: [None] is [undefined]. *)
Definition room_name : Type := option value.

Definition undefined : room_name := None.

(** The room named by a string ([room.id], [client.id]). *)
Definition named (s : string) : room_name := Some (VStr s).

(** The room named by a property read that may be [undefined]. *)
Definition name (s : option string) : room_name := VStr <$> s.

Module SocketIO.

(** The adapter's [sids]: the rooms of every connected socket. *)
Abbreviation t := (gmap string (gset room_name)).

(** A socket is accepted: it joins the room of its own id. *)
Definition connect (sid : string) (n : t) : t := <[sid := {[ named sid ]}]> n.

(** [socket.join(r)]. *)
Definition join (sid : string) (r : room_name) (n : t) : t :=
  <[sid := {[ r ]} ∪ default ∅ (n !! sid)]> n.

(** [socket.leave(r)]: nothing happens for a socket that is not
    connected or a room it is not in. *)
Definition leave (sid : string) (r : room_name) (n : t) : t :=
  alter (λ rs, rs ∖ {[ r ]}) sid n.

(** The socket is closed: it leaves every room. *)
Definition disconnect (sid : string) (n : t) : t := delete sid n.

(** The sockets that sit in a room. *)
Definition inside (r : room_name) (n : t) : gset string :=
  dom (filter (λ e, r ∈ e.2) n).

(** Where an emission goes: [socket.emit] to the socket itself;
    [server.to(a).to(b)] to the rooms collected so far; [socket.to(a)]
    the same with the socket excepted. *)
Inductive target : Type :=
| ToSocket (sid : string)
| ToRooms (rooms : list room_name) (except : list string).

(** The sockets an emission reaches. *)
Definition receivers (g : target) (n : t) : gset string :=
  match g with
  | ToSocket sid => if decide (sid ∈ dom n) then {[ sid ]} else ∅
  | ToRooms [] except => dom n ∖ list_to_set except
  | ToRooms rooms except => ⋃ ((λ r, inside r n) <$> rooms) ∖ list_to_set except
  end.

(** No socket sits in the room [undefined]. *)
Definition defined (n : t) : Prop := inside undefined n = ∅.

Section facts.
Implicit Types (n : t) (sid : string) (r : room_name).

Lemma elem_of_inside r n sid :
  sid ∈ inside r n ↔ ∃ rs, n !! sid = Some rs ∧ r ∈ rs.
Proof.
  unfold inside. split.
  - intros [rs [Hn Hr]%map_lookup_filter_Some]%elem_of_dom. eauto.
  - intros (rs & Hn & Hr). apply elem_of_dom. exists rs. by apply map_lookup_filter_Some.
Qed.

Lemma inside_empty r : inside r ∅ = ∅.
Proof.
  apply set_eq. intros sid. split; [|set_solver].
  intros (rs & Hn & _)%elem_of_inside. by apply lookup_empty_Some in Hn.
Qed.

Lemma inside_subseteq r n : inside r n ⊆ dom n.
Proof. intros sid (rs & Hn & _)%elem_of_inside. by apply elem_of_dom. Qed.

Lemma lookup_join sid r n sid' :
  join sid r n !! sid' =
  if decide (sid = sid') then Some ({[ r ]} ∪ default ∅ (n !! sid)) else n !! sid'.
Proof. unfold join. rewrite lookup_insert. by case_cond. Qed.

Lemma lookup_leave sid r n sid' :
  leave sid r n !! sid' =
  if decide (sid = sid') then (λ rs, rs ∖ {[ r ]}) <$> n !! sid else n !! sid'.
Proof. unfold leave. rewrite lookup_alter. by case_cond. Qed.

(** After [join] the socket sits in the room. *)
Lemma inside_join sid r n : sid ∈ inside r (join sid r n).
Proof.
  apply elem_of_inside. eexists. rewrite lookup_join, decide_True by done.
  split; [done|set_solver].
Qed.

(** [join] moves no other socket and touches no other room. *)
Lemma inside_join_other sid r n sid' r' :
  sid ≠ sid' ∨ r ≠ r' → sid' ∈ inside r' (join sid r n) ↔ sid' ∈ inside r' n.
Proof.
  intros Hne. rewrite !elem_of_inside, lookup_join. case_cond; [|done]. subst sid'.
  destruct Hne as [?|Hr]; [done|]. split.
  - intros (rs & [= <-] & Hin). destruct (n !! sid) as [rs|]; simpl in *; [|set_solver].
    exists rs. split; [done|set_solver].
  - intros (rs & -> & Hin). eexists. split; [done|]. simpl. set_solver.
Qed.

(** After [leave] the socket no longer sits in the room. *)
Lemma inside_leave sid r n : sid ∉ inside r (leave sid r n).
Proof.
  intros (rs & Hn & Hr)%elem_of_inside. rewrite lookup_leave, decide_True in Hn by done.
  destruct (n !! sid); simplify_eq/=. set_solver.
Qed.

(** [leave] moves no other socket and touches no other room. *)
Lemma inside_leave_other sid r n sid' r' :
  sid ≠ sid' ∨ r ≠ r' → sid' ∈ inside r' (leave sid r n) ↔ sid' ∈ inside r' n.
Proof.
  intros Hne. rewrite !elem_of_inside, lookup_leave. case_cond; [|done]. subst sid'.
  destruct Hne as [?|Hr]; [done|]. split.
  - intros (rs & Hn & Hin). destruct (n !! sid) as [rs'|]; simplify_eq/=.
    exists rs'. split; [done|set_solver].
  - intros (rs & -> & Hin). eexists. split; [done|]. set_solver.
Qed.

Lemma dom_join sid r n : dom (join sid r n) = {[ sid ]} ∪ dom n.
Proof. unfold join. by rewrite dom_insert_L. Qed.

Lemma dom_leave sid r n : dom (leave sid r n) = dom n.
Proof. unfold leave. by rewrite dom_alter_L. Qed.

(** An emission to no room reaches every connected socket. *)
Lemma receivers_no_room n : receivers (ToRooms [] []) n = dom n.
Proof. simpl. set_solver. Qed.

(** An emission to the room [undefined] alone reaches nobody while no
    socket sits there. *)
Lemma receivers_undefined n except :
  defined n → receivers (ToRooms [undefined] except) n = ∅.
Proof. unfold defined. simpl. intros ->. set_solver. Qed.

(** An emission to one room reaches the sockets inside but the excepted. *)
Lemma elem_of_receivers_room r except n sid :
  sid ∈ receivers (ToRooms [r] except) n ↔ sid ∈ inside r n ∧ sid ∉ except.
Proof. simpl. rewrite elem_of_difference, elem_of_list_to_set. set_solver. Qed.

Lemma receivers_subseteq g n : receivers g n ⊆ dom n.
Proof.
  destruct g as [sid|[|r rs] except]; cbn -[union_list fmap];
    [case_cond; set_solver|set_solver|].
  intros sid [Hin _]%elem_of_difference.
  apply elem_of_union_list in Hin as (X & [r' [-> _]]%list_elem_of_fmap & Hin).
  by apply (inside_subseteq r').
Qed.

End facts.
End SocketIO.
