(* ===== verification/Gateway.v ===== *)
(** * Gateway: the transport gateway [TextChatGateway]

    One definition per handler of [text-chat.gateway.ts], in the order
    of the file.  A handler runs in a [world]: the store the room
    service works on, the state of the services that are not part of
    this repository ([Services]), the rooms of the connected sockets
    ([SocketIO]) and the log of what the handler did to its sockets.

    The handlers are written as the file writes them: each call of the
    room service receives its arguments in the order of the call site,
    each [room.x] is a property read on the object the handler bound to
    [room] ([RoomProps]), and a property that object does not have reads
    as [undefined].

    The decorators of the handlers are the endpoints ([onJoinRoom] and
    the like): the event a handler is subscribed to and the
    interceptors that run before it.  [deliver] takes a message through
    the interceptors to its handler and hands what is thrown to the
    filter of the class. *)

From stdpp Require Import strings gmap.
From S2P Require Import Prelude JsArray JsValue Redis Room Prog Service Socket.

#[local] Open Scope string_scope.
#[local] Open Scope list_scope.

(** ** The enumerations of [src/enum] the gateway names *)

Module EmitEvent.
Inductive t : Type :=
| UpdateFriendStatus | Error | ReceivePrivateMessage
| ReceiveRoomChanges | ReceiveGroupMessage | ReceiveRoomInvitation.
End EmitEvent.

Module ListenEvent.
Inductive t : Type :=
| Connect | SendPrivateMessage | CreateRoom | JoinRoom | LeaveRoom | KickOutOfRoom
| SendGroupMessage | TranserOwnership | InviteToRoom | RespondInvitation.
End ListenEvent.

Module RoomEvent.
Inductive t : Type := Create | Join | Leave | Kick | Owner | Invite.
End RoomEvent.

Module ActiveStatus.
Inductive t : Type := Online.
End ActiveStatus.

(** ** The payloads, with the fields the handlers read

    [fields] stands for what else a message carries: the handler copies
    it ([...payload]) and never looks inside. *)

Module SendPrivateMessageDto.
Record t : Type := mk { receiverId : value; fields : list (string * value) }.
End SendPrivateMessageDto.

Module JoinRoomDto.
Record t : Type := mk { roomId : value }.
End JoinRoomDto.

Module LeaveRoomDto.
Record t : Type := mk { roomId : value }.
End LeaveRoomDto.

Module KickOutOfRoomDto.
Record t : Type := mk { roomId : value; memberId : value }.
End KickOutOfRoomDto.

Module SendGroupMessageDto.
Record t : Type := mk { roomId : value; fields : list (string * value) }.
End SendGroupMessageDto.

Module TransferOwnershipDto.
Record t : Type := mk { roomId : value; candidateId : value }.
End TransferOwnershipDto.

Module InviteToRoomDto.
Record t : Type := mk { roomId : value; guestId : value }.
End InviteToRoomDto.

Module RespondInvitationDto.
Record t : Type := mk { roomId : value; isAccpeted : value }.
End RespondInvitationDto.

(** The socket of the caller: its id, and the user id an interceptor
    has bound to it. *)
Module Client.
Record t : Type := mk { id : string; userId : value }.
End Client.

(** ** Property reads on the object bound to [room] *)

Class RoomProps (T : Type) : Type := {
  get_id : T → option string;
  get_ownerId : T → option value;
  get_memberIds : T → option (list value);
  get_waitingIds : T → option (list value);
  get_refusedIds : T → option (list value);
}.

(** A room has them all. *)
#[export] Instance Room_props : RoomProps Room := {|
  get_id room := Some (id room);
  get_ownerId room := Some (ownerId room);
  get_memberIds room := Some (memberIds room);
  get_waitingIds room := Some (waitingIds room);
  get_refusedIds room := Some (refusedIds room);
|}.

(** The object [kick] returns has the properties [room] and
    [kickedMemberSId] or [kickedMemberSocketId], and no other. *)
#[export] Instance KickResult_props : RoomProps KickResult.t := {|
  get_id _ := None;
  get_ownerId _ := None;
  get_memberIds _ := None;
  get_waitingIds _ := None;
  get_refusedIds _ := None;
|}.

(** The object [respondInvitation] returns has the properties [room]
    and [leftRooms], and no other. *)
#[export] Instance RespondResult_props : RoomProps RespondResult.t := {|
  get_id _ := None;
  get_ownerId _ := None;
  get_memberIds _ := None;
  get_waitingIds _ := None;
  get_refusedIds _ := None;
|}.

(** [const { room, guestSIds } = ...]: the object [invite] returns has
    the properties [room] and [guestSocketId]. *)
Definition guestSIds (result : InviteResult.t) : room_name := undefined.

(** ** What a handler emits *)

(** The [room] object of a [ReceiveRoomChanges] emission; a key the
    literal does not write, or writes as [undefined], is [None]. *)
Module RoomView.
Record t : Type := mk {
  id : option string;
  ownerId : option value;
  memberIds : option (list value);
  waitingIds : option (list value);
  refusedIds : option (list value);
}.
End RoomView.

Inductive data : Type :=
| FriendStatus (id : value) (status : option ActiveStatus.t)
| ErrorReport (event : ListenEvent.t) (message : exn)
| Rejection (event : option ListenEvent.t) (message : exn)
| PrivateMessage (payload : SendPrivateMessageDto.t) (senderId : value)
| GroupMessage (payload : SendGroupMessageDto.t) (senderId : value)
| RoomInvitation (roomId : option string) (inviterId : value)
| RoomChanges (event : RoomEvent.t) (actorId : value) (room : RoomView.t).

(** What a handler does to the sockets. *)
Inductive action : Type :=
| SocketJoin (sid : string) (room : room_name)
| SocketLeave (sid : string) (room : room_name)
| Emit (to : SocketIO.target) (event : EmitEvent.t) (payload : data)
| SocketDisconnect (sid : string).

(** ** The services outside this repository

    [UserService], [ConnectionService] and [MessageService] work on the
    shared store and on state of their own ([E]); each call returns or
    throws. *)
Definition ext_op (E A : Type) : Type := store * E → outcome A * (store * E).

Class Services (E : Type) : Type := {
  User : Type;
  user_id : User → value;
  validateConnection : Client.t → ext_op E User;
  connect : User → string → ext_op E unit;
  disconnect : User → string → ext_op E unit;
  getBySocketId : string → ext_op E (option User);
  getOnlineFriendsSocketIds : value → ext_op E (list (list string));
  areFriends : value → value → ext_op E bool;
  getSocketIds : value → ext_op E (list string);
  createPrivateMessage : value → SendPrivateMessageDto.t → ext_op E unit;
}.

(** ** The decorators of a handler

    [@UseInterceptors(...)] lists what runs before the handler, in
    order; [@SubscribeMessage(event)] names the event that reaches it.
    The interceptors themselves are not part of the sources: by their
    names, one binds the name of the event to the socket, for the
    report of a rejection, and the other binds the id of the user the
    socket belongs to, which is what the handlers read as
    [client.userId].  Where that id comes from is [socketUserId]. *)
Inductive interceptor : Type :=
| EventNameBindingInterceptor (event : ListenEvent.t)
| SocketUserIdBindingInterceptor.

#[export] Instance ListenEvent_eq_dec : EqDecision ListenEvent.t.
Proof. solve_decision. Defined.

#[export] Instance interceptor_eq_dec : EqDecision interceptor.
Proof. solve_decision. Defined.

Class Interceptors (E : Type) : Type := {
  socketUserId : string → ext_op E value;
}.

(** The socket of a request as the interceptors have left it. *)
Module ExecutionContext.
Record t : Type := mk {
  client : Client.t;
  eventName : option ListenEvent.t;
}.
End ExecutionContext.

(** ** Handlers as state transformers *)

Record world (E : Type) : Type := World {
  kv : store;
  ext : E;
  net : SocketIO.t;
  out : list action;
}.
Arguments World {E} kv ext net out.
Arguments kv {E} w.
Arguments ext {E} w.
Arguments net {E} w.
Arguments out {E} w.

Definition gw (E A : Type) : Type := world E → outcome A * world E.

Section monad.
Context {E : Type}.

Definition ret {A : Type} (a : A) : gw E A := λ w, (Ok a, w).

Definition throw {A : Type} (e : exn) : gw E A := λ w, (Err e, w).

Definition gbind {A B : Type} (m : gw E A) (f : A → gw E B) : gw E B :=
  λ w, match m w with
       | (Ok a, w') => f a w'
       | (Err e, w') => (Err e, w')
       end.

(** [try { body } catch (error) { handler }]. *)
Definition try_catch {A : Type} (body : gw E A) (handler : exn → gw E A) : gw E A :=
  λ w, match body w with
       | (Ok a, w') => (Ok a, w')
       | (Err error, w') => handler error w'
       end.

(** [await this.roomService.m(...)] at clock reading [now]. *)
Definition service {A : Type} (now : Z) (p : prog A) : gw E A :=
  λ w, let '(r, s) := run now p (kv w) in (r, World s (ext w) (net w) (out w)).

(** [await this.userService.m(...)] and the like. *)
Definition external {A : Type} (op : ext_op E A) : gw E A :=
  λ w, let '(r, (s, e)) := op (kv w, ext w) in (r, World s e (net w) (out w)).

(** The rooms change and the action is logged. *)
Definition act (a : action) (f : SocketIO.t → SocketIO.t) : gw E unit :=
  λ w, (Ok tt, World (kv w) (ext w) (f (net w)) (out w ++ [a])).

(** [client.join(r)], [client.leave(r)], [client.disconnect()]. *)
Definition client_join (client : Client.t) (r : room_name) : gw E unit :=
  act (SocketJoin (Client.id client) r) (SocketIO.join (Client.id client) r).

Definition client_leave (client : Client.t) (r : room_name) : gw E unit :=
  act (SocketLeave (Client.id client) r) (SocketIO.leave (Client.id client) r).

Definition client_disconnect (client : Client.t) : gw E unit :=
  act (SocketDisconnect (Client.id client)) (SocketIO.disconnect (Client.id client)).

(** [op.emit(event, payload)] on a socket or a broadcast operator. *)
Definition emit (to : SocketIO.target) (event : EmitEvent.t) (payload : data) : gw E unit :=
  act (Emit to event payload) (λ n, n).

End monad.

(** [this.server.to(rooms)...] and [client.to(rooms)]: a new broadcast
    operator; the socket it was made from is excepted. *)
Definition server_to (rooms : list room_name) : SocketIO.target :=
  SocketIO.ToRooms rooms [].

Definition client_to (client : Client.t) (rooms : list room_name) : SocketIO.target :=
  SocketIO.ToRooms rooms [Client.id client].

(** A handler with its decorators. *)
Record endpoint (E : Type) : Type := Endpoint {
  subscribes : ListenEvent.t;
  interceptors : list interceptor;
  handle : Client.t → gw E unit;
}.
Arguments Endpoint {E} subscribes interceptors handle.
Arguments subscribes {E} e.
Arguments interceptors {E} e.
Arguments handle {E} e client.

Declare Scope gw_scope.
Delimit Scope gw_scope with gw.
Bind Scope gw_scope with gw.

Notation "'let*' x := p 'in' q" := (gbind p (λ x, q))
  (at level 10, x name, p at level 100, q at level 200,
   format "'[v' 'let*'  x  :=  p  'in' '/' q ']'") : gw_scope.

#[local] Open Scope gw_scope.

Module TextChatGateway.
Section TextChatGateway.
Context (allowJoinMultipleRooms : bool) `{!JSON.Codec}.
Context {E : Type} {services : Services E} {binding : Interceptors E}.
Context (now : Z).

#[local] Abbreviation roomService := (service now).

Definition handleConnection (client : Client.t) : gw E unit :=
  try_catch
    (let* user := external (validateConnection client) in
     let* _ := external (connect user (Client.id client)) in
     let* friendsSids := external (getOnlineFriendsSocketIds (user_id user)) in
     let _ := (λ sids, client_to client (named <$> sids)) <$> friendsSids in
     emit (SocketIO.ToSocket (Client.id client)) EmitEvent.UpdateFriendStatus
       (FriendStatus (user_id user) (Some ActiveStatus.Online)))
    (λ error,
     let* _ := emit (SocketIO.ToSocket (Client.id client)) EmitEvent.Error
                 (ErrorReport ListenEvent.Connect error) in
     client_disconnect client).

Definition handleDisconnect (client : Client.t) : gw E unit :=
  let* user := external (getBySocketId (Client.id client)) in
  match user with
  | Some user =>
      let* _ := external (disconnect user (Client.id client)) in
      let* friendsSids := external (getOnlineFriendsSocketIds (user_id user)) in
      let _ := (λ sids, client_to client (named <$> sids)) <$> friendsSids in
      emit (SocketIO.ToSocket (Client.id client)) EmitEvent.UpdateFriendStatus
        (FriendStatus (user_id user) None)
  | None => ret tt
  end.

Definition sendPrivateMessage (client : Client.t) (payload : SendPrivateMessageDto.t)
    : gw E unit :=
  let* friends := external (areFriends (Client.userId client)
                              (SendPrivateMessageDto.receiverId payload)) in
  if negb friends
  then throw (WsException "Only friends can send messages to each other!")
  else
    let* _ := external (createPrivateMessage (Client.userId client) payload) in
    let* sids := external (getSocketIds (SendPrivateMessageDto.receiverId payload)) in
    emit (server_to (named <$> sids)) EmitEvent.ReceivePrivateMessage
      (PrivateMessage payload (Client.userId client)).

(** [book(client.userId)]: [isPublic] takes its default, [false]. *)
Definition handleCreateRoom (client : Client.t) : gw E unit :=
  let* room := roomService (RoomService.book allowJoinMultipleRooms (Client.userId client) false) in
  let* _ := client_join client (name (get_id room)) in
  emit (SocketIO.ToSocket (Client.id client)) EmitEvent.ReceiveRoomChanges
    (RoomChanges RoomEvent.Create (Client.userId client)
       (RoomView.mk (get_id room) None None None None)).

Definition handleJoinRoom (client : Client.t) (payload : JoinRoomDto.t) : gw E unit :=
  let* room := roomService (RoomService.join allowJoinMultipleRooms
                              (JoinRoomDto.roomId payload) (Client.userId client)) in
  let* _ := client_join client (name (get_id room)) in
  emit (server_to [name (get_id room)]) EmitEvent.ReceiveRoomChanges
    (RoomChanges RoomEvent.Join (Client.userId client)
       (RoomView.mk (get_id room) None (get_memberIds room)
          (get_waitingIds room) (get_refusedIds room))).

Definition handleLeaveRoom (client : Client.t) (payload : LeaveRoomDto.t) : gw E unit :=
  let* room := roomService (RoomService.leave
                              (LeaveRoomDto.roomId payload) (Client.userId client)) in
  let* _ := client_leave client (name (get_id room)) in
  emit (server_to [named (Client.id client); name (get_id room)])
    EmitEvent.ReceiveRoomChanges
    (RoomChanges RoomEvent.Leave (Client.userId client)
       (RoomView.mk (get_id room) None (get_memberIds room) None None)).

Definition handleKickOutOfRoom (client : Client.t) (payload : KickOutOfRoomDto.t)
    : gw E unit :=
  let* room := roomService (RoomService.kick
                              (KickOutOfRoomDto.roomId payload) (Client.userId client)
                              (KickOutOfRoomDto.memberId payload)) in
  let* _ := client_leave client (name (get_id room)) in
  emit (server_to [named (Client.id client); name (get_id room)])
    EmitEvent.ReceiveRoomChanges
    (RoomChanges RoomEvent.Kick (Client.userId client)
       (RoomView.mk (get_id room) None (get_memberIds room) None None)).

Definition handleSendGroupMessage (client : Client.t) (payload : SendGroupMessageDto.t)
    : gw E unit :=
  let* room := roomService (RoomService.get (SendGroupMessageDto.roomId payload)) in
  if negb (includes (Client.userId client) (memberIds room))
  then throw (WsException "You are not in this room!")
  else
    emit (client_to client [Some (SendGroupMessageDto.roomId payload)])
      EmitEvent.ReceiveGroupMessage
      (GroupMessage payload (Client.userId client)).

Definition handleTransferOwnership (client : Client.t) (payload : TransferOwnershipDto.t)
    : gw E unit :=
  let* room := roomService (RoomService.transferOwnership
                              (TransferOwnershipDto.roomId payload) (Client.userId client)
                              (TransferOwnershipDto.candidateId payload)) in
  emit (server_to [name (get_id room)]) EmitEvent.ReceiveRoomChanges
    (RoomChanges RoomEvent.Owner (Client.userId client)
       (RoomView.mk (get_id room) (get_ownerId room) None None None)).

Definition handleInviteToRoom (client : Client.t) (payload : InviteToRoomDto.t)
    : gw E unit :=
  let* result := roomService (RoomService.invite
                                (InviteToRoomDto.roomId payload) (Client.userId client)
                                (InviteToRoomDto.guestId payload)) in
  let room := InviteResult.room result in
  let* _ := emit (server_to [guestSIds result]) EmitEvent.ReceiveRoomInvitation
              (RoomInvitation (get_id room) (Client.userId client)) in
  emit (server_to [name (get_id room)]) EmitEvent.ReceiveRoomChanges
    (RoomChanges RoomEvent.Invite (Client.userId client)
       (RoomView.mk (get_id room) None None (get_waitingIds room) None)).

Definition handleRespondInvitation (client : Client.t) (payload : RespondInvitationDto.t)
    : gw E unit :=
  let* room := roomService (RoomService.respondInvitation allowJoinMultipleRooms
                              (RespondInvitationDto.roomId payload) (Client.userId client)
                              (RespondInvitationDto.isAccpeted payload)) in
  let* _ := if truthy (RespondInvitationDto.isAccpeted payload)
            then client_join client (name (get_id room))
            else ret tt in
  emit (server_to [name (get_id room)]) EmitEvent.ReceiveRoomChanges
    (RoomChanges RoomEvent.Join (Client.userId client)
       (RoomView.mk (get_id room) None (get_memberIds room)
          (get_waitingIds room) (get_refusedIds room))).

(** ** Routing

    What the framework calls when a socket connects, closes, or sends a
    named event ([@SubscribeMessage]). *)
Inductive message : Type :=
| SendPrivateMessage (payload : SendPrivateMessageDto.t)
| CreateRoom
| JoinRoom (payload : JoinRoomDto.t)
| LeaveRoom (payload : LeaveRoomDto.t)
| KickOutOfRoom (payload : KickOutOfRoomDto.t)
| SendGroupMessage (payload : SendGroupMessageDto.t)
| TranserOwnership (payload : TransferOwnershipDto.t)
| InviteToRoom (payload : InviteToRoomDto.t)
| RespondInvitation (payload : RespondInvitationDto.t).

(** The name under which a socket sends a message. *)
Definition event_of (m : message) : ListenEvent.t :=
  match m with
  | SendPrivateMessage _ => ListenEvent.SendPrivateMessage
  | CreateRoom => ListenEvent.CreateRoom
  | JoinRoom _ => ListenEvent.JoinRoom
  | LeaveRoom _ => ListenEvent.LeaveRoom
  | KickOutOfRoom _ => ListenEvent.KickOutOfRoom
  | SendGroupMessage _ => ListenEvent.SendGroupMessage
  | TranserOwnership _ => ListenEvent.TranserOwnership
  | InviteToRoom _ => ListenEvent.InviteToRoom
  | RespondInvitation _ => ListenEvent.RespondInvitation
  end.

Definition on_message (client : Client.t) (m : message) : gw E unit :=
  match m with
  | SendPrivateMessage payload => sendPrivateMessage client payload
  | CreateRoom => handleCreateRoom client
  | JoinRoom payload => handleJoinRoom client payload
  | LeaveRoom payload => handleLeaveRoom client payload
  | KickOutOfRoom payload => handleKickOutOfRoom client payload
  | SendGroupMessage payload => handleSendGroupMessage client payload
  | TranserOwnership payload => handleTransferOwnership client payload
  | InviteToRoom payload => handleInviteToRoom client payload
  | RespondInvitation payload => handleRespondInvitation client payload
  end.

(** ** The handlers behind their decorators *)

Definition onSendPrivateMessage (payload : SendPrivateMessageDto.t) : endpoint E :=
  Endpoint ListenEvent.SendPrivateMessage
    [EventNameBindingInterceptor ListenEvent.SendPrivateMessage;
     SocketUserIdBindingInterceptor]
    (λ client, sendPrivateMessage client payload).

Definition onCreateRoom : endpoint E :=
  Endpoint ListenEvent.CreateRoom
    [EventNameBindingInterceptor ListenEvent.CreateRoom;
     SocketUserIdBindingInterceptor]
    (λ client, handleCreateRoom client).

Definition onJoinRoom (payload : JoinRoomDto.t) : endpoint E :=
  Endpoint ListenEvent.JoinRoom
    [EventNameBindingInterceptor ListenEvent.JoinRoom;
     SocketUserIdBindingInterceptor]
    (λ client, handleJoinRoom client payload).

Definition onLeaveRoom (payload : LeaveRoomDto.t) : endpoint E :=
  Endpoint ListenEvent.LeaveRoom
    [EventNameBindingInterceptor ListenEvent.LeaveRoom;
     SocketUserIdBindingInterceptor]
    (λ client, handleLeaveRoom client payload).

Definition onKickOutOfRoom (payload : KickOutOfRoomDto.t) : endpoint E :=
  Endpoint ListenEvent.KickOutOfRoom
    [EventNameBindingInterceptor ListenEvent.KickOutOfRoom;
     SocketUserIdBindingInterceptor]
    (λ client, handleKickOutOfRoom client payload).

Definition onSendGroupMessage (payload : SendGroupMessageDto.t) : endpoint E :=
  Endpoint ListenEvent.SendGroupMessage
    [EventNameBindingInterceptor ListenEvent.SendGroupMessage;
     SocketUserIdBindingInterceptor]
    (λ client, handleSendGroupMessage client payload).

Definition onTranserOwnership (payload : TransferOwnershipDto.t) : endpoint E :=
  Endpoint ListenEvent.TranserOwnership
    [EventNameBindingInterceptor ListenEvent.TranserOwnership;
     SocketUserIdBindingInterceptor]
    (λ client, handleTransferOwnership client payload).

Definition onInviteToRoom (payload : InviteToRoomDto.t) : endpoint E :=
  Endpoint ListenEvent.InviteToRoom
    [EventNameBindingInterceptor ListenEvent.InviteToRoom;
     SocketUserIdBindingInterceptor]
    (λ client, handleInviteToRoom client payload).

Definition onRespondInvitation (payload : RespondInvitationDto.t) : endpoint E :=
  Endpoint ListenEvent.RespondInvitation
    [EventNameBindingInterceptor ListenEvent.RespondInvitation;
     SocketUserIdBindingInterceptor]
    (λ client, handleRespondInvitation client payload).

(** The endpoint a message reaches. *)
Definition endpoint_of (m : message) : endpoint E :=
  match m with
  | SendPrivateMessage payload => onSendPrivateMessage payload
  | CreateRoom => onCreateRoom
  | JoinRoom payload => onJoinRoom payload
  | LeaveRoom payload => onLeaveRoom payload
  | KickOutOfRoom payload => onKickOutOfRoom payload
  | SendGroupMessage payload => onSendGroupMessage payload
  | TranserOwnership payload => onTranserOwnership payload
  | InviteToRoom payload => onInviteToRoom payload
  | RespondInvitation payload => onRespondInvitation payload
  end.

(** One interceptor, before the handler. *)
Definition intercept (i : interceptor) (ctx : ExecutionContext.t) : gw E ExecutionContext.t :=
  match i with
  | EventNameBindingInterceptor event =>
      ret (ExecutionContext.mk (ExecutionContext.client ctx) (Some event))
  | SocketUserIdBindingInterceptor =>
      let* userId := external (socketUserId (Client.id (ExecutionContext.client ctx))) in
      ret (ExecutionContext.mk (Client.mk (Client.id (ExecutionContext.client ctx)) userId)
             (ExecutionContext.eventName ctx))
  end.

(** The filter: what was thrown is reported to the socket of the
    request, under the name bound so far, and the socket stays
    connected. *)
Definition WsExceptionsFilter (ctx : ExecutionContext.t) (error : exn) : gw E unit :=
  emit (SocketIO.ToSocket (Client.id (ExecutionContext.client ctx))) EmitEvent.Error
    (Rejection (ExecutionContext.eventName ctx) error).

(** [@UseFilters(new WsExceptionsFilter())] on the class: whatever is
    thrown on the way to a handler or inside it goes to the filter. *)
Definition UseFilters (ctx : ExecutionContext.t) (body : gw E unit) : gw E unit :=
  try_catch body (WsExceptionsFilter ctx).

(** The interceptors in order, then the handler on the socket they
    have bound. *)
Fixpoint intercepted (chain : list interceptor) (next : Client.t → gw E unit)
    (ctx : ExecutionContext.t) : gw E unit :=
  match chain with
  | [] => UseFilters ctx (next (ExecutionContext.client ctx))
  | i :: chain' =>
      λ w, match intercept i ctx w with
           | (Ok ctx', w') => intercepted chain' next ctx' w'
           | (Err error, w') => UseFilters ctx (throw error) w'
           end
  end.

(** A message of a socket goes through the decorators of its
    endpoint. *)
Definition deliver (ep : endpoint E) (client : Client.t) : gw E unit :=
  intercepted (interceptors ep) (handle ep) (ExecutionContext.mk client None).

(** A socket is accepted, then [handleConnection] runs. *)
Definition on_connection (client : Client.t) : gw E unit :=
  λ w, handleConnection client
         (World (kv w) (ext w) (SocketIO.connect (Client.id client) (net w)) (out w)).

(** A socket has left its rooms, then [handleDisconnect] runs. *)
Definition on_disconnect (client : Client.t) : gw E unit :=
  λ w, handleDisconnect client
         (World (kv w) (ext w) (SocketIO.disconnect (Client.id client) (net w)) (out w)).

(** What reaches the gateway from one socket. *)
Inductive input : Type :=
| Connection
| Disconnection
| Message (m : message).

Definition on_input (client : Client.t) (i : input) : gw E unit :=
  match i with
  | Connection => on_connection client
  | Disconnection => on_disconnect client
  | Message m => deliver (endpoint_of m) client
  end.

End TextChatGateway.

(** The inputs handled one after the other, each at the reading of the
    clock it comes with. *)
Fixpoint serve (allowJoinMultipleRooms : bool) `{!JSON.Codec} {E : Type}
    {services : Services E} {binding : Interceptors E}
    (inputs : list (Z * Client.t * input)) (w : world E)
    : world E :=
  match inputs with
  | [] => w
  | (now, client, i) :: inputs' =>
      serve allowJoinMultipleRooms inputs' (on_input allowJoinMultipleRooms now client i w).2
  end.

End TextChatGateway.
