(* ===== verification/GatewaySpec.v ===== *)
(** * GatewaySpec: what the handlers of the gateway do

    Every room handler is a call of the room service followed by socket
    actions.  [handles] states such a handler against the pure reading
    of the service method it calls, with the arguments in the order of
    the call site: the store follows the pure function, and the sockets
    change only when the method returned.  The theorems then say what
    the order of the arguments and the property reads make of each
    handler. *)

From stdpp Require Import strings gmap.
From S2P Require Import Prelude JsArray JsValue Redis Room Json Prog Service.
From S2P Require Import Model Invariant Refine LeaveMany Reach Scene Socket Gateway.
Import RoomService TextChatGateway.

#[local] Open Scope string_scope.
#[local] Open Scope list_scope.
#[local] Open Scope Z_scope.

Section handles.
Context `{!JSON.Codec} {E : Type}.
Implicit Types (w : world E) (d : db).

(** A handler [h] run in [w], whose store represents [d], follows the
    pure function [f]: when [f] returns [a] the sockets change by
    [fx a] and the actions [acts a] are logged; when [f] throws, the
    handler throws the same and the sockets are left alone. *)
Definition handles {A : Type} (h : gw E unit) (f : db → outcome A * db)
    (fx : A → SocketIO.t → SocketIO.t) (acts : A → list action) w d : Prop :=
  represents (kv (h w).2) (f d).2 ∧ ext (h w).2 = ext w ∧
  match (f d).1 with
  | Ok a => (h w).1 = Ok tt ∧ net (h w).2 = fx a (net w) ∧ out (h w).2 = out w ++ acts a
  | Err e => (h w).1 = Err e ∧ net (h w).2 = net w ∧ out (h w).2 = out w
  end.

(** The sockets are as they were and nothing was emitted. *)
Definition quiet w w' : Prop := net w' = net w ∧ out w' = out w.

(** An emission that reaches every connected socket. *)
Definition broadcast w (to : SocketIO.target) : Prop :=
  SocketIO.receivers to (net w) = dom (net w).

(** The call failed with one of the messages. *)
Definition refused {A : Type} (r : outcome A) (messages : list string) : Prop :=
  ∃ m, r = Err (WsException m) ∧ m ∈ messages.

(** A call of the room service, then the rest of the handler. *)
Lemma gbind_service {A B : Type} now (p : prog A) (k : A → gw E B) w :
  gbind (service now p) k w =
  match (run now p (kv w)).1 with
  | Ok a => k a (World (run now p (kv w)).2 (ext w) (net w) (out w))
  | Err e => (Err e, World (run now p (kv w)).2 (ext w) (net w) (out w))
  end.
Proof. unfold gbind, service. by destruct (run now p (kv w)) as [[a|e] s]. Qed.

(** The rest of the handler only acts on the sockets. *)
Lemma service_handles {A : Type} now (p : prog A) f (k : A → gw E unit) fx acts w d :
  refines now p f → represents (kv w) d →
  (∀ a w0, k a w0 = (Ok tt, World (kv w0) (ext w0) (fx a (net w0)) (out w0 ++ acts a))) →
  handles (gbind (service now p) k) f fx acts w d.
Proof.
  intros Hp Hr Hk. destruct (refines_run now p f (kv w) d Hp Hr) as [Hout Hrep].
  unfold handles. rewrite gbind_service, Hout.
  destruct (f d).1 as [a|e]; [rewrite Hk|]; done.
Qed.

(** A handler that throws has done nothing to the sockets, whatever
    the store holds. *)
Lemma service_silent {A : Type} now (p : prog A) (k : A → gw E unit) w e :
  (∀ a w0, ∃ w1, k a w0 = (Ok tt, w1)) →
  (gbind (service now p) k w).1 = Err e → quiet w (gbind (service now p) k w).2.
Proof.
  intros Hk. rewrite gbind_service. destruct (run now p (kv w)).1 as [a|e']; [|done].
  destruct (Hk a (World (run now p (kv w)).2 (ext w) (net w) (out w))) as [w1 ->]. done.
Qed.

(** The rest of the handler leaves a socket alone: so does the handler. *)
Lemma service_keeps {A : Type} now (p : prog A) (k : A → gw E unit) w (sid : string) :
  (∀ a w0, net (k a w0).2 !! sid = net w0 !! sid) →
  net (gbind (service now p) k w).2 !! sid = net w !! sid.
Proof.
  intros Hk. rewrite gbind_service. destruct (run now p (kv w)).1 as [a|e]; [|done].
  by rewrite Hk.
Qed.

End handles.

Section handlers.
Context (allowJoinMultipleRooms : bool) `{!JSON.Codec}.
Context {E : Type} {services : Services E}.
Context (now : Z).
Implicit Types (w : world E) (d : db) (client : Client.t).

#[local] Abbreviation handleCreateRoom := (handleCreateRoom (E:=E) allowJoinMultipleRooms now).
#[local] Abbreviation handleJoinRoom := (handleJoinRoom (E:=E) allowJoinMultipleRooms now).
#[local] Abbreviation handleLeaveRoom := (handleLeaveRoom (E:=E) now).
#[local] Abbreviation handleKickOutOfRoom := (handleKickOutOfRoom (E:=E) now).
#[local] Abbreviation handleSendGroupMessage := (handleSendGroupMessage (E:=E) now).
#[local] Abbreviation handleTransferOwnership := (handleTransferOwnership (E:=E) now).
#[local] Abbreviation handleInviteToRoom := (handleInviteToRoom (E:=E) now).
#[local] Abbreviation handleRespondInvitation :=
  (handleRespondInvitation (E:=E) allowJoinMultipleRooms now).

(** ** Each room handler against the method it calls *)

Lemma handleCreateRoom_handles client w d :
  represents (kv w) d →
  handles (handleCreateRoom client)
    (Pure.book allowJoinMultipleRooms now (Client.userId client) false)
    (λ room, SocketIO.join (Client.id client) (named (id room)))
    (λ room, [SocketJoin (Client.id client) (named (id room));
              Emit (SocketIO.ToSocket (Client.id client)) EmitEvent.ReceiveRoomChanges
                (RoomChanges RoomEvent.Create (Client.userId client)
                   (RoomView.mk (Some (id room)) None None None None))])
    w d.
Proof.
  intros Hr. apply service_handles; [apply book_refines|done|].
  intros room w0. unfold gbind, client_join, emit, act. simpl. by rewrite <-app_assoc.
Qed.

Lemma handleLeaveRoom_handles client payload w d :
  represents (kv w) d →
  handles (handleLeaveRoom client payload)
    (Pure.leave (LeaveRoomDto.roomId payload) (Client.userId client))
    (λ room, SocketIO.leave (Client.id client) (named (id room)))
    (λ room, [SocketLeave (Client.id client) (named (id room));
              Emit (server_to [named (Client.id client); named (id room)])
                EmitEvent.ReceiveRoomChanges
                (RoomChanges RoomEvent.Leave (Client.userId client)
                   (RoomView.mk (Some (id room)) None (Some (memberIds room)) None None))])
    w d.
Proof.
  intros Hr. apply service_handles; [apply leave_refines|done|].
  intros room w0. unfold gbind, client_leave, emit, act. simpl. by rewrite <-app_assoc.
Qed.

(** [const room = await kick(...)] binds the object [kick] returns:
    every property read on it is [undefined]. *)
Lemma handleKickOutOfRoom_handles client payload w d :
  represents (kv w) d →
  handles (handleKickOutOfRoom client payload)
    (Pure.kick (KickOutOfRoomDto.roomId payload) (Client.userId client)
       (KickOutOfRoomDto.memberId payload))
    (λ _, SocketIO.leave (Client.id client) undefined)
    (λ _, [SocketLeave (Client.id client) undefined;
           Emit (server_to [named (Client.id client); undefined])
             EmitEvent.ReceiveRoomChanges
             (RoomChanges RoomEvent.Kick (Client.userId client)
                (RoomView.mk None None None None None))])
    w d.
Proof.
  intros Hr. apply service_handles; [apply kick_refines|done|].
  intros room w0. unfold gbind, client_leave, emit, act. simpl. by rewrite <-app_assoc.
Qed.

Lemma handleTransferOwnership_handles client payload w d :
  represents (kv w) d →
  handles (handleTransferOwnership client payload)
    (Pure.transferOwnership (TransferOwnershipDto.roomId payload) (Client.userId client)
       (TransferOwnershipDto.candidateId payload))
    (λ _ n, n)
    (λ room, [Emit (server_to [named (id room)]) EmitEvent.ReceiveRoomChanges
                (RoomChanges RoomEvent.Owner (Client.userId client)
                   (RoomView.mk (Some (id room)) (Some (ownerId room)) None None None))])
    w d.
Proof.
  intros Hr. apply service_handles; [apply transferOwnership_refines|done|].
  intros room w0. by unfold emit, act.
Qed.

(** [const { room, guestSIds } = await invite(...)]: the invitation goes
    to the room [undefined]. *)
Lemma handleInviteToRoom_handles client payload w d :
  represents (kv w) d →
  handles (handleInviteToRoom client payload)
    (Pure.invite (InviteToRoomDto.roomId payload) (Client.userId client)
       (InviteToRoomDto.guestId payload))
    (λ _ n, n)
    (λ result,
       let room := InviteResult.room result in
       [Emit (server_to [undefined]) EmitEvent.ReceiveRoomInvitation
          (RoomInvitation (Some (id room)) (Client.userId client));
        Emit (server_to [named (id room)]) EmitEvent.ReceiveRoomChanges
          (RoomChanges RoomEvent.Invite (Client.userId client)
             (RoomView.mk (Some (id room)) None None (Some (waitingIds room)) None))])
    w d.
Proof.
  intros Hr. apply service_handles; [apply invite_refines|done|].
  intros room w0. unfold gbind, emit, act. simpl. by rewrite <-app_assoc.
Qed.

(** [const room = await respondInvitation(...)] binds the object the
    method returns: the socket joins the room [undefined]. *)
Lemma handleRespondInvitation_handles client payload w d :
  represents (kv w) d →
  let accepted := truthy (RespondInvitationDto.isAccpeted payload) in
  handles (handleRespondInvitation client payload)
    (Pure.respondInvitation allowJoinMultipleRooms (RespondInvitationDto.roomId payload)
       (Client.userId client) (RespondInvitationDto.isAccpeted payload))
    (λ _ n, if accepted then SocketIO.join (Client.id client) undefined n else n)
    (λ _, (if accepted then [SocketJoin (Client.id client) undefined] else []) ++
          [Emit (server_to [undefined]) EmitEvent.ReceiveRoomChanges
             (RoomChanges RoomEvent.Join (Client.userId client)
                (RoomView.mk None None None None None))])
    w d.
Proof.
  intros Hr accepted. apply service_handles; [apply respondInvitation_refines|done|].
  intros room w0. unfold gbind, client_join, emit, act, ret. subst accepted.
  destruct (truthy _); simpl; [by rewrite <-app_assoc|done].
Qed.

(** ** What the handlers promise, and what they do instead *)

#[local] Abbreviation inv := (inv allowJoinMultipleRooms).

(** C31: [handleCreateRoom] books a room for the caller, always a
    private one, puts the caller's socket in the room of that id and
    tells the caller alone; the store keeps its invariant.  When the
    policy refuses, the handler throws and no socket is touched. *)
Theorem handleCreateRoom_correct client w d :
  represents (kv w) d → inv d →
  is_number (Client.userId client) = true → room_of d (VNum now) = None →
  handles (handleCreateRoom client)
    (Pure.book allowJoinMultipleRooms now (Client.userId client) false)
    (λ room, SocketIO.join (Client.id client) (named (id room)))
    (λ room, [SocketJoin (Client.id client) (named (id room));
              Emit (SocketIO.ToSocket (Client.id client)) EmitEvent.ReceiveRoomChanges
                (RoomChanges RoomEvent.Create (Client.userId client)
                   (RoomView.mk (Some (id room)) None None None None))])
    w d ∧
  inv (Pure.book allowJoinMultipleRooms now (Client.userId client) false d).2.
Proof.
  intros Hr Hi Hu Hfresh. split; [by apply handleCreateRoom_handles|by apply book_inv].
Qed.

(** A room made through the gateway refuses every [join]: it is
    private, and no handler makes a room public. *)
Theorem created_room_refuses_join client w d joiner now' :
  represents (kv w) d →
  (handleCreateRoom client w).1 = Ok tt →
  refused (run now' (join allowJoinMultipleRooms joiner (VStr (to_string (VNum now))))
             (kv (handleCreateRoom client w).2)).1
    ["This room is private!"; "Please leave current room before joining another one!"].
Proof.
  intros Hr Hok. destruct (handleCreateRoom_handles client w d Hr) as (Hrep & _ & Hm).
  unfold Pure.book in Hrep, Hm. destruct (Pure.singleRoomGuard _ _ d); cbn [fst snd] in *.
  { destruct Hm as [Hm _]. congruence. }
  set (rid := VStr (to_string (VNum now))).
  destruct (refines_run now' _ _ _ _ (join_refines allowJoinMultipleRooms now' joiner rid) Hrep)
    as [-> _].
  unfold Pure.join. destruct (Pure.singleRoomGuard _ joiner _);
    [eexists; split; [done|set_solver]|].
  rewrite room_of_enter by done. simpl. eexists; split; [done|set_solver].
Qed.

(** C32: [handleJoinRoom] calls [join(payload.roomId, client.userId)]:
    the room id of the payload is entered as the joiner, into the room
    whose id is the text of the caller's user id. *)
Theorem handleJoinRoom_correct client payload w d :
  represents (kv w) d →
  handles (handleJoinRoom client payload)
    (Pure.join allowJoinMultipleRooms (JoinRoomDto.roomId payload) (Client.userId client))
    (λ room, SocketIO.join (Client.id client) (named (id room)))
    (λ room, [SocketJoin (Client.id client) (named (id room));
              Emit (server_to [named (id room)]) EmitEvent.ReceiveRoomChanges
                (RoomChanges RoomEvent.Join (Client.userId client)
                   (RoomView.mk (Some (id room)) None (Some (memberIds room))
                      (Some (waitingIds room)) (Some (refusedIds room))))])
    w d.
Proof.
  intros Hr. apply service_handles; [apply join_refines|done|].
  intros room w0. unfold gbind, client_join, emit, act. simpl. by rewrite <-app_assoc.
Qed.

(** C33: [handleKickOutOfRoom] binds the object [kick] returns to
    [room]: the socket that leaves is the caller's, the room it leaves
    is [undefined], and the notification names no room.  No socket
    leaves a room that has a name. *)
Theorem handleKickOutOfRoom_correct client payload w d :
  represents (kv w) d →
  handles (handleKickOutOfRoom client payload)
    (Pure.kick (KickOutOfRoomDto.roomId payload) (Client.userId client)
       (KickOutOfRoomDto.memberId payload))
    (λ _, SocketIO.leave (Client.id client) undefined)
    (λ _, [SocketLeave (Client.id client) undefined;
           Emit (server_to [named (Client.id client); undefined])
             EmitEvent.ReceiveRoomChanges
             (RoomChanges RoomEvent.Kick (Client.userId client)
                (RoomView.mk None None None None None))])
    w d ∧
  ∀ sid r, r ≠ undefined →
    sid ∈ SocketIO.inside r (net (handleKickOutOfRoom client payload w).2) ↔
    sid ∈ SocketIO.inside r (net w).
Proof.
  intros Hr.
  pose proof (handleKickOutOfRoom_handles client payload w d Hr) as Hh.
  split; [exact Hh|]. intros sid r Hne. destruct Hh as (_ & _ & Hm).
  destruct (Pure.kick _ _ _ d).1; destruct Hm as (_ & -> & _); [|done].
  apply SocketIO.inside_leave_other. by right.
Qed.

(** C34: [handleInviteToRoom] reads [guestSIds] from an object that has
    no such property: the invitation goes to the room [undefined], so
    while no socket sits there it reaches nobody, whoever was invited. *)
Theorem handleInviteToRoom_correct client payload w d :
  represents (kv w) d →
  handles (handleInviteToRoom client payload)
    (Pure.invite (InviteToRoomDto.roomId payload) (Client.userId client)
       (InviteToRoomDto.guestId payload))
    (λ _ n, n)
    (λ result,
       let room := InviteResult.room result in
       [Emit (server_to [guestSIds result]) EmitEvent.ReceiveRoomInvitation
          (RoomInvitation (Some (id room)) (Client.userId client));
        Emit (server_to [named (id room)]) EmitEvent.ReceiveRoomChanges
          (RoomChanges RoomEvent.Invite (Client.userId client)
             (RoomView.mk (Some (id room)) None None (Some (waitingIds room)) None))])
    w d ∧
  ∀ result, SocketIO.defined (net w) →
    SocketIO.receivers (server_to [guestSIds result])
      (net (handleInviteToRoom client payload w).2) = ∅.
Proof.
  intros Hr. pose proof (handleInviteToRoom_handles client payload w d Hr) as Hh.
  split; [exact Hh|]. intros result Hdef. destruct Hh as (_ & _ & Hm).
  destruct (Pure.invite _ _ _ d).1; destruct Hm as (_ & -> & _);
    by apply SocketIO.receivers_undefined.
Qed.

(** What [handleSendGroupMessage] asks of the store: the room, and the
    caller among its members. *)
Definition may_post (u rid : value) d : outcome Room * db :=
  match room_of d rid with
  | None => (Err (WsException "Room does not exist!"), d)
  | Some room =>
      if includes u (memberIds room) then (Ok room, d)
      else (Err (WsException "You are not in this room!"), d)
  end.

(** [handleSendGroupMessage] forwards the message of a member to the
    sockets of the room named in the payload, the sender's excepted;
    for a missing room or a caller who is not a member it throws, and
    nothing is sent.  The store is only read. *)
Theorem handleSendGroupMessage_correct client payload w d :
  represents (kv w) d →
  let to := client_to client [Some (SendGroupMessageDto.roomId payload)] in
  handles (handleSendGroupMessage client payload)
    (may_post (Client.userId client) (SendGroupMessageDto.roomId payload))
    (λ _ n, n)
    (λ _, [Emit to EmitEvent.ReceiveGroupMessage
             (GroupMessage payload (Client.userId client))])
    w d ∧
  Client.id client ∉ SocketIO.receivers to (net w).
Proof.
  intros Hr to. split.
  - destruct (refines_run now _ _ _ _ (get_refines now (SendGroupMessageDto.roomId payload)) Hr)
      as [Hout Hrep].
    unfold handles, may_post, handleSendGroupMessage, Pure.get in *.
    rewrite gbind_service, Hout.
    destruct (room_of d _) as [room|]; cbn [fst snd] in *; [|done].
    unfold throw, emit, act. by destruct (includes _ _).
  - intros [_ Hex]%SocketIO.elem_of_receivers_room. apply Hex. by left.
Qed.

(** An action that concerns the one socket of [client]. *)
Definition only_self client (a : action) : Prop :=
  match a with
  | Emit to _ _ => to = SocketIO.ToSocket (Client.id client)
  | SocketDisconnect sid => sid = Client.id client
  | _ => False
  end.

(** C26: [handleConnection] never throws, and whatever the services
    answer, all it emits goes to the connecting socket itself: the
    broadcast operators built for the friends are dropped, so no friend
    learns that the user is online. *)
Theorem handleConnection_notifies_self client w :
  (handleConnection client w).1 = Ok tt ∧
  ∃ acts, out (handleConnection client w).2 = out w ++ acts ∧
          Forall (only_self client) acts.
Proof.
  unfold handleConnection, try_catch, gbind, external, emit, client_disconnect, act.
  repeat case_match; simplify_eq/=; (split; [done|]);
    try (eexists; split; [reflexivity|by repeat constructor]);
    (eexists; split; [by rewrite <-app_assoc|by repeat constructor]).
Qed.

(** The same on the way out. *)
Lemma handleDisconnect_notifies_self client w :
  ∃ acts, out (handleDisconnect client w).2 = out w ++ acts ∧
          Forall (only_self client) acts.
Proof.
  unfold handleDisconnect, gbind, external, emit, act, ret.
  repeat case_match; simplify_eq/=;
    try (exists []; split; [by rewrite app_nil_r|constructor]).
  eexists; split; [reflexivity|by repeat constructor].
Qed.

(** [sendPrivateMessage] to a friend who has no socket: the message
    is emitted to no room at all, which socket.io reads as a broadcast,
    so every connected socket receives the private message. *)
Theorem sendPrivateMessage_offline_broadcast client payload w st1 st2 st3 :
  let u := Client.userId client in
  let receiver := SendPrivateMessageDto.receiverId payload in
  areFriends u receiver (kv w, ext w) = (Ok true, st1) →
  createPrivateMessage u payload st1 = (Ok tt, st2) →
  getSocketIds receiver st2 = (Ok [], st3) →
  ∃ to,
    (sendPrivateMessage client payload w).1 = Ok tt ∧
    net (sendPrivateMessage client payload w).2 = net w ∧
    out (sendPrivateMessage client payload w).2 =
      out w ++ [Emit to EmitEvent.ReceivePrivateMessage (PrivateMessage payload u)] ∧
    broadcast w to.
Proof.
  intros u receiver H1 H2 H3. exists (server_to []).
  unfold sendPrivateMessage, gbind, external, emit, act. fold u receiver.
  rewrite H1. destruct st1 as [s1 e1]. cbn [negb kv ext]. rewrite H2.
  destruct st2 as [s2 e2]. cbn [kv ext]. rewrite H3. destruct st3 as [s3 e3].
  split_and!; [done..|apply SocketIO.receivers_no_room].
Qed.

(** A handler of a message that throws has neither moved a socket
    nor emitted anything: every socket action comes after the last
    call that can fail. *)
Lemma on_message_error_silent client m w e :
  (on_message allowJoinMultipleRooms now client m w).1 = Err e →
  quiet w (on_message allowJoinMultipleRooms now client m w).2.
Proof.
  destruct m; cbn [on_message];
    try (apply service_silent; intros a w0;
         unfold gbind, client_join, client_leave, emit, act, ret;
         repeat case_match; simplify_eq/=; by eexists).
  - unfold sendPrivateMessage, gbind, external, throw, emit, act.
    repeat case_match; simplify_eq/=; done.
  - unfold TextChatGateway.handleSendGroupMessage. rewrite gbind_service.
    unfold throw, emit, act. repeat case_match; simplify_eq/=; done.
Qed.

(** ** Whose socket a handler moves *)

Context {binding : Interceptors E}.

(** The socket actions of a handler are applied to the caller's socket. *)
Lemma act_keeps client (sid : string) (r : room_name) w :
  sid ≠ Client.id client →
  net (client_join client r w).2 !! sid = net w !! sid ∧
  net (client_leave client r w).2 !! sid = net w !! sid ∧
  net (client_disconnect client w).2 !! sid = net w !! sid.
Proof.
  intros Hne. unfold client_join, client_leave, client_disconnect, act. cbn [snd net].
  rewrite SocketIO.lookup_join, SocketIO.lookup_leave, decide_False by done.
  split_and!; [done|by rewrite decide_False|]. by apply lookup_delete_ne.
Qed.

(** A message handler leaves the rooms of every other socket as they
    were. *)
Lemma on_message_keeps client m w (sid : string) :
  sid ≠ Client.id client →
  net (on_message allowJoinMultipleRooms now client m w).2 !! sid = net w !! sid.
Proof.
  intros Hne. destruct m; cbn [on_message];
    try (apply service_keeps; intros a w0);
    unfold sendPrivateMessage, gbind, external, client_join, client_leave, emit, act,
      ret, throw;
    repeat case_match; simplify_eq/=;
    rewrite ?SocketIO.lookup_join, ?SocketIO.lookup_leave, ?decide_False by done; done.
Qed.

(** A message handler disconnects no socket. *)
Lemma service_connected {A : Type} (p : prog A) (k : A → gw E unit) w :
  (∀ a w0, dom (net w0) ⊆ dom (net (k a w0).2)) →
  dom (net w) ⊆ dom (net (gbind (service now p) k w).2).
Proof.
  intros Hk. rewrite gbind_service. destruct (run now p (kv w)).1 as [a|e]; [|done].
  by etrans; [|apply Hk].
Qed.

Lemma on_message_connected client m w :
  dom (net w) ⊆ dom (net (on_message allowJoinMultipleRooms now client m w).2).
Proof.
  destruct m; cbn [on_message];
    try (apply service_connected; intros a w0);
    unfold sendPrivateMessage, gbind, external, client_join, client_leave, emit, act,
      ret, throw;
    repeat case_match; simplify_eq/=;
    rewrite ?SocketIO.dom_join, ?SocketIO.dom_leave; set_solver.
Qed.

(** The endpoint of a message runs its handler. *)
Lemma handle_endpoint_of m client :
  handle (endpoint_of allowJoinMultipleRooms now m) client =
    on_message allowJoinMultipleRooms now client m.
Proof. by destruct m. Qed.

(** An interceptor keeps the socket of the request and the rooms of
    all sockets. *)
Lemma intercept_keeps i ctx w :
  net (intercept i ctx w).2 = net w ∧
  out (intercept i ctx w).2 = out w ∧
  ∀ ctx', (intercept i ctx w).1 = Ok ctx' →
    Client.id (ExecutionContext.client ctx') = Client.id (ExecutionContext.client ctx).
Proof.
  destruct i; cbn [intercept]; unfold gbind, external, ret;
    repeat case_match; simplify_eq/=; split_and!; try done; by intros ? [= <-].
Qed.

(** The filter reports and touches no room. *)
Lemma WsExceptionsFilter_net ctx e (w : world E) : net (WsExceptionsFilter ctx e w).2 = net w.
Proof. done. Qed.

(** The decorators move no socket: what the handler leaves alone, the
    endpoint leaves alone. *)
Lemma intercepted_keeps chain next ctx w (sid : string) :
  (∀ client w0, Client.id client = Client.id (ExecutionContext.client ctx) →
     net (next client w0).2 !! sid = net w0 !! sid) →
  net (intercepted chain next ctx w).2 !! sid = net w !! sid.
Proof.
  revert ctx w. induction chain as [|i chain IH]; intros ctx w Hnext; cbn [intercepted].
  - unfold UseFilters, try_catch. specialize (Hnext (ExecutionContext.client ctx) w eq_refl).
    by destruct (next (ExecutionContext.client ctx) w) as [[[]|e] w'].
  - destruct (intercept_keeps i ctx w) as (Hn & _ & Hid).
    destruct (intercept i ctx w) as [[ctx'|e] w']; cbn [fst snd] in *; [|by rewrite <- Hn].
    rewrite IH, Hn; [done|]. intros client w0 Hc. apply Hnext. by rewrite Hc, (Hid ctx').
Qed.

(** Handling an input of one socket leaves the rooms of every other
    socket as they were. *)
Lemma on_input_keeps client i w (sid : string) :
  sid ≠ Client.id client →
  net (on_input allowJoinMultipleRooms now client i w).2 !! sid = net w !! sid.
Proof.
  intros Hne. destruct (act_keeps client sid undefined w Hne) as (_ & _ & Hd).
  destruct i as [| |m]; cbn [on_input].
  - unfold on_connection, TextChatGateway.handleConnection, try_catch, gbind, external,
      emit, client_disconnect, act, SocketIO.connect, SocketIO.disconnect.
    repeat case_match; simplify_eq/=;
      rewrite ?lookup_delete_ne, ?lookup_insert_ne by done; done.
  - unfold on_disconnect, TextChatGateway.handleDisconnect, gbind, external, emit, act, ret,
      SocketIO.disconnect.
    repeat case_match; simplify_eq/=; by rewrite ?lookup_delete_ne by done.
  - apply intercepted_keeps. intros client' w0 Hc. rewrite handle_endpoint_of.
    apply on_message_keeps. by rewrite Hc.
Qed.

End handlers.

(** ** A run of the server *)

Section serve.
Context (allowJoinMultipleRooms : bool) `{!JSON.Codec} {E : Type}.
Context {services : Services E} {binding : Interceptors E}.

(** No input of the run comes from socket [sid]. *)
Definition silent (sid : string) (inputs : list (Z * Client.t * input)) : Prop :=
  Forall (λ x, Client.id x.1.2 ≠ sid) inputs.

#[export] Instance silent_dec sid inputs : Decision (silent sid inputs).
Proof. unfold silent. apply _. Defined.

(** The server moves no socket on behalf of another: over a run in
    which a socket sends nothing, connects and disconnects included, it
    stays in exactly the rooms it was in, whoever was removed from a
    room, invited or answered meanwhile. *)
Theorem silent_socket_stays inputs (w : world E) sid :
  silent sid inputs →
  net (serve allowJoinMultipleRooms inputs w) !! sid = net w !! sid.
Proof.
  intros Hs. revert w. induction Hs as [|[[now client] i] inputs Hne _ IH]; intros w; [done|].
  cbn [serve]. rewrite IH. by apply on_input_keeps.
Qed.

End serve.


(** ** On concrete worlds

    The services are stubs that know nobody; user 1 holds socket
    ["ka"], user 2 socket ["kb"], user 7 socket ["kc"] and user 3 socket
    ["k3"]. *)

Definition no_services : Services unit := {|
  User := value;
  user_id u := u;
  validateConnection client st := (Ok (Client.userId client), st);
  connect _ _ st := (Ok tt, st);
  disconnect _ _ st := (Ok tt, st);
  getBySocketId _ st := (Ok None, st);
  getOnlineFriendsSocketIds _ st := (Ok [], st);
  areFriends _ _ st := (Ok true, st);
  getSocketIds _ st := (Ok [], st);
  createPrivateMessage _ _ st := (Ok tt, st);
|}.

(** The sockets ["ka"], ["kb"], ["kc"] and ["k3"] belong to users 1,
    2, 7 and 3; any other socket is turned away. *)
Definition session : Interceptors unit := {|
  socketUserId sid st :=
    (if decide (sid = "ka") then Ok (VNum 1)
     else if decide (sid = "kb") then Ok (VNum 2)
     else if decide (sid = "kc") then Ok (VNum 7)
     else if decide (sid = "k3") then Ok (VNum 3)
     else Err (WsException "Unauthorized"), st);
|}.

Definition alice : Client.t := Client.mk "ka" (VNum 1).
Definition bob : Client.t := Client.mk "kb" (VNum 2).
Definition carol : Client.t := Client.mk "kc" (VNum 7).
Definition dave : Client.t := Client.mk "k3" (VNum 3).

(** The four sockets are connected and the store is what [qs] left. *)
Definition world_of (qs : script) : world unit :=
  World (store_of qs) tt
    (foldr SocketIO.connect ∅ ["k3"; "kc"; "kb"; "ka"]) [].

Lemma world_of_represents (qs : script) :
  admissible false qs ∅ = true → represents (kv (world_of qs)) (db_of qs).
Proof. intros Hqs. by apply scene_consistent. Qed.

Lemma handleCreateRoom_correct_witness :
  inv false (Pure.book false 7 (VNum 1) false (db_of [])).2.
Proof.
  apply (handleCreateRoom_correct false 7 alice (world_of []) (db_of []));
    [apply represents_empty|apply inv_empty|reflexivity|reflexivity].
Defined.

Lemma created_room_refuses_join_witness :
  refused (run 8 (join false (VNum 2) (VStr (to_string (VNum 7))))
             (kv (TextChatGateway.handleCreateRoom false 7 alice (world_of [])).2)).1
    ["This room is private!"; "Please leave current room before joining another one!"].
Proof.
  apply (created_room_refuses_join false 7 alice (world_of []) (db_of []));
    [apply represents_empty|vm_compute; reflexivity].
Defined.

Lemma handleJoinRoom_correct_witness :
  represents
    (kv (TextChatGateway.handleJoinRoom false 9 carol (JoinRoomDto.mk (VStr "9"))
           (world_of booked)).2)
    (Pure.join false (VStr "9") (VNum 7) (db_of booked)).2.
Proof.
  exact (proj1 (handleJoinRoom_correct false 9 carol (JoinRoomDto.mk (VStr "9"))
                  (world_of booked) (db_of booked)
                  (world_of_represents booked booked_admissible))).
Defined.

Lemma handleKickOutOfRoom_correct_witness :
  "kb" ∈ SocketIO.inside (named "kb")
           (net (TextChatGateway.handleKickOutOfRoom 9 bob
                   (KickOutOfRoomDto.mk (VNum 1) (VStr "7")) (world_of joined2)).2).
Proof.
  apply (proj2 (handleKickOutOfRoom_correct 9 bob (KickOutOfRoomDto.mk (VNum 1) (VStr "7"))
                  (world_of joined2) (db_of joined2)
                  (world_of_represents joined2 joined2_admissible)));
    [done|vm_compute; reflexivity].
Defined.

Lemma handleInviteToRoom_correct_witness :
  SocketIO.receivers (server_to [undefined])
    (net (TextChatGateway.handleInviteToRoom 9 dave
            (InviteToRoomDto.mk (VNum 1) (VStr "7")) (world_of online)).2) = ∅.
Proof.
  apply (proj2 (handleInviteToRoom_correct 9 dave (InviteToRoomDto.mk (VNum 1) (VStr "7"))
                  (world_of online) (db_of online)
                  (world_of_represents online online_admissible))
               (InviteResult.mk room72 "k3")).
  vm_compute. reflexivity.
Defined.

Lemma handleSendGroupMessage_correct_witness :
  "ka" ∉ SocketIO.receivers (client_to alice [Some (VStr "7")]) (net (world_of joined2)).
Proof.
  exact (proj2 (handleSendGroupMessage_correct 9 alice (SendGroupMessageDto.mk (VStr "7") [])
                  (world_of joined2) (db_of joined2)
                  (world_of_represents joined2 joined2_admissible))).
Defined.

Lemma sendPrivateMessage_offline_broadcast_witness :
  ∃ to,
    (sendPrivateMessage (services := no_services) alice
       (SendPrivateMessageDto.mk (VNum 2) []) (world_of [])).1 = Ok tt ∧
    net (sendPrivateMessage (services := no_services) alice
           (SendPrivateMessageDto.mk (VNum 2) []) (world_of [])).2 = net (world_of []) ∧
    out (sendPrivateMessage (services := no_services) alice
           (SendPrivateMessageDto.mk (VNum 2) []) (world_of [])).2 =
      out (world_of []) ++
      [Emit to EmitEvent.ReceivePrivateMessage
         (PrivateMessage (SendPrivateMessageDto.mk (VNum 2) []) (VNum 1))] ∧
    broadcast (world_of []) to.
Proof.
  apply (sendPrivateMessage_offline_broadcast (services := no_services) alice
           (SendPrivateMessageDto.mk (VNum 2) []) (world_of [])
           (∅, tt) (∅, tt) (∅, tt)); reflexivity.
Defined.

Lemma on_message_error_silent_witness :
  quiet (world_of booked)
    (on_message (services := no_services) false 9 bob
       (JoinRoom (JoinRoomDto.mk (VStr "7"))) (world_of booked)).2.
Proof.
  apply (on_message_error_silent (services := no_services) false 9 bob
           (JoinRoom (JoinRoomDto.mk (VStr "7"))) (world_of booked)
           (WsException "Room does not exist!")).
  vm_compute. reflexivity.
Defined.

Lemma silent_socket_stays_witness :
  net (serve (services := no_services) (binding := session) false
         [(7, alice, Message CreateRoom);
          (8, alice, Message (KickOutOfRoom (KickOutOfRoomDto.mk (VStr "7") (VNum 2))));
          (9, alice, Disconnection)]
         (world_of [])) !! "kb" = net (world_of []) !! "kb".
Proof.
  apply (silent_socket_stays (services := no_services) (binding := session) false
           [(7, alice, Message CreateRoom);
            (8, alice, Message (KickOutOfRoom (KickOutOfRoomDto.mk (VStr "7") (VNum 2))));
            (9, alice, Disconnection)]
           (world_of []) "kb").
  repeat constructor; discriminate.
Defined.

(** User 7 asks to join room ["9"] while user 1 owns the public
    room ["7"]: the text ["9"] becomes a member of room ["7"], and the
    socket of user 7 joins the broadcast group of room ["7"]. *)
Example handleJoinRoom_enters_room_id :
  let w := (TextChatGateway.handleJoinRoom false 9 carol (JoinRoomDto.mk (VStr "9"))
              (world_of booked)).2 in
  (run 10 (get (VStr "7")) (kv w)).1 =
    Ok (mkRoom "7" true (VNum 1) [VNum 1; VStr "9"] [] []) ∧
  (run 10 (get (VStr "9")) (kv w)).1 = Err (WsException "Room does not exist!") ∧
  out w = [SocketJoin "kc" (named "7");
           Emit (server_to [named "7"]) EmitEvent.ReceiveRoomChanges
             (RoomChanges RoomEvent.Join (VNum 7)
                (RoomView.mk (Some "7") None (Some [VNum 1; VStr "9"]) (Some []) (Some [])))].
Proof. vm_compute. done. Qed.

(** User 1 creates the private room ["7"]; user 3 sends
    [InviteToRoom] with the id of user 1 as [roomId] and the room id as
    [guestId], then [RespondInvitation] with the own id as [roomId] and
    the room id as [isAccpeted].  The arguments arrive at the service as
    an invitation of user 3 by user 1 and its acceptance: user 3 is a
    member of the private room.  The invitation reaches no socket, and
    the news of the acceptance only the socket of user 3. *)
Example self_invitation_enters_private_room :
  let w0 := world_of [(1, Connect (VNum 3) "k3")] in
  let w1 := (TextChatGateway.handleCreateRoom false 7 alice w0).2 in
  let w2 := (TextChatGateway.handleInviteToRoom 9 dave
               (InviteToRoomDto.mk (VNum 1) (VStr "7")) w1).2 in
  let w3 := (TextChatGateway.handleRespondInvitation false 10 dave
               (RespondInvitationDto.mk (VNum 3) (VStr "7")) w2).2 in
  (run 11 (get (VStr "7")) (kv w3)).1 =
    Ok (mkRoom "7" false (VNum 1) [VNum 1; VNum 3] [] []) ∧
  SocketIO.inside (named "7") (net w3) = {[ "ka" ]} ∧
  SocketIO.receivers (server_to [undefined]) (net w2) = ∅ ∧
  SocketIO.receivers (server_to [undefined]) (net w3) = {[ "k3" ]}.
Proof. vm_compute. split_and!; reflexivity. Qed.
