(* ===== verification/Session.v ===== *)
(** * Session: what a session that ends leaves behind

    [handleDisconnect] tells the user service that the socket is gone
    and calls no method of the coordinator.  When the outside services
    keep to the keys of the sockets ([aloof]), a disconnection leaves
    every room and every list of rooms as it is
    ([handleDisconnect_keeps_rooms]): the user stays a member of the
    rooms of the closed socket.  [reconnected_outside_own_room] runs a
    user who creates a room, disconnects and connects again: the room
    is still theirs, the new socket is not in its broadcast group, and
    under the single-room policy a new room is refused. *)

From stdpp Require Import strings gmap.
From S2P Require Import Prelude JsArray JsValue Redis Room Json Prog Service Reach Scene.
From S2P Require Import Socket Gateway GatewaySpec.
Import TextChatGateway.

#[local] Open Scope string_scope.
#[local] Open Scope list_scope.

Section session.
Context `{!JSON.Codec} {E : Type} {services : Services E}.
Implicit Types (w : world E) (client : Client.t) (k : key).

(** An outside service that leaves the rooms and the lists of rooms
    as they are. *)
Definition aloof {A : Type} (op : ext_op E A) : Prop :=
  ∀ s e k, k.1 ≠ CacheNamespace.UID2SId → (op (s, e)).2.1 !! k = s !! k.

Lemma external_aloof {A : Type} (op : ext_op E A) w k :
  aloof op → k.1 ≠ CacheNamespace.UID2SId → kv (external op w).2 !! k = kv w !! k.
Proof.
  intros Hop Hk. unfold external. specialize (Hop (kv w) (ext w) k Hk).
  by destruct (op (kv w, ext w)) as [r [s e]].
Qed.

(** A disconnection leaves every room and every list of rooms as it
    is. *)
Lemma handleDisconnect_keeps_rooms client w k :
  (∀ sid, aloof (getBySocketId sid)) → (∀ u sid, aloof (disconnect u sid)) →
  (∀ u, aloof (getOnlineFriendsSocketIds u)) →
  k.1 ≠ CacheNamespace.UID2SId → kv (on_disconnect client w).2 !! k = kv w !! k.
Proof.
  intros Hg Hd Hf Hk. unfold on_disconnect, handleDisconnect, gbind.
  set (w0 := World (kv w) (ext w) _ (out w)).
  pose proof (external_aloof _ w0 k (Hg (Client.id client)) Hk) as H0.
  change (kv w0) with (kv w) in H0.
  destruct (external (getBySocketId (Client.id client)) w0) as [[[u|]|e] w1]; [|done..].
  pose proof (external_aloof _ w1 k (Hd u (Client.id client)) Hk) as H1.
  destruct (external (disconnect u (Client.id client)) w1) as [[[]|e] w2];
    cbn [fst snd] in *; [|congruence].
  pose proof (external_aloof _ w2 k (Hf (user_id u)) Hk) as H2.
  destruct (external (getOnlineFriendsSocketIds (user_id u)) w2) as [[sids|e] w3];
    cbn [fst snd] in *; [|congruence]. unfold emit, act. cbn. congruence.
Qed.

End session.

(** ** On a concrete world

    User 1 creates a room at time 7, closes the socket, opens it again
    and asks for a room at time 10. *)

#[local] Open Scope Z_scope.

Definition comes_back : list (Z * Client.t * input) :=
  [(7, alice, Message CreateRoom); (8, alice, Disconnection); (9, alice, Connection);
   (10, alice, Message CreateRoom)].

Definition came_back : world unit :=
  serve (services := no_services) (binding := session) false comes_back (world_of []).

(** The room is still there with user 1 as its member, no socket is in
    its broadcast group, and the request for a new room is refused. *)
Example reconnected_outside_own_room :
  (run 11 (RoomService.get (VStr "7")) (kv came_back)).1
    = Ok (mkRoom "7" false (VNum 1) [VNum 1] [] [])
  ∧ list_at (kv came_back) (key_of CacheNamespace.UId2RIds (VNum 1)) = ["7"]
  ∧ SocketIO.inside (named "7") (net came_back) = ∅
  ∧ last (out came_back) = Some (Emit (SocketIO.ToSocket "ka") EmitEvent.Error
      (Rejection (Some ListenEvent.CreateRoom)
         (WsException "Please leave current room before creating a new one"))).
Proof. repeat apply conj; vm_compute; reflexivity. Qed.
