(* ===== verification/Adapter.v ===== *)
(** * Adapter: the socket.io adapter over Redis, [RedisIoAdapter]

    [redis.adapter.ts] prepares the adapter that lets the processes of
    the server share their broadcasts: [connectToRedis] opens a
    publishing and a subscribing connection and keeps the adapter made
    of them in a field, [createIOServer] installs whatever the field
    holds on the server it creates.  The field is [undefined] until
    [connectToRedis] has returned, so the order of the two calls
    matters.

    The [redis] package and socket.io are libraries the file calls:
    [RedisClient] and [IOServer] say of them what the two methods rely
    on.  A client is an object of its own, so the publishing client
    made by [createClient] and its [duplicate] are told apart
    ([origin]).  Whether a connection opens is decided outside the
    program: [reachable] says which configurations find a server. *)

From stdpp Require Import strings.
From S2P Require Import Prelude.

#[local] Open Scope string_scope.

(** [CacheConfig]: where the store is and the password it asks. *)
Module CacheConfig.
Record t : Type := mk { url : string; password : string }.
End CacheConfig.

(** How a client object came to be: made by [createClient], or as the
    duplicate of another client. *)
Inductive origin : Type := Created | Duplicated.

(** A client of the [redis] package: the object it is, its options
    and whether its connection is open. *)
Module RedisClient.
Record t : Type := mk { made : origin; options : CacheConfig.t; isOpen : bool }.

Definition createClient (options : CacheConfig.t) : t := mk Created options false.

(** [client.duplicate()]: a new client with the same options, not
    connected. *)
Definition duplicate (client : t) : t := mk Duplicated (options client) false.

(** [client.connect()]: the promise is rejected ([None]) when no server
    answers. *)
Definition connect (reachable : CacheConfig.t → bool) (client : t) : option t :=
  if reachable (options client) then Some (mk (made client) (options client) true) else None.
End RedisClient.

(** What [server.adapter(x)] can hold: the adapter in memory a new
    server starts with, the constructor [createAdapter] returns for a
    publishing and a subscribing client, or [undefined]. *)
Inductive adapter : Type :=
| InMemory
| Redis (pubClient subClient : RedisClient.t)
| Undefined.

(** The socket.io server, as far as this file is concerned: the port
    and the options it was created with, and its adapter. *)
Module IOServer.
Record t (O : Type) : Type := mk { port : Z; options : option O; adapter_of : adapter }.
Arguments mk {O} port options adapter_of.
Arguments port {O} t.
Arguments options {O} t.
Arguments adapter_of {O} t.

(** [server.adapter(x)]: the adapter is replaced, the rest stays. *)
Definition set_adapter {O : Type} (server : t O) (a : adapter) : t O :=
  mk (port server) (options server) a.
End IOServer.

(** [IoAdapter.createIOServer] of the framework: a server on the port,
    with the options, on the adapter in memory. *)
Definition super_createIOServer {O : Type} (port : Z) (options : option O) : IOServer.t O :=
  IOServer.mk port options InMemory.

Module RedisIoAdapter.

(** The object: its one field. *)
Record t : Type := mk { adapterConstructor : option adapter }.

(** A new object: the field is not assigned. *)
Definition new : t := mk None.

Section RedisIoAdapter.
Context (config : CacheConfig.t) (reachable : CacheConfig.t → bool).

(** [Promise.all] of the two connections: rejected when either is. *)
Definition connectToRedis (this : t) : option t :=
  let pubClient := RedisClient.createClient config in
  let subClient := RedisClient.duplicate pubClient in
  match RedisClient.connect reachable pubClient, RedisClient.connect reachable subClient with
  | Some pubClient, Some subClient => Some (mk (Some (Redis pubClient subClient)))
  | _, _ => None
  end.

(** [createIOServer(port, options?)]: the server of the framework, its
    adapter replaced by what the field holds, [undefined] included. *)
Definition createIOServer {O : Type} (this : t) (port : Z) (options : option O) : IOServer.t O :=
  let server := super_createIOServer port options in
  IOServer.set_adapter server (default Undefined (adapterConstructor this)).

(** The adapter publishes on the client made from [config] and
    subscribes on its duplicate, and both connections are open. *)
Definition wired (a : adapter) : Prop :=
  match a with
  | Redis pubClient subClient =>
      pubClient = RedisClient.mk Created config true ∧
      subClient = RedisClient.mk Duplicated config true
  | _ => False
  end.

(** [connectToRedis] succeeds exactly when the store is reachable. *)
Lemma connectToRedis_reachable this :
  is_Some (connectToRedis this) ↔ reachable config = true.
Proof.
  unfold connectToRedis, RedisClient.connect. simpl.
  destruct (reachable config); split; try done; by intros [? ?].
Qed.

(** [connectToRedis] leaves an adapter on two open connections. *)
Lemma connectToRedis_wired this this' :
  connectToRedis this = Some this' → ∃ a, adapterConstructor this' = Some a ∧ wired a.
Proof.
  unfold connectToRedis, RedisClient.connect. simpl.
  destruct (reachable config); intros [= <-]. eexists. by split.
Qed.

(** C37: A server created after [connectToRedis] shares its broadcasts
    through two open connections to the configured store, publishing
    on the client made from the configuration and subscribing on its
    duplicate, on the port and with the options it was asked for. *)
Theorem createIOServer_after_connect {O : Type} this this' port (options : option O) :
  connectToRedis this = Some this' →
  wired (IOServer.adapter_of (createIOServer this' port options)) ∧
  IOServer.port (createIOServer this' port options) = port ∧
  IOServer.options (createIOServer this' port options) = options.
Proof.
  intros (a & Ha & Hw)%connectToRedis_wired. unfold createIOServer. by rewrite Ha.
Qed.

(** A server created before [connectToRedis] has no adapter at all: the
    one in memory is replaced by [undefined]. *)
Theorem createIOServer_before_connect {O : Type} port (options : option O) :
  IOServer.adapter_of (createIOServer new port options) = Undefined.
Proof. reflexivity. Qed.

End RedisIoAdapter.
End RedisIoAdapter.

(** The adapter [connectToRedis] leaves when the store answers. *)
Definition connected : RedisIoAdapter.t :=
  RedisIoAdapter.mk
    (Some (Redis (RedisClient.mk Created (CacheConfig.mk "redis://cache" "pw") true)
                 (RedisClient.mk Duplicated (CacheConfig.mk "redis://cache" "pw") true))).

Lemma createIOServer_after_connect_witness :
  RedisIoAdapter.wired (CacheConfig.mk "redis://cache" "pw")
    (IOServer.adapter_of (RedisIoAdapter.createIOServer connected 3000 (Some "/chat"))) ∧
  IOServer.port (RedisIoAdapter.createIOServer connected 3000 (Some "/chat")) = 3000%Z ∧
  IOServer.options (RedisIoAdapter.createIOServer connected 3000 (Some "/chat")) = Some "/chat".
Proof.
  apply (RedisIoAdapter.createIOServer_after_connect
           (CacheConfig.mk "redis://cache" "pw") (λ _, true) RedisIoAdapter.new).
  reflexivity.
Defined.
