(* ===== verification/Typing.v ===== *)
(** * Typing: the methods respect the types of the keyspace

    Redis types its keys: a string command on a list, or a list command
    on a string, is answered by an error ([WRONGTYPE]) that the methods
    of the service never look for in the replies of a pipeline.  This
    file shows they never have to: every command a method can send goes
    to a key of the namespace the command fits ([typed]), so on a store
    where every key holds the type of its namespace ([store_typed]) no
    reply is an error ([clean]) and the store stays typed.  Nothing is
    asked of the arguments: the namespaces are fixed by the code. *)

From stdpp Require Import strings gmap.
From S2P Require Import Prelude JsArray JsValue Redis Room Json Prog Service Reach.
Import RoomService.

#[local] Open Scope string_scope.
#[local] Open Scope list_scope.
#[local] Open Scope Z_scope.

(** Every command the program can send, whatever the replies, fits the
    namespace of its key, and the program does not fake the rejection of
    a command. *)
Inductive typed {A : Type} : prog A → Prop :=
| typed_Ret a : typed (Ret a)
| typed_Throw e : e ≠ ReplyError → typed (Throw e)
| typed_Call c k : command_typed c = true → (∀ r, typed (k r)) → typed (Call c k)
| typed_Exec cs k :
    forallb command_typed cs = true → (∀ rs, typed (k rs)) → typed (Exec cs k)
| typed_Now k : (∀ t, typed (k t)) → typed (Now k).

(** No reply the program receives on its run from [s] is an error. *)
Fixpoint clean {A : Type} (now : Z) (p : prog A) (s : store) : Prop :=
  match p with
  | Ret _ | Throw _ => True
  | Call c k =>
      let '(s', r) := apply_command c s in (r ≠ RError) ∧ clean now (k r) s'
  | Exec cs k =>
      let '(s', rs) := exec_pipeline cs s in (RError ∉ rs) ∧ clean now (k rs) s'
  | Now k => clean now (k now) s
  end.

Section typed_facts.
Context {A B : Type}.

Lemma typed_bind (p : prog A) (f : A → prog B) :
  typed p → (∀ a, typed (f a)) → typed (bind p f).
Proof. induction 1; simpl; intros Hf; [apply Hf|constructor..]; auto. Qed.

(** A typed program on a typed store: clean replies, typed store. *)
Lemma typed_run now (p : prog A) s :
  typed p → store_typed s →
  clean now p s ∧ store_typed (run now p s).2 ∧ (run now p s).1 ≠ Err ReplyError.
Proof.
  intros Hp. revert s. induction Hp as [a|e He|c k Hc Hk IH|cs k Hcs Hk IH|k Hk IH];
    intros s Hs; simpl; [done|split_and!; [done..|congruence]| | |by apply IH].
  - destruct (apply_command_typed c s Hs Hc) as [Hs' Hr].
    destruct (apply_command c s) as [s' r]. simpl in *.
    destruct (IH r s' Hs') as (? & ? & ?). by destruct r.
  - destruct (exec_pipeline_typed cs s Hs Hcs) as [Hs' Hr].
    destruct (exec_pipeline cs s) as [s' rs]. simpl in *.
    destruct (IH rs s' Hs') as (? & ? & ?). done.
Qed.

End typed_facts.

#[export] Hint Resolve typed_bind : chat.
#[export] Hint Constructors typed : chat.

(** One step of a typing derivation. *)
Ltac typed_step :=
  first
    [ apply typed_bind
    | apply typed_Call; [reflexivity|]
    | apply typed_Exec; [reflexivity|]
    | apply typed_Now
    | apply typed_Ret
    | apply typed_Throw; discriminate ].

Ltac typed_solve := repeat (intros; repeat case_match; try typed_step).

Section methods.
Context (allowJoinMultipleRooms : bool) `{!JSON.Codec}.
Implicit Types (u v rid : value) (room : Room).

Lemma isMemberOfAny_typed u : typed (isMemberOfAny u).
Proof. unfold isMemberOfAny, call. typed_solve. Qed.

Lemma singleRoomGuard_typed u : typed (singleRoomGuard allowJoinMultipleRooms u).
Proof. unfold singleRoomGuard. destruct (negb _); [apply isMemberOfAny_typed|constructor]. Qed.

Lemma get_typed rid : typed (get rid).
Proof. unfold get, call. typed_solve. Qed.

Lemma book_typed u isPublic : typed (book allowJoinMultipleRooms u isPublic).
Proof.
  unfold book, exec, date_now.
  apply typed_bind; [apply singleRoomGuard_typed|]. typed_solve.
Qed.

Lemma join_typed u rid : typed (join allowJoinMultipleRooms u rid).
Proof.
  unfold join, exec. apply typed_bind; [apply singleRoomGuard_typed|].
  intros []; [typed_solve|]. apply typed_bind; [apply get_typed|]. typed_solve.
Qed.

(** The command [settle] queues is a command on the room's key. *)
Lemma settle_typed u room : command_typed (settle u room).2 = true.
Proof. unfold settle. by repeat case_match. Qed.

Lemma leave_typed u rid : typed (leave u rid).
Proof.
  unfold leave, exec. apply typed_bind; [apply get_typed|]. intros room.
  case_match; [typed_solve|]. pose proof (settle_typed u (depart u room)) as Hc.
  destruct (settle u (depart u room)) as [room' cmd]. simpl in Hc.
  apply typed_bind; [|typed_solve]. apply typed_Exec; [|typed_solve].
  simpl. by rewrite Hc.
Qed.

Lemma getMany_collect_typed (vals : list reply) (rooms : list Room) :
  typed (getMany_collect vals rooms).
Proof.
  revert rooms. induction vals as [|r vals IH]; intros rooms; simpl; [constructor|].
  typed_solve; apply IH.
Qed.

Lemma getMany_typed (rids : list value) : typed (getMany rids).
Proof.
  unfold getMany, exec. apply typed_bind; [|intros; apply getMany_collect_typed].
  apply typed_Exec; [|typed_solve]. by induction rids.
Qed.

(** The queue of [leaveMany] and what it has sent hold typed commands. *)
Lemma leaveMany_step_typed u (rooms : list Room) acc :
  forallb command_typed acc.1.2 = true → forallb command_typed acc.2 = true →
  forallb command_typed (foldl (leaveMany_step u) acc rooms).1.2 = true ∧
  forallb command_typed (foldl (leaveMany_step u) acc rooms).2 = true.
Proof.
  revert acc. induction rooms as [|room rooms IH]; intros [[rs queue] sent] Hq Hs; [done|].
  cbn [foldl]. apply IH; unfold leaveMany_step;
    pose proof (settle_typed u (depart u room)) as Hc;
    destruct (settle u (depart u room)) as [room' cmd]; simpl in *;
    rewrite !forallb_app; simpl; rewrite ?Hq, ?Hs, ?Hc; done.
Qed.

Lemma leaveMany_rooms_typed u (rids : list value) : typed (leaveMany_rooms u rids).
Proof.
  unfold leaveMany_rooms, exec. apply typed_bind; [apply getMany_typed|]. intros rooms.
  destruct (leaveMany_step_typed u rooms ([], [], []) eq_refl eq_refl) as [Hq Hs].
  destruct (foldl _ _ rooms) as [[rs queue] sent]. simpl in *.
  apply typed_Exec; [by rewrite forallb_app, Hq, Hs|typed_solve].
Qed.

Lemma leaveMany_typed u (rids : list value) : typed (leaveMany u rids).
Proof.
  unfold leaveMany, call. destruct rids; [|apply leaveMany_rooms_typed].
  apply typed_bind; [typed_solve|]. intros r.
  repeat case_match; first [apply typed_Ret|apply leaveMany_rooms_typed].
Qed.

Lemma kick_typed u v rid : typed (kick u v rid).
Proof.
  unfold kick, exec. case_match.
  - apply typed_bind; [apply leave_typed|typed_solve].
  - apply typed_bind; [apply get_typed|]. typed_solve.
Qed.

Lemma transferOwnership_typed u v rid : typed (transferOwnership u v rid).
Proof.
  unfold transferOwnership, call. apply typed_bind; [apply get_typed|]. typed_solve.
Qed.

Lemma invite_typed u v rid : typed (invite u v rid).
Proof. unfold invite, exec, call. typed_solve. Qed.

Lemma respondInvitation_typed u v rid :
  typed (respondInvitation allowJoinMultipleRooms u v rid).
Proof.
  unfold respondInvitation, exec. apply typed_bind; [apply get_typed|]. intros room.
  repeat case_match; try (typed_step; fail); [|typed_solve].
  apply typed_bind; [apply singleRoomGuard_typed|]. intros busy.
  apply typed_bind; [destruct busy; [apply leaveMany_typed|constructor]|]. typed_solve.
Qed.

(** Every request is served by a typed program. *)
Lemma perform_typed q : typed (perform allowJoinMultipleRooms q).
Proof.
  destruct q; unfold perform, void, call;
    (apply typed_bind; [|intros; constructor]);
    eauto using book_typed, join_typed, leave_typed, kick_typed, transferOwnership_typed,
      invite_typed, respondInvitation_typed;
    typed_solve.
Qed.

(** C21: whatever its arguments, a method run on a store whose keys hold
    the types of their namespaces receives no error reply, neither to a
    single command nor inside a pipeline, and leaves such a store. *)
Theorem perform_keeps_types now q s :
  store_typed s →
  clean now (perform allowJoinMultipleRooms q) s ∧
  store_typed (run now (perform allowJoinMultipleRooms q) s).2 ∧
  (run now (perform allowJoinMultipleRooms q) s).1 ≠ Err ReplyError.
Proof. intros Hs. apply typed_run; [apply perform_typed|done]. Qed.

(** Every store the requests lead to from the empty one is typed. *)
Lemma reachable_typed s : reachable allowJoinMultipleRooms s → store_typed s.
Proof.
  induction 1; [apply store_typed_empty|]. by apply typed_run; [apply perform_typed|].
Qed.

End methods.

Lemma perform_keeps_types_witness :
  clean 7 (perform false (Book (VNum 1) true)) ∅ ∧
  store_typed (run 7 (perform false (Book (VNum 1) true)) ∅).2 ∧
  (run 7 (perform false (Book (VNum 1) true)) ∅).1 ≠ Err ReplyError.
Proof.
  apply (perform_keeps_types false 7 (Book (VNum 1) true) ∅). apply store_typed_empty.
Defined.
