(* ===== verification/Progress.v ===== *)
(** * Progress: every method comes to its end

    A method suspends at each awaited request to the store.  [within n]
    bounds the number of these suspensions over every possible reply,
    so it bounds the turns a handler needs under any schedule: a handler
    never waits for another one, it only waits for the store.

    - termination: every request is served within six awaited requests
      ([perform_terminates]);
    - liveness: two requests served concurrently both finish under every
      schedule that gives each of them six turns
      ([fair_schedule_finishes]);
    - bounds: the commands [leaveMany] sends for [n] rooms number
      [n * (n + 3)], because every turn of its loop sends the whole
      queue again ([leaveMany_sends_quadratic]). *)

From stdpp Require Import strings gmap.
From S2P Require Import Prelude JsArray JsValue Redis Room Json Prog Service Reach Interleave.
Import RoomService.

#[local] Open Scope string_scope.
#[local] Open Scope list_scope.
#[local] Open Scope nat_scope.

(** Whatever the store replies, the program awaits at most [n]
    requests. *)
Inductive within {A : Type} : nat → prog A → Prop :=
| within_Ret n a : within n (Ret a)
| within_Throw n e : within n (Throw e)
| within_Call n c k : (∀ r, within n (k r)) → within (S n) (Call c k)
| within_Exec n cs k : (∀ rs, within n (k rs)) → within (S n) (Exec cs k)
| within_Now n k : (∀ t, within n (k t)) → within n (Now k).

(** [n] turns of one handler. *)
Fixpoint turns {A : Type} (now : Z) (n : nat) (p : prog A) (s : store) : prog A * store :=
  match n with
  | O => (p, s)
  | S n' => let '(p', s') := advance now p s in turns now n' p' s'
  end.

Lemma within_le {A : Type} (n m : nat) (p : prog A) : within n p → n ≤ m → within m p.
Proof.
  intros Hp. revert m. induction Hp as [| |n c k _ IH|n cs k _ IH|n k _ IH];
    intros m Hm; [apply within_Ret|apply within_Throw| | |apply within_Now; auto];
    (destruct m as [|m]; [lia|]); constructor; intros; apply IH; lia.
Qed.

Section within_facts.
Context {A : Type}.
Implicit Types (p : prog A) (s : store) (n m : nat).

Lemma within_bind {B : Type} n m p (f : A → prog B) :
  within n p → (∀ a, within m (f a)) → within (n + m) (bind p f).
Proof.
  intros Hp Hf. induction Hp; simpl; try (by constructor).
  apply (within_le m); [done|lia].
Qed.

(** A turn uses up one of the requests. *)
Lemma advance_within now n p s : within n p → within (pred n) (advance now p s).1.
Proof.
  intros Hp. induction Hp as [| |n c k Hk _|n cs k Hk _|n k _ IH]; simpl;
    [constructor|constructor| | |apply IH].
  - destruct (apply_command c s) as [s' r]. simpl. destruct r; first [apply Hk|constructor].
  - destruct (exec_pipeline cs s) as [s' rs]. apply Hk.
Qed.

(** A program with no request left has finished. *)
Lemma within_finished now p : within 0 p → finished now p = true.
Proof.
  intros Hp. remember 0 as n eqn:Hn.
  induction Hp as [| | | |n k _ IH]; simpl; try done. by apply IH.
Qed.

Lemma turns_within now n m p s : within m p → within (m - n) (turns now n p s).1.
Proof.
  revert m p s. induction n as [|n IH]; intros m p s Hp; simpl.
  - by replace (m - 0) with m by lia.
  - pose proof (advance_within now m p s Hp) as Hp'.
    destruct (advance now p s) as [p' s']. replace (m - S n) with (pred m - n) by lia.
    by apply IH.
Qed.

(** The turns do not change where the handler ends. *)
Lemma run_turns now n p s : run now (turns now n p s).1 (turns now n p s).2 = run now p s.
Proof.
  revert p s. induction n as [|n IH]; intros p s; simpl; [done|].
  pose proof (run_advance now p s) as Hrun.
  destruct (advance now p s) as [p' s']. by rewrite IH.
Qed.

(** After as many turns as it has requests, a handler has finished. *)
Lemma turns_finished now n p s : within n p → finished now (turns now n p s).1 = true.
Proof.
  intros Hp. apply within_finished. pose proof (turns_within now n n p s Hp) as Hn.
  by replace (n - n) with 0 in Hn by lia.
Qed.

End within_facts.

(** A bound, one step at a time. *)
Ltac within_step :=
  first
    [ apply within_Ret
    | apply within_Throw
    | apply within_Call
    | apply within_Exec
    | apply within_Now ].

Ltac within_solve := repeat (intros; repeat case_match; try within_step).

(** A schedule that gives each of the two handlers [n] turns at
    least. *)
Definition fair (n : nat) (ts : list turn) : Prop := n ≤ count L ts ∧ n ≤ count R ts.

Section two_handlers.
Context {A B : Type}.
Implicit Types (p : prog A) (q : prog B) (s : store) (ts : list turn).

(** Under a schedule that gives each handler as many turns as it has
    requests, both finish. *)
Lemma schedule_finishes now1 now2 ts n m p q s :
  within n p → within m q → n ≤ count L ts → m ≤ count R ts →
  finished now1 (schedule now1 now2 ts p q s).1.1 = true ∧
  finished now2 (schedule now1 now2 ts p q s).1.2 = true.
Proof.
  revert n m p q s. induction ts as [|t ts IH]; intros n m p q s Hp Hq Hn Hm; simpl in *.
  - replace n with 0 in Hp by lia. replace m with 0 in Hq by lia.
    split; by apply within_finished.
  - destruct t; simpl in *.
    + pose proof (advance_within now1 n p s Hp) as Hp'.
      destruct (advance now1 p s) as [p' s']. apply (IH (pred n) m); [done..|lia|lia].
    + pose proof (advance_within now2 m q s Hq) as Hq'.
      destruct (advance now2 q s) as [q' s']. apply (IH n (pred m)); [done..|lia|lia].
Qed.

End two_handlers.

Section methods.
Context (allowJoinMultipleRooms : bool) `{!JSON.Codec}.
Implicit Types (u v rid : value) (room : Room).

Lemma singleRoomGuard_within u : within 1 (singleRoomGuard allowJoinMultipleRooms u).
Proof. unfold singleRoomGuard, isMemberOfAny, call. within_solve. Qed.

Lemma get_within rid : within 1 (get rid).
Proof. unfold get, call. within_solve. Qed.

Lemma book_within u isPublic : within 2 (book allowJoinMultipleRooms u isPublic).
Proof.
  unfold book, exec, date_now. apply (within_bind 1 1); [apply singleRoomGuard_within|].
  within_solve.
Qed.

Lemma join_within u rid : within 3 (join allowJoinMultipleRooms u rid).
Proof.
  unfold join, exec. apply (within_bind 1 2); [apply singleRoomGuard_within|].
  intros []; [within_solve|]. apply (within_bind 1 1); [apply get_within|]. within_solve.
Qed.

Lemma leave_within u rid : within 2 (leave u rid).
Proof.
  unfold leave, exec. apply (within_bind 1 1); [apply get_within|]. within_solve.
Qed.

Lemma getMany_collect_within (vals : list reply) (rooms : list Room) :
  within 0 (getMany_collect vals rooms).
Proof.
  revert rooms. induction vals as [|r vals IH]; intros rooms; simpl; [constructor|].
  within_solve; apply IH.
Qed.

Lemma getMany_within (rids : list value) : within 1 (getMany rids).
Proof.
  unfold getMany, exec. simpl. constructor. intros. apply getMany_collect_within.
Qed.

Lemma leaveMany_rooms_within u (rids : list value) : within 2 (leaveMany_rooms u rids).
Proof.
  unfold leaveMany_rooms, exec. apply (within_bind 1 1); [apply getMany_within|].
  within_solve.
Qed.

Lemma leaveMany_within u (rids : list value) : within 3 (leaveMany u rids).
Proof.
  unfold leaveMany, call. destruct rids.
  - apply (within_bind 1 2); [within_solve|]. intros r.
    repeat case_match; first [apply within_Ret|apply leaveMany_rooms_within].
  - apply (within_le 2); [apply leaveMany_rooms_within|lia].
Qed.

Lemma kick_within u v rid : within 2 (kick u v rid).
Proof.
  unfold kick, exec. case_match.
  - apply (within_bind 2 0); [apply leave_within|within_solve].
  - apply (within_bind 1 1); [apply get_within|]. within_solve.
Qed.

Lemma transferOwnership_within u v rid : within 2 (transferOwnership u v rid).
Proof.
  unfold transferOwnership, call. apply (within_bind 1 1); [apply get_within|]. within_solve.
Qed.

Lemma invite_within u v rid : within 2 (invite u v rid).
Proof. unfold invite, exec, call. simpl. within_solve. Qed.

Lemma respondInvitation_within u v rid :
  within 6 (respondInvitation allowJoinMultipleRooms u v rid).
Proof.
  unfold respondInvitation, exec. apply (within_bind 1 5); [apply get_within|]. intros room.
  repeat case_match; try (within_step; fail); [|simpl; within_solve].
  apply (within_bind 1 4); [apply singleRoomGuard_within|]. intros busy.
  apply (within_bind 3 1); [destruct busy; [apply leaveMany_within|constructor]|].
  within_solve.
Qed.

(** Every request is served within six awaited requests to the store. *)
Lemma perform_within q : within 6 (perform allowJoinMultipleRooms q).
Proof.
  destruct q; unfold perform, void;
    (apply (within_bind 6 0); [|intros; constructor]).
  - apply (within_le 2); [apply book_within|lia].
  - apply (within_le 3); [apply join_within|lia].
  - apply (within_le 2); [apply leave_within|lia].
  - apply (within_le 2); [apply kick_within|lia].
  - apply (within_le 2); [apply transferOwnership_within|lia].
  - apply (within_le 2); [apply invite_within|lia].
  - apply respondInvitation_within.
  - unfold call. within_solve.
  - unfold call. within_solve.
Qed.

(** C23: termination.  On every store and for every request, six turns
    bring the method to its end, with the outcome and the store of the
    run in one piece. *)
Theorem perform_terminates now q s :
  finished now (turns now 6 (perform allowJoinMultipleRooms q) s).1 = true ∧
  run now (turns now 6 (perform allowJoinMultipleRooms q) s).1
          (turns now 6 (perform allowJoinMultipleRooms q) s).2 =
    run now (perform allowJoinMultipleRooms q) s.
Proof. split; [apply turns_finished, perform_within|apply run_turns]. Qed.

(** Liveness.  Two requests served at the same time both finish
    under every schedule that gives each of them six turns, in whatever
    order: no method waits for another. *)
Theorem fair_schedule_finishes now1 now2 ts q1 q2 s :
  fair 6 ts →
  finished now1 (schedule now1 now2 ts (perform allowJoinMultipleRooms q1)
                   (perform allowJoinMultipleRooms q2) s).1.1 = true ∧
  finished now2 (schedule now1 now2 ts (perform allowJoinMultipleRooms q1)
                   (perform allowJoinMultipleRooms q2) s).1.2 = true.
Proof. intros [H1 H2]. by apply (schedule_finishes _ _ _ 6 6); [apply perform_within..| |]. Qed.

End methods.

(** ** What [leaveMany] sends *)

Section leaveMany.
Context `{!JSON.Codec}.

(** What the loop of [leaveMany] has queued after the rooms, and what
    its last [exec()] sends: what the loop has sent already, then the
    queue. *)
Definition queued_by (u : value) (rooms : list Room) : list command :=
  (foldl (leaveMany_step u) ([], [], []) rooms).1.2.

Definition sent_by (u : value) (rooms : list Room) : list command :=
  (foldl (leaveMany_step u) ([], [], []) rooms).2 ++ queued_by u rooms.

(** One turn of the loop queues two commands and sends the queue. *)
Lemma leaveMany_step_length u (room : Room) acc :
  length (leaveMany_step u acc room).1.2 = length acc.1.2 + 2 ∧
  length (leaveMany_step u acc room).2 = length acc.2 + length acc.1.2 + 2.
Proof.
  destruct acc as [[rs queue] sent]. unfold leaveMany_step.
  destruct (settle u (depart u room)) as [room' cmd]. simpl. rewrite !length_app. simpl. lia.
Qed.

(** After [n] rooms the queue holds two commands a room, and what has
    been sent is the sum of the queues so far. *)
Lemma leaveMany_step_lengths u (rooms : list Room) acc :
  length (foldl (leaveMany_step u) acc rooms).1.2 = length acc.1.2 + 2 * length rooms ∧
  length (foldl (leaveMany_step u) acc rooms).2 =
    length acc.2 + length rooms * length acc.1.2 + length rooms * (length rooms + 1).
Proof.
  revert acc. induction rooms as [|room rooms IH]; intros acc; cbn [foldl length]; [lia|].
  destruct (IH (leaveMany_step u acc room)) as [-> ->].
  destruct (leaveMany_step_length u room acc) as [-> ->]. lia.
Qed.

(** C29: bounds.  For [n] rooms the last [exec()] of [leaveMany] sends
    [n * (n + 3)] commands, not the [2 * n] it queued: each turn of the
    loop sends the whole queue again. *)
Theorem leaveMany_sends_quadratic u (rooms : list Room) :
  let n := length rooms in
  length (queued_by u rooms) = 2 * n ∧ length (sent_by u rooms) = n * (n + 3).
Proof.
  intros n. destruct (leaveMany_step_lengths u rooms ([], [], [])) as [Hq Hs].
  unfold sent_by, queued_by. subst n. rewrite length_app, Hq, Hs. simpl. lia.
Qed.

(** It is what [leaveMany] sends once it has read the rooms. *)
Lemma run_leaveMany_rooms_sends now u (rids : list value) s rooms s1 :
  run now (getMany rids) s = (Ok rooms, s1) →
  (run now (leaveMany_rooms u rids) s).2 = (exec_pipeline (sent_by u rooms) s1).1.
Proof.
  intros Hget. unfold leaveMany_rooms, sent_by, queued_by. rewrite run_bind, Hget. simpl.
  destruct (foldl _ _ rooms) as [[rs queue] sent]. simpl.
  by destruct (exec_pipeline (sent ++ queue) s1).
Qed.

End leaveMany.

Lemma fair_schedule_finishes_witness :
  finished 8 (schedule 8 9 [L; R; L; R; L; R; L; R; L; R; L; R]
                (perform false (Join (VNum 2) (VStr "7")))
                (perform false (Join (VNum 3) (VStr "7"))) ∅).1.1 = true ∧
  finished 9 (schedule 8 9 [L; R; L; R; L; R; L; R; L; R; L; R]
                (perform false (Join (VNum 2) (VStr "7")))
                (perform false (Join (VNum 3) (VStr "7"))) ∅).1.2 = true.
Proof.
  apply (fair_schedule_finishes false 8 9). split; vm_compute; lia.
Defined.
