(* ===== verification/Race.v ===== *)
(** * Race: both handlers read before either writes

    Every method of the service reads, then writes what it computed
    from what it read, and nothing checks that the store still holds
    what was read.  [reads_to] says where a handler is after its
    reads, which leave the store as it is ([idle]).  Under every
    schedule that first gives two handlers their reads, in any order,
    and then any turns at all, each writes what it computed from the
    store both started from, one over the other
    ([interleaved_stale]); [write_order] says which write comes first.

    - Two joins of one room both succeed; the room keeps the joiner
      who wrote last, and the other stays listed in a room that does
      not name them, which the invariant excludes
      ([join_lost_update]).
    - Two bookings of one user under the single-room policy both pass
      the guard and both succeed: the user is listed in two rooms
      ([book_race_breaks_policy]). *)

From stdpp Require Import strings gmap.
From S2P Require Import Prelude JsArray JsValue Redis Room Json Prog Service.
From S2P Require Import Model Invariant Refine LeaveMany Reach Scene Interleave Progress.
Import RoomService.

#[local] Open Scope prog_scope.
#[local] Open Scope string_scope.
#[local] Open Scope list_scope.
#[local] Open Scope nat_scope.

(** The first [n] turns of the handler leave the store as it is. *)
Definition idle {A : Type} (now : Z) (n : nat) (p : prog A) (s : store) : Prop :=
  ∀ i, i ≤ n → (turns now i p s).2 = s.

Lemma idle_advance {A : Type} (now : Z) (n : nat) (p : prog A) (s : store) :
  idle now (S n) p s → (advance now p s).2 = s ∧ idle now n (advance now p s).1 s.
Proof.
  intros Hp. pose proof (Hp 1 ltac:(lia)) as H1. cbn [turns] in H1.
  assert (∀ i, i ≤ n → (turns now (S i) p s).2 = s) as Hi by (intros i ?; apply Hp; lia).
  cbn [turns] in Hi. destruct (advance now p s) as [p' s']. cbn [fst snd] in *.
  split; [done|]. intros i Hle. specialize (Hi i Hle). by subst s'.
Qed.

(** A turn that reads. *)
Lemma turns_call {A : Type} (now : Z) (n : nat) (c : command) (k : reply → prog A)
    (s : store) (r : reply) :
  apply_command c s = (s, r) → r ≠ RError → turns now (S n) (Call c k) s = turns now n (k r) s.
Proof. intros Hc Hne. cbn [turns advance]. rewrite Hc. by destruct r. Qed.

(** The handler reads [n] times and is then at [p']. *)
Definition reads_to {A : Type} (now : Z) (n : nat) (p : prog A) (s : store) (p' : prog A) : Prop :=
  idle now n p s ∧ (turns now n p s).1 = p'.

Lemma reads_to_O {A : Type} (now : Z) (p : prog A) (s : store) : reads_to now 0 p s p.
Proof. split; [|done]. intros i Hi. by replace i with 0 by lia. Qed.

Lemma reads_to_call {A : Type} (now : Z) (n : nat) (c : command) (k : reply → prog A)
    (s : store) (r : reply) (p' : prog A) :
  apply_command c s = (s, r) → r ≠ RError →
  reads_to now n (k r) s p' → reads_to now (S n) (Call c k) s p'.
Proof.
  intros Hc Hne [Hk Hp]. split; [|by rewrite (turns_call now n c k s r)].
  intros [|i] Hi; [done|]. rewrite (turns_call now i c k s r) by done. apply Hk. lia.
Qed.

Section stale.
Context {A B : Type}.
Implicit Types (p : prog A) (q : prog B) (s : store) (ts : list turn).

(** Under a schedule of reads, each handler is where its own turns
    take it and the store is the one both started from. *)
Lemma schedule_idle now1 now2 ts p q s :
  idle now1 (count L ts) p s → idle now2 (count R ts) q s →
  schedule now1 now2 ts p q s
  = ((turns now1 (count L ts) p s).1, (turns now2 (count R ts) q s).1, s).
Proof.
  revert p q. induction ts as [|[|] ts IH]; intros p q Hp Hq; [done| |].
  all: change (count L (L :: ts)) with (S (count L ts)) in *.
  all: change (count R (R :: ts)) with (S (count R ts)) in *.
  all: change (count R (L :: ts)) with (count R ts) in *.
  all: change (count L (R :: ts)) with (count L ts) in *.
  all: cbn [schedule turns].
  - destruct (idle_advance now1 _ p s Hp) as [Hs Hp'].
    destruct (advance now1 p s) as [p' s']. cbn [fst snd] in *. subst s'. by apply IH.
  - destruct (idle_advance now2 _ q s Hq) as [Hs Hq'].
    destruct (advance now2 q s) as [q' s']. cbn [fst snd] in *. subst s'. by apply IH.
Qed.

(** Whose write comes first once both have read: the second handler's
    when the turns that follow begin with it; the first handler's
    otherwise, also when no turn follows, since what is left of the
    first handler then runs first. *)
Definition write_order {X : Type} ts (x y : X) : X * X :=
  match ts with R :: _ => (y, x) | _ => (x, y) end.

(** Two handlers that have one request left, a write: both answer,
    and the store has both writes in the order of the turns. *)
Lemma interleaved_writes (now1 now2 : Z) ts p q s (a : A) (b : B) (f g : store → store) :
  (∀ s', advance now1 p s' = (Ret a, f s')) → (∀ s', advance now2 q s' = (Ret b, g s')) →
  interleaved now1 now2 ts p q s
  = (Ok a, Ok b, let '(h, h') := write_order ts f g in h' (h s)).
Proof.
  intros Hp Hq.
  assert (∀ s', run now1 p s' = (Ok a, f s')) as Hrp by (intros s'; by rewrite <- run_advance, Hp).
  assert (∀ s', run now2 q s' = (Ok b, g s')) as Hrq by (intros s'; by rewrite <- run_advance, Hq).
  destruct ts as [|[|] ts]; cbn [write_order].
  - unfold interleaved. cbn [schedule]. by rewrite Hrp, Hrq.
  - rewrite (interleaved_app [L] ts). cbn [schedule]. rewrite Hp. cbn [fst snd].
    rewrite finished_turns by done. unfold sequential, interleaved. cbn [schedule run].
    by rewrite Hrq.
  - rewrite (interleaved_app [R] ts). cbn [schedule]. rewrite Hq. cbn [fst snd].
    rewrite finished_second_turns by done. unfold sequential, interleaved. cbn [schedule run].
    by rewrite Hrp.
Qed.

(** Both handlers have read and neither has written: whatever turns
    follow, each writes what it computed from the store both read. *)
Lemma interleaved_stale (now1 now2 : Z) ts ts' p q s (p' : prog A) (q' : prog B)
    (a : A) (b : B) (f g : store → store) :
  reads_to now1 (count L ts) p s p' → reads_to now2 (count R ts) q s q' →
  (∀ s', advance now1 p' s' = (Ret a, f s')) → (∀ s', advance now2 q' s' = (Ret b, g s')) →
  interleaved now1 now2 (ts ++ ts') p q s
  = (Ok a, Ok b, let '(h, h') := write_order ts' f g in h' (h s)).
Proof.
  intros [Hp <-] [Hq <-] Ha Hb. rewrite interleaved_app, (schedule_idle _ _ _ _ _ _ Hp Hq).
  by apply interleaved_writes.
Qed.

End stale.

(** ** Two joins of one room *)

Section join.
Context (allowJoinMultipleRooms : bool) `{!JSON.Codec}.
Implicit Types (s : store) (d : db) (u v rid : value) (r : Room) (now : Z).

#[local] Abbreviation inv := (inv allowJoinMultipleRooms).
#[local] Abbreviation join := (join allowJoinMultipleRooms).
#[local] Abbreviation guard := (Pure.singleRoomGuard allowJoinMultipleRooms).

(** The requests [join] makes before it writes: the guard, when users
    may be in one room only, and the room. *)
Definition join_reads : nat := if allowJoinMultipleRooms then 1 else 2.

(** What [join] writes for the room [r] it has read. *)
Definition join_write u r (s : store) : store :=
  (exec_pipeline
     [SET (CacheNamespace.Room, id (join_update u r)) (JSON.stringify (join_update u r));
      LPUSH (key_of CacheNamespace.UId2RIds u) (id (join_update u r))] s).1.

(** What is left of [join] once it has read the room [r]. *)
Definition join_rest u r : prog Room :=
  let* _ := exec [SET (CacheNamespace.Room, id (join_update u r))
                    (JSON.stringify (join_update u r));
                  LPUSH (key_of CacheNamespace.UId2RIds u) (id (join_update u r))] in
  Ret (join_update u r).

Lemma advance_join_rest now u r s :
  advance now (join_rest u r) s = (Ret (join_update u r), join_write u r s).
Proof.
  unfold join_rest, join_write, exec. cbn [bind advance]. by destruct (exec_pipeline _ s).
Qed.

(** [join] after its reads: it is about to write the room it has read
    with the joiner added, whatever the store holds by then. *)
Lemma join_after_reads now s d u rid r :
  represents s d → guard u d = false → room_of d rid = Some r → isPublic r = true →
  reads_to now join_reads (join u rid) s (join_rest u r).
Proof.
  intros Hr Hg Hroom Hpub.
  assert (∀ n (k : Room → prog Room) p',
            reads_to now n (k r) s p' →
            reads_to now (S n) (let* room := get rid in k room) s p') as Hget.
  { intros n k p' Hk. unfold get, call. cbn [bind].
    eapply reads_to_call; [by apply (apply_GET_room_rep s d)|by rewrite Hroom|].
    rewrite Hroom. cbn [bind]. by rewrite JSON.parse_stringify. }
  unfold join_reads, RoomService.join, singleRoomGuard, guard, Pure.singleRoomGuard in *.
  destruct allowJoinMultipleRooms; cbn [negb andb bind] in *.
  - apply Hget. rewrite Hpub. apply reads_to_O.
  - unfold isMemberOfAny, call. cbn [bind].
    eapply reads_to_call; [by apply apply_LLEN, (represents_list_slot s d)|done|].
    cbn beta iota. rewrite length_pos_nonempty, (represents_list_at s d) by done.
    unfold Pure.isMemberOfAny in Hg. rewrite Hg. apply Hget. rewrite Hpub.
    apply reads_to_O.
Qed.

(** The database the two writes stand for: each joiner enters the
    room as it was read, the second over the first. *)
Definition both_joined u v r d : db :=
  enter v (join_update v r) (enter u (join_update u r) d).

Lemma join_write_rep s d u r :
  represents s d → represents (join_write u r s) (enter u (join_update u r) d).
Proof.
  intros Hr. unfold join_write. rewrite !exec_pipeline_cons. cbn [exec_pipeline fst].
  by apply enter_rep.
Qed.

(** After both writes the first joiner is listed once more under the
    room than the room names them. *)
Lemma both_joined_counts d u v rid r :
  inv d → room_of d rid = Some r → is_number u = true → is_number v = true → u ≠ v →
  count (id r) (joined_of (both_joined u v r d) u)
  = S (count u (members_of (both_joined u v r d) (id r))).
Proof.
  intros Hi Hroom Hu Hv Hne. unfold both_joined, enter.
  rewrite (joined_of_set_joined_num v u) by done. rewrite decide_False by done.
  rewrite joined_of_put_room, joined_of_set_joined, !id_join_update.
  change (members_of (set_joined v ?l ?d) ?i) with (members_of d i).
  rewrite members_of_put_room, id_join_update, decide_True by done.
  rewrite memberIds_join_update, count_snoc, (decide_False (P := u = v)) by done.
  cbn [count]. rewrite decide_True by done.
  rewrite (inv_index _ d Hi u (id r) Hu), (members_of_room _ d rid r) by done. lia.
Qed.

(** What two writes of one room, each made from the room as it was
    read, leave: the room names the last writer only, the first is
    listed under it all the same, and the invariant is lost. *)
Lemma both_joined_lost s d x y rid r :
  represents s d → inv d → room_of d rid = Some r →
  is_number x = true → is_number y = true → x ≠ y →
  represents (join_write y r (join_write x r s)) (both_joined x y r d)
  ∧ room_of (both_joined x y r d) rid = Some (join_update y r)
  ∧ id r ∈ joined_of (both_joined x y r d) x
  ∧ ¬ inv (both_joined x y r d).
Proof.
  intros Hr Hi Hroom Hx Hy Hne.
  pose proof (both_joined_counts d x y rid r Hi Hroom Hx Hy Hne) as Hc.
  split; [|split; [|split]].
  - by apply join_write_rep, join_write_rep.
  - apply room_of_enter. rewrite id_join_update. by apply (room_of_id allowJoinMultipleRooms d).
  - apply count_pos. lia.
  - intros Hi'. rewrite (inv_index _ _ Hi' x (id r) Hx) in Hc. lia.
Qed.

(** C38: a lost update.  Two users join one public room, and each is
    served its reads, the guard and the room, before either writes:
    the reads come in any order ([ts]) and any turns follow ([ts']).
    Both are told they joined.  The room is written twice, each time
    as it was read with one joiner added, so it keeps only the joiner
    who wrote last; the other is listed under a room that does not
    name them, and the invariant every sequence of calls keeps is
    broken. *)
Theorem join_lost_update now1 now2 ts ts' s d u v rid r :
  represents s d → inv d → guard u d = false → guard v d = false →
  room_of d rid = Some r → isPublic r = true →
  is_number u = true → is_number v = true → u ≠ v →
  count L ts = join_reads → count R ts = join_reads →
  let '(x, y) := write_order ts' u v in
  interleaved now1 now2 (ts ++ ts') (join u rid) (join v rid) s
  = (Ok (join_update u r), Ok (join_update v r), join_write y r (join_write x r s))
  ∧ represents (join_write y r (join_write x r s)) (both_joined x y r d)
  ∧ room_of (both_joined x y r d) rid = Some (join_update y r)
  ∧ id r ∈ joined_of (both_joined x y r d) x
  ∧ ¬ inv (both_joined x y r d).
Proof.
  intros Hr Hi Hgu Hgv Hroom Hpub Hu Hv Hne HL HR.
  pose proof (interleaved_stale now1 now2 ts ts' (join u rid) (join v rid) s
                (join_rest u r) (join_rest v r) (join_update u r) (join_update v r)
                (join_write u r) (join_write v r)) as Hrun.
  rewrite HL, HR in Hrun. specialize (Hrun (join_after_reads now1 s d u rid r Hr Hgu Hroom Hpub)
    (join_after_reads now2 s d v rid r Hr Hgv Hroom Hpub)
    (λ s', advance_join_rest now1 u r s') (λ s', advance_join_rest now2 v r s')).
  destruct ts' as [|[|] ts']; cbn [write_order] in *; (split; [exact Hrun|]);
    by apply (both_joined_lost s d _ _ rid r).
Qed.

End join.

(** ** Two bookings of one user *)

Section book.
Context (allowJoinMultipleRooms : bool) `{!JSON.Codec}.
Implicit Types (s : store) (d : db) (u : value) (r : Room) (now : Z).

#[local] Abbreviation inv := (inv allowJoinMultipleRooms).
#[local] Abbreviation book := (book allowJoinMultipleRooms).
#[local] Abbreviation guard := (Pure.singleRoomGuard allowJoinMultipleRooms).

(** The requests [book] makes before it writes: the guard, when users
    may be in one room only. *)
Definition book_reads : nat := if allowJoinMultipleRooms then 0 else 1.

(** The room [book] makes at time [now]. *)
Definition booked_room now u (isPublic : bool) : Room :=
  mkRoom (to_string (VNum now)) isPublic u [u] [] [].

(** What [book] writes for the room it has made. *)
Definition book_write r u (s : store) : store :=
  (exec_pipeline
     [SET (CacheNamespace.Room, id r) (JSON.stringify r);
      LPUSH (key_of CacheNamespace.UId2RIds u) (id r)] s).1.

(** What is left of [book] once the guard has let it pass. *)
Definition book_rest u (isPublic : bool) : prog Room :=
  let* now := date_now in
  let* _ := exec [SET (CacheNamespace.Room, to_string (VNum now))
                    (JSON.stringify (booked_room now u isPublic));
                  LPUSH (key_of CacheNamespace.UId2RIds u) (to_string (VNum now))] in
  Ret (booked_room now u isPublic).

Lemma advance_book_rest now u (isPublic : bool) s :
  advance now (book_rest u isPublic) s
  = (Ret (booked_room now u isPublic), book_write (booked_room now u isPublic) u s).
Proof.
  unfold book_rest, book_write, exec, date_now. cbn [bind advance].
  by destruct (exec_pipeline _ s).
Qed.

Lemma book_after_reads now s d u (isPublic : bool) :
  represents s d → guard u d = false →
  reads_to now book_reads (book u isPublic) s (book_rest u isPublic).
Proof.
  intros Hr Hg.
  unfold book_reads, RoomService.book, singleRoomGuard, guard, Pure.singleRoomGuard in *.
  destruct allowJoinMultipleRooms; cbn [negb andb bind] in *; [apply reads_to_O|].
  unfold isMemberOfAny, call. cbn [bind].
  eapply reads_to_call; [by apply apply_LLEN, (represents_list_slot s d)|done|].
  cbn beta iota. rewrite length_pos_nonempty, (represents_list_at s d) by done.
  unfold Pure.isMemberOfAny in Hg. rewrite Hg. apply reads_to_O.
Qed.

Lemma book_write_rep s d u r : represents s d → represents (book_write r u s) (enter u r d).
Proof.
  intros Hr. unfold book_write. rewrite !exec_pipeline_cons. cbn [exec_pipeline fst].
  by apply enter_rep.
Qed.

(** What two bookings of one user leave: both rooms are listed on top
    of what was listed, which the single-room policy excludes. *)
Lemma both_booked_lost s d u r r' :
  represents s d → is_number u = true →
  represents (book_write r' u (book_write r u s)) (enter u r' (enter u r d))
  ∧ joined_of (enter u r' (enter u r d)) u = id r' :: id r :: joined_of d u
  ∧ (allowJoinMultipleRooms = false → ¬ inv (enter u r' (enter u r d))).
Proof.
  intros Hr Hu.
  assert (joined_of (enter u r' (enter u r d)) u = id r' :: id r :: joined_of d u) as Hj.
  { unfold enter. by rewrite !joined_of_set_joined. }
  split; [by apply book_write_rep, book_write_rep|]. split; [done|].
  intros Hflag Hi'. pose proof (inv_single _ _ Hi' Hflag u Hu) as Hlen.
  rewrite Hj in Hlen. cbn [length] in Hlen. lia.
Qed.

(** C39: the single-room policy does not survive two requests of one
    user at the same time.  Two bookings of a user whom the guard lets
    pass are each served the guard's read before either writes: the
    reads come in either order ([ts]) and any turns follow ([ts']).
    Both succeed, and the user is listed under both rooms on top of
    what was listed before: when users may be in one room only, the
    invariant is broken. *)
Theorem book_race_breaks_policy now1 now2 ts ts' s d u (pub1 pub2 : bool) :
  represents s d → guard u d = false → is_number u = true →
  count L ts = book_reads → count R ts = book_reads →
  let '(r, r') := write_order ts' (booked_room now1 u pub1) (booked_room now2 u pub2) in
  interleaved now1 now2 (ts ++ ts') (book u pub1) (book u pub2) s
  = (Ok (booked_room now1 u pub1), Ok (booked_room now2 u pub2),
     book_write r' u (book_write r u s))
  ∧ represents (book_write r' u (book_write r u s)) (enter u r' (enter u r d))
  ∧ joined_of (enter u r' (enter u r d)) u = id r' :: id r :: joined_of d u
  ∧ (allowJoinMultipleRooms = false → ¬ inv (enter u r' (enter u r d))).
Proof.
  intros Hr Hg Hu HL HR.
  pose proof (interleaved_stale now1 now2 ts ts' (book u pub1) (book u pub2) s
                (book_rest u pub1) (book_rest u pub2)
                (booked_room now1 u pub1) (booked_room now2 u pub2)
                (book_write (booked_room now1 u pub1) u)
                (book_write (booked_room now2 u pub2) u)) as Hrun.
  rewrite HL, HR in Hrun. specialize (Hrun (book_after_reads now1 s d u pub1 Hr Hg)
    (book_after_reads now2 s d u pub2 Hr Hg)
    (λ s', advance_book_rest now1 u pub1 s') (λ s', advance_book_rest now2 u pub2 s')).
  destruct ts' as [|[|] ts']; cbn [write_order] in *; (split; [exact Hrun|]);
    by apply both_booked_lost.
Qed.

End book.

(** ** At a concrete store *)

(** Users 2 and 3 join room ["7"] of user 1 under the single-room
    policy; both read, then user 3 writes first. *)
Lemma join_lost_update_witness :
  let r := mkRoom "7" true (VNum 1) [VNum 1] [] [] in
  let s := store_of booked in
  let d := db_of booked in
  let '(x, y) := write_order [R; L] (VNum 2) (VNum 3) in
  interleaved 8 9 ([L; R; L; R] ++ [R; L]) (join false (VNum 2) (VStr "7"))
    (join false (VNum 3) (VStr "7")) s
  = (Ok (join_update (VNum 2) r), Ok (join_update (VNum 3) r), join_write y r (join_write x r s))
  ∧ represents (join_write y r (join_write x r s)) (both_joined x y r d)
  ∧ room_of (both_joined x y r d) (VStr "7") = Some (join_update y r)
  ∧ id r ∈ joined_of (both_joined x y r d) x
  ∧ ¬ Invariant.inv false (both_joined x y r d).
Proof.
  apply (join_lost_update false 8 9 [L; R; L; R] [R; L] (store_of booked) (db_of booked)
           (VNum 2) (VNum 3) (VStr "7"));
    [apply (scene_consistent booked booked_admissible)..|reflexivity|reflexivity|reflexivity
    |reflexivity|reflexivity|reflexivity|discriminate|reflexivity|reflexivity].
Defined.

(** User 1 books twice on the empty store, at times 7 and 8. *)
Lemma book_race_breaks_policy_witness :
  let '(r, r') := write_order [] (booked_room 7 (VNum 1) true) (booked_room 8 (VNum 1) true) in
  interleaved 7 8 ([L; R] ++ []) (book false (VNum 1) true) (book false (VNum 1) true) ∅
  = (Ok (booked_room 7 (VNum 1) true), Ok (booked_room 8 (VNum 1) true),
     book_write r' (VNum 1) (book_write r (VNum 1) ∅))
  ∧ represents (book_write r' (VNum 1) (book_write r (VNum 1) ∅))
      (enter (VNum 1) r' (enter (VNum 1) r empty_db))
  ∧ joined_of (enter (VNum 1) r' (enter (VNum 1) r empty_db)) (VNum 1)
    = id r' :: id r :: joined_of empty_db (VNum 1)
  ∧ (false = false → ¬ Invariant.inv false (enter (VNum 1) r' (enter (VNum 1) r empty_db))).
Proof.
  apply (book_race_breaks_policy false 7 8 [L; R] [] ∅ empty_db (VNum 1) true true);
    [apply represents_empty|reflexivity..].
Defined.

(** The witness read off the store: both bookings are answered, and
    user 1 is listed under rooms ["8"] and ["7"]. *)
Example book_race_listed :
  let '(a, b, s) := interleaved 7 8 [L; R] (book false (VNum 1) true)
                      (book false (VNum 1) true) ∅ in
  a = Ok (mkRoom "7" true (VNum 1) [VNum 1] [] [])
  ∧ b = Ok (mkRoom "8" true (VNum 1) [VNum 1] [] [])
  ∧ list_at s (key_of CacheNamespace.UId2RIds (VNum 1)) = ["8"; "7"].
Proof. vm_compute. done. Qed.

(** The joins read off the store, the first writing first: the room
    keeps user 3 only, and user 2 is listed under it. *)
Example join_race_listed :
  let '(a, b, s) := interleaved 8 9 [L; L; R; R] (join false (VNum 2) (VStr "7"))
                      (join false (VNum 3) (VStr "7")) (store_of booked) in
  a = Ok (mkRoom "7" true (VNum 1) [VNum 1; VNum 2] [] [])
  ∧ b = Ok (mkRoom "7" true (VNum 1) [VNum 1; VNum 3] [] [])
  ∧ (run 10 (get (VStr "7")) s).1 = Ok (mkRoom "7" true (VNum 1) [VNum 1; VNum 3] [] [])
  ∧ list_at s (key_of CacheNamespace.UId2RIds (VNum 2)) = ["7"].
Proof. vm_compute. done. Qed.
