(* ===== verification/Crash.v ===== *)
(** * Crash: the store fails between two requests

    A method that loses the store ([StoreUnavailable]: the connection
    drops, a request times out) stops where it is: the requests it has
    made so far have been served, the rest has not.  [trail] lists the
    stores a run passes through, one per request; a failure leaves one
    of them, or the store the method started from.

    Every method writes with its last request, all its writes in one
    pipeline; only an accepted invitation, which first takes the guest
    out of the current rooms, writes twice ([writes]).  So whenever the
    failure strikes between two requests, the store it leaves satisfies
    the invariant ([crash_consistent]).  A failure INSIDE a pipeline is
    another matter, and [torn_leave_dangles] shows what it leaves. *)

From stdpp Require Import strings gmap.
From S2P Require Import Prelude JsArray JsValue Redis Room Json Prog Service.
From S2P Require Import Model Invariant Refine LeaveMany Reach Scene Interleave Progress.
Import RoomService.

#[local] Open Scope string_scope.
#[local] Open Scope list_scope.
#[local] Open Scope nat_scope.

(** The commands that only read. *)
Definition reads (c : command) : bool :=
  match c with
  | GET _ | LRANGE _ _ _ | LLEN _ => true
  | _ => false
  end.

(** The store after each request of a run, in order. *)
Fixpoint trail {A : Type} (now : Z) (p : prog A) (s : store) : list store :=
  match p with
  | Ret _ | Throw _ => []
  | Call c k =>
      let '(s1, r) := apply_command c s in
      s1 :: match r with RError => [] | _ => trail now (k r) s1 end
  | Exec cs k =>
      let '(s1, rs) := exec_pipeline cs s in
      s1 :: trail now (k rs) s1
  | Now k => trail now (k now) s
  end.

(** Whatever the store replies, at most [n] requests of the program
    write. *)
Inductive writes {A : Type} : nat → prog A → Prop :=
| writes_Ret n a : writes n (Ret a)
| writes_Throw n e : writes n (Throw e)
| writes_read n c k : reads c = true → (∀ r, writes n (k r)) → writes n (Call c k)
| writes_reads n cs k :
    forallb reads cs = true → (∀ rs, writes n (k rs)) → writes n (Exec cs k)
| writes_Now n k : (∀ t, writes n (k t)) → writes n (Now k)
| writes_Call n c k : (∀ r, writes n (k r)) → writes (S n) (Call c k)
| writes_Exec n cs k : (∀ rs, writes n (k rs)) → writes (S n) (Exec cs k).

(** The store a pipeline leaves when the connection drops after its
    first [j] commands. *)
Definition torn (j : nat) (cs : list command) (s : store) : store :=
  (exec_pipeline (take j cs) s).1.

Lemma apply_reads (c : command) (s : store) :
  reads c = true → (apply_command c s).1 = s.
Proof. destruct c; try done; simpl; by repeat case_match. Qed.

Lemma exec_reads (cs : list command) (s : store) :
  forallb reads cs = true → (exec_pipeline cs s).1 = s.
Proof.
  induction cs as [|c cs IH]; simpl; [done|]. intros [Hc Hcs]%andb_prop.
  pose proof (apply_reads c s Hc) as Hs. destruct (apply_command c s) as [s1 r].
  simpl in Hs. subst s1. specialize (IH Hcs). by destruct (exec_pipeline cs s).
Qed.

Lemma writes_le {A : Type} (n m : nat) (p : prog A) : writes n p → n ≤ m → writes m p.
Proof.
  intros Hp. revert m.
  induction Hp as [| |n c k Hc _ IH|n cs k Hc _ IH|n k _ IH|n c k _ IH|n cs k _ IH];
    intros m Hm;
    [apply writes_Ret|apply writes_Throw|apply writes_read; auto|apply writes_reads; auto
    |apply writes_Now; auto| |];
    (destruct m as [|m]; [lia|]); constructor; intros; apply IH; lia.
Qed.

Section trail_facts.
Context {A : Type}.
Implicit Types (p : prog A) (s : store).

Lemma trail_bind {B : Type} now p (f : A → prog B) s :
  trail now (bind p f) s =
  trail now p s ++ match run now p s with
                   | (Ok a, s1) => trail now (f a) s1
                   | _ => []
                   end.
Proof.
  revert s. induction p as [a|e|c k IH|cs k IH|k IH]; intros s; simpl; try done.
  - destruct (apply_command c s) as [s1 r]. destruct r; simpl; by rewrite ?IH.
  - destruct (exec_pipeline cs s) as [s1 rs]. simpl. by rewrite IH.
Qed.

Lemma writes_bind {B : Type} n m p (f : A → prog B) :
  writes n p → (∀ a, writes m (f a)) → writes (n + m) (bind p f).
Proof.
  intros Hp Hf. induction Hp; simpl; try (by constructor).
  apply (writes_le m); [done|lia].
Qed.

(** A turn of the handler moves along the trail. *)
Lemma advance_trail now p s s' :
  s' ∈ (advance now p s).2 :: trail now (advance now p s).1 (advance now p s).2 →
  s' ∈ s :: trail now p s.
Proof.
  induction p as [a|e|c k IH|cs k IH|k IH]; simpl; [done|done| | |apply IH].
  - destruct (apply_command c s) as [s1 r]. simpl.
    destruct r; simpl; rewrite ?elem_of_cons; set_solver.
  - destruct (exec_pipeline cs s) as [s1 rs]. simpl. rewrite !elem_of_cons. tauto.
Qed.

(** After any number of turns the store is the first one or one of the
    trail. *)
Lemma turns_trail now k p s : (turns now k p s).2 ∈ s :: trail now p s.
Proof.
  revert p s. induction k as [|k IH]; intros p s; simpl; [left|].
  pose proof (advance_trail now p s) as Hadv.
  destruct (advance now p s) as [p' s1]. simpl in *. apply Hadv.
  specialize (IH p' s1). apply elem_of_cons in IH as [->|IH]; [left|by right].
Qed.

(** A program that does not write leaves the store alone. *)
Lemma reading_trail now p s :
  writes 0 p → (run now p s).2 = s ∧ ∀ s', s' ∈ trail now p s → s' = s.
Proof.
  intros Hp. remember 0 as n eqn:Hn. revert s.
  induction Hp as [| |n c k Hc _ IH|n cs k Hc _ IH|n k _ IH| |]; intros s; simpl;
    try done; try (split; [done|by intros ? ?%elem_of_nil]); [| |by apply IH].
  - pose proof (apply_reads c s Hc) as Hs. destruct (apply_command c s) as [s1 r].
    simpl in Hs. subst s1. destruct (IH r Hn s) as [Hrun Htr].
    destruct r; simpl; (split; [done|]); intros s'; rewrite elem_of_cons; set_solver.
  - pose proof (exec_reads cs s Hc) as Hs. destruct (exec_pipeline cs s) as [s1 rs].
    simpl in Hs. subst s1. destruct (IH rs Hn s) as [Hrun Htr].
    split; [done|]. intros s'. rewrite elem_of_cons. set_solver.
Qed.

(** A program that writes once passes through the first store and the
    last, and no other. *)
Lemma writing_trail now p s s' :
  writes 1 p → s' ∈ trail now p s → s' = s ∨ s' = (run now p s).2.
Proof.
  intros Hp. remember 1 as n eqn:Hn. revert s.
  induction Hp as [| |n c k Hc _ IH|n cs k Hc _ IH|n k _ IH|n c k Hk _|n cs k Hk _];
    intros s; simpl; try (by intros ?%elem_of_nil); [| |by apply IH| |].
  - pose proof (apply_reads c s Hc) as Hs. destruct (apply_command c s) as [s1 r].
    simpl in Hs. subst s1.
    destruct r; simpl; rewrite elem_of_cons; try (intros [->|?]; [by left|by apply IH]).
    rewrite elem_of_nil. tauto.
  - pose proof (exec_reads cs s Hc) as Hs. destruct (exec_pipeline cs s) as [s1 rs].
    simpl in Hs. subst s1. rewrite elem_of_cons. intros [->|?]; [by left|by apply IH].
  - injection Hn as ->. destruct (apply_command c s) as [s1 r].
    destruct (reading_trail now (k r) s1 (Hk r)) as [Hrun Htr].
    destruct r; simpl; rewrite elem_of_cons, ?Hrun;
      try (intros [->|Hs%Htr]; subst; by right).
    rewrite elem_of_nil. intros [->|[]]. by right.
  - injection Hn as ->. destruct (exec_pipeline cs s) as [s1 rs].
    destruct (reading_trail now (k rs) s1 (Hk rs)) as [Hrun Htr].
    rewrite elem_of_cons, Hrun. intros [->|Hs%Htr]; subst; by right.
Qed.

End trail_facts.

(** A count of writes, one step at a time: a request that only reads
    is counted as such. *)
Ltac writes_step :=
  first
    [ apply writes_Ret
    | apply writes_Throw
    | apply writes_Now
    | apply writes_read; [reflexivity|]
    | apply writes_reads; [reflexivity|]
    | apply writes_Call
    | apply writes_Exec ].

Ltac writes_solve := repeat (intros; repeat case_match; try writes_step).

Section methods.
Context (allowJoinMultipleRooms : bool) `{!JSON.Codec}.
Implicit Types (s : store) (d : db) (u v rid : value) (room : Room) (now : Z).

#[local] Abbreviation inv := (inv allowJoinMultipleRooms).

(** A store that holds a database satisfying the invariant. *)
Definition consistent s : Prop := ∃ d, represents s d ∧ inv d.

(** ** Where each method writes *)

Lemma singleRoomGuard_reads u : writes 0 (singleRoomGuard allowJoinMultipleRooms u).
Proof. unfold singleRoomGuard, isMemberOfAny, call. writes_solve. Qed.

Lemma get_reads rid : writes 0 (get rid).
Proof. unfold get, call. writes_solve. Qed.

Lemma getMany_collect_reads (vals : list reply) (rooms : list Room) :
  writes 0 (getMany_collect vals rooms).
Proof.
  revert rooms. induction vals as [|r vals IH]; intros rooms; simpl; [constructor|].
  writes_solve; apply IH.
Qed.

Lemma getMany_reads (rids : list value) : writes 0 (getMany rids).
Proof.
  unfold getMany, exec. simpl. apply writes_reads; [by induction rids|].
  intros. apply getMany_collect_reads.
Qed.

Lemma book_writes u isPublic : writes 1 (book allowJoinMultipleRooms u isPublic).
Proof.
  unfold book, exec, date_now. apply (writes_bind 0 1); [apply singleRoomGuard_reads|].
  writes_solve.
Qed.

Lemma join_writes u rid : writes 1 (join allowJoinMultipleRooms u rid).
Proof.
  unfold join, exec. apply (writes_bind 0 1); [apply singleRoomGuard_reads|].
  intros []; [writes_solve|]. apply (writes_bind 0 1); [apply get_reads|]. writes_solve.
Qed.

Lemma leave_writes u rid : writes 1 (leave u rid).
Proof. unfold leave, exec. apply (writes_bind 0 1); [apply get_reads|]. writes_solve. Qed.

Lemma leaveMany_rooms_writes u (rids : list value) : writes 1 (leaveMany_rooms u rids).
Proof.
  unfold leaveMany_rooms, exec. apply (writes_bind 0 1); [apply getMany_reads|].
  writes_solve.
Qed.

Lemma leaveMany_writes u (rids : list value) : writes 1 (leaveMany u rids).
Proof.
  unfold leaveMany, call. destruct rids; [|apply leaveMany_rooms_writes].
  apply (writes_bind 0 1); [writes_solve|]. intros r.
  repeat case_match; first [apply writes_Ret|apply leaveMany_rooms_writes].
Qed.

Lemma kick_writes u v rid : writes 1 (kick u v rid).
Proof.
  unfold kick, exec. case_match.
  - apply (writes_bind 1 0); [apply leave_writes|writes_solve].
  - apply (writes_bind 0 1); [apply get_reads|]. writes_solve.
Qed.

Lemma transferOwnership_writes u v rid : writes 1 (transferOwnership u v rid).
Proof.
  unfold transferOwnership, call. apply (writes_bind 0 1); [apply get_reads|]. writes_solve.
Qed.

Lemma invite_writes u v rid : writes 1 (invite u v rid).
Proof. unfold invite, exec, call. simpl. writes_solve. Qed.

(** An accepted invitation writes twice: the rooms left, then the room
    entered. *)
Lemma respondInvitation_writes u v rid :
  writes 2 (respondInvitation allowJoinMultipleRooms u v rid).
Proof.
  unfold respondInvitation, exec. apply (writes_bind 0 2); [apply get_reads|]. intros room.
  repeat case_match; try (writes_step; fail); [|simpl; writes_solve].
  apply (writes_bind 0 2); [apply singleRoomGuard_reads|]. intros busy.
  apply (writes_bind 1 1); [destruct busy; [apply leaveMany_writes|constructor]|].
  writes_solve.
Qed.

(** Every request but the answer to an invitation writes at most once. *)
Lemma perform_writes q :
  writes (match q with RespondInvitation _ _ _ => 2 | _ => 1 end)
         (perform allowJoinMultipleRooms q).
Proof.
  destruct q; unfold perform, void, call;
    try (apply (writes_bind 1 0); [|intros; constructor]);
    eauto using book_writes, join_writes, leave_writes, kick_writes,
      transferOwnership_writes, invite_writes;
    try (simpl; writes_solve; fail).
  apply (writes_bind 2 0); [apply respondInvitation_writes|intros; constructor].
Qed.

(** ** What a failure leaves *)

(** The stores an answer to an invitation passes through: the first,
    the last, and when the guest had to leave rooms, the store in which
    that is done. *)
Lemma respondInvitation_trail now g a rid s d s' :
  represents s d → inv d → is_number g = true →
  s' ∈ trail now (respondInvitation allowJoinMultipleRooms g a rid) s →
  s' = s ∨ s' = (run now (respondInvitation allowJoinMultipleRooms g a rid) s).2 ∨
  consistent s'.
Proof.
  intros Hr Hi Hg. unfold respondInvitation.
  destruct (reading_trail now (get rid) s (get_reads rid)) as [_ Hget].
  rewrite trail_bind, run_bind, (run_get now s d rid Hr), elem_of_app.
  intros [Hin|Hin]; [left; by apply Hget|]. unfold Pure.get in *.
  destruct (room_of d rid) as [room|]; cbn [fst outcome_bind] in *;
    [|by apply elem_of_nil in Hin].
  destruct (_ =? _)%Z; [by apply elem_of_nil in Hin|].
  destruct (truthy a); [|apply writing_trail in Hin; [tauto|unfold exec; writes_solve]].
  destruct (reading_trail now _ s (singleRoomGuard_reads g)) as [_ Hguard].
  rewrite trail_bind in Hin.
  rewrite run_bind, (run_singleRoomGuard allowJoinMultipleRooms now s d g Hr) in *.
  cbn [outcome_bind] in *. apply elem_of_app in Hin as [Hin|Hin]; [left; by apply Hguard|].
  destruct (Pure.singleRoomGuard _ g d) eqn:Hbusy;
    [|apply writing_trail in Hin; [tauto|unfold exec; writes_solve]].
  destruct (leaveMany_refines now g [] s d Hr) as (s2 & Hrun & Hrep).
  destruct (leaveMany_single allowJoinMultipleRooms g d Hi Hg (guard_single _ _ _ Hbusy))
    as (Hi2 & _ & _).
  rewrite trail_bind in Hin. rewrite run_bind, Hrun in *. cbn [fst outcome_bind] in *.
  assert (consistent s2) as Hs2 by (by eexists).
  apply elem_of_app in Hin as [Hin|Hin]; apply writing_trail in Hin;
    try apply leaveMany_writes; try (unfold exec; writes_solve; fail).
  - rewrite Hrun in Hin. destruct Hin as [->| ->]; auto.
  - destruct Hin as [->| ->]; auto.
Qed.

(** C16: a failure of the store between two requests of a method leaves
    the invariant intact.  On a store that holds a consistent database,
    for every request of user ids and after any number of turns of its
    method, the store holds a consistent database: the one before, the
    one after, or, for an accepted invitation, the one in which the
    guest has left the other rooms. *)
Theorem crash_consistent now q s k :
  consistent s → well_typed q = true → fresh now q s →
  consistent (turns now k (perform allowJoinMultipleRooms q) s).2.
Proof.
  intros (d & Hr & Hi) Hq Hf.
  assert (consistent s) as Hs by (by exists d).
  assert (consistent (run now (perform allowJoinMultipleRooms q) s).2) as Hlast.
  { exists (effect allowJoinMultipleRooms now q d).
    split; [by apply perform_effect|by apply (effect_inv _ now q s)]. }
  pose proof (turns_trail now k (perform allowJoinMultipleRooms q) s) as Hin.
  apply elem_of_cons in Hin as [->|Hin]; [done|].
  assert ((∃ g a rid, q = RespondInvitation g a rid) ∨
          writes 1 (perform allowJoinMultipleRooms q)) as [(g & a & rid & ->)|Hw].
  { pose proof (perform_writes q) as Hw. destruct q; eauto 6. }
  - unfold perform, void in *. rewrite trail_bind, run_bind in *.
    destruct (run now (respondInvitation _ g a rid) s) as [[r|e] s1] eqn:Hrun;
      cbn [outcome_bind run trail snd] in *; rewrite app_nil_r in Hin;
      apply (respondInvitation_trail now g a rid s d) in Hin; try done;
      rewrite Hrun in Hin; cbn [snd] in Hin; by destruct Hin as [->|[->|?]].
  - apply writing_trail in Hin; [by destruct Hin as [->| ->]|done].
Qed.

(** In a consistent store a user is listed in a room as often as the
    room names the user. *)
Lemma consistent_listed now s u (i : string) room :
  consistent s → is_number u = true → run now (get (VStr i)) s = (Ok room, s) →
  count i (list_at s (key_of CacheNamespace.UId2RIds u)) = count u (memberIds room).
Proof.
  intros (d & Hr & Hi) Hu Hget. apply (run_get_ok now s d) in Hget as [Hroom _]; [|done].
  rewrite (represents_list_at s d), (inv_index _ d Hi) by done.
  unfold members_of. unfold room_of in Hroom. simpl in Hroom. by rewrite Hroom.
Qed.

End methods.

(** ** On concrete stores *)

Lemma crash_consistent_witness :
  consistent false (turns 9 1 (perform false (Leave (VNum 1) (VStr "7"))) (store_of joined2)).2.
Proof.
  apply (crash_consistent false 9 (Leave (VNum 1) (VStr "7")) (store_of joined2) 1);
    [|reflexivity|exact I].
  exists (db_of joined2). exact (scene_consistent joined2 joined2_admissible).
Defined.

(** A failure inside a pipeline: user 2 leaves room ["7"] and the
    connection drops after the first of the two commands.  The room no
    longer names the user, the user's list still names the room: no
    consistent database is what this store holds. *)
Example torn_leave_dangles :
  let cs := [(settle (VNum 2) (depart (VNum 2) room72)).2;
             LREM (key_of CacheNamespace.UId2RIds (VNum 2)) 1 "7"] in
  consistent false (torn 2 cs (store_of joined2)) ∧
  ¬ consistent false (torn 1 cs (store_of joined2)).
Proof.
  split.
  - replace (torn 2 _ _) with (store_of (joined2 ++ [(9%Z, Leave (VNum 2) (VStr "7"))]))
      by (vm_compute; reflexivity).
    eexists. apply scene_consistent. vm_compute. reflexivity.
  - intros Hc.
    pose proof (consistent_listed false 9 _ (VNum 2) "7"
                  (mkRoom "7" true (VNum 1) [VNum 1] [] [VNum 2]) Hc eq_refl) as Hn.
    assert (1 = 0) as Habs; [|lia]. apply Hn. vm_compute. reflexivity.
Qed.
