(* ===== verification/Pool.v ===== *)
(** * Pool: any number of handlers on the same store

    The server has as many handlers in flight as it has received
    messages that are not answered yet.  A [pool] holds, for each, the
    reading of its clock and what is left of its program; [dispatch]
    follows a schedule, a list of positions in the pool, and gives the
    handler at each position one turn ([advance]: up to and including
    its next request to the store).

    - whatever the schedule, no handler is ever answered a type error
      and the keys keep the types of their namespaces
      ([dispatch_keeps_types]): the one guarantee of the service that
      does not depend on the handlers running one at a time;
    - every handler finishes under every schedule that gives it six
      turns ([dispatch_finishes]);
    - the schedule that serves the handlers one after the other is a
      sequential run ([serial_dispatch_sequential]), so it leads from
      reachable stores to reachable stores. *)

From stdpp Require Import strings gmap.
From S2P Require Import Prelude JsArray JsValue Redis Room Json Prog Service Reach Scene.
From S2P Require Import Interleave Typing Progress.
Import RoomService.

#[local] Open Scope string_scope.
#[local] Open Scope list_scope.
#[local] Open Scope nat_scope.

(** A handler in flight. *)
Record handler : Type := Handler { clock : Z; rest : prog unit }.

Abbreviation pool := (list handler).

(** One turn of the handler at position [i]; a position outside the
    pool wakes nobody. *)
Definition wake (i : nat) (hs : pool) (s : store) : pool * store :=
  match hs !! i with
  | Some h =>
      let '(p, s') := advance (clock h) (rest h) s in (<[i := Handler (clock h) p]> hs, s')
  | None => (hs, s)
  end.

Fixpoint dispatch (ts : list nat) (hs : pool) (s : store) : pool * store :=
  match ts with
  | [] => (hs, s)
  | i :: ts' => let '(hs', s') := wake i hs s in dispatch ts' hs' s'
  end.

(** [k] turns for each of [n] handlers, one handler after the other. *)
Fixpoint serial (k n : nat) : list nat :=
  match n with
  | O => []
  | S n' => replicate k 0 ++ (S <$> serial k n')
  end.

(** Every handler of the pool gets [n] turns at least. *)
Definition fair_to (hs : pool) (n : nat) (ts : list nat) : Prop :=
  ∀ i, i < length hs → n ≤ count i ts.

(** A handler that has returned or thrown. *)
Definition at_end (h : handler) : Prop := finished (clock h) (rest h) = true.

(** ** The serial schedule *)

Lemma count_fmap_S i (ts : list nat) :
  count (S i) (S <$> ts) = count i ts ∧ count 0 (S <$> ts) = 0.
Proof.
  induction ts as [|j ts [IH1 IH2]]; [done|]. cbn [fmap list_fmap count].
  rewrite IH1, IH2. split; [repeat case_decide; simplify_eq; lia|by rewrite decide_False].
Qed.

(** The serial schedule gives each handler its [k] turns. *)
Lemma count_serial k n i : i < n → count i (serial k n) = k.
Proof.
  revert i. induction n as [|n IH]; intros i Hi; [lia|]. cbn [serial].
  rewrite count_app, count_replicate. destruct i as [|i].
  - rewrite decide_True by done. rewrite (proj2 (count_fmap_S 0 _)). lia.
  - rewrite decide_False by done. rewrite (proj1 (count_fmap_S i _)), IH; lia.
Qed.

(** ** One turn *)

Section turn_facts.
Context {A : Type}.
Implicit Types (p : prog A) (s : store).

(** A turn of a typed program on a typed store leaves both typed. *)
Lemma advance_typed now p s :
  typed p → store_typed s → typed (advance now p s).1 ∧ store_typed (advance now p s).2.
Proof.
  intros Hp. revert s. induction Hp as [a|e He|c k Hc Hk _|cs k Hcs Hk _|k _ IH];
    intros s Hs; cbn [advance fst snd]; [split; [by constructor|done]..| | |by apply IH].
  - destruct (apply_command_typed c s Hs Hc) as [Hs' Hr].
    destruct (apply_command c s) as [s' r]. simpl in *. by destruct r.
  - destruct (exec_pipeline_typed cs s Hs Hcs) as [Hs' Hr].
    destruct (exec_pipeline cs s) as [s' rs]. split; [apply Hk|done].
Qed.

(** After as many turns as it has requests, a handler has written what
    it would have written alone. *)
Lemma turns_run now n p s : within n p → (turns now n p s).2 = (run now p s).2.
Proof.
  intros Hp. rewrite <- (run_turns now n p s).
  by rewrite (run_finished now _ s (turns now n p s).2) by by apply turns_finished.
Qed.

End turn_facts.

(** ** The pool *)

Section pool_facts.
Implicit Types (hs : pool) (s : store) (ts : list nat) (h : handler).

Lemma dispatch_app ts1 ts2 hs s :
  dispatch (ts1 ++ ts2) hs s = dispatch ts2 (dispatch ts1 hs s).1 (dispatch ts1 hs s).2.
Proof.
  revert hs s. induction ts1 as [|i ts1 IH]; intros hs s; [done|]. cbn [app dispatch].
  destruct (wake i hs s) as [hs' s']. apply IH.
Qed.

(** Turns of the first handler. *)
Lemma dispatch_head k h hs s :
  dispatch (replicate k 0) (h :: hs) s =
    (Handler (clock h) (turns (clock h) k (rest h) s).1 :: hs, (turns (clock h) k (rest h) s).2).
Proof.
  revert h s. induction k as [|k IH]; intros [now p] s; [done|].
  cbn [replicate dispatch turns]. unfold wake. cbn [lookup list_lookup clock rest].
  destruct (advance now p s) as [p' s']. apply IH.
Qed.

(** Turns of the others. *)
Lemma dispatch_tail ts h hs s :
  dispatch (S <$> ts) (h :: hs) s = (h :: (dispatch ts hs s).1, (dispatch ts hs s).2).
Proof.
  revert hs s. induction ts as [|i ts IH]; intros hs s; [done|].
  cbn [fmap list_fmap dispatch]. unfold wake. change ((h :: hs) !! S i) with (hs !! i).
  destruct (hs !! i) as [[now p]|]; [|apply IH]. cbn [clock rest].
  destruct (advance now p s) as [p' s']. apply IH.
Qed.

(** A turn leaves the other handlers of the pool as they are. *)
Lemma wake_lookup i j hs s :
  (wake i hs s).1 !! j =
    if decide (i = j)
    then (λ h, Handler (clock h) (advance (clock h) (rest h) s).1) <$> hs !! j
    else hs !! j.
Proof.
  unfold wake. destruct (decide (i = j)) as [->|Hne].
  - destruct (hs !! j) as [h|] eqn:Hj; [|done]. cbn [fmap option_fmap option_map].
    destruct (advance (clock h) (rest h) s) as [p s']. cbn [fst].
    by rewrite list_lookup_insert_eq by by eapply lookup_lt_Some.
  - destruct (hs !! i) as [h|]; [|done].
    destruct (advance (clock h) (rest h) s) as [p s']. by apply list_lookup_insert_ne.
Qed.

Lemma wake_length i hs s : length (wake i hs s).1 = length hs.
Proof.
  unfold wake. destruct (hs !! i) as [h|]; [|done].
  destruct (advance (clock h) (rest h) s). apply length_insert.
Qed.

End pool_facts.

(** ** Typing and progress of a pool *)

Section pool_props.
Implicit Types (hs : pool) (s : store) (ts : list nat) (h : handler).

Lemma wake_typed i hs s :
  Forall (λ h, typed (rest h)) hs → store_typed s →
  Forall (λ h, typed (rest h)) (wake i hs s).1 ∧ store_typed (wake i hs s).2.
Proof.
  intros Hhs Hs. unfold wake. destruct (hs !! i) as [h|] eqn:Hi; [|done].
  destruct (advance_typed (clock h) (rest h) s) as [Hp Hs']; [|done|].
  { by apply (Forall_lookup_1 _ _ _ _ Hhs Hi). }
  destruct (advance (clock h) (rest h) s) as [p s']. split; [|done]. by apply Forall_insert.
Qed.

Lemma dispatch_typed ts hs s :
  Forall (λ h, typed (rest h)) hs → store_typed s →
  Forall (λ h, typed (rest h)) (dispatch ts hs s).1 ∧ store_typed (dispatch ts hs s).2.
Proof.
  revert hs s. induction ts as [|i ts IH]; intros hs s Hhs Hs; [done|]. cbn [dispatch].
  destruct (wake_typed i hs s Hhs Hs) as [Hhs' Hs'].
  destruct (wake i hs s) as [hs' s']. by apply IH.
Qed.

(** Handlers that have, each, as many turns ahead as requests left
    are all at their end after the schedule. *)
Lemma dispatch_at_end ts hs s :
  (∀ i h, hs !! i = Some h → ∃ m, within m (rest h) ∧ m ≤ count i ts) →
  Forall at_end (dispatch ts hs s).1.
Proof.
  revert hs s. induction ts as [|i ts IH]; intros hs s Hhs.
  - apply Forall_lookup. intros j h (m & Hm & Hle)%Hhs. apply within_finished.
    simpl in Hle. by replace m with 0 in Hm by lia.
  - cbn [dispatch]. pose proof (λ j, wake_lookup i j hs s) as Hw.
    destruct (wake i hs s) as [hs' s']. apply IH. intros j h'. specialize (Hw j).
    cbn [fst] in Hw. rewrite Hw. cbn [count] in Hhs. destruct (decide (i = j)) as [->|Hne].
    + destruct (hs !! j) as [h|] eqn:Hj; [|done]. intros [= <-].
      destruct (Hhs j h Hj) as (m & Hm & Hle). rewrite decide_True in Hle by done.
      exists (pred m). split; [by apply advance_within|lia].
    + intros (m & Hm & Hle)%Hhs. rewrite decide_False in Hle by done. by exists m.
Qed.

End pool_props.

(** ** The requests of the service in a pool *)

Section methods.
Context (allowJoinMultipleRooms : bool) `{!JSON.Codec}.
Implicit Types (s : store) (ts : list nat) (qs : script).

(** A handler is started for each request received. *)
Definition accept qs : pool :=
  (λ '(now, q), Handler now (perform allowJoinMultipleRooms q)) <$> qs.

Lemma accept_lookup qs i h :
  accept qs !! i = Some h → ∃ q, rest h = perform allowJoinMultipleRooms q.
Proof.
  unfold accept. rewrite list_lookup_fmap_Some. intros ([now q] & ? & ?). subst.
  by exists q.
Qed.

(** Whatever the requests in flight and however their handlers
    take turns at the store, the keys keep the types of their
    namespaces and no handler is answered a type error. *)
Theorem dispatch_keeps_types ts qs s :
  store_typed s →
  store_typed (dispatch ts (accept qs) s).2 ∧
  Forall (λ h, rest h ≠ Throw ReplyError) (dispatch ts (accept qs) s).1.
Proof.
  intros Hs. destruct (dispatch_typed ts (accept qs) s) as [Hhs Hs']; [|done|].
  - apply Forall_lookup. intros i h [q ->]%accept_lookup. apply perform_typed.
  - split; [done|]. eapply Forall_impl; [exact Hhs|]. intros h Hh Heq.
    cbn beta in Hh. rewrite Heq in Hh. by inversion Hh.
Qed.

(** Six turns bring the handler of any request to its end. *)
Lemma fair_at_end ts qs s :
  fair_to (accept qs) 6 ts → Forall at_end (dispatch ts (accept qs) s).1.
Proof.
  intros Hts. apply dispatch_at_end. intros i h Hi. exists 6. split.
  - destruct (accept_lookup qs i h Hi) as [q ->]. apply perform_within.
  - apply Hts. by eapply lookup_lt_Some.
Qed.

(** C24: every handler of the pool reaches its end under every schedule
    that gives it six turns, wherever the turns of the others fall. *)
Theorem dispatch_finishes ts qs s :
  fair_to (accept qs) 6 ts → Forall at_end (dispatch ts (accept qs) s).1.
Proof. apply fair_at_end. Qed.

(** The serial schedule writes what the requests write one after the
    other. *)
Lemma serial_dispatch_play qs s :
  (dispatch (serial 6 (length qs)) (accept qs) s).2 = play allowJoinMultipleRooms qs s.
Proof.
  revert s. induction qs as [|[now q] qs IH]; intros s; [done|].
  cbn [length serial accept fmap list_fmap]. rewrite dispatch_app, dispatch_head.
  cbn [fst snd clock rest]. rewrite dispatch_tail. cbn [snd]. unfold accept in IH.
  rewrite IH, turns_run by apply perform_within. done.
Qed.

(** The schedule that gives the first handler its six turns, then
    the second, and so on, is a sequential run: every handler is at
    its end and the store is the one the requests leave when they are
    served one after the other. *)
Theorem serial_dispatch_sequential qs s :
  (dispatch (serial 6 (length qs)) (accept qs) s).2 = play allowJoinMultipleRooms qs s ∧
  Forall at_end (dispatch (serial 6 (length qs)) (accept qs) s).1.
Proof.
  split; [apply serial_dispatch_play|]. apply fair_at_end. intros i Hi.
  unfold accept in Hi. rewrite length_fmap in Hi. by rewrite count_serial.
Qed.

(** Handlers that run one at a time, each to its end before the next
    takes a turn, lead from a store the service can be in to a store it
    can be in: only turns that alternate can break the invariant. *)
Lemma serial_dispatch_reachable qs s :
  reachable allowJoinMultipleRooms s → admissible allowJoinMultipleRooms qs s = true →
  reachable allowJoinMultipleRooms (dispatch (serial 6 (length qs)) (accept qs) s).2.
Proof. intros Hs Hqs. rewrite serial_dispatch_play. by apply play_reachable. Qed.

End methods.

(** ** On concrete pools

    Users 2 and 3 ask to join the public room ["7"] of user 1. *)

Definition two_joins : script :=
  [(8%Z, Join (VNum 2) (VStr "7")); (9%Z, Join (VNum 3) (VStr "7"))].

Lemma dispatch_keeps_types_witness :
  store_typed
    (dispatch [0; 1; 0; 1] (accept false two_joins) (store_of booked)).2 ∧
  Forall (λ h, rest h ≠ Throw ReplyError)
    (dispatch [0; 1; 0; 1] (accept false two_joins) (store_of booked)).1.
Proof.
  apply (dispatch_keeps_types false [0; 1; 0; 1]
           two_joins (store_of booked)).
  apply (reachable_typed false). apply play_reachable; [constructor|exact booked_admissible].
Defined.

Lemma dispatch_finishes_witness :
  Forall at_end
    (dispatch (serial 6 2)
       (accept false two_joins)
       (store_of booked)).1.
Proof.
  apply (dispatch_finishes false (serial 6 2)
           two_joins (store_of booked)).
  intros [|[|i]] Hi; [vm_compute; lia..|simpl in Hi; lia].
Defined.

(** Three users join room ["7"] at the same time and take their turns
    round robin: all three are told they joined, the room keeps the
    last writer only, and the two others are listed in a room they are
    not members of. *)
Example three_joins_keep_one :
  let qs := two_joins ++ [(10%Z, Join (VNum 4) (VStr "7"))] in
  let '(hs, s) := dispatch [0; 1; 2; 0; 1; 2; 0; 1; 2] (accept false qs) (store_of booked) in
  rest <$> hs = [Ret tt; Ret tt; Ret tt]
  ∧ (run 11%Z (get (VStr "7")) s).1 = Ok (mkRoom "7" true (VNum 1) [VNum 1; VNum 4] [] [])
  ∧ list_at s (key_of CacheNamespace.UId2RIds (VNum 2)) = ["7"]
  ∧ list_at s (key_of CacheNamespace.UId2RIds (VNum 3)) = ["7"].
Proof. vm_compute. done. Qed.
