(* ===== verification/Contract.v ===== *)
(** * Contract: the operations table of the specification

    The specification describes each operation of the coordinator by
    three columns: its preconditions, its effect, and the kinds of
    failure it reports.  A [contract] is one row of that table, stated
    on the decoded database of [Model]:

    - [requires]: the preconditions, decidable;
    - [ensures]: the effect, as a relation between the database before,
      the value returned and the database after;
    - [rejects]: for each kind of failure, the condition it reports.

    [honours] says that a method, run on a store that represents a
    database satisfying the invariant, keeps its row: when the
    preconditions hold it returns, and what it returns and leaves is
    what the effect column says, with the invariant intact; when they do
    not, it throws a rejection whose kind is in the failure column and
    whose condition holds, and the store is unchanged.

    The effects are written the way the table words them ("removes the
    caller from the list if present" is [remove_first]), not the way
    the code computes them, so where the code departs from the table the
    theorem carries the condition under which the two agree: [join] and
    [invite] agree with their rows on the rooms described by
    [join_agrees] and [invite_agrees]; the other methods agree
    everywhere.  For [respondInvitation] the row is read with the
    testable properties of the specification: the guest leaves the
    current rooms when the single-room policy is in force. *)

From stdpp Require Import strings gmap.
From S2P Require Import Prelude JsArray JsValue Redis Room Json Prog Service.
From S2P Require Import Model Invariant Refine LeaveMany Reach Scene.
Import RoomService.

#[local] Open Scope string_scope.
#[local] Open Scope list_scope.

(** The error taxonomy of the specification. *)
Module ErrorKind.
Inductive t : Type :=
| NotFound
| PolicyViolation
| PrivateRoom
| NotMember
| NotOwner
| InvalidCandidate
| GuestOffline
| AlreadyInvitedOrMember
| NotInvited
| StoreUnavailable.

#[export] Instance eq_dec : EqDecision t.
Proof. solve_decision. Defined.
End ErrorKind.
Import ErrorKind.

(** The rejection messages of the service and the kind each stands
    for.  No message stands for [StoreUnavailable]: a store that does
    not answer is not a rejection ([Crash]). *)
Definition messages : list (string * ErrorKind.t) :=
  [("Room does not exist!", NotFound);
   ("Please leave current room before creating a new one", PolicyViolation);
   ("Please leave current room before joining another one!", PolicyViolation);
   ("This room is private!", PrivateRoom);
   ("You are not in this room!", NotMember);
   ("Member is not in this room!", NotMember);
   ("You are not owner of this room!", NotOwner);
   ("New owner must be a member in this room!", InvalidCandidate);
   ("Please only invite online user!", GuestOffline);
   ("This user has been invited!", AlreadyInvitedOrMember);
   ("You are not invited to this room!", NotInvited)].

Definition kind_of (e : exn) : option ErrorKind.t :=
  match e with
  | WsException message => (list_to_map messages : gmap string ErrorKind.t) !! message
  | _ => None
  end.

(** One row of the operations table. *)
Record contract (A : Type) : Type := Contract {
  requires : db → Prop;
  requires_dec : ∀ d, Decision (requires d);
  ensures : db → A → db → Prop;
  rejects : ErrorKind.t → db → Prop;
}.
Arguments Contract {A} requires {requires_dec} ensures rejects.
Arguments requires {A} c d.
Arguments requires_dec {A} c d.
Arguments ensures {A} c d a d'.
Arguments rejects {A} c k d.
#[export] Existing Instance requires_dec.

(** ** Rooms and users of a database *)

Section views.
Implicit Types (d : db) (u rid : value) (r : Room).

(** A room is stored under [rid] and satisfies [P]. *)
Definition room_with rid (P : Room → Prop) d : Prop :=
  ∃ r, room_of d rid = Some r ∧ P r.

Definition missing rid d : Prop := room_of d rid = None.

#[export] Instance room_with_dec rid P `{!∀ r, Decision (P r)} d :
  Decision (room_with rid P d).
Proof.
  unfold room_with. destruct (room_of d rid) as [r|].
  - destruct (decide (P r)); [left; eauto|right]. by intros (? & [= <-] & ?).
  - right. by intros (? & [=] & _).
Defined.

Lemma room_with_Some rid P d r : room_of d rid = Some r → room_with rid P d ↔ P r.
Proof.
  intros Hr. split; [by intros (? & ? & ?); simplify_eq|]. intros HP. by exists r.
Qed.

Lemma room_with_inv rid P d r : room_of d rid = Some r → room_with rid P d → P r.
Proof. intros Hr. by apply room_with_Some. Qed.

Lemma room_with_None rid P d : room_of d rid = None → ¬ room_with rid P d.
Proof. intros Hr (? & ? & _). congruence. Qed.

(** The guest can be reached. *)
Definition connected u d : Prop := is_Some (socket_of d u).

End views.

(** ** Keeping a row *)

Section honours.
Context (allowJoinMultipleRooms : bool) `{!JSON.Codec}.
Context {A : Type}.
Implicit Types (c : contract A) (p : prog A) (f : db → outcome A * db) (s : store) (d : db).

#[local] Abbreviation inv := (inv allowJoinMultipleRooms).

(** The pure reading [f] keeps the row [c] on [d]. *)
Definition meets c f d : Prop :=
  (requires c d → ∃ a d', f d = (Ok a, d') ∧ ensures c d a d') ∧
  (¬ requires c d → ∃ e k, f d = (Err e, d) ∧ kind_of e = Some k ∧ rejects c k d).

(** The program [p] keeps the row [c] on the store [s], which holds
    [d]. *)
Definition honours (now : Z) p c s d : Prop :=
  (requires c d →
     ∃ a s' d', run now p s = (Ok a, s') ∧ represents s' d' ∧ inv d' ∧ ensures c d a d') ∧
  (¬ requires c d →
     ∃ e k, run now p s = (Err e, s) ∧ kind_of e = Some k ∧ rejects c k d).

(** A program keeps the rows its pure reading keeps. *)
Lemma meets_honours now p f c s d :
  refines now p f → represents s d → inv (f d).2 → meets c f d → honours now p c s d.
Proof.
  intros Hp Hr Hi [Hok Herr]. destruct (Hp s d Hr) as (s' & Hrun & Hr'). split.
  - intros (a & d' & Hf & He)%Hok. rewrite Hf in Hrun, Hr', Hi. by exists a, s', d'.
  - intros (e & k & Hf & Hk & Hrej)%Herr. rewrite Hf in Hrun, Hr'. cbn [fst snd] in *.
    assert (s' = s) as -> by by apply (represents_inj _ _ d). by exists e, k.
Qed.

(** What a row says of a program that returned, and of one that
    threw. *)
Lemma honours_ok now p c s d a s' :
  honours now p c s d → run now p s = (Ok a, s') →
  requires c d ∧ ∃ d', represents s' d' ∧ inv d' ∧ ensures c d a d'.
Proof.
  intros [Hok Herr] Hrun. destruct (decide (requires c d)) as [Hreq|Hreq].
  - split; [done|]. destruct (Hok Hreq) as (a' & s1 & d' & Hrun' & ?).
    rewrite Hrun in Hrun'. simplify_eq. by exists d'.
  - destruct (Herr Hreq) as (e & k & Hrun' & _). congruence.
Qed.

Lemma honours_err now p c s d e s' :
  honours now p c s d → run now p s = (Err e, s') →
  ¬ requires c d ∧ s' = s ∧ ∃ k, kind_of e = Some k ∧ rejects c k d.
Proof.
  intros [Hok Herr] Hrun. destruct (decide (requires c d)) as [Hreq|Hreq].
  - destruct (Hok Hreq) as (a' & s1 & d' & Hrun' & ?). congruence.
  - destruct (Herr Hreq) as (e' & k & Hrun' & ? & ?). rewrite Hrun in Hrun'.
    simplify_eq. eauto.
Qed.

End honours.

(** ** The rows of the table *)

Module Table.
Section Table.
Context (allowJoinMultipleRooms : bool).
Implicit Types (d : db) (u v rid : value) (r : Room).

(** "Single-room policy disabled, or caller is not a member of any
    room." *)
Definition free u d : Prop := allowJoinMultipleRooms = true ∨ joined_of d u = [].

#[export] Instance free_dec u d : Decision (free u d).
Proof. unfold free. apply _. Defined.

(** *** The effect column, on a room *)

(** [book]: the caller is sole member and owner. *)
Definition created (now : Z) u (isPublic : bool) : Room :=
  mkRoom (to_string (VNum now)) isPublic u [u] [] [].

(** [join]: the caller is appended to the members and removed from
    the invited and the refused, if present. *)
Definition admitted u r : Room :=
  mkRoom (id r) (isPublic r) (ownerId r) (memberIds r ++ [u])
         (remove_first u (waitingIds r)) (remove_first u (refusedIds r)).

(** The owner after [u] has left: the first remaining member when
    [u] was the owner. *)
Definition heir u r (members : list value) : value :=
  match members with
  | first :: _ => if decide (ownerId r = u) then first else ownerId r
  | [] => ownerId r
  end.

(** [leave]: the caller is removed from the members and appended to
    the refused; ownership passes on. *)
Definition departed u r : Room :=
  let members := remove_first u (memberIds r) in
  mkRoom (id r) (isPublic r) (heir u r members) members (waitingIds r) (refusedIds r ++ [u]).

(** [kick]: as [leave], without the change of owner. *)
Definition removed u r : Room :=
  mkRoom (id r) (isPublic r) (ownerId r) (remove_first u (memberIds r))
         (waitingIds r) (refusedIds r ++ [u]).

(** [invite]: the guest is appended to the invited and removed from
    the refused, if present. *)
Definition invited u r : Room :=
  mkRoom (id r) (isPublic r) (ownerId r) (memberIds r)
         (waitingIds r ++ [u]) (remove_first u (refusedIds r)).

(** [respondInvitation]: the guest is removed from the invited and
    appended to the members or to the refused. *)
Definition answered u (accept : bool) r : Room :=
  mkRoom (id r) (isPublic r) (ownerId r)
         (if accept then memberIds r ++ [u] else memberIds r)
         (remove_first u (waitingIds r))
         (if accept then refusedIds r else refusedIds r ++ [u]).

(** *** The effect column, on the database *)

(** The room a user has left is written back, or deleted when nobody
    is left in it, and its id leaves the user's list. *)
Definition vacated u r d : db :=
  unlist u (id r)
    (match memberIds r with [] => del_room (id r) d | _ => put_room r d end).

(** [leaveAll]: the rooms listed under the user, each after the user
    has left it, and the database after all of them. *)
Definition left_all u d : list Room :=
  departed u <$> omap (room_of d) (VStr <$> joined_of d u).

Definition leave_all u d : db := foldl (λ d' r, vacated u r d') d (left_all u d).

(** *** The rows *)

Definition book (now : Z) u (isPublic : bool) : contract Room :=
  Contract (free u)
    (λ d room d', room = created now u isPublic ∧ d' = enter u room d)
    (λ k d, k = PolicyViolation ∧ ¬ free u d).

Definition get rid : contract Room :=
  Contract (room_with rid (λ _, True))
    (λ d room d', room_of d rid = Some room ∧ d' = d)
    (λ k d, k = NotFound ∧ missing rid d).

Definition join u rid : contract Room :=
  Contract (λ d, free u d ∧ room_with rid (λ r, isPublic r = true) d)
    (λ d room d', ∃ r, room_of d rid = Some r ∧ room = admitted u r ∧ d' = enter u room d)
    (λ k d, match k with
            | PolicyViolation => ¬ free u d
            | NotFound => missing rid d
            | PrivateRoom => room_with rid (λ r, isPublic r = false) d
            | _ => False
            end).

Definition leave u rid : contract Room :=
  Contract (room_with rid (λ r, u ∈ memberIds r))
    (λ d room d', ∃ r, room_of d rid = Some r ∧ room = departed u r ∧ d' = vacated u room d)
    (λ k d, match k with
            | NotFound => missing rid d
            | NotMember => room_with rid (λ r, u ∉ memberIds r) d
            | _ => False
            end).

Definition leaveMany u : contract (list Room) :=
  Contract (λ _, True)
    (λ d rooms d', rooms = left_all u d ∧ d' = leave_all u d)
    (λ _ _, False).

(** [kick] of oneself is [leave]; otherwise the result carries what
    the store holds as the target's socket. *)
Definition kick (actor target rid : value) : contract KickResult.t :=
  Contract
    (λ d, (actor = target ∧ requires (leave actor rid) d) ∨
          (actor ≠ target ∧
           room_with rid (λ r, ownerId r = actor ∧ target ∈ memberIds r) d))
    (λ d res d',
       if decide (actor = target) then ensures (leave actor rid) d (KickResult.room res) d'
       else ∃ r, room_of d rid = Some r ∧ KickResult.room res = removed target r ∧
                 KickResult.kickedMemberSocketId res = Some (Pure.socket_reply target d) ∧
                 d' = unlist target (id r) (put_room (removed target r) d))
    (λ k d, match k with
            | NotFound => missing rid d
            | NotOwner => actor ≠ target ∧ room_with rid (λ r, ownerId r ≠ actor) d
            | NotMember => room_with rid (λ r, target ∉ memberIds r) d
            | _ => False
            end).

Definition transferOwnership (owner candidate rid : value) : contract Room :=
  Contract
    (room_with rid (λ r, ownerId r = owner ∧ candidate ≠ owner ∧ candidate ∈ memberIds r))
    (λ d room d', ∃ r, room_of d rid = Some r ∧ room = set_ownerId r candidate ∧
                       d' = put_room room d)
    (λ k d, match k with
            | NotFound => missing rid d
            | NotOwner => room_with rid (λ r, ownerId r ≠ owner) d
            | InvalidCandidate =>
                room_with rid (λ r, candidate = owner ∨ candidate ∉ memberIds r) d
            | _ => False
            end).

Definition invite (inviter guest rid : value) : contract InviteResult.t :=
  Contract
    (λ d, connected guest d ∧
          room_with rid (λ r, inviter ∈ memberIds r ∧ (guest ∉ memberIds r) ∧
                              (guest ∉ waitingIds r)) d)
    (λ d res d', ∃ r, room_of d rid = Some r ∧ InviteResult.room res = invited guest r ∧
                      socket_of d guest = Some (InviteResult.guestSocketId res) ∧
                      d' = put_room (invited guest r) d)
    (λ k d, match k with
            | NotFound => missing rid d
            | GuestOffline => ¬ connected guest d
            | NotMember => room_with rid (λ r, inviter ∉ memberIds r) d
            | AlreadyInvitedOrMember =>
                room_with rid (λ r, guest ∈ memberIds r ∨ guest ∈ waitingIds r) d
            | _ => False
            end).

(** An accepted guest first leaves the current rooms when the policy
    allows one room only. *)
Definition respondInvitation (guest : value) (accept : bool) (rid : value)
    : contract RespondResult.t :=
  Contract (room_with rid (λ r, guest ∈ waitingIds r))
    (λ d res d', ∃ r, room_of d rid = Some r ∧
       RespondResult.room res = answered guest accept r ∧
       if accept
       then
         let exclusive := bool_decide (¬ free guest d) in
         let d1 := if exclusive then leave_all guest d else d in
         RespondResult.leftRooms res = (if exclusive then left_all guest d else []) ∧
         d' = enter guest (answered guest true r) d1
       else RespondResult.leftRooms res = [] ∧ d' = put_room (answered guest false r) d)
    (λ k d, match k with
            | NotFound => missing rid d
            | NotInvited => room_with rid (λ r, guest ∉ waitingIds r) d
            | _ => False
            end).

End Table.
End Table.

(** ** Where the code agrees with the table *)

Section agrees.
Implicit Types (u : value) (r : Room) (l : list value).

(** A room on which [join] does what its row says: the caller is the
    one invitation it would remove, or there is none; and the last
    refusal is the caller's only one, or there is none. *)
Definition join_agrees u r : Prop :=
  (waitingIds r = [] ∨ u ∈ waitingIds r) ∧
  (refusedIds r = [] ∨ (last (refusedIds r) = Some u ∧ u ∉ removelast (refusedIds r))).

(** A room on which [invite] does what its row says: the guest is not
    refused and the refused are not more than the invited, or the
    guest's first refusal sits at the position the code looks at. *)
Definition invite_agrees u r : Prop :=
  ((u ∉ refusedIds r) ∧ (length (refusedIds r) ≤ length (waitingIds r))%nat) ∨
  (refusedIds r !! length (waitingIds r) = Some u ∧
   u ∉ take (length (waitingIds r)) (refusedIds r)).

#[export] Instance join_agrees_dec u r : Decision (join_agrees u r).
Proof. unfold join_agrees. apply _. Defined.

#[export] Instance invite_agrees_dec u r : Decision (invite_agrees u r).
Proof. unfold invite_agrees. apply _. Defined.

(** The projections of a room literal, and nothing else, are computed. *)
Ltac room_fields :=
  unfold set_refusedIds, set_waitingIds, set_memberIds, set_ownerId, push;
  cbn [id isPublic ownerId memberIds waitingIds refusedIds] in *.

Lemma remove_first_last u l :
  last l = Some u → u ∉ removelast l → remove_first u l = removelast l.
Proof.
  intros Hl Hu. destruct (last_Some l u) as [[l' ->] _]; [done|].
  rewrite removelast_last in *. by apply remove_first_snoc.
Qed.

Lemma join_update_admitted u r :
  NoDup (waitingIds r) → join_agrees u r → join_update u r = Table.admitted u r.
Proof.
  intros Hw [Hwait Href]. unfold join_update, Table.admitted.
  destruct r as [i p o ms ws rs]. room_fields. f_equal.
  - destruct Hwait as [->|Hin]; [done|]. by apply splice_indexOf_in.
  - rewrite (proj2 (indexOf_neg_iff u (splice (indexOf u ws) 1 ws)))
      by by apply not_elem_of_splice_indexOf.
    rewrite splice_minus_one. destruct Href as [->|[Hl Hu]]; [done|]. symmetry. by apply remove_first_last.
Qed.

Lemma depart_removed u r : u ∈ memberIds r → depart u r = Table.removed u r.
Proof.
  intros Hu. unfold depart, Table.removed. destruct r as [i p o ms ws rs]. room_fields.
  f_equal. by apply splice_indexOf_in.
Qed.

Lemma settled_depart_departed u r :
  u ∈ memberIds r → Pure.settled u (depart u r) = Table.departed u r.
Proof.
  intros Hu. rewrite depart_removed by done.
  unfold Pure.settled, Table.departed, Table.heir, Table.removed.
  destruct r as [i p o ms ws rs]. room_fields. destruct (remove_first u ms); [done|].
  by destruct (decide (u = o)) as [->|]; [rewrite decide_True|rewrite decide_False].
Qed.

Lemma invite_update_invited u r :
  u ∉ waitingIds r → invite_agrees u r → invite_update u r = Table.invited u r.
Proof.
  intros Hw Hag. unfold invite_update, Table.invited, invite_agrees in *.
  destruct r as [i p o ms ws rs]. room_fields. f_equal.
  rewrite indexOf_snoc_notin, splice_nat by done.
  destruct Hag as [[Hu Hlen]|[Hn Hu]].
  - rewrite remove_first_notin by done.
    by rewrite delete_take_drop, take_ge, drop_ge, app_nil_r by lia.
  - by apply delete_remove_first.
Qed.

Lemma respond_update_answered u (accept : bool) r :
  u ∈ waitingIds r → respond_update u accept r = Table.answered u accept r.
Proof.
  intros Hu. unfold respond_update, Table.answered. destruct r as [i p o ms ws rs].
  room_fields. rewrite splice_indexOf_in by done. by destruct accept.
Qed.

End agrees.

(** ** The pure readings keep their rows *)

(** The answer is a rejection of kind [K]: the preconditions fail and
    the condition of [K] holds. *)
Ltac reject K := split_and!; [|done|exists K; split; [done|]].

Section meets.
Context (allowJoinMultipleRooms : bool).
Implicit Types (d : db) (u v rid : value) (r : Room).

#[local] Abbreviation inv := (inv allowJoinMultipleRooms).

(** A row is kept when the answer has the shape the row asks for. *)
Lemma meets_case {A : Type} (c : contract A) f d :
  match f d with
  | (Ok a, d') => requires c d ∧ ensures c d a d'
  | (Err e, d') => (¬ requires c d) ∧ d' = d ∧ ∃ k, kind_of e = Some k ∧ rejects c k d
  end → meets c f d.
Proof.
  unfold meets. destruct (f d) as [[a|e] d'].
  - intros [Hreq He]. split; [by exists a, d'|done].
  - intros (Hreq & -> & k & Hk & Hrej). split; [done|]. by exists e, k.
Qed.

(** The guard of the code is the policy of the table. *)
Lemma guard_false_free u d :
  Pure.singleRoomGuard allowJoinMultipleRooms u d = false ↔
  Table.free allowJoinMultipleRooms u d.
Proof.
  unfold Pure.singleRoomGuard, Pure.isMemberOfAny, Table.free.
  destruct allowJoinMultipleRooms; cbn; [by split; [left|]|].
  rewrite bool_decide_eq_false. split.
  - intros Hl. right. by destruct (joined_of d u); [|destruct Hl].
  - intros [?|Hl] Hne; [done|by apply Hne].
Qed.

Lemma guard_true_busy u d :
  Pure.singleRoomGuard allowJoinMultipleRooms u d = true ↔
  ¬ Table.free allowJoinMultipleRooms u d.
Proof. rewrite <- guard_false_free. by destruct (Pure.singleRoomGuard allowJoinMultipleRooms u d). Qed.

Lemma book_meets now u (isPublic : bool) d :
  meets (Table.book allowJoinMultipleRooms now u isPublic)
        (Pure.book allowJoinMultipleRooms now u isPublic) d.
Proof.
  apply meets_case. unfold Pure.book.
  destruct (Pure.singleRoomGuard allowJoinMultipleRooms u d) eqn:Hg.
  - apply guard_true_busy in Hg. by reject PolicyViolation.
  - by apply guard_false_free in Hg.
Qed.

Lemma get_meets rid d : meets (Table.get rid) (Pure.get rid) d.
Proof.
  apply meets_case. unfold Pure.get. destruct (room_of d rid) as [r|] eqn:Hr.
  - split; [by exists r|done].
  - reject NotFound; [by apply room_with_None|done].
Qed.

Lemma join_meets u rid d :
  inv d →
  (requires (Table.join allowJoinMultipleRooms u rid) d →
   ∀ r, room_of d rid = Some r → join_agrees u r) →
  meets (Table.join allowJoinMultipleRooms u rid) (Pure.join allowJoinMultipleRooms u rid) d.
Proof.
  intros Hi Hag. apply meets_case. unfold Pure.join.
  destruct (Pure.singleRoomGuard allowJoinMultipleRooms u d) eqn:Hg.
  { apply guard_true_busy in Hg. reject PolicyViolation; [by intros [? _]|done]. }
  apply guard_false_free in Hg. destruct (room_of d rid) as [r|] eqn:Hr.
  2: { reject NotFound; [intros [_ ?]; by eapply room_with_None|done]. }
  destruct (isPublic r) eqn:Hp; cbn [negb].
  - assert (requires (Table.join allowJoinMultipleRooms u rid) d) as Hreq
      by (split; [done|by exists r]).
    split; [done|]. exists r. rewrite join_update_admitted; [done| |by apply Hag].
    by destruct (room_of_ok allowJoinMultipleRooms d rid r Hi Hr).
  - reject PrivateRoom; [|by exists r].
    intros [_ Hw]. apply (room_with_inv _ _ _ _ Hr) in Hw. cbn beta in Hw. congruence.
Qed.

Lemma leave_meets u rid d : meets (Table.leave u rid) (Pure.leave u rid) d.
Proof.
  apply meets_case. unfold Pure.leave. destruct (room_of d rid) as [r|] eqn:Hr.
  2: { reject NotFound; [by apply room_with_None|done]. }
  destruct (includes u (memberIds r)) eqn:Hin; cbn [negb].
  - apply includes_true in Hin. split; [by exists r|]. exists r.
    by rewrite settled_depart_departed.
  - apply includes_false in Hin. reject NotMember; [|by exists r].
    by intros Hw%(room_with_inv _ _ _ _ Hr).
Qed.

Lemma kick_meets actor target rid d :
  meets (Table.kick actor target rid) (Pure.kick actor target rid) d.
Proof.
  unfold Pure.kick. destruct (decide (actor = target)) as [->|Hne].
  { destruct (leave_meets target rid d) as [Hok Herr]. split.
    - intros [[_ Hreq]|[? _]]; [|done].
      destruct (Hok Hreq) as (room & d' & -> & He). eexists _, d'. split; [done|].
      cbn. by rewrite decide_True.
    - intros Hreq. destruct Herr as (e & k & -> & Hk & Hrej); [by intros ?; apply Hreq; left|].
      exists e, k. split_and!; [done..|]. by destruct k. }
  apply meets_case. destruct (room_of d rid) as [r|] eqn:Hr.
  2: { reject NotFound; [|done]. intros [[? _]|[_ ?]]; [done|by eapply room_with_None]. }
  destruct (decide (ownerId r ≠ actor)) as [Ho|Ho%dec_stable].
  { reject NotOwner; [|by split; [|exists r]].
    intros [[? _]|[_ Hw]]; [done|]. apply (room_with_inv _ _ _ _ Hr) in Hw. cbn beta in Hw. tauto. }
  destruct (includes target (memberIds r)) eqn:Hin; cbn [negb].
  - apply includes_true in Hin. split; [right; split; [done|by exists r]|].
    cbn. rewrite decide_False by done. exists r. by rewrite depart_removed.
  - apply includes_false in Hin. reject NotMember; [|by exists r].
    intros [[? _]|[_ Hw]]; [done|]. apply (room_with_inv _ _ _ _ Hr) in Hw. cbn beta in Hw. tauto.
Qed.

Lemma transferOwnership_meets owner candidate rid d :
  meets (Table.transferOwnership owner candidate rid)
        (Pure.transferOwnership owner candidate rid) d.
Proof.
  apply meets_case. unfold Pure.transferOwnership.
  destruct (room_of d rid) as [r|] eqn:Hr.
  2: { reject NotFound; [by apply room_with_None|done]. }
  destruct (decide (ownerId r ≠ owner)) as [Ho|Ho%dec_stable].
  { reject NotOwner; [|by exists r].
    intros Hw. apply (room_with_inv _ _ _ _ Hr) in Hw. cbn beta in Hw. tauto. }
  destruct (bool_decide_reflect (owner = candidate)) as [Hc|Hc]; cbn [orb].
  { reject InvalidCandidate; [|by exists r; split; [|left]].
    intros Hw. apply (room_with_inv _ _ _ _ Hr) in Hw. cbn beta in Hw. naive_solver. }
  destruct (includes candidate (memberIds r)) eqn:Hin; cbn [negb].
  - apply includes_true in Hin. split; [|by exists r]. exists r. naive_solver.
  - apply includes_false in Hin. reject InvalidCandidate; [|by exists r; split; [|right]].
    intros Hw. apply (room_with_inv _ _ _ _ Hr) in Hw. cbn beta in Hw. tauto.
Qed.

Lemma invite_meets inviter guest rid d :
  (requires (Table.invite inviter guest rid) d →
   ∀ r, room_of d rid = Some r → invite_agrees guest r) →
  meets (Table.invite inviter guest rid) (Pure.invite inviter guest rid) d.
Proof.
  intros Hag. apply meets_case. unfold Pure.invite.
  destruct (room_of d rid) as [r|] eqn:Hr.
  2: { reject NotFound; [intros [_ ?]; by eapply room_with_None|done]. }
  destruct (socket_of d guest) as [sid|] eqn:Hs.
  2: { assert (¬ connected guest d) as Hoff by (unfold connected; rewrite Hs; by intros [? [=]]).
       reject GuestOffline; [by intros [? _]|done]. }
  assert (connected guest d) as Hon by (unfold connected; by rewrite Hs).
  destruct (includes inviter (memberIds r)) eqn:Hin; cbn [negb].
  2: { apply includes_false in Hin. reject NotMember; [|by exists r].
       intros [_ Hw]. apply (room_with_inv _ _ _ _ Hr) in Hw. cbn beta in Hw. tauto. }
  apply includes_true in Hin.
  destruct (includes guest (memberIds r)) eqn:Hm; cbn [orb].
  { apply includes_true in Hm. reject AlreadyInvitedOrMember; [|by exists r; split; [|left]].
    intros [_ Hw]. apply (room_with_inv _ _ _ _ Hr) in Hw. cbn beta in Hw. tauto. }
  apply includes_false in Hm. destruct (includes guest (waitingIds r)) eqn:Hw.
  { apply includes_true in Hw. reject AlreadyInvitedOrMember; [|by exists r; split; [|right]].
    intros [_ Hq]. apply (room_with_inv _ _ _ _ Hr) in Hq. cbn beta in Hq. tauto. }
  apply includes_false in Hw.
  assert (requires (Table.invite inviter guest rid) d) as Hreq
    by (split; [done|by exists r]).
  split; [done|]. exists r. by rewrite invite_update_invited by auto.
Qed.

(** The rooms [leaveMany] finds are rooms of the leaver, so each is
    left the way the table says. *)
Lemma left_rooms_left_all u d :
  inv d → is_number u = true → Pure.left_rooms u [] d = Table.left_all u d.
Proof.
  intros Hi Hu. unfold Pure.left_rooms, Table.left_all, Pure.leaveMany_ids.
  apply list_fmap_ext. intros n r Hn%list_elem_of_lookup_2.
  apply list_elem_of_omap in Hn as (rid & (i & -> & Hl)%list_elem_of_fmap & Hr).
  apply settled_depart_departed.
  pose proof (listed_member allowJoinMultipleRooms d u i Hi Hu Hl) as Hin.
  unfold members_of in Hin. unfold room_of in Hr. rewrite to_string_str in Hr.
  by rewrite Hr in Hin.
Qed.

Lemma leaveMany_meets u d :
  inv d → is_number u = true → NoDup (joined_of d u) →
  meets (Table.leaveMany u) (Pure.leaveMany u []) d.
Proof.
  intros Hi Hu Hl. split; [|done]. intros _.
  exists (Pure.left_rooms u [] d), (Pure.leaveMany u [] d).2. split; [done|].
  rewrite leaveMany_no_repeat, left_rooms_left_all by done. done.
Qed.

Lemma respondInvitation_meets guest isAccpeted rid d :
  inv d → is_number guest = true →
  meets (Table.respondInvitation allowJoinMultipleRooms guest (truthy isAccpeted) rid)
        (Pure.respondInvitation allowJoinMultipleRooms guest isAccpeted rid) d.
Proof.
  intros Hi Hu. apply meets_case. unfold Pure.respondInvitation.
  destruct (room_of d rid) as [r|] eqn:Hr.
  2: { reject NotFound; [by apply room_with_None|done]. }
  destruct (includes guest (waitingIds r)) eqn:Hin; cbn [negb].
  2: { apply includes_false in Hin. reject NotInvited; [|by exists r].
       by intros Hw%(room_with_inv _ _ _ _ Hr). }
  apply includes_true in Hin.
  destruct (truthy isAccpeted); (split; [by exists r|]); exists r;
    rewrite respond_update_answered by done;
    cbn [RespondResult.room RespondResult.leftRooms]; [|done].
  destruct (Pure.singleRoomGuard allowJoinMultipleRooms guest d) eqn:Hg.
  - pose proof (inv_single _ d Hi (guard_single _ _ _ Hg) guest Hu) as Hlen.
    apply guard_true_busy in Hg. rewrite bool_decide_eq_true_2 by done.
    rewrite leaveMany_no_repeat, left_rooms_left_all by (done || by apply NoDup_short).
    done.
  - apply guard_false_free in Hg. by rewrite bool_decide_eq_false_2 by tauto.
Qed.

End meets.

(** ** The methods keep their rows *)

Section rows.
Context (allowJoinMultipleRooms : bool) `{!JSON.Codec}.
Implicit Types (s : store) (d : db) (u v rid : value) (now : Z).

#[local] Abbreviation inv := (inv allowJoinMultipleRooms).
#[local] Abbreviation honours := (honours allowJoinMultipleRooms).

(** C4: [book] keeps its row of the table: it creates the room with
    the caller as sole member and owner when the policy lets the caller
    in, and rejects with [PolicyViolation] otherwise. *)
Theorem book_honours now u (isPublic : bool) s d :
  represents s d → inv d → is_number u = true → room_of d (VNum now) = None →
  honours now (book allowJoinMultipleRooms u isPublic)
    (Table.book allowJoinMultipleRooms now u isPublic) s d.
Proof.
  intros Hr Hi Hu Hfresh.
  eapply meets_honours; [apply book_refines|done|by apply book_inv|apply book_meets].
Qed.

(** [get] keeps its row: the room, or [NotFound]. *)
Theorem get_honours now rid s d :
  represents s d → inv d → honours now (get rid) (Table.get rid) s d.
Proof.
  intros Hr Hi. eapply meets_honours; [apply get_refines|done| |apply get_meets].
  unfold Pure.get. by destruct (room_of d rid).
Qed.

(** C9: [join] rejects as its row says, with [PolicyViolation],
    [NotFound] or [PrivateRoom]; and when it accepts, on a room where
    the caller is the invitation and the refusal it removes or there is
    none to remove, the caller is appended to the members and leaves
    the invited and the refused, as the row says. *)
Theorem join_honours now u rid s d :
  represents s d → inv d → is_number u = true →
  (requires (Table.join allowJoinMultipleRooms u rid) d →
   ∀ r, room_of d rid = Some r → join_agrees u r) →
  honours now (join allowJoinMultipleRooms u rid) (Table.join allowJoinMultipleRooms u rid) s d.
Proof.
  intros Hr Hi Hu Hag.
  eapply meets_honours; [apply join_refines|done|by apply join_inv|by apply join_meets].
Qed.

(** C2: [leave] keeps its row: a member is removed and recorded as
    refused, the room is deleted when empty and passes to the first
    remaining member when its owner left; the rejections are [NotFound]
    and [NotMember]. *)
Theorem leave_honours now u rid s d :
  represents s d → inv d → is_number u = true →
  honours now (leave u rid) (Table.leave u rid) s d.
Proof.
  intros Hr Hi Hu.
  eapply meets_honours; [apply leave_refines|done|by apply leave_inv|apply leave_meets].
Qed.

(** C5: [kick] keeps its row: of oneself it is [leave]; otherwise the
    owner removes a member and receives what the store holds as the
    member's socket; the rejections are [NotFound], [NotOwner] and
    [NotMember]. *)
Theorem kick_honours now actor target rid s d :
  represents s d → inv d → is_number target = true →
  honours now (kick actor target rid) (Table.kick actor target rid) s d.
Proof.
  intros Hr Hi Hu.
  eapply meets_honours; [apply kick_refines|done|by apply kick_inv|apply kick_meets].
Qed.

(** C8: [transferOwnership] keeps its row. *)
Theorem transferOwnership_honours now owner candidate rid s d :
  represents s d → inv d →
  honours now (transferOwnership owner candidate rid)
    (Table.transferOwnership owner candidate rid) s d.
Proof.
  intros Hr Hi. eapply meets_honours;
    [apply transferOwnership_refines|done|by apply transferOwnership_inv
    |apply transferOwnership_meets].
Qed.

(** C10: [invite] rejects as its row says, with [NotFound],
    [GuestOffline], [NotMember] or [AlreadyInvitedOrMember]; and when
    it accepts, on a room where the guest's refusal sits where the code
    looks for it or the guest has none, the guest is appended to the
    invited and leaves the refused, as the row says. *)
Theorem invite_honours now inviter guest rid s d :
  represents s d → inv d →
  (requires (Table.invite inviter guest rid) d →
   ∀ r, room_of d rid = Some r → invite_agrees guest r) →
  honours now (invite inviter guest rid) (Table.invite inviter guest rid) s d.
Proof.
  intros Hr Hi Hag.
  eapply meets_honours; [apply invite_refines|done|by apply invite_inv|by apply invite_meets].
Qed.

(** [leaveMany] without room ids keeps the row of [leaveAll] under the
    single-room policy. *)
Theorem leaveMany_honours now u s d :
  represents s d → inv d → is_number u = true → allowJoinMultipleRooms = false →
  honours now (leaveMany u []) (Table.leaveMany u) s d.
Proof.
  intros Hr Hi Hu Hf. destruct (leaveMany_single _ u d Hi Hu Hf) as [Hi' _].
  eapply meets_honours; [apply leaveMany_refines|done|done|].
  apply (leaveMany_meets allowJoinMultipleRooms); [done..|]. apply NoDup_short. by apply (inv_single _ d Hi).
Qed.

(** C1: [respondInvitation] keeps its row: an invited guest leaves the
    invited and becomes a member, after leaving every current room when
    one room only is allowed, or is recorded as refused; the rejections
    are [NotFound] and [NotInvited]. *)
Theorem respondInvitation_honours now guest isAccpeted rid s d :
  represents s d → inv d → is_number guest = true →
  honours now (respondInvitation allowJoinMultipleRooms guest isAccpeted rid)
    (Table.respondInvitation allowJoinMultipleRooms guest (truthy isAccpeted) rid) s d.
Proof.
  intros Hr Hi Hu.
  eapply meets_honours;
    [apply respondInvitation_refines|done|by apply respondInvitation_inv
    |by apply respondInvitation_meets].
Qed.

End rows.

(** ** On concrete stores *)

(** The room ["7"] of user 1 with user 3 invited and user 4, who
    declined, refused. *)
Definition declined4 : script :=
  [(1, Connect (VNum 3) "k3"); (2, Connect (VNum 4) "k4"); (7, Book (VNum 1) true);
   (8, Invite (VNum 1) (VNum 3) (VStr "7")); (9, Invite (VNum 1) (VNum 4) (VStr "7"));
   (10, RespondInvitation (VNum 4) (VBool false) (VStr "7"))]%Z.

Lemma declined4_admissible : admissible false declined4 ∅ = true.
Proof. vm_compute. reflexivity. Qed.

Lemma declined4_room :
  room_of (db_of declined4) (VStr "7") =
    Some (mkRoom "7" true (VNum 1) [VNum 1] [VNum 3] [VNum 4]).
Proof. vm_compute. reflexivity. Qed.

Lemma book_honours_witness :
  honours false 7 (book false (VNum 1) true) (Table.book false 7 (VNum 1) true) ∅ empty_db.
Proof.
  apply (book_honours false 7 (VNum 1) true ∅ empty_db);
    [apply represents_empty|apply inv_empty|reflexivity|reflexivity].
Defined.

Lemma join_honours_witness :
  honours false 8 (join false (VNum 2) (VStr "7")) (Table.join false (VNum 2) (VStr "7"))
    (store_of booked) (db_of booked).
Proof.
  apply (join_honours false 8 (VNum 2) (VStr "7") (store_of booked) (db_of booked));
    [apply (scene_consistent booked booked_admissible)..|reflexivity|].
  intros _ r Hr. vm_compute in Hr. injection Hr as <-. by split; left.
Defined.

Lemma leave_honours_witness :
  honours false 9 (leave (VNum 1) (VStr "7")) (Table.leave (VNum 1) (VStr "7"))
    (store_of joined2) (db_of joined2).
Proof.
  apply (leave_honours false 9 (VNum 1) (VStr "7") (store_of joined2) (db_of joined2));
    [apply (scene_consistent joined2 joined2_admissible)..|reflexivity].
Defined.

Lemma kick_honours_witness :
  honours false 9 (kick (VNum 1) (VNum 2) (VStr "7")) (Table.kick (VNum 1) (VNum 2) (VStr "7"))
    (store_of joined2) (db_of joined2).
Proof.
  apply (kick_honours false 9 (VNum 1) (VNum 2) (VStr "7") (store_of joined2) (db_of joined2));
    [apply (scene_consistent joined2 joined2_admissible)..|reflexivity].
Defined.

Lemma transferOwnership_honours_witness :
  honours false 9 (transferOwnership (VNum 1) (VNum 2) (VStr "7"))
    (Table.transferOwnership (VNum 1) (VNum 2) (VStr "7")) (store_of joined2) (db_of joined2).
Proof.
  apply (transferOwnership_honours false 9 (VNum 1) (VNum 2) (VStr "7")
           (store_of joined2) (db_of joined2));
    apply (scene_consistent joined2 joined2_admissible).
Defined.

Lemma invite_honours_witness :
  honours false 9 (invite (VNum 1) (VNum 3) (VStr "7"))
    (Table.invite (VNum 1) (VNum 3) (VStr "7")) (store_of online) (db_of online).
Proof.
  apply (invite_honours false 9 (VNum 1) (VNum 3) (VStr "7") (store_of online) (db_of online));
    [apply (scene_consistent online online_admissible)..|].
  intros _ r Hr. vm_compute in Hr. injection Hr as <-. left. split; [|done].
  apply not_elem_of_nil.
Defined.

Lemma respondInvitation_honours_witness :
  honours false 10 (respondInvitation false (VNum 3) (VBool true) (VStr "7"))
    (Table.respondInvitation false (VNum 3) true (VStr "7"))
    (store_of invited) (db_of invited).
Proof.
  apply (respondInvitation_honours false 10 (VNum 3) (VBool true) (VStr "7")
           (store_of invited) (db_of invited));
    [apply (scene_consistent invited invited_admissible)..|reflexivity].
Defined.

(** The preconditions are decided by computation: user 2 may join the
    public room ["7"], user 3, who is in room ["8"], may not, and
    nobody may join a room that does not exist. *)
Example join_requires_decided :
  bool_decide (requires (Table.join false (VNum 2) (VStr "7")) (db_of booked)) = true ∧
  bool_decide (requires (Table.join false (VNum 3) (VStr "7")) (db_of online)) = false ∧
  bool_decide (requires (Table.join false (VNum 2) (VStr "9")) (db_of booked)) = false.
Proof. vm_compute. done. Qed.

(** Where the agreement fails, so does the row: user 2 joins room
    ["7"] while user 3 is invited and user 4 refused.  The table keeps
    both entries; the code drops both. *)
Example join_breaks_row :
  requires (Table.join false (VNum 2) (VStr "7")) (db_of declined4) ∧
  ¬ join_agrees (VNum 2) (mkRoom "7" true (VNum 1) [VNum 1] [VNum 3] [VNum 4]) ∧
  ¬ honours false 11 (join false (VNum 2) (VStr "7")) (Table.join false (VNum 2) (VStr "7"))
      (store_of declined4) (db_of declined4).
Proof.
  assert (requires (Table.join false (VNum 2) (VStr "7")) (db_of declined4)) as Hreq.
  { apply (bool_decide_unpack _). vm_compute. exact I. }
  split_and!; [done|by apply (bool_decide_eq_false_1 _); vm_compute|].
  intros [Hok _]. destruct (Hok Hreq) as (a & s' & d' & Hrun & _ & _ & r & Hr & -> & _).
  rewrite declined4_room in Hr. injection Hr as <-.
  apply (f_equal fst) in Hrun. vm_compute in Hrun. discriminate.
Qed.
