(* ===== verification/Endpoint.v ===== *)
(** * Endpoint: the handlers behind their decorators

    Every message handler of the gateway carries the same three
    decorators: [@UseInterceptors] with an interceptor that binds the
    name of the event and one that binds the user id of the socket,
    [@SubscribeMessage] with the name of the event, and, on the class,
    [@UseFilters] with the filter that reports what is thrown.
    [deliver] runs a message through them.

    - the decorators are consistent ([endpoint_well_decorated]): each
      handler is subscribed under the name its message is sent with,
      and binds that same name for its reports;
    - whatever the session layer and the store answer, a message never
      makes the gateway throw and never closes a socket; when binding
      the user or the handler itself fails, the socket that sent the
      message, and no other, receives one report that names the event
      and the error, and no socket has moved
      ([rejection_reported]). *)

From stdpp Require Import strings gmap.
From S2P Require Import Prelude JsArray JsValue Redis Room Prog Service Socket.
From S2P Require Import Json Scene Gateway GatewaySpec.
Import TextChatGateway.

#[local] Open Scope string_scope.
#[local] Open Scope list_scope.

(** The decorators of an endpoint are in order: the name the endpoint
    is subscribed under is bound first, then the user id; and the name
    is not the one reserved for the reports of [handleConnection]. *)
Definition well_decorated {E : Type} (ep : endpoint E) : Prop :=
  interceptors ep =
    [EventNameBindingInterceptor (subscribes ep); SocketUserIdBindingInterceptor] ∧
  subscribes ep ≠ ListenEvent.Connect.

#[export] Instance well_decorated_dec {E : Type} (ep : endpoint E) :
  Decision (well_decorated ep).
Proof. unfold well_decorated. apply _. Defined.

(** The report of a rejection: one emission to the socket of the
    request. *)
Definition report (client : Client.t) (event : ListenEvent.t) (e : exn) : action :=
  Emit (SocketIO.ToSocket (Client.id client)) EmitEvent.Error (Rejection (Some event) e).

Section endpoints.
Context (allowJoinMultipleRooms : bool) `{!JSON.Codec}.
Context {E : Type} {services : Services E} {binding : Interceptors E}.
Context (now : Z).
Implicit Types (w : world E) (client : Client.t) (m : message).

#[local] Abbreviation endpoint_of := (endpoint_of (E:=E) allowJoinMultipleRooms now).
#[local] Abbreviation on_message := (on_message (E:=E) allowJoinMultipleRooms now).

(** The socket once [SocketUserIdBindingInterceptor] has run, or what
    it threw. *)
Definition bound client w : outcome Client.t * world E :=
  match socketUserId (Client.id client) (kv w, ext w) with
  | (Ok userId, (s, e)) => (Ok (Client.mk (Client.id client) userId), World s e (net w) (out w))
  | (Err error, (s, e)) => (Err error, World s e (net w) (out w))
  end.

(** The world after a report to [client]. *)
Definition reported client m (e : exn) w0 w : world E :=
  World (kv w) (ext w) (net w0) (out w0 ++ [report client (event_of m) e]).

(** Each handler is subscribed under the name its message is sent
    with, binds that name for its reports before anything can fail,
    then binds the user id; no handler takes the name [Connect]. *)
Theorem endpoint_well_decorated m :
  subscribes (endpoint_of m) = event_of m ∧ well_decorated (endpoint_of m).
Proof. by destruct m. Qed.

(** A delivery, step by step. *)
Lemma deliver_bound m client w :
  deliver (endpoint_of m) client w =
    match bound client w with
    | (Ok client', w1) =>
        UseFilters (ExecutionContext.mk client' (Some (event_of m))) (on_message client' m) w1
    | (Err e, w1) =>
        WsExceptionsFilter (ExecutionContext.mk client (Some (event_of m))) e w1
    end.
Proof.
  unfold deliver, bound.
  destruct m; cbn [endpoint_of interceptors intercepted intercept handle ret event_of
                   onSendPrivateMessage onCreateRoom onJoinRoom onLeaveRoom onKickOutOfRoom
                   onSendGroupMessage onTranserOwnership onInviteToRoom onRespondInvitation
                   ExecutionContext.client ExecutionContext.eventName];
    unfold gbind, external, ret; cbn [kv ext];
    by destruct (socketUserId (Client.id client) (kv w, ext w)) as [[?|?] [? ?]].
Qed.

(** C36: a message never makes the gateway throw and never closes a
    socket.  When the user of the socket cannot be bound, or the
    handler throws, the socket of the request receives one report
    naming the event and the error, nothing else is emitted and no
    socket has moved; otherwise the delivery is the handler's run on the
    bound socket. *)
Theorem rejection_reported m client w :
  let r := deliver (endpoint_of m) client w in
  r.1 = Ok tt ∧ dom (net w) ⊆ dom (net r.2) ∧
  match bound client w with
  | (Err e, w1) => r.2 = reported client m e w w1
  | (Ok client', w1) =>
      match on_message client' m w1 with
      | (Ok _, w2) => r.2 = w2
      | (Err e, w2) => r.2 = reported client m e w w2
      end
  end.
Proof.
  cbn zeta. rewrite deliver_bound. unfold bound.
  destruct (socketUserId (Client.id client) (kv w, ext w)) as [[userId|e] [s x]];
    [|done]. unfold UseFilters, try_catch.
  set (client' := Client.mk (Client.id client) userId).
  set (w1 := World s x (net w) (out w)).
  pose proof (on_message_connected allowJoinMultipleRooms now client' m w1) as Hdom.
  pose proof (on_message_error_silent allowJoinMultipleRooms now client' m w1) as Hq.
  destruct (on_message client' m w1) as [[[]|e] w2]; cbn [fst snd] in *; [done|].
  destruct (Hq e eq_refl) as [Hn Ho]. unfold WsExceptionsFilter, emit, act, reported, report.
  cbn [fst snd net out ExecutionContext.client ExecutionContext.eventName Client.id].
  rewrite Hn, Ho. done.
Qed.

End endpoints.

(** ** On concrete worlds *)

(** User 2 asks to join the public room ["7"] of user 1.  The handler
    passes the room id where the service expects the user, the service
    looks for a room named after user 2, and the socket of user 2 is
    told that the room does not exist.  A socket the session layer does
    not know is told so under the name of the event it sent. *)
Example join_rejection_reported :
  let w := world_of booked in
  let r := deliver (binding := session)
             (endpoint_of (services := no_services) false 9
                (JoinRoom (JoinRoomDto.mk (VStr "7")))) bob w in
  let x := deliver (binding := session)
             (endpoint_of (services := no_services) false 9 CreateRoom)
             (Client.mk "kx" (VNum 0)) w in
  out r.2 = [report bob ListenEvent.JoinRoom (WsException "Room does not exist!")] ∧
  out x.2 =
    [report (Client.mk "kx" (VNum 0)) ListenEvent.CreateRoom (WsException "Unauthorized")].
Proof. vm_compute. split; reflexivity. Qed.
