(* ===== verification/Equiv.v ===== *)
(** * Equiv: programs up to the way their continuations are written

    Two programs that send the same requests and go on in the same way
    after every reply are the same handler, even when their
    continuations are different functions.  [p ≡ q] is that relation.
    [bind] is a monad up to it, and everything the development says of
    a program ([run], [advance], [finished], [within], [typed]) respects
    it, so a program may be rewritten inside any of these. *)

From stdpp Require Import strings gmap.
From S2P Require Import Prelude JsValue Redis Prog Reach Interleave Typing Progress.

#[local] Open Scope list_scope.

Inductive same {A : Type} : relation (prog A) :=
| same_Ret a : same (Ret a) (Ret a)
| same_Throw e : same (Throw e) (Throw e)
| same_Call c k k' : (∀ r, same (k r) (k' r)) → same (Call c k) (Call c k')
| same_Exec cs k k' : (∀ rs, same (k rs) (k' rs)) → same (Exec cs k) (Exec cs k')
| same_Now k k' : (∀ t, same (k t) (k' t)) → same (Now k) (Now k').

#[export] Instance prog_equiv {A : Type} : Equiv (prog A) := same.

Section equivalence.
Context {A : Type}.
Implicit Types (p q : prog A) (s : store).

#[export] Instance same_refl : Reflexive (≡@{prog A}).
Proof. intros p. induction p; by constructor. Qed.

#[export] Instance same_sym : Symmetric (≡@{prog A}).
Proof. induction 1; by constructor. Qed.

#[export] Instance same_trans : Transitive (≡@{prog A}).
Proof.
  intros p q r Hpq. revert r.
  induction Hpq as [| |c k k' _ IH|cs k k' _ IH|k k' _ IH]; intros r Hqr; [done..| | |];
    inversion Hqr as [| |? ? ? Hk|? ? ? Hk|? ? Hk]; subst; constructor; intros; apply IH, Hk.
Qed.

#[export] Instance same_equivalence : Equivalence (≡@{prog A}).
Proof. split; apply _. Qed.

(** ** What respects the relation *)

#[export] Instance run_proper now : Proper ((≡) ==> (=) ==> (=)) (run (A:=A) now).
Proof.
  intros p q Hpq s ? <-. revert s.
  induction Hpq as [| |c k k' _ IH|cs k k' _ IH|k k' _ IH]; intros s; cbn [run]; [done..| | |].
  - destruct (apply_command c s) as [s' r]. by destruct r.
  - by destruct (exec_pipeline cs s).
  - apply IH.
Qed.

#[export] Instance finished_proper now : Proper ((≡) ==> (=)) (finished (A:=A) now).
Proof. induction 1; cbn [finished]; auto. Qed.

#[export] Instance advance_proper now :
  Proper ((≡) ==> (=) ==> prod_relation (≡) (=)) (advance (A:=A) now).
Proof.
  intros p q Hpq s ? <-. revert s.
  induction Hpq as [| |c k k' Hk _|cs k k' Hk _|k k' _ IH]; intros s; cbn [advance].
  - done.
  - done.
  - destruct (apply_command c s) as [s' r]. split; [|done]. destruct r; first [apply Hk|done].
  - destruct (exec_pipeline cs s) as [s' rs]. split; [apply Hk|done].
  - apply IH.
Qed.

#[export] Instance within_proper n : Proper ((≡) ==> iff) (within (A:=A) n).
Proof.
  assert (∀ p q, p ≡ q → within n p → within n q) as Himp.
  { intros p q Hpq Hp. revert q Hpq.
    induction Hp as [| |? c k _ IH|? cs k _ IH|? k _ IH]; intros q Hq;
      inversion Hq as [| |? ? ? Hk|? ? ? Hk|? ? Hk]; subst; constructor;
      intros x; apply (IH x), Hk. }
  intros p q Hpq. split; apply Himp; [done|by symmetry].
Qed.

#[export] Instance typed_proper : Proper ((≡) ==> iff) (typed (A:=A)).
Proof.
  assert (∀ p q, p ≡ q → typed p → typed q) as Himp.
  { intros p q Hpq Hp. revert q Hpq.
    induction Hp as [| |c k ? _ IH|cs k ? _ IH|k _ IH]; intros q Hq;
      inversion Hq as [| |? ? ? Hk|? ? ? Hk|? ? Hk]; subst; constructor;
      first [done|intros x; apply (IH x), Hk]. }
  intros p q Hpq. split; apply Himp; [done|by symmetry].
Qed.

End equivalence.

(** ** The monad laws *)

Section laws.
Context {A B C : Type}.
Implicit Types (p : prog A) (f : A → prog B) (g : B → prog C).

#[export] Instance bind_proper :
  Proper ((≡) ==> pointwise_relation A (≡) ==> (≡)) (bind (A:=A) (B:=B)).
Proof.
  intros p q Hpq f f' Hf. induction Hpq; cbn [bind]; [apply Hf|done|by constructor..].
Qed.

Lemma bind_Ret_l (a : A) f : bind (Ret a) f = f a.
Proof. done. Qed.

Lemma bind_Ret_r p : bind p Ret ≡ p.
Proof. induction p; cbn [bind]; by constructor. Qed.

Lemma bind_bind p f g : bind (bind p f) g ≡ bind p (λ a, bind (f a) g).
Proof. induction p; cbn [bind]; [done|done|by constructor..]. Qed.

End laws.

Section void.
Context {A : Type}.
Implicit Types (p : prog A).

(** Forgetting the result after a step that only computes is
    forgetting the result. *)
Lemma void_bind_Ret {B : Type} p (k : A → B) : void (bind p (λ a, Ret (k a))) ≡ void p.
Proof. unfold void. by rewrite bind_bind. Qed.

(** Forgetting the result changes nothing of the requests. *)
Lemma within_void n p : within n (void p) ↔ within n p.
Proof.
  unfold void. split.
  - revert n. induction p as [a|e|c k IH|cs k IH|k IH]; cbn [bind]; intros n Hp;
      inversion Hp as [| |? ? ? Hk|? ? ? Hk|? ? Hk]; subst; constructor;
      intros x; apply IH, Hk.
  - intros Hp. replace n with (n + 0) by lia. apply within_bind; [done|constructor].
Qed.

Lemma typed_void p : typed (void p) ↔ typed p.
Proof.
  unfold void. split.
  - induction p as [a|e|c k IH|cs k IH|k IH]; cbn [bind]; intros Hp;
      inversion Hp as [| |? ? Hc Hk|? ? Hc Hk|? Hk]; subst; constructor;
      first [done|intros x; apply IH, Hk].
  - intros Hp. apply typed_bind; [done|constructor].
Qed.

End void.
