(* ===== verification/Overlap.v ===== *)
(** * Overlap: messages handled at the same time

    A handler of the gateway awaits the coordinator and then acts on
    the sockets.  While it waits, the server takes other messages: the
    requests of several handlers reach the store in any order, and the
    socket actions of a handler run in one piece once its method has
    returned.

    - [awaits] cuts a handler at its [await]: the method of the
      coordinator, returning what the handler does next;
    - a message that [arrive]s passes the interceptors and is [pending]
      until its method has had its turns ([proceed]); the rest of the
      handler then runs inside the exception filter;
    - [overlap] follows a schedule of arrivals and turns.

    A handler that is given its turns with nothing in between is
    [deliver] ([alone_deliver]), so the schedule that treats the
    messages one by one is [serve] ([one_by_one_serve]).  Under every
    schedule a socket that sends nothing stays in its rooms
    ([overlap_socket_stays]) and a message that gets six turns is
    answered ([overlap_answers]).  The method in a handler is a
    request of [Reach] up to [≡] ([awaits_perform]).  What the
    invariants of the store lose under other schedules shows on the
    sockets ([create_twice_overlapping]).  [OverlapTypes] has the
    types of the keys under every schedule, [OverlapStore] the pool
    the store sees. *)

From stdpp Require Import strings gmap.
From S2P Require Import Prelude JsArray JsValue Redis Room Json Prog Service Reach Scene.
From S2P Require Import Interleave Typing Progress Pool Socket Gateway GatewaySpec Equiv.
Import TextChatGateway.

#[local] Open Scope string_scope.
#[local] Open Scope list_scope.
#[local] Open Scope nat_scope.

(** [await p], then [k]: the method, returning the rest of the handler. *)
Definition await {E A : Type} (p : prog A) (k : A → gw E unit) : prog (gw E unit) :=
  let* a := p in Ret (k a).

(** The rest of a handler once its method has come to its end. *)
Definition resume {E : Type} (now : Z) (p : prog (gw E unit)) : gw E unit :=
  gbind (service now p) (λ k, k).

(** Every result the program can return satisfies [P]. *)
Fixpoint returns {A : Type} (P : A → Prop) (p : prog A) : Prop :=
  match p with
  | Ret a => P a
  | Throw _ => True
  | Call _ k => ∀ r, returns P (k r)
  | Exec _ k => ∀ rs, returns P (k rs)
  | Now k => ∀ t, returns P (k t)
  end.

(** A room handler read as [await p] then [k]: the two are taken from
    the definition of the handler. *)
Ltac cut_at_await h :=
  let h' := eval cbv beta delta
      [handleCreateRoom handleJoinRoom handleLeaveRoom handleKickOutOfRoom
       handleSendGroupMessage handleTransferOwnership handleInviteToRoom
       handleRespondInvitation] in h in
  lazymatch h' with
  | gbind (service _ ?p) ?k => exact (await p k)
  end.

Section overlap.
Context (allowJoinMultipleRooms : bool) `{!JSON.Codec}.
Context {E : Type} {services : Services E} {binding : Interceptors E}.

(** The handler of a message, cut at its call of the coordinator.
    [sendPrivateMessage] calls the outside services only and runs in
    one piece. *)
Definition awaits (client : Client.t) (m : message) : prog (gw E unit) :=
  match m with
  | SendPrivateMessage payload => Ret (sendPrivateMessage client payload)
  | CreateRoom => ltac:(cut_at_await (handleCreateRoom (E:=E) allowJoinMultipleRooms 0 client))
  | JoinRoom payload =>
      ltac:(cut_at_await (handleJoinRoom (E:=E) allowJoinMultipleRooms 0 client payload))
  | LeaveRoom payload => ltac:(cut_at_await (handleLeaveRoom (E:=E) 0 client payload))
  | KickOutOfRoom payload => ltac:(cut_at_await (handleKickOutOfRoom (E:=E) 0 client payload))
  | SendGroupMessage payload =>
      ltac:(cut_at_await (handleSendGroupMessage (E:=E) 0 client payload))
  | TranserOwnership payload =>
      ltac:(cut_at_await (handleTransferOwnership (E:=E) 0 client payload))
  | InviteToRoom payload => ltac:(cut_at_await (handleInviteToRoom (E:=E) 0 client payload))
  | RespondInvitation payload =>
      ltac:(cut_at_await
              (handleRespondInvitation (E:=E) allowJoinMultipleRooms 0 client payload))
  end.

(** A message on its way: the socket and the event the interceptors
    have bound, the reading of the clock, what is left of the method. *)
Record pending : Type := Pending {
  origin : ExecutionContext.t;
  time : Z;
  remainder : prog (gw E unit);
}.

(** The messages received so far, in the order of their arrival: on
    their way, or answered. *)
#[local] Abbreviation flight := (list (option pending)).

(** The interceptors of an endpoint, before the handler: the context
    they bind, or nothing when one of them threw and the filter has
    reported it. *)
Fixpoint pass (chain : list interceptor) (ctx : ExecutionContext.t) (w : world E)
    : option ExecutionContext.t * world E :=
  match chain with
  | [] => (Some ctx, w)
  | i :: chain' =>
      match intercept i ctx w with
      | (Ok ctx', w') => pass chain' ctx' w'
      | (Err error, w') => (None, (UseFilters ctx (throw error) w').2)
      end
  end.

(** The method has come to its end: the rest of the handler runs, in
    one piece, inside the filter. *)
Definition conclude (h : pending) (w : world E) : world E :=
  (UseFilters (origin h) (resume (time h) (remainder h)) w).2.

(** A handler goes on until it has to wait for the store. *)
Definition start (h : pending) (w : world E) : option pending * world E :=
  if finished (time h) (remainder h) then (None, conclude h w) else (Some h, w).

(** The store serves the request a handler waits for. *)
Definition proceed (h : pending) (w : world E) : option pending * world E :=
  let '(p, s) := advance (time h) (remainder h) (kv w) in
  start (Pending (origin h) (time h) p) (World s (ext w) (net w) (out w)).

(** An input reaches the server.  Connections and disconnections are
    handled at once. *)
Definition arrive (now : Z) (client : Client.t) (i : input) (w : world E)
    : option pending * world E :=
  match i with
  | Message m =>
      match pass (interceptors (endpoint_of allowJoinMultipleRooms now m))
              (ExecutionContext.mk client None) w with
      | (Some ctx, w') => start (Pending ctx now (awaits (ExecutionContext.client ctx) m)) w'
      | (None, w') => (None, w')
      end
  | _ => (None, (on_input allowJoinMultipleRooms now client i w).2)
  end.

(** What happens at the server: an input arrives, or the store
    answers the message received as the [n]-th. *)
Inductive event : Type :=
| Arrives (now : Z) (client : Client.t) (i : input)
| Turn (n : nat).

Definition step (e : event) (hs : flight) (w : world E) : flight * world E :=
  match e with
  | Arrives now client i => let '(h, w') := arrive now client i w in (hs ++ [h], w')
  | Turn n =>
      match hs !! n with
      | Some (Some h) => let '(h', w') := proceed h w in (<[n := h']> hs, w')
      | _ => (hs, w)
      end
  end.

Fixpoint overlap (es : list event) (hs : flight) (w : world E) : flight * world E :=
  match es with
  | [] => (hs, w)
  | e :: es' => let '(hs', w') := step e hs w in overlap es' hs' w'
  end.

(** [n] turns for one message, nothing in between. *)
Fixpoint alone (n : nat) (x : option pending * world E) : option pending * world E :=
  match n, x with
  | S n', (Some h, w) => alone n' (proceed h w)
  | _, _ => x
  end.

(** The inputs one by one: each arrives and is given [k] turns before
    the next arrives.  [from] is the number of messages received
    before. *)
Fixpoint one_by_one (k from : nat) (inputs : list (Z * Client.t * input)) : list event :=
  match inputs with
  | [] => []
  | (now, client, i) :: inputs' =>
      Arrives now client i :: replicate k (Turn from) ++ one_by_one k (S from) inputs'
  end.

(** The positions that are given a turn. *)
Definition turns_of (es : list event) : list nat :=
  omap (λ e, match e with Turn n => Some n | Arrives _ _ _ => None end) es.

(** No input of the schedule comes from socket [sid]. *)
Definition quiet_in (sid : string) (es : list event) : Prop :=
  Forall (λ e, match e with Arrives _ client _ => Client.id client ≠ sid | Turn _ => True end) es.

(** What a handler does next leaves the rooms of socket [sid] as they
    are. *)
Definition keeps (sid : string) (k : gw E unit) : Prop :=
  ∀ w, net (k w).2 !! sid = net w !! sid.

(** A message on its way that will not move socket [sid]. *)
Definition aside (sid : string) (o : option pending) : Prop :=
  match o with Some h => returns (keeps sid) (remainder h) | None => True end.

(** A message on its way waits for the store, and needs [n] turns at
    most. *)
Definition needs (n : nat) (o : option pending) : Prop :=
  match o with
  | Some h => finished (time h) (remainder h) = false ∧ within n (remainder h)
  | None => True
  end.

(** The request to the coordinator in the handler of a message, its
    arguments in the order of the call site.  Reading a room and
    sending a private message are no requests. *)
Definition request_of (client : Client.t) (m : message) : option request :=
  match m with
  | CreateRoom => Some (Book (Client.userId client) false)
  | JoinRoom payload => Some (Join (JoinRoomDto.roomId payload) (Client.userId client))
  | LeaveRoom payload => Some (Leave (LeaveRoomDto.roomId payload) (Client.userId client))
  | KickOutOfRoom payload =>
      Some (Kick (KickOutOfRoomDto.roomId payload) (Client.userId client)
              (KickOutOfRoomDto.memberId payload))
  | TranserOwnership payload =>
      Some (TransferOwnership (TransferOwnershipDto.roomId payload) (Client.userId client)
              (TransferOwnershipDto.candidateId payload))
  | InviteToRoom payload =>
      Some (Invite (InviteToRoomDto.roomId payload) (Client.userId client)
              (InviteToRoomDto.guestId payload))
  | RespondInvitation payload =>
      Some (Reach.RespondInvitation (RespondInvitationDto.roomId payload)
              (Client.userId client) (RespondInvitationDto.isAccpeted payload))
  | SendGroupMessage _ | SendPrivateMessage _ => None
  end.

#[export] Instance quiet_in_dec sid es : Decision (quiet_in sid es).
Proof. unfold quiet_in. apply Forall_dec. intros []; apply _. Defined.

End overlap.

Arguments pending E : clear implicits.
Arguments Pending {E} origin time remainder.
Arguments origin {E} p.
Arguments time {E} p.
Arguments remainder {E} p.

Abbreviation flight E := (list (option (pending E))).

(** ** Programs that return what the handler does next *)

Section returns_facts.
Context {A : Type}.
Implicit Types (P : A → Prop) (p : prog A) (s : store).

Lemma returns_all P p : (∀ a, P a) → returns P p.
Proof. intros HP. induction p; simpl; auto. Qed.

Lemma returns_bind {B : Type} (Q : B → Prop) p (f : A → prog B) :
  returns (λ a, returns Q (f a)) p → returns Q (bind p f).
Proof. induction p; simpl; auto. Qed.

(** A turn changes nothing of what the program can return. *)
Lemma returns_advance P now p s : returns P p → returns P (advance now p s).1.
Proof.
  revert s. induction p as [a|e|c k IH|cs k IH|k IH]; intros s Hp; cbn [advance];
    [done|done| | |by apply IH].
  - destruct (apply_command c s) as [s' r]. specialize (Hp r). by destruct r.
  - destruct (exec_pipeline cs s) as [s' rs]. apply Hp.
Qed.

Lemma returns_run P now p s a s' : returns P p → run now p s = (Ok a, s') → P a.
Proof.
  revert s. induction p as [b|e|c k IH|cs k IH|k IH]; intros s Hp; cbn [run].
  - by intros [= <- _].
  - done.
  - destruct (apply_command c s) as [s1 r]. specialize (IH r s1 (Hp r)). by destruct r.
  - destruct (exec_pipeline cs s) as [s1 rs]. by apply IH.
  - by apply IH.
Qed.

End returns_facts.

Section await_facts.
Context {E A : Type}.
Implicit Types (p : prog A) (k : A → gw E unit) (w : world E).

(** A handler cut at its [await] and resumed is the handler. *)
Lemma resume_await now p k w : resume now (await p k) w = gbind (service now p) k w.
Proof.
  unfold resume, await, gbind, service. rewrite run_bind.
  by destruct (run now p (kv w)) as [[a|e] s].
Qed.

Lemma returns_await (P : gw E unit → Prop) p k : (∀ a, P (k a)) → returns P (await p k).
Proof. intros Hk. apply returns_bind, returns_all, Hk. Qed.

Lemma within_await n p k : within n p → within n (await p k).
Proof.
  intros Hp. replace n with (n + 0) by lia. apply within_bind; [done|]. intros a. constructor.
Qed.

(** Resuming after a turn is resuming before it. *)
Lemma resume_advance now (p : prog (gw E unit)) w :
  resume now (advance now p (kv w)).1
    (World (advance now p (kv w)).2 (ext w) (net w) (out w)) = resume now p w.
Proof. unfold resume, gbind, service. cbn [kv ext net out]. by rewrite run_advance. Qed.

End await_facts.

(** ** One message *)

Section one_message.
Context (allowJoinMultipleRooms : bool) `{!JSON.Codec}.
Context {E : Type} {services : Services E} {binding : Interceptors E}.
Implicit Types (h : pending E) (w : world E) (sid : string) (ctx : ExecutionContext.t).

#[local] Abbreviation awaits := (awaits (E:=E) allowJoinMultipleRooms).
#[local] Abbreviation on_message := (on_message (E:=E) allowJoinMultipleRooms).
#[local] Abbreviation endpoint_of := (endpoint_of (E:=E) allowJoinMultipleRooms).

(** The cut of a handler, resumed, is the handler. *)
Lemma awaits_resumes now client m w :
  resume now (awaits client m) w = on_message now client m w.
Proof.
  destruct m; cbn [Overlap.awaits TextChatGateway.on_message];
    [by destruct w|apply resume_await..].
Qed.

(** The method in the handler of a message is the request the message
    makes. *)
Lemma awaits_perform client m q :
  request_of client m = Some q → void (awaits client m) ≡ perform allowJoinMultipleRooms q.
Proof.
  destruct m; intros [= <-]; cbn [Overlap.awaits perform]; apply void_bind_Ret.
Qed.

(** No method needs more than six turns. *)
Lemma awaits_within client m : within 6 (awaits client m).
Proof.
  destruct (request_of client m) as [q|] eqn:Hq.
  - rewrite <- within_void, (awaits_perform client m q Hq). apply perform_within.
  - destruct m; try done; cbn [Overlap.awaits]; [constructor|].
    apply within_await, (within_le 1); [apply get_within|lia].
Qed.

(** Every command a handler in flight can send fits the namespace of
    its key. *)
Lemma awaits_typed client m : typed (awaits client m).
Proof.
  destruct (request_of client m) as [q|] eqn:Hq.
  - rewrite <- typed_void, (awaits_perform client m q Hq). apply perform_typed.
  - destruct m; try done; cbn [Overlap.awaits]; [constructor|].
    unfold await. rewrite <- typed_void, void_bind_Ret, typed_void. apply get_typed.
Qed.

(** What a handler does after its method moves the caller's socket
    only. *)
Lemma awaits_aside client m sid :
  sid ≠ Client.id client → returns (keeps sid) (awaits client m).
Proof.
  intros Hne. destruct m; cbn [Overlap.awaits];
    [intros w; apply (on_message_keeps allowJoinMultipleRooms 0 client (SendPrivateMessage payload)), Hne|
     apply returns_await; intros a w..];
    unfold gbind, client_join, client_leave, emit, act, ret, throw;
    repeat case_match; simplify_eq/=;
    rewrite ?SocketIO.lookup_join, ?SocketIO.lookup_leave, ?decide_False by done; done.
Qed.

(** The interceptors in front of a handler, then the handler. *)
Lemma intercepted_pass chain next ctx w :
  intercepted chain next ctx w =
  match pass chain ctx w with
  | (Some ctx', w') => UseFilters ctx' (next (ExecutionContext.client ctx')) w'
  | (None, w') => (Ok tt, w')
  end.
Proof.
  revert ctx w. induction chain as [|i chain IH]; intros ctx w; cbn [intercepted pass]; [done|].
  destruct (intercept i ctx w) as [[ctx'|e] w']; [apply IH|done].
Qed.

(** The interceptors and the filter touch no room, and the socket of
    the request stays the socket of the request. *)
Lemma pass_keeps chain ctx w :
  net (pass chain ctx w).2 = net w ∧
  ∀ ctx', (pass chain ctx w).1 = Some ctx' →
    Client.id (ExecutionContext.client ctx') = Client.id (ExecutionContext.client ctx).
Proof.
  revert ctx w. induction chain as [|i chain IH]; intros ctx w; cbn [pass].
  - split; [done|]. by intros ? [= <-].
  - destruct (intercept_keeps i ctx w) as (Hn & _ & Hid).
    destruct (intercept i ctx w) as [[ctx'|e] w']; cbn [fst snd] in *; [|done].
    destruct (IH ctx' w') as [Hn' Hid']. split; [congruence|].
    intros ctx2 H2. by rewrite (Hid' ctx2 H2), (Hid ctx').
Qed.

End one_message.

(** ** Turns *)

Section turns.
Context (allowJoinMultipleRooms : bool) `{!JSON.Codec}.
Context {E : Type} {services : Services E} {binding : Interceptors E}.
Implicit Types (h : pending E) (o : option (pending E)) (hs : flight E) (w : world E).
Implicit Types (sid : string) (es : list event).

#[local] Abbreviation arrive := (arrive (E:=E) allowJoinMultipleRooms).
#[local] Abbreviation step := (step (E:=E) allowJoinMultipleRooms).
#[local] Abbreviation overlap := (overlap (E:=E) allowJoinMultipleRooms).
#[local] Abbreviation serve := (serve (E:=E) allowJoinMultipleRooms).

(** A turn does not change where the handler ends. *)
Lemma conclude_advance h w :
  conclude (Pending (origin h) (time h) (advance (time h) (remainder h) (kv w)).1)
    (World (advance (time h) (remainder h) (kv w)).2 (ext w) (net w) (out w)) = conclude h w.
Proof.
  unfold conclude, UseFilters, try_catch. cbn [origin time remainder].
  by rewrite resume_advance.
Qed.

(** With as many turns as its method has requests, and nothing in
    between, a handler comes to its end. *)
Lemma alone_settles n h w : within n (remainder h) → alone n (start h w) = (None, conclude h w).
Proof.
  revert h w. induction n as [|n IH]; intros h w Hn; unfold start.
  - by rewrite (within_finished (time h) _ Hn).
  - destruct (finished (time h) (remainder h)); [done|]. cbn [alone]. unfold proceed.
    pose proof (advance_within (time h) (S n) _ (kv w) Hn) as Hn'.
    pose proof (conclude_advance h w) as Hs.
    destruct (advance (time h) (remainder h) (kv w)) as [p s]. cbn [fst snd pred] in *.
    rewrite <- Hs. by apply IH.
Qed.

(** A message that arrives and is given six turns with nothing in
    between is handled as [on_input] handles it. *)
Lemma alone_deliver now client i w :
  alone 6 (arrive now client i w) = (None, (on_input allowJoinMultipleRooms now client i w).2).
Proof.
  destruct i as [| |m]; [done..|]. cbn [Overlap.arrive on_input]. unfold deliver.
  rewrite intercepted_pass.
  destruct (pass _ _ w) as [[ctx|] w']; [|done].
  rewrite alone_settles by apply awaits_within. f_equal.
  unfold conclude, UseFilters, try_catch. cbn [origin time remainder].
  by rewrite awaits_resumes, handle_endpoint_of.
Qed.

(** Turns of one message with nothing in between, inside a schedule. *)
Lemma overlap_turns k n es hs w o :
  hs !! n = Some o →
  overlap (replicate k (Turn n) ++ es) hs w
  = overlap es (<[n := (alone k (o, w)).1]> hs) (alone k (o, w)).2.
Proof.
  revert hs w o. induction k as [|k IH]; intros hs w o Hn; cbn [replicate app alone].
  - by rewrite list_insert_id.
  - cbn [Overlap.overlap Overlap.step]. rewrite Hn. destruct o as [h|].
    + destruct (proceed h w) as [h' w'] eqn:Ht.
      rewrite (IH _ w' h'), list_insert_insert_eq; [done|].
      apply list_lookup_insert_eq. by eapply lookup_lt_Some.
    + rewrite (IH hs w None Hn). by destruct k.
Qed.

End turns.

(** ** Schedules *)

Section schedules.
Context (allowJoinMultipleRooms : bool) `{!JSON.Codec}.
Context {E : Type} {services : Services E} {binding : Interceptors E}.
Implicit Types (h : pending E) (o : option (pending E)) (hs : flight E) (w : world E).
Implicit Types (sid : string) (es : list event).

#[local] Abbreviation arrive := (arrive (E:=E) allowJoinMultipleRooms).
#[local] Abbreviation step := (step (E:=E) allowJoinMultipleRooms).
#[local] Abbreviation overlap := (overlap (E:=E) allowJoinMultipleRooms).
#[local] Abbreviation serve := (serve (E:=E) allowJoinMultipleRooms).

Lemma overlap_app es1 es2 hs w :
  overlap (es1 ++ es2) hs w = overlap es2 (overlap es1 hs w).1 (overlap es1 hs w).2.
Proof.
  revert hs w. induction es1 as [|e es1 IH]; intros hs w; cbn [app Overlap.overlap]; [done|].
  destruct (step e hs w) as [hs' w']. apply IH.
Qed.

(** *** Whose socket moves *)

Lemma conclude_keeps sid h w :
  returns (keeps sid) (remainder h) → net (conclude h w) !! sid = net w !! sid.
Proof.
  intros Hk. unfold conclude, UseFilters, try_catch, resume, gbind, service.
  destruct (run (time h) (remainder h) (kv w)) as [[k|e] s] eqn:Hrun; [|done].
  pose proof (returns_run _ _ _ _ _ _ Hk Hrun (World s (ext w) (net w) (out w))) as Hnet.
  by destruct (k _) as [[[]|e] w'].
Qed.

Lemma start_aside sid h w :
  aside sid (Some h) → aside sid (start h w).1 ∧ net (start h w).2 !! sid = net w !! sid.
Proof.
  intros Hk. unfold start. destruct (finished _ _); [|done]. split; [done|].
  by apply conclude_keeps.
Qed.

Lemma proceed_aside sid h w :
  aside sid (Some h) → aside sid (proceed h w).1 ∧ net (proceed h w).2 !! sid = net w !! sid.
Proof.
  intros Hk. unfold proceed.
  pose proof (returns_advance _ (time h) _ (kv w) Hk) as Hk'.
  destruct (advance _ _ _) as [p s].
  by apply (start_aside sid (Pending (origin h) (time h) p) (World s (ext w) (net w) (out w))).
Qed.

Lemma arrive_aside sid now client i w :
  Client.id client ≠ sid →
  aside sid (arrive now client i w).1 ∧ net (arrive now client i w).2 !! sid = net w !! sid.
Proof.
  intros Hne. destruct i as [| |m]; cbn [Overlap.arrive fst snd];
    [split; [done|by apply on_input_keeps]..|].
  destruct (pass_keeps (interceptors (endpoint_of allowJoinMultipleRooms now m))
              (ExecutionContext.mk client None) w) as [Hn Hid].
  destruct (pass _ _ w) as [[ctx|] w']; cbn [fst snd] in *; [|by rewrite Hn].
  rewrite <- Hn. apply start_aside, awaits_aside. by rewrite (Hid ctx).
Qed.

Lemma step_aside sid e hs w :
  Forall (aside sid) hs → quiet_in sid [e] →
  Forall (aside sid) (step e hs w).1 ∧ net (step e hs w).2 !! sid = net w !! sid.
Proof.
  intros Hhs [He _]%Forall_cons. destruct e as [now client i|n]; cbn [Overlap.step].
  - destruct (arrive_aside sid now client i w He) as [Ha Hn].
    destruct (arrive now client i w) as [h w']. split; [|done].
    apply Forall_app. split; [done|by constructor].
  - destruct (hs !! n) as [[h|]|] eqn:Hl; [|done..].
    destruct (proceed_aside sid h w) as [Ha Hn]; [by apply (Forall_lookup_1 _ _ _ _ Hhs Hl)|].
    destruct (proceed h w) as [h' w']. split; [by apply Forall_insert|done].
Qed.

Lemma overlap_aside es hs w sid :
  Forall (aside sid) hs → quiet_in sid es →
  net (overlap es hs w).2 !! sid = net w !! sid.
Proof.
  revert hs w. induction es as [|e es IH]; intros hs w Hhs Hq; [done|].
  apply Forall_cons in Hq as [He Hq]. cbn [Overlap.overlap].
  destruct (step_aside sid e hs w Hhs) as [Hhs' Hn]; [by constructor|].
  destruct (step e hs w) as [hs' w']. rewrite <- Hn. by apply IH.
Qed.

(** *** Who is answered *)

Lemma start_needs n h w : within n (remainder h) → needs n (start h w).1.
Proof. intros Hn. unfold start. by destruct (finished _ _) eqn:Hf. Qed.

Lemma proceed_needs n h w : needs n (Some h) → needs (pred n) (proceed h w).1.
Proof.
  intros [_ Hn]. unfold proceed. pose proof (advance_within (time h) n _ (kv w) Hn) as Hn'.
  destruct (advance _ _ _) as [p s]. by apply start_needs.
Qed.

(** A message on its way needs a turn. *)
Lemma needs_0 o : needs 0 o → o = None.
Proof.
  destruct o as [h|]; [|done]. intros [Hf Hn]. by rewrite (within_finished _ _ Hn) in Hf.
Qed.

Lemma arrive_needs now client i w : needs 6 (arrive now client i w).1.
Proof.
  destruct i as [| |m]; [done..|]. cbn [Overlap.arrive].
  destruct (pass _ _ w) as [[ctx|] w']; [|done]. apply start_needs, awaits_within.
Qed.

(** A message that needs [k] turns and is given them is answered,
    whatever else happens meanwhile. *)
Lemma overlap_answered es hs w n k o :
  hs !! n = Some o → needs k o → k ≤ count n (turns_of es) →
  (overlap es hs w).1 !! n = Some None.
Proof.
  revert hs w k o. induction es as [|[now client i|m] es IH]; intros hs w k o Hl Hk Hc.
  - cbn in Hc. assert (k = 0) as -> by lia. by rewrite (needs_0 o Hk) in Hl.
  - cbn [Overlap.overlap Overlap.step]. destruct (arrive now client i w) as [h0 w0].
    apply (IH _ w0 k o); [by apply lookup_app_l_Some|done..].
  - cbn [Overlap.overlap Overlap.step].
    change (turns_of (Turn m :: es)) with (m :: turns_of es) in Hc. cbn [count] in Hc.
    destruct (decide (n = m)) as [<-|Hne].
    + rewrite Hl. destruct o as [h|]; [|apply (IH hs w 0 None); [done..|lia]].
      pose proof (proceed_needs k h w Hk) as Hk'. destruct (proceed h w) as [h' w'].
      apply (IH _ w' (pred k) h'); [|done|lia].
      apply list_lookup_insert_eq. by eapply lookup_lt_Some.
    + destruct (hs !! m) as [[h|]|] eqn:Hm; [|apply (IH hs w k o); [done|done|lia]..].
      destruct (proceed h w) as [h' w']. apply (IH _ w' k o); [|done|lia].
      by rewrite list_lookup_insert_ne.
Qed.

(** The schedule that treats the inputs one by one, each message
    given the six turns its method may need before the next input
    arrives, is the server handling the inputs in sequence: every
    message is answered and the world is the one [serve] leaves. *)
Theorem one_by_one_serve inputs hs w :
  overlap (one_by_one 6 (length hs) inputs) hs w
  = (hs ++ replicate (length inputs) None, serve inputs w).
Proof.
  revert hs w. induction inputs as [|[[now client] i] inputs IH]; intros hs w;
    cbn [one_by_one Overlap.overlap Overlap.step TextChatGateway.serve length replicate].
  - by rewrite app_nil_r.
  - pose proof (alone_deliver allowJoinMultipleRooms now client i w) as Ha.
    destruct (arrive now client i w) as [h0 w0].
    rewrite (overlap_turns _ 6 (length hs) _ _ w0 h0) by by apply list_lookup_middle.
    rewrite Ha. cbn [fst snd].
    replace (length hs) with (length hs + 0) at 2 by lia. rewrite insert_app_r.
    cbn [insert list_insert]. replace (S (length hs)) with (length (hs ++ [None]))
      by (rewrite length_app; simpl; lia).
    by rewrite IH, <- app_assoc.
Qed.

(** C35: whatever the order in which the store answers the handlers, a
    socket that sends nothing stays in exactly the rooms it was in: no
    input and no turn of another socket's message moves it. *)
Theorem overlap_socket_stays es w sid :
  quiet_in sid es → net (overlap es [] w).2 !! sid = net w !! sid.
Proof. intros Hq. by apply overlap_aside. Qed.

(** C25: a message that arrives is answered once the store has given it
    six turns, whatever arrived before, whatever arrives after and
    whatever turns the other messages take in between: its handler
    has run to its end or the filter has reported what it threw. *)
Theorem overlap_answers es1 es2 now client i hs w :
  let n := length (overlap es1 hs w).1 in
  6 ≤ count n (turns_of es2) →
  (overlap (es1 ++ Arrives now client i :: es2) hs w).1 !! n = Some None.
Proof.
  intros n Hc. rewrite overlap_app. cbn [Overlap.overlap Overlap.step]. subst n.
  destruct (overlap es1 hs w) as [hs1 w1]. cbn [fst snd] in *.
  pose proof (arrive_needs now client i w1) as Hn.
  destruct (arrive now client i w1) as [h0 w0].
  apply (overlap_answered es2 _ w0 _ 6 h0); [by apply list_lookup_middle|done..].
Qed.

End schedules.

(** ** On concrete worlds *)

(** The socket of user 1 sends [create_room] twice; the store answers
    the two handlers in turn. *)
Definition create_twice : list event :=
  [Arrives 7 alice (Message CreateRoom); Arrives 8 alice (Message CreateRoom);
   Turn 0; Turn 1; Turn 0; Turn 1].

Lemma overlap_socket_stays_witness :
  net (overlap (services := no_services) (binding := session) false create_twice []
         (world_of [])).2 !! "kb" = net (world_of []) !! "kb".
Proof.
  apply (overlap_socket_stays (services := no_services) (binding := session) false
           create_twice (world_of []) "kb").
  repeat constructor; discriminate.
Defined.

Lemma overlap_answers_witness :
  (overlap (services := no_services) (binding := session) false
     ([Arrives 7 alice (Message CreateRoom)]
      ++ Arrives 8 bob (Message (LeaveRoom (LeaveRoomDto.mk (VNum 1))))
      :: [Turn 0; Turn 1; Turn 0; Turn 1; Turn 1; Turn 1; Turn 1; Turn 1])
     [] (world_of [])).1 !! 1 = Some None.
Proof.
  apply (overlap_answers (services := no_services) (binding := session) false
           [Arrives 7 alice (Message CreateRoom)]
           [Turn 0; Turn 1; Turn 0; Turn 1; Turn 1; Turn 1; Turn 1; Turn 1]
           8 bob (Message (LeaveRoom (LeaveRoomDto.mk (VNum 1)))) [] (world_of [])).
  vm_compute. lia.
Defined.

(** The two messages handled one by one, and with the turns of
    [create_twice]. *)
Definition created_in_sequence : world unit :=
  serve (services := no_services) (binding := session) false
    [(7%Z, alice, Message CreateRoom); (8%Z, alice, Message CreateRoom)] (world_of []).

Definition created_in_turn : flight unit * world unit :=
  overlap (services := no_services) (binding := session) false create_twice [] (world_of []).

(** Under the single-room policy, the second [create_room] of a
    socket is turned away when the two are handled one by one; when
    the store answers the two handlers in turn, both guards run before
    either room is written: the user owns two rooms, the socket is in
    both broadcast groups, and nothing is reported. *)
Example create_twice_overlapping :
  list_at (kv created_in_sequence) (key_of CacheNamespace.UId2RIds (VNum 1)) = ["7"]
  ∧ last (out created_in_sequence) = Some (Emit (SocketIO.ToSocket "ka") EmitEvent.Error
      (Rejection (Some ListenEvent.CreateRoom)
         (WsException "Please leave current room before creating a new one")))
  ∧ created_in_turn.1 = [None; None]
  ∧ list_at (kv created_in_turn.2) (key_of CacheNamespace.UId2RIds (VNum 1)) = ["8"; "7"]
  ∧ SocketIO.inside (named "7") (net created_in_turn.2) = {[ "ka" ]}
  ∧ SocketIO.inside (named "8") (net created_in_turn.2) = {[ "ka" ]}
  ∧ Forall (λ a, match a with Emit _ EmitEvent.Error _ => False | _ => True end)
      (out created_in_turn.2).
Proof. repeat apply conj; vm_compute; [reflexivity..|repeat constructor]. Qed.
