(* ===== verification/OverlapTypes.v ===== *)
(** * OverlapTypes: the types of the keys under every schedule

    The outside services and the session layer share the store of the
    coordinator.  When they keep the types of the keys (class
    [Outside], the one law asked of them), so does the server,
    whatever arrives and whatever the order in which the store answers
    the handlers in flight ([overlap_keeps_types]): a message on its
    way is [tidy], its method sends typed commands and the rest of its
    handler [preserves] the types. *)

From stdpp Require Import strings gmap.
From S2P Require Import Prelude JsArray JsValue Redis Room Json Prog Service Reach Scene.
From S2P Require Import Interleave Typing Progress Pool Socket Gateway GatewaySpec Equiv Overlap.
Import TextChatGateway.

#[local] Open Scope string_scope.
#[local] Open Scope list_scope.
#[local] Open Scope nat_scope.

Section outside.
Context {E : Type} {services : Services E} {binding : Interceptors E}.

(** A part of a handler that leaves every key with the type of its
    namespace. *)
Definition preserves {A : Type} (m : gw E A) : Prop :=
  ∀ w, store_typed (kv w) → store_typed (kv (m w).2).

(** What the coordinator asks of the outside services and of the
    session layer, which share its store: they keep the types of the
    keys. *)
Class Outside : Prop := {
  validateConnection_typed client : preserves (external (validateConnection client));
  connect_typed user sid : preserves (external (connect user sid));
  disconnect_typed user sid : preserves (external (disconnect user sid));
  getBySocketId_typed sid : preserves (external (getBySocketId sid));
  getOnlineFriendsSocketIds_typed u : preserves (external (getOnlineFriendsSocketIds u));
  areFriends_typed u v : preserves (external (areFriends u v));
  getSocketIds_typed u : preserves (external (getSocketIds u));
  createPrivateMessage_typed u payload : preserves (external (createPrivateMessage u payload));
  socketUserId_typed sid : preserves (external (socketUserId sid));
}.

(** A message on its way that sends typed commands and goes on with a
    part that keeps the types. *)
Definition tidy (o : option (pending E)) : Prop :=
  match o with
  | Some h => typed (remainder h) ∧ returns preserves (remainder h)
  | None => True
  end.

End outside.

Arguments Outside E {services binding}.

(** ** The types of the keys *)

Section preserves_facts.
Context {E : Type}.
Implicit Types (w : world E).

Lemma preserves_ret {A : Type} (a : A) : preserves (E:=E) (ret a).
Proof. by intros w. Qed.

Lemma preserves_throw {A : Type} e : preserves (E:=E) (throw (A:=A) e).
Proof. by intros w. Qed.

Lemma preserves_act a f : preserves (E:=E) (act a f).
Proof. by intros w. Qed.

Lemma preserves_gbind {A B : Type} (m : gw E A) (f : A → gw E B) :
  preserves m → (∀ a, preserves (f a)) → preserves (gbind m f).
Proof.
  intros Hm Hf w Hw. unfold gbind. specialize (Hm w Hw).
  destruct (m w) as [[a|e] w']; [by apply Hf|done].
Qed.

Lemma preserves_try_catch {A : Type} (m : gw E A) (f : exn → gw E A) :
  preserves m → (∀ e, preserves (f e)) → preserves (try_catch m f).
Proof.
  intros Hm Hf w Hw. unfold try_catch. specialize (Hm w Hw).
  destruct (m w) as [[a|e] w']; [done|by apply Hf].
Qed.

(** A typed method, then a rest that keeps the types. *)
Lemma preserves_resume now (p : prog (gw E unit)) :
  typed p → returns preserves p → preserves (resume now p).
Proof.
  intros Hp Hk w Hw. unfold resume, gbind, service.
  destruct (typed_run now p (kv w) Hp Hw) as (_ & Hs & _).
  destruct (run now p (kv w)) as [[k|e] s] eqn:Hrun; [|done].
  by apply (returns_run _ _ _ _ _ _ Hk Hrun).
Qed.

End preserves_facts.

#[export] Hint Resolve preserves_ret preserves_throw preserves_act : chat.

(** The parts of a handler, one after the other. *)
Ltac preserves_solve :=
  repeat first
    [ apply preserves_ret | apply preserves_throw | apply preserves_act
    | apply preserves_gbind; [|intros ?] | apply preserves_try_catch; [|intros ?]
    | progress unfold client_join, client_leave, client_disconnect, emit
    | progress cbv zeta
    | case_match
    | apply validateConnection_typed | apply connect_typed | apply disconnect_typed
    | apply getBySocketId_typed | apply getOnlineFriendsSocketIds_typed
    | apply areFriends_typed | apply getSocketIds_typed | apply createPrivateMessage_typed
    | apply socketUserId_typed ].

Section types.
Context (allowJoinMultipleRooms : bool) `{!JSON.Codec}.
Context {E : Type} {services : Services E} {binding : Interceptors E} {outside : Outside E}.
Implicit Types (h : pending E) (o : option (pending E)) (hs : flight E) (w : world E).
Implicit Types (es : list event).

#[local] Abbreviation awaits := (awaits (E:=E) allowJoinMultipleRooms).
#[local] Abbreviation arrive := (arrive (E:=E) allowJoinMultipleRooms).
#[local] Abbreviation step := (step (E:=E) allowJoinMultipleRooms).
#[local] Abbreviation overlap := (overlap (E:=E) allowJoinMultipleRooms).

(** What a handler does after its method keeps the types. *)
Lemma awaits_preserves client m : returns preserves (awaits client m).
Proof.
  destruct m; cbn [Overlap.awaits]; [|apply returns_await; intros a..];
    unfold sendPrivateMessage; preserves_solve.
Qed.

Lemma on_input_preserves now client i :
  preserves (on_input allowJoinMultipleRooms now client i).
Proof.
  destruct i as [| |m]; cbn [on_input].
  - intros w Hw. unfold on_connection, handleConnection.
    apply preserves_try_catch; [preserves_solve|intros ?; preserves_solve|done].
  - intros w Hw. unfold on_disconnect, handleDisconnect.
    apply preserves_gbind; [preserves_solve|intros ?; preserves_solve|done].
  - unfold deliver. generalize (ExecutionContext.mk client None).
    induction (interceptors _) as [|j chain IH]; intros ctx w Hw; cbn [intercepted].
    + unfold UseFilters, WsExceptionsFilter. rewrite handle_endpoint_of.
      apply preserves_try_catch; [|preserves_solve|done].
      intros w' Hw'. rewrite <- awaits_resumes.
      by apply preserves_resume; [apply awaits_typed|apply awaits_preserves|].
    + assert (preserves (intercept j ctx)) as Hj
        by (destruct j; unfold intercept; preserves_solve).
      specialize (Hj w Hw). destruct (intercept j ctx w) as [[ctx'|e] w']; [by apply IH|done].
Qed.

Lemma pass_preserves chain ctx w :
  store_typed (kv w) → store_typed (kv (pass chain ctx w).2).
Proof.
  revert ctx w. induction chain as [|j chain IH]; intros ctx w Hw; cbn [pass]; [done|].
  assert (preserves (intercept j ctx)) as Hj by (destruct j; unfold intercept; preserves_solve).
  specialize (Hj w Hw). destruct (intercept j ctx w) as [[ctx'|e] w']; [by apply IH|done].
Qed.

Lemma start_tidy h w :
  tidy (Some h) → store_typed (kv w) →
  tidy (start h w).1 ∧ store_typed (kv (start h w).2).
Proof.
  intros [Hp Hk] Hw. unfold start. destruct (finished _ _); [|done]. split; [done|].
  unfold conclude, UseFilters, WsExceptionsFilter.
  apply preserves_try_catch; [by apply preserves_resume|preserves_solve|done].
Qed.

Lemma proceed_tidy h w :
  tidy (Some h) → store_typed (kv w) →
  tidy (proceed h w).1 ∧ store_typed (kv (proceed h w).2).
Proof.
  intros [Hp Hk] Hw. unfold proceed.
  destruct (advance_typed (time h) _ (kv w) Hp Hw) as [Hp' Hs].
  pose proof (returns_advance _ (time h) _ (kv w) Hk) as Hk'.
  destruct (advance _ _ _) as [p s].
  by apply (start_tidy (Pending (origin h) (time h) p) (World s (ext w) (net w) (out w))).
Qed.

Lemma arrive_tidy now client i w :
  store_typed (kv w) →
  tidy (arrive now client i w).1 ∧ store_typed (kv (arrive now client i w).2).
Proof.
  intros Hw. destruct i as [| |m]; cbn [Overlap.arrive fst snd];
    [split; [done|by apply on_input_preserves]..|].
  pose proof (pass_preserves (interceptors (endpoint_of allowJoinMultipleRooms now m))
                (ExecutionContext.mk client None) w Hw) as Hw'.
  destruct (pass _ _ w) as [[ctx|] w']; [|done].
  apply start_tidy; [|done]. split; [apply awaits_typed|apply awaits_preserves].
Qed.

Lemma step_tidy e hs w :
  Forall tidy hs → store_typed (kv w) →
  Forall tidy (step e hs w).1 ∧ store_typed (kv (step e hs w).2).
Proof.
  intros Hhs Hw. destruct e as [now client i|n]; cbn [Overlap.step].
  - destruct (arrive_tidy now client i w Hw) as [Ha Hw'].
    destruct (arrive now client i w) as [h w']. split; [|done].
    apply Forall_app. split; [done|by constructor].
  - destruct (hs !! n) as [[h|]|] eqn:Hl; [|done..].
    destruct (proceed_tidy h w) as [Ha Hw']; [by apply (Forall_lookup_1 _ _ _ _ Hhs Hl)|done|].
    destruct (proceed h w) as [h' w']. split; [by apply Forall_insert|done].
Qed.

Lemma overlap_tidy es hs w :
  Forall tidy hs → store_typed (kv w) →
  Forall tidy (overlap es hs w).1 ∧ store_typed (kv (overlap es hs w).2).
Proof.
  revert hs w. induction es as [|e es IH]; intros hs w Hhs Hw; [done|]. cbn [Overlap.overlap].
  destruct (step_tidy e hs w Hhs Hw) as [Hhs' Hw'].
  destruct (step e hs w) as [hs' w']. by apply IH.
Qed.

(** C22: when the outside services keep the types of the keys, so does
    the server, whatever arrives and whatever the order in which the
    store answers the handlers in flight: every key holds the type of
    its namespace at the end, and every handler still on its way will
    only send commands that fit their keys. *)
Theorem overlap_keeps_types es w :
  store_typed (kv w) →
  store_typed (kv (overlap es [] w).2) ∧
  Forall (λ o, ∀ h, o = Some h → typed (remainder h)) (overlap es [] w).1.
Proof.
  intros Hw. destruct (overlap_tidy es [] w) as [Hhs Hw']; [done..|]. split; [done|].
  eapply Forall_impl; [done|]. intros o Ho h ->. by destruct Ho.
Qed.

End types.

(** ** On a concrete world *)

(** The stubs write nothing. *)
Lemma stubs_outside : Outside unit (services := no_services) (binding := session).
Proof. split; intros; intros w Hw; exact Hw. Qed.

Lemma overlap_keeps_types_witness :
  store_typed (kv (overlap (services := no_services) (binding := session) false
                     create_twice [] (world_of [])).2) ∧
  Forall (λ o, ∀ h, o = Some h → typed (remainder h))
    (overlap (services := no_services) (binding := session) false
       create_twice [] (world_of [])).1.
Proof.
  apply (overlap_keeps_types (services := no_services) (binding := session)
           (outside := stubs_outside) false create_twice (world_of [])).
  apply store_typed_empty.
Defined.
