(* ===== verification/OverlapStore.v ===== *)
(** * OverlapStore: the store under the gateway and under the pool

    What the store sees of the messages on their way is the pool of
    [Pool], each method run for its effect ([forget]): the socket
    actions of a handler and the reports of the filter write nothing
    ([calm]), so the store after any turns of the messages is the
    store after the same turns of the pool
    ([overlap_store_dispatch]). *)

From stdpp Require Import strings gmap.
From S2P Require Import Prelude JsArray JsValue Redis Room Json Prog Service Reach Scene.
From S2P Require Import Interleave Typing Progress Pool Socket Gateway GatewaySpec Equiv Overlap.
Import TextChatGateway.

#[local] Open Scope string_scope.
#[local] Open Scope list_scope.
#[local] Open Scope nat_scope.

Section pool.
Context {E : Type}.

(** A message on its way whose handler, after its method, leaves the
    store as it is. *)
Definition calm (o : option (pending E)) : Prop :=
  match o with
  | Some h => returns (λ k : gw E unit, ∀ w, kv (k w).2 = kv w) (remainder h)
  | None => True
  end.

(** What the store sees of a message: the method of its handler, run
    for its effect; nothing once the message is answered. *)
Definition forget (o : option (pending E)) : handler :=
  match o with
  | Some h => Handler (time h) (void (remainder h))
  | None => Handler 0 (Ret tt)
  end.

(** The handler [ph] of the coordinator's pool stands for the message
    [o] of the gateway. *)
Definition stands_for (o : option (pending E)) (ph : handler) : Prop :=
  match o with
  | Some h => calm o ∧ ph = Handler (time h) (void (remainder h))
  | None => at_end ph
  end.

End pool.

(** ** The store under the gateway and under the pool *)

Section store.
Context (allowJoinMultipleRooms : bool) `{!JSON.Codec}.
Context {E : Type} {services : Services E} {binding : Interceptors E}.
Implicit Types (h : pending E) (o : option (pending E)) (hs : flight E) (w : world E).
Implicit Types (ps : pool).

#[local] Abbreviation overlap := (overlap (E:=E) allowJoinMultipleRooms).

(** A turn of a method run for its effect is the turn of the method. *)
Lemma advance_void {A : Type} now (p : prog A) s :
  advance now (void p) s = (void (advance now p s).1, (advance now p s).2).
Proof.
  unfold void. revert s. induction p as [a|e|c k IH|cs k IH|k IH]; intros s;
    cbn [bind advance fst snd]; [done|done| | |apply IH].
  - destruct (apply_command c s) as [s' r]. by destruct r.
  - by destruct (exec_pipeline cs s) as [s' rs].
Qed.

Lemma finished_void {A : Type} now (p : prog A) : finished now (void p) = finished now p.
Proof. unfold void. induction p; cbn [bind finished]; auto. Qed.

(** A calm handler that comes to its end leaves the store as its
    method left it. *)
Lemma conclude_kv h w :
  calm (Some h) → finished (time h) (remainder h) = true → kv (conclude h w) = kv w.
Proof.
  intros Hk Hf. unfold conclude, UseFilters, try_catch, resume, gbind, service.
  rewrite (run_finished _ _ (kv w) (kv w) Hf).
  destruct (run (time h) (remainder h) (kv w)) as [[k|e] s] eqn:Hrun; cbn [fst]; [|done].
  pose proof (returns_run _ _ _ _ _ _ Hk Hrun (World (kv w) (ext w) (net w) (out w))) as Hkv.
  by destruct (k _) as [[[]|e] w'].
Qed.

(** One turn of a message is one turn of the handler that stands for
    it. *)
Lemma proceed_wake n h hs ps w :
  Forall2 stands_for hs ps → hs !! n = Some (Some h) →
  Forall2 stands_for (<[n := (proceed h w).1]> hs) (wake n ps (kv w)).1 ∧
  kv (proceed h w).2 = (wake n ps (kv w)).2.
Proof.
  intros Hsim Hn. destruct (Forall2_lookup_l _ _ _ _ _ Hsim Hn) as (ph & Hp & Hk & ->).
  unfold wake, proceed. rewrite Hp. cbn [clock rest]. rewrite advance_void.
  pose proof (returns_advance _ (time h) _ (kv w) Hk) as Hk'.
  destruct (advance (time h) (remainder h) (kv w)) as [p s]. cbn [fst snd] in *.
  unfold start. cbn [time remainder].
  destruct (finished (time h) p) eqn:Hf; cbn [fst snd].
  - split; [|by apply conclude_kv]. apply Forall2_insert; [done|].
    unfold stands_for, at_end. cbn [clock rest]. by rewrite finished_void.
  - split; [|done]. by apply Forall2_insert.
Qed.

(** A turn of an answered message is a turn of a handler at its end:
    nothing happens. *)
Lemma answered_wake n hs ps s :
  Forall2 stands_for hs ps → hs !! n = Some None →
  Forall2 stands_for hs (wake n ps s).1 ∧ (wake n ps s).2 = s.
Proof.
  intros Hsim Hn. destruct (Forall2_lookup_l _ _ _ _ _ Hsim Hn) as (ph & Hp & Hend).
  unfold wake. rewrite Hp. destruct (advance_finished (clock ph) (rest ph) s Hend) as [Hs Hf].
  destruct (advance _ _ s) as [p s']. cbn [fst snd] in *. split; [|done].
  rewrite <- (list_insert_id hs n None Hn). by apply Forall2_insert.
Qed.

Lemma overlap_dispatch ts hs ps w :
  Forall2 stands_for hs ps →
  kv (overlap (Turn <$> ts) hs w).2 = (dispatch ts ps (kv w)).2.
Proof.
  revert hs ps w. induction ts as [|n ts IH]; intros hs ps w Hsim; [done|].
  cbn [fmap list_fmap Overlap.overlap Overlap.step dispatch].
  destruct (hs !! n) as [[h|]|] eqn:Hn.
  - destruct (proceed_wake n h hs ps w Hsim Hn) as [Hsim' Hkv].
    destruct (proceed h w) as [h' w']. destruct (wake n ps (kv w)) as [ps' s'].
    cbn [fst snd] in *. subst s'. by apply IH.
  - destruct (answered_wake n hs ps (kv w) Hsim Hn) as [Hsim' Hkv].
    destruct (wake n ps (kv w)) as [ps' s']. cbn [fst snd] in *. subst s'. by apply IH.
  - unfold wake. pose proof (Forall2_length _ _ _ Hsim) as Hlen.
    rewrite (proj2 (lookup_ge_None ps n)); [by apply IH|].
    rewrite <- Hlen. by apply lookup_ge_None.
Qed.

(** What a room handler does after its method leaves the store as it
    is. *)
Lemma awaits_calm ctx now client m :
  (if m is SendPrivateMessage _ then False else True) →
  calm (Some (Pending ctx now (awaits allowJoinMultipleRooms client m))).
Proof.
  destruct m; [done|intros _..]; cbn [calm remainder Overlap.awaits];
    apply returns_await; intros a w;
    unfold gbind, client_join, client_leave, emit, act, ret, throw;
    repeat case_match; by simplify_eq/=.
Qed.

(** What the store sees of the gateway is the pool of the
    coordinator.  Whatever the order in which the store answers the
    messages on their way, the store is the one the methods of their
    handlers leave when they take the same turns in the pool: the
    socket actions of a handler and the reports of the filter write
    nothing. *)
Theorem overlap_store_dispatch ts hs w :
  Forall calm hs →
  kv (overlap (Turn <$> ts) hs w).2 = (dispatch ts (forget <$> hs) (kv w)).2.
Proof.
  intros Hhs. apply overlap_dispatch, Forall2_fmap_r, Forall_Forall2_diag.
  eapply Forall_impl; [done|]. intros [h|] Ho; [done|]. done.
Qed.

End store.

(** ** On a concrete world *)

(** The two messages of [create_twice] on their way. *)
Definition two_creates : flight unit :=
  [Some (Pending (ExecutionContext.mk alice (Some ListenEvent.CreateRoom)) 7
           (awaits (services := no_services) false alice CreateRoom));
   Some (Pending (ExecutionContext.mk alice (Some ListenEvent.CreateRoom)) 8
           (awaits (services := no_services) false alice CreateRoom))].

Lemma overlap_store_dispatch_witness :
  kv (overlap (services := no_services) (binding := session) false
        (Turn <$> [0; 1; 0; 1]) two_creates (world_of [])).2
  = (dispatch [0; 1; 0; 1] (forget <$> two_creates) (kv (world_of []))).2.
Proof.
  apply (overlap_store_dispatch (services := no_services) (binding := session) false
           [0; 1; 0; 1] two_creates (world_of [])).
  repeat constructor; by apply awaits_calm.
Defined.
