(* ===== verification/Footprint.v ===== *)
(** * Footprint: handlers that touch different keys

    Every command of the store acts on one key: it answers from what
    that key holds and changes nothing else.  The keys a handler sends
    commands to are its footprint ([keys_sent], along its run from a
    store).  Two stores that hold the same under the keys of [K]
    [agree] on [K]: a handler [confined] to [K] cannot tell them apart,
    and leaves every other key alone ([local_to]).

    Hence what the specification leaves implicit when it gives no
    ordering guarantee for operations on the same room: handlers whose
    footprints are disjoint commute.  A turn of one moves across a turn
    or the whole run of the other ([local_comm]), and every
    interleaving of two such handlers is their sequential run
    ([interleaved_sequential]).  [Serial] gives the footprints of the
    requests of the service. *)

From stdpp Require Import strings gmap.
From S2P Require Import Prelude JsValue Redis Prog Interleave Progress.

#[local] Open Scope list_scope.

(** The key a command acts on. *)
Definition target (c : command) : key :=
  match c with
  | GET k | SET k _ | DEL k | LPUSH k _ | LREM k _ _ | LRANGE k _ _ | LLEN k => k
  end.

(** The stores hold the same under every key of [K]. *)
Definition agree (K : gset key) (s s' : store) : Prop := ∀ k, k ∈ K → s !! k = s' !! k.

(** The keys of the commands a handler sends on its run from [s], in
    the order in which it sends them. *)
Fixpoint keys_sent {A : Type} (now : Z) (p : prog A) (s : store) : list key :=
  match p with
  | Ret _ | Throw _ => []
  | Call c k =>
      target c ::
      let '(s', r) := apply_command c s in
      match r with RError => [] | _ => keys_sent now (k r) s' end
  | Exec cs k =>
      (target <$> cs) ++ let '(s', rs) := exec_pipeline cs s in keys_sent now (k rs) s'
  | Now k => keys_sent now (k now) s
  end.

(** The handler sends commands to keys of [K] only. *)
Definition confined {A : Type} (K : gset key) (now : Z) (p : prog A) (s : store) : Prop :=
  ∀ k, k ∈ keys_sent now p s → k ∈ K.

(** A step on the store that returns a result, with the store first. *)
Abbreviation op R := (store → store * R).

(** From [s] and from every store that agrees with [s] on [K], the
    step returns the same, writes the same under [K], and leaves every
    key outside [K] as it is. *)
Definition local_to {R : Type} (K : gset key) (f : op R) (s : store) : Prop :=
  ∀ s', agree K s s' →
    (f s').2 = (f s).2 ∧ agree K (f s).1 (f s').1 ∧ ∀ k, k ∉ K → (f s').1 !! k = s' !! k.

(** One step, then another that depends on the result of the first. *)
Definition then_op {R R' : Type} (f : op R) (g : R → op R') : op R' :=
  λ s, g (f s).2 (f s).1.

(** The run and the turn of a handler as steps. *)
Definition run_op {A : Type} (now : Z) (p : prog A) : op (outcome A) :=
  λ s, ((run now p s).2, (run now p s).1).

Definition advance_op {A : Type} (now : Z) (p : prog A) : op (prog A) :=
  λ s, ((advance now p s).2, (advance now p s).1).

(** ** Stores that agree *)

Section agree.
Implicit Types (K : gset key) (s : store).

#[export] Instance agree_equivalence K : Equivalence (agree K).
Proof.
  split.
  - by intros s k.
  - intros s s' H k Hk. by rewrite H.
  - intros s1 s2 s3 H12 H23 k Hk. by rewrite H12, H23.
Qed.

(** Agreeing on more is agreeing on less. *)
#[export] Instance agree_mono : Proper ((⊆) --> (=) ==> (=) ==> impl) agree.
Proof. intros K K' HK s ? <- s' ? <- H k Hk. apply H. set_solver. Qed.

Lemma agree_subseteq K K' s s' : K ⊆ K' → agree K' s s' → agree K s s'.
Proof. intros HK. by apply agree_mono. Qed.

Lemma agree_union K1 K2 s s' : agree (K1 ∪ K2) s s' ↔ agree K1 s s' ∧ agree K2 s s'.
Proof.
  split; [intros H; split; intros k Hk; apply H; set_solver|].
  intros [H1 H2] k [Hk|Hk]%elem_of_union; auto.
Qed.

(** A step that leaves the keys of [K] alone leaves a store that
    agrees on [K]. *)
Lemma agree_frame K s s' : (∀ k, k ∈ K → s' !! k = s !! k) → agree K s s'.
Proof. intros H k Hk. by rewrite H. Qed.

End agree.

(** ** Commands *)

Section commands.
Implicit Types (K : gset key) (c : command) (cs : list command) (s : store).

(** A command leaves every key but its own as it is. *)
Lemma apply_command_frame c s k :
  k ≠ target c → (apply_command c s).1 !! k = s !! k.
Proof.
  intros Hk. destruct c; cbn [apply_command target] in *; repeat case_match;
    cbn [fst]; by rewrite ?lookup_insert_ne, ?lookup_delete_ne.
Qed.

(** What a command replies and what it leaves under its key depends
    on what its key holds. *)
Lemma apply_command_own c s s' :
  s !! target c = s' !! target c →
  (apply_command c s').2 = (apply_command c s).2 ∧
  (apply_command c s).1 !! target c = (apply_command c s').1 !! target c.
Proof.
  intros H. destruct c; cbn [apply_command target] in *; rewrite <- ?H;
    repeat case_match; cbn [fst snd];
    rewrite ?lookup_insert_eq, ?lookup_delete_eq; split; congruence.
Qed.

Lemma apply_command_local c K s : target c ∈ K → local_to K (apply_command c) s.
Proof.
  intros Hc s' Hs. destruct (apply_command_own c s s' (Hs _ Hc)) as [Hr Hk].
  split_and!; [done| |].
  - intros k Hk'. destruct (decide (k = target c)) as [->|Hne]; [done|].
    rewrite !apply_command_frame by done. by apply Hs.
  - intros k Hk'. apply apply_command_frame. by intros ->.
Qed.

End commands.

(** ** Steps that are local to their keys *)

Section local.
Context {R : Type}.
Implicit Types (K : gset key) (f : op R) (s : store).

Lemma local_ext K f f' s : (∀ s', f s' = f' s') → local_to K f s → local_to K f' s.
Proof. intros Hf H s' Hs. rewrite <- !Hf. by apply H. Qed.

Lemma local_ret K (r : R) s : local_to K (λ s', (s', r)) s.
Proof. by intros s' Hs. Qed.

(** A local step leaves the keys outside [K] as they are. *)
Lemma local_frame K f s k : local_to K f s → k ∉ K → (f s).1 !! k = s !! k.
Proof. intros Hf Hk. by apply (Hf s). Qed.

Lemma local_then {R' : Type} K (f' : op R') (g : R' → op R) s :
  local_to K f' s → local_to K (g (f' s).2) (f' s).1 → local_to K (then_op f' g) s.
Proof.
  intros Hf Hg s' Hs. destruct (Hf s' Hs) as (Hr & Ha & Hfr). unfold then_op. rewrite Hr.
  destruct (Hg (f' s').1 Ha) as (Hr' & Ha' & Hfr'). split_and!; [done..|].
  intros k Hk. by rewrite Hfr', Hfr.
Qed.

(** A step local to some keys is local to more keys. *)
Lemma local_mono K K' f s : K ⊆ K' → local_to K f s → local_to K' f s.
Proof.
  intros HK Hf s' Hs. destruct (Hf s') as (Hr & Ha & Hfr); [by eapply agree_subseteq|].
  split_and!; [done| |intros k Hk; apply Hfr; set_solver].
  intros k Hk. destruct (decide (k ∈ K)) as [Hin|Hout]; [by apply Ha|].
  rewrite Hfr, (local_frame K f s) by done. by apply Hs.
Qed.

(** A step local from [s] is local from every store that agrees with
    [s]. *)
Lemma local_agree K f s s' : local_to K f s → agree K s s' → local_to K f s'.
Proof.
  intros Hf Hs s'' Hs'. destruct (Hf s' Hs) as (Hr & Ha & _).
  destruct (Hf s'') as (Hr' & Ha' & Hfr'); [by etrans|].
  split_and!; [congruence| |done]. by etrans; [symmetry|].
Qed.

End local.

(** Two steps local to disjoint sets of keys commute: each returns
    what it returns alone, and the store is the same in both orders. *)
Lemma local_comm {R1 R2 : Type} (K1 K2 : gset key) (f : op R1) (g : op R2) (s : store) :
  local_to K1 f s → local_to K2 g s → K1 ## K2 →
  (g (f s).1).2 = (g s).2 ∧ (f (g s).1).2 = (f s).2 ∧ (g (f s).1).1 = (f (g s).1).1.
Proof.
  intros Hf Hg HK.
  destruct (Hg (f s).1) as (Hgr & Hga & Hgf).
  { apply agree_frame. intros k Hk. apply (local_frame K1 f s); [done|set_solver]. }
  destruct (Hf (g s).1) as (Hfr & Hfa & Hff).
  { apply agree_frame. intros k Hk. apply (local_frame K2 g s); [done|set_solver]. }
  split_and!; [done..|]. apply map_eq. intros k.
  destruct (decide (k ∈ K1)) as [H1|H1]; [|destruct (decide (k ∈ K2)) as [H2|H2]].
  - rewrite Hgf by set_solver. by apply Hfa.
  - rewrite Hff by done. symmetry. by apply Hga.
  - rewrite Hgf, Hff, (local_frame K1 f s), (local_frame K2 g s) by done. done.
Qed.

(** ** Pipelines and handlers *)

Section handlers.
Context {A : Type}.
Implicit Types (K : gset key) (p : prog A) (s : store) (cs : list command).

Lemma exec_pipeline_local cs K s :
  (∀ c, c ∈ cs → target c ∈ K) → local_to K (exec_pipeline cs) s.
Proof.
  revert s. induction cs as [|c cs IH]; intros s Hcs; [apply local_ret|].
  apply (local_ext K (then_op (apply_command c) (λ r,
           then_op (exec_pipeline cs) (λ rs s', (s', r :: rs))))).
  { intros s'. unfold then_op. cbn [exec_pipeline].
    destruct (apply_command c s') as [s1 r]. cbn [fst snd].
    by destruct (exec_pipeline cs s1). }
  apply local_then; [apply apply_command_local, Hcs; left|].
  apply local_then; [apply IH; intros c' Hc'; apply Hcs; by right|apply local_ret].
Qed.

(** The footprint, step by step. *)
Lemma confined_Call K now c (k : reply → prog A) s :
  confined K now (Call c k) s →
  target c ∈ K ∧
  ((apply_command c s).2 ≠ RError →
   confined K now (k (apply_command c s).2) (apply_command c s).1).
Proof.
  unfold confined. cbn [keys_sent]. intros H. split; [apply H; left|].
  intros Hr k' Hk'. apply H. right. destruct (apply_command c s) as [s' r]. by destruct r.
Qed.

Lemma confined_Exec K now cs (k : list reply → prog A) s :
  confined K now (Exec cs k) s →
  (∀ c, c ∈ cs → target c ∈ K) ∧
  confined K now (k (exec_pipeline cs s).2) (exec_pipeline cs s).1.
Proof.
  unfold confined. cbn [keys_sent]. intros H. split.
  - intros c Hc. apply H, elem_of_app. left. by apply list_elem_of_fmap_2.
  - intros k' Hk'. apply H, elem_of_app. right. by destruct (exec_pipeline cs s).
Qed.

Lemma confined_nil K now p s : keys_sent now p s = [] → confined K now p s.
Proof. intros H k. rewrite H. by intros ?%elem_of_nil. Qed.

Lemma confined_mono K K' now p s : K ⊆ K' → confined K now p s → confined K' now p s.
Proof. intros HK Hp k Hk. by apply HK, Hp. Qed.

Lemma confined_now K now (k : Z → prog A) s : confined K now (k now) s → confined K now (Now k) s.
Proof. done. Qed.

(** A command of the footprint, then a rest within the footprint. *)
Lemma confined_call K now c (k : reply → prog A) s :
  target c ∈ K →
  ((apply_command c s).2 ≠ RError →
   confined K now (k (apply_command c s).2) (apply_command c s).1) →
  confined K now (Call c k) s.
Proof.
  intros Hc Hk k'. cbn [keys_sent]. intros [->|Hk']%elem_of_cons; [done|].
  destruct (apply_command c s) as [s' r]. cbn [fst snd] in *.
  destruct r; first [by apply Hk|by apply elem_of_nil in Hk'].
Qed.

Lemma confined_exec K now cs (k : list reply → prog A) s :
  Forall (λ c, target c ∈ K) cs →
  confined K now (k (exec_pipeline cs s).2) (exec_pipeline cs s).1 →
  confined K now (Exec cs k) s.
Proof.
  intros Hcs Hk k'. cbn [keys_sent]. rewrite Forall_forall in Hcs.
  intros [(c & -> & Hc)%list_elem_of_fmap|Hk']%elem_of_app; [by apply Hcs|].
  apply Hk. by destruct (exec_pipeline cs s).
Qed.

(** The run of a handler is local to its footprint. *)
Lemma run_local K now p s : confined K now p s → local_to K (run_op now p) s.
Proof.
  revert s. induction p as [a|e|c k IH|cs k IH|k IH]; intros s Hp;
    [apply local_ret|apply local_ret| | |by apply IH].
  - apply confined_Call in Hp as [Hc Hk].
    apply (local_ext K (then_op (apply_command c) (λ r,
             match r with RError => λ s', (s', Err ReplyError) | _ => run_op now (k r) end))).
    { intros s'. unfold then_op, run_op. cbn [run].
      destruct (apply_command c s') as [s1 r]. by destruct r. }
    apply local_then; [by apply apply_command_local|].
    destruct (apply_command c s).2 eqn:Hr; first [apply local_ret|by apply IH, Hk].
  - apply confined_Exec in Hp as [Hcs Hk].
    apply (local_ext K (then_op (exec_pipeline cs) (λ rs, run_op now (k rs)))).
    { intros s'. unfold then_op, run_op. cbn [run]. by destruct (exec_pipeline cs s'). }
    apply local_then; [by apply exec_pipeline_local|by apply IH].
Qed.

(** So is one turn. *)
Lemma advance_local K now p s : confined K now p s → local_to K (advance_op now p) s.
Proof.
  revert s. induction p as [a|e|c k IH|cs k IH|k IH]; intros s Hp;
    [apply local_ret|apply local_ret| | |by apply IH].
  - apply confined_Call in Hp as [Hc _].
    apply (local_ext K (then_op (apply_command c) (λ r s',
             (s', match r with RError => Throw ReplyError | _ => k r end)))).
    { intros s'. unfold then_op, advance_op. cbn [advance].
      by destruct (apply_command c s') as [s1 r]. }
    apply local_then; [by apply apply_command_local|apply local_ret].
  - apply confined_Exec in Hp as [Hcs _].
    apply (local_ext K (then_op (exec_pipeline cs) (λ rs s', (s', k rs)))).
    { intros s'. unfold then_op, advance_op. cbn [advance]. by destruct (exec_pipeline cs s'). }
    apply local_then; [by apply exec_pipeline_local|apply local_ret].
Qed.

(** After a turn the handler sends what was left to send. *)
Lemma keys_sent_advance now p s k :
  k ∈ keys_sent now (advance now p s).1 (advance now p s).2 → k ∈ keys_sent now p s.
Proof.
  revert s. induction p as [a|e|c k' IH|cs k' IH|k' IH]; intros s; cbn [advance keys_sent];
    [done|done| | |apply IH].
  - destruct (apply_command c s) as [s' r]. intros Hk. right. by destruct r.
  - destruct (exec_pipeline cs s) as [s' rs]. intros Hk. apply elem_of_app. by right.
Qed.

Lemma advance_confined K now p s :
  confined K now p s → confined K now (advance now p s).1 (advance now p s).2.
Proof. intros Hp k Hk. by apply Hp, keys_sent_advance. Qed.

(** A handler sends the same from stores that agree on its footprint. *)
(** Whatever the number of its requests that are served, a handler
    leaves the keys outside its footprint as they are. *)
Lemma turns_frame K now n p s k :
  confined K now p s → k ∉ K → (turns now n p s).2 !! k = s !! k.
Proof.
  revert p s. induction n as [|n IH]; intros p s Hp Hk; [done|]. cbn [turns].
  pose proof (local_frame K _ s k (advance_local K now p s Hp) Hk) as Hs.
  pose proof (advance_confined K now p s Hp) as Hp'. unfold advance_op in Hs.
  destruct (advance now p s) as [p' s']. cbn [fst snd] in *. by rewrite IH.
Qed.

Lemma keys_sent_agree K now p s s' :
  confined K now p s → agree K s s' → keys_sent now p s' = keys_sent now p s.
Proof.
  revert s s'. induction p as [a|e|c k IH|cs k IH|k IH]; intros s s' Hp Hs; cbn [keys_sent];
    [done|done| | |by apply IH].
  - apply confined_Call in Hp as [Hc Hk].
    destruct (apply_command_local c K s Hc s' Hs) as (Hr & Ha & _).
    destruct (apply_command c s) as [s1 r], (apply_command c s') as [s1' r'].
    cbn [fst snd] in *. subst r'. f_equal. destruct r; first [done|by apply IH; [apply Hk|]].
  - apply confined_Exec in Hp as [Hcs Hk].
    destruct (exec_pipeline_local cs K s Hcs s' Hs) as (Hr & Ha & _).
    destruct (exec_pipeline cs s) as [s1 rs], (exec_pipeline cs s') as [s1' rs'].
    cbn [fst snd] in *. subst rs'. f_equal. by apply IH.
Qed.

Lemma confined_agree K now p s s' :
  confined K now p s → agree K s s' → confined K now p s'.
Proof. intros Hp Hs k. rewrite (keys_sent_agree K now p s s') by done. apply Hp. Qed.

End handlers.

(** A part within the footprint, then a rest within the footprint. *)
Lemma confined_bind {A B : Type} (K : gset key) (now : Z) (p : prog A) (f : A → prog B)
    (s : store) :
  confined K now p s →
  (∀ a s', run now p s = (Ok a, s') → confined K now (f a) s') →
  confined K now (bind p f) s.
Proof.
  revert s. induction p as [a|e|c k IH|cs k IH|k IH]; intros s Hp Hf; cbn [bind].
  - by apply Hf.
  - by apply confined_nil.
  - apply confined_Call in Hp as [Hc Hk]. apply confined_call; [done|]. intros Hr.
    apply IH; [by apply Hk|]. intros a s' Hrun. apply Hf. cbn [run].
    destruct (apply_command c s) as [s1 r]. by destruct r.
  - apply confined_Exec in Hp as [Hcs Hk]. apply confined_exec; [by apply Forall_forall|].
    apply IH; [done|]. intros a s' Hrun. apply Hf. cbn [run].
    by destruct (exec_pipeline cs s).
  - apply IH; [done|]. intros a s' Hrun. by apply Hf.
Qed.

(** ** Two handlers *)

(** A turn of a handler leaves the other within its footprint. *)
Lemma confined_after_turn {A B : Type} (K1 K2 : gset key) (now1 now2 : Z)
    (p : prog A) (q : prog B) (s : store) :
  confined K1 now1 p s → confined K2 now2 q s → K1 ## K2 →
  confined K2 now2 q (advance now1 p s).2.
Proof.
  intros Hp Hq HK. apply (confined_agree K2 now2 q s); [done|]. apply agree_frame.
  intros k Hk. apply (local_frame K1 (advance_op now1 p) s); [by apply advance_local|].
  set_solver.
Qed.

Section two_handlers.
Context {A B : Type}.
Implicit Types (K : gset key) (p : prog A) (q : prog B) (s : store) (ts : list turn).

Lemma sequential_runs now1 now2 p q s :
  sequential now1 now2 p q s
  = ((run now1 p s).1, (run now2 q (run now1 p s).2).1, (run now2 q (run now1 p s).2).2).
Proof.
  unfold sequential, interleaved. cbn [schedule].
  destruct (run now1 p s) as [a s1]. cbn [fst snd]. by destruct (run now2 q s1).
Qed.

Lemma interleaved_L now1 now2 ts p q s :
  interleaved now1 now2 (L :: ts) p q s
  = interleaved now1 now2 ts (advance now1 p s).1 q (advance now1 p s).2.
Proof. unfold interleaved. cbn [schedule]. by destruct (advance now1 p s). Qed.

Lemma interleaved_R now1 now2 ts p q s :
  interleaved now1 now2 (R :: ts) p q s
  = interleaved now1 now2 ts p (advance now2 q s).1 (advance now2 q s).2.
Proof. unfold interleaved. cbn [schedule]. by destruct (advance now2 q s). Qed.

(** A turn of the second handler moves across the run of the first. *)
Lemma run_advance_comm K1 K2 now1 now2 p q s :
  confined K1 now1 p s → confined K2 now2 q s → K1 ## K2 →
  sequential now1 now2 p (advance now2 q s).1 (advance now2 q s).2
  = sequential now1 now2 p q s.
Proof.
  intros Hp Hq HK.
  destruct (local_comm K1 K2 (run_op now1 p) (advance_op now2 q) s) as (Hq' & Ha & Hs);
    [by apply run_local|by apply advance_local|done|].
  unfold run_op, advance_op in *. cbn [fst snd] in *.
  rewrite !sequential_runs, Ha, <- Hs, <- Hq'. by rewrite run_advance.
Qed.

(** Handlers whose footprints are disjoint: every interleaving of
    their turns is their sequential run. *)
Lemma interleaved_sequential K1 K2 ts now1 now2 p q s :
  confined K1 now1 p s → confined K2 now2 q s → K1 ## K2 →
  interleaved now1 now2 ts p q s = sequential now1 now2 p q s.
Proof.
  revert p q s. induction ts as [|[|] ts IH]; intros p q s Hp Hq HK; [done| |].
  - rewrite interleaved_L, IH, !sequential_runs, run_advance;
      [done|by apply advance_confined|by eapply confined_after_turn|done].
  - rewrite interleaved_R, IH; [by eapply run_advance_comm| |by apply advance_confined|done].
    by apply (confined_after_turn K2 K1).
Qed.

(** The order of the two does not matter either. *)
Lemma sequential_comm K1 K2 now1 now2 p q s :
  confined K1 now1 p s → confined K2 now2 q s → K1 ## K2 →
  (run now2 q (run now1 p s).2).2 = (run now1 p (run now2 q s).2).2 ∧
  (run now2 q (run now1 p s).2).1 = (run now2 q s).1 ∧
  (run now1 p (run now2 q s).2).1 = (run now1 p s).1.
Proof.
  intros Hp Hq HK.
  destruct (local_comm K1 K2 (run_op now1 p) (run_op now2 q) s) as (Hq' & Ha & Hs);
    [by apply run_local|by apply run_local|done|by split_and!].
Qed.

End two_handlers.
