(* ===== verification/Keys.v ===== *)
(** * Keys: the keys of the requests of the service

    [footprint] gives, for each request of the service, the keys of the
    store its handler sends commands to: the room it names, the list
    of rooms and the socket of the users it names, and, for an
    accepted invitation of a user who may be in one room only, the
    rooms the guest is listed in.  On a consistent store the handler
    of a request stays within the footprint ([perform_confined]):
    every method writes a room back under the key it read it from,
    because a stored room holds its own id.  Hence every interleaving
    of two requests with disjoint keys is their sequential run
    ([disjoint_interleaved_sequential]). *)

From stdpp Require Import strings gmap.
From S2P Require Import Prelude JsArray JsValue Redis Room Json Prog Service Model.
From S2P Require Import Invariant Refine LeaveMany Reach Scene Interleave Progress Footprint.
Import RoomService.

#[local] Open Scope string_scope.
#[local] Open Scope list_scope.

(** ** The keys of a request *)

Abbreviation room_key rid := (key_of CacheNamespace.Room rid).
Abbreviation rooms_key u := (key_of CacheNamespace.UId2RIds u).
Abbreviation socket_key u := (key_of CacheNamespace.UID2SId u).

(** The keys of the rooms a user is listed in. *)
Definition listed (s : store) (u : value) : gset key :=
  list_to_set ((λ r, (CacheNamespace.Room, r)) <$> list_at s (rooms_key u)).

Section footprint.
Context (allowJoinMultipleRooms : bool).

Definition footprint (now : Z) (s : store) (q : request) : gset key :=
  match q with
  | Book u _ => {[ rooms_key u; room_key (VNum now) ]}
  | Join u rid | Leave u rid => {[ rooms_key u; room_key rid ]}
  | Kick _ member rid => {[ room_key rid; rooms_key member; socket_key member ]}
  | TransferOwnership _ _ rid => {[ room_key rid ]}
  | Invite _ guest rid => {[ room_key rid; socket_key guest ]}
  | Reach.RespondInvitation guest isAccpeted rid =>
      {[ room_key rid; rooms_key guest ]} ∪
      (if truthy isAccpeted && negb allowJoinMultipleRooms then listed s guest else ∅)
  | Connect u _ | Disconnect u => {[ socket_key u ]}
  end.

End footprint.

(** ** The handlers stay within the keys of their requests *)

(** The writes at the end of a method. *)
Ltac at_writes :=
  cbn [bind exec call];
  first [apply confined_exec; [repeat constructor|]|apply confined_call];
  cbn [target]; rewrite ?id_join_update, ?id_depart, ?id_invite_update, ?id_respond_update,
    ?id_set_ownerId.

Section reads.
Context (allowJoinMultipleRooms : bool) `{!JSON.Codec}.
Implicit Types (s : store) (d : db) (u rid : value) (now : Z) (K : gset key) (q : request).

#[local] Abbreviation inv := (inv allowJoinMultipleRooms).

Lemma isMemberOfAny_confined K now u s :
  rooms_key u ∈ K → confined K now (isMemberOfAny u) s.
Proof. intros Hu. unfold isMemberOfAny. at_writes; [done|]. intros _. by apply confined_nil. Qed.

Lemma singleRoomGuard_confined K now u s :
  rooms_key u ∈ K → confined K now (singleRoomGuard allowJoinMultipleRooms u) s.
Proof.
  intros Hu. unfold singleRoomGuard.
  destruct allowJoinMultipleRooms; [by apply confined_nil|by apply isMemberOfAny_confined].
Qed.

Lemma get_confined K now rid s : room_key rid ∈ K → confined K now (get rid) s.
Proof.
  intros Hrid. unfold get. at_writes; [done|]. intros _. apply confined_nil.
  destruct (apply_command _ s).2; try done. cbn [bind]. by destruct (JSON.parse _).
Qed.

Lemma target_commit (r : Room) : target (commit_cmd r) = (CacheNamespace.Room, id r).
Proof. unfold commit_cmd. by destruct (memberIds r). Qed.

(** The key a room is written back under is the key it was read from. *)
Lemma room_key_id d rid room :
  inv d → room_of d rid = Some room → (CacheNamespace.Room, id room) = room_key rid.
Proof. intros Hi Hroom. unfold key_of. by rewrite (room_of_id allowJoinMultipleRooms d rid room). Qed.

End reads.

(** The steps the proofs below share: past the guard and past [get] on
    a represented store. *)
Ltac past_guard Hr :=
  apply confined_bind; [apply singleRoomGuard_confined; set_solver|];
  let Hrun := fresh in
  intros ? ? Hrun; rewrite (run_singleRoomGuard _ _ _ _ _ Hr) in Hrun;
  injection Hrun as <- <-.
Ltac past_get Hr room Hroom :=
  apply confined_bind; [apply get_confined; set_solver|];
  intros room ? [Hroom ->]%(run_get_ok _ _ _ _ _ _ Hr).

Section confined.
Context (allowJoinMultipleRooms : bool) `{!JSON.Codec}.
Implicit Types (s : store) (d : db) (u rid : value) (now : Z) (K : gset key) (q : request).

#[local] Abbreviation inv := (inv allowJoinMultipleRooms).

Lemma book_confined now s d u isPublic :
  represents s d →
  confined (footprint allowJoinMultipleRooms now s (Book u isPublic)) now
    (book allowJoinMultipleRooms u isPublic) s.
Proof.
  intros Hr. unfold book, footprint. past_guard Hr.
  destruct (Pure.singleRoomGuard _ u d); [by apply confined_nil|].
  cbn [bind date_now]. apply confined_now. at_writes; [set_solver..|by apply confined_nil].
Qed.

Lemma join_confined now s d u rid :
  represents s d → inv d →
  confined (footprint allowJoinMultipleRooms now s (Join u rid)) now
    (join allowJoinMultipleRooms u rid) s.
Proof.
  intros Hr Hi. unfold join, footprint. past_guard Hr.
  destruct (Pure.singleRoomGuard _ u d); [by apply confined_nil|]. past_get Hr room Hroom.
  destruct (negb (isPublic room)); [by apply confined_nil|].
  at_writes; rewrite ?(room_key_id _ d rid room) by done; [set_solver..|by apply confined_nil].
Qed.

Lemma leave_confined K now s d u rid :
  represents s d → inv d → rooms_key u ∈ K → room_key rid ∈ K →
  confined K now (leave u rid) s.
Proof.
  intros Hr Hi Hu Hrid. unfold leave. past_get Hr room Hroom.
  destruct (_ =? _)%Z; [by apply confined_nil|].
  pose proof (settle_snd u (depart u room)) as Hcmd.
  pose proof (settle_fst u (depart u room)) as Hfst.
  destruct (settle u (depart u room)) as [room' cmd]. cbn [fst snd] in Hcmd, Hfst. subst.
  at_writes; rewrite ?target_commit, ?id_settled, ?id_depart, ?(room_key_id _ d rid room) by done;
    [done..|by apply confined_nil].
Qed.

Lemma transferOwnership_confined now s d owner candidate rid :
  represents s d → inv d →
  confined (footprint allowJoinMultipleRooms now s (TransferOwnership owner candidate rid)) now
    (transferOwnership owner candidate rid) s.
Proof.
  intros Hr Hi. unfold transferOwnership, footprint. past_get Hr room Hroom.
  destruct (decide _); [by apply confined_nil|].
  destruct (_ || _); [by apply confined_nil|].
  at_writes; rewrite ?(room_key_id _ d rid room) by done; [set_solver|].
  intros _. by apply confined_nil.
Qed.

Lemma kick_confined now s d kicker member rid :
  represents s d → inv d →
  confined (footprint allowJoinMultipleRooms now s (Kick kicker member rid)) now
    (kick kicker member rid) s.
Proof.
  intros Hr Hi. unfold kick, footprint. destruct (decide (kicker = member)) as [->|Hne].
  { apply confined_bind; [apply (leave_confined _ now s d); [done..|set_solver|set_solver]|].
    intros. by apply confined_nil. }
  past_get Hr room Hroom. destruct (decide _); [by apply confined_nil|].
  destruct (_ =? _)%Z; [by apply confined_nil|].
  at_writes; rewrite ?(room_key_id _ d rid room) by done; [set_solver..|].
  apply confined_nil. by destruct (exec_pipeline _ s).2.
Qed.

Lemma invite_confined now s d inviter guest rid :
  represents s d → inv d →
  confined (footprint allowJoinMultipleRooms now s (Invite inviter guest rid)) now
    (invite inviter guest rid) s.
Proof.
  intros Hr Hi. unfold invite, footprint. at_writes; [set_solver..|].
  rewrite !exec_pipeline_cons. cbn [exec_pipeline fst snd].
  rewrite (apply_GET_room_rep s d) by done. cbn [fst snd].
  destruct (room_of d rid) as [room|] eqn:Hroom; [|by apply confined_nil]. cbn [from_option].
  rewrite JSON.parse_stringify. destruct (apply_command _ s).2; try by apply confined_nil.
  destruct (negb _); [by apply confined_nil|]. destruct (_ || _); [by apply confined_nil|].
  at_writes; rewrite ?(room_key_id _ d rid room) by done; [set_solver|].
  intros _. by apply confined_nil.
Qed.

(** ** [leaveMany] and [respondInvitation] *)

Lemma getMany_collect_pure now (vals : list reply) (acc : list Room) s :
  keys_sent now (getMany_collect vals acc) s = [].
Proof.
  revert acc. induction vals as [|[] vals IH]; intros acc; cbn [getMany_collect]; try done.
  by destruct (JSON.parse _).
Qed.

Lemma getMany_confined K now (rids : list value) s :
  Forall (λ rid, room_key rid ∈ K) rids → confined K now (getMany rids) s.
Proof.
  intros Hrids. unfold getMany. at_writes; [by apply Forall_fmap|].
  apply confined_nil, getMany_collect_pure.
Qed.

(** The commands queued for rooms of the footprint are commands of the
    footprint. *)
Lemma vacate_targets K u (R : list Room) :
  rooms_key u ∈ K → Forall (λ r, (CacheNamespace.Room, id r) ∈ K) R →
  Forall (λ c, target c ∈ K) (flat_map (vacate_cmds u) R).
Proof.
  intros Hu. induction 1 as [|r R Hr _ IH]; [done|]. cbn [flat_map vacate_cmds app].
  repeat constructor; [by rewrite target_commit|done|done].
Qed.

(** The rooms found under ids of the footprint, after the leaver is
    out, are rooms of the footprint. *)
Lemma left_rooms_keys K d u (rids : list value) :
  inv d → Forall (λ rid, room_key rid ∈ K) rids →
  Forall (λ r, (CacheNamespace.Room, id r) ∈ K)
    ((λ room, Pure.settled u (depart u room)) <$> omap (room_of d) rids).
Proof.
  intros Hi Hrids. apply Forall_fmap, Forall_forall. intros room (rid & Hrid & Hroom)%list_elem_of_omap.
  cbn. rewrite id_settled, id_depart, (room_key_id _ d rid room) by done.
  by apply (proj1 (Forall_forall _ _) Hrids).
Qed.

Lemma leaveMany_rooms_confined K now s d u (rids : list value) :
  represents s d → inv d → rooms_key u ∈ K → Forall (λ rid, room_key rid ∈ K) rids →
  confined K now (leaveMany_rooms u rids) s.
Proof.
  intros Hr Hi Hu Hrids. unfold leaveMany_rooms.
  apply confined_bind; [by apply getMany_confined|]. intros rooms s' Hrun.
  rewrite (run_getMany now s d) in Hrun by done. injection Hrun as <- <-.
  rewrite leaveMany_loop, <- flat_map_app. at_writes; [|by apply confined_nil].
  apply vacate_targets; [done|]. pose proof (left_rooms_keys K d u rids Hi Hrids) as Hleft.
  apply Forall_app. split; [|done]. apply Forall_forall.
  intros r [[]%elem_of_nil|Hin]%elem_of_resent. by apply (proj1 (Forall_forall _ _) Hleft).
Qed.

Lemma leaveMany_confined K now s d u :
  represents s d → inv d → rooms_key u ∈ K → listed s u ⊆ K →
  confined K now (leaveMany u []) s.
Proof.
  intros Hr Hi Hu HK. unfold leaveMany. at_writes; [done|]. intros _. unfold listed in HK.
  rewrite (represents_list_at s d) in HK by done.
  rewrite apply_LRANGE, lrange_all, (represents_list_at s d) by eauto with chat.
  cbn [fst snd]. destruct (joined_of d u) as [|i l] eqn:Hl; [by apply confined_nil|].
  apply (leaveMany_rooms_confined K now s d); [done..|].
  apply Forall_fmap, Forall_forall. intros r Hin. cbn. apply HK. unfold key_of.
  rewrite to_string_str. apply elem_of_list_to_set. by apply list_elem_of_fmap_2.
Qed.

Lemma respondInvitation_confined now s d guest isAccpeted rid :
  represents s d → inv d →
  confined (footprint allowJoinMultipleRooms now s (Reach.RespondInvitation guest isAccpeted rid))
    now (respondInvitation allowJoinMultipleRooms guest isAccpeted rid) s.
Proof.
  intros Hr Hi. unfold respondInvitation, footprint. past_get Hr room Hroom.
  destruct (_ =? _)%Z; [by apply confined_nil|]. destruct (truthy isAccpeted); cycle 1.
  { at_writes; rewrite ?(room_key_id _ d rid room) by done; [set_solver|by apply confined_nil]. }
  past_guard Hr. unfold Pure.singleRoomGuard.
  apply confined_bind.
  - destruct (negb allowJoinMultipleRooms && Pure.isMemberOfAny guest d) eqn:Hbusy; [|by apply confined_nil].
    apply andb_prop in Hbusy as [-> _].
    apply (leaveMany_confined _ now s d); [done..|set_solver|set_solver].
  - intros left s' _.
    at_writes; rewrite ?(room_key_id _ d rid room) by done; [set_solver..|by apply confined_nil].
Qed.

(** The handler of a request on a consistent store sends its commands
    to the keys of the request. *)
Lemma perform_confined now s d q :
  represents s d → inv d →
  confined (footprint allowJoinMultipleRooms now s q) now (perform allowJoinMultipleRooms q) s.
Proof.
  intros Hr Hi. destruct q; cbn [perform]; unfold void;
    (apply confined_bind; [|intros; by apply confined_nil]).
  - by eapply book_confined.
  - by eapply join_confined.
  - apply (leave_confined _ now s d); [done..|set_solver|set_solver].
  - by eapply kick_confined.
  - by eapply transferOwnership_confined.
  - by eapply invite_confined.
  - by eapply respondInvitation_confined.
  - unfold footprint. at_writes; [set_solver|]. intros _. by apply confined_nil.
  - unfold footprint. at_writes; [set_solver|]. intros _. by apply confined_nil.
Qed.

End confined.

(** ** On the stores the service can be in *)

Section reachable.
Context (allowJoinMultipleRooms : bool) `{!JSON.Codec}.
Implicit Types (s : store) (q : request) (now : Z).

#[local] Abbreviation perform := (perform allowJoinMultipleRooms).
#[local] Abbreviation reachable := (reachable allowJoinMultipleRooms).

(** C18: two requests on disjoint keys, received on a store the service
    can be in: however the turns of their handlers alternate, both get
    the answers and the store is left as when the first is served
    before the second. *)
Theorem disjoint_interleaved_sequential (ts : list turn) now1 now2 q1 q2 s :
  reachable s →
  footprint allowJoinMultipleRooms now1 s q1 ## footprint allowJoinMultipleRooms now2 s q2 →
  interleaved now1 now2 ts (perform q1) (perform q2) s
  = sequential now1 now2 (perform q1) (perform q2) s.
Proof.
  intros (d & Hr & Hi)%reachable_consistent HK.
  by apply (interleaved_sequential _ _ ts now1 now2 _ _ s (perform_confined _ now1 s d q1 Hr Hi)
              (perform_confined _ now2 s d q2 Hr Hi)).
Qed.

(** C19: the handler of a request received on a store the service can
    be in sends its commands to the keys of the request only; so
    whatever the number of its requests that are served before the
    store fails or another handler takes a turn, every other key
    holds what it held. *)
Theorem reachable_confined now q s :
  reachable s →
  confined (footprint allowJoinMultipleRooms now s q) now (perform q) s ∧
  ∀ n k, k ∉ footprint allowJoinMultipleRooms now s q →
    (turns now n (perform q) s).2 !! k = s !! k.
Proof.
  intros (d & Hr & Hi)%reachable_consistent.
  pose proof (perform_confined _ now s d q Hr Hi) as Hq. split; [done|].
  intros n k Hk. by apply (turns_frame _ _ _ _ _ _ Hq).
Qed.

End reachable.

(** ** On a concrete store

    On the store where user 3, owner of room ["8"], is invited to room
    ["7"], user 3 accepts while user 5 books a room at time 12: the
    keys of the acceptance include room ["8"], which the guest
    leaves. *)

#[local] Open Scope Z_scope.

(** The acceptance of user 3 and the booking of user 5. *)
Definition accepts : request := Reach.RespondInvitation (VNum 3) (VBool true) (VStr "7").
Definition books : request := Book (VNum 5) true.

(** The keys the acceptance sends commands to, in order: the room, the
    list of the guest (the guard, then the rooms to leave), room
    ["8"] (read, then written with the list of the guest, twice: the
    queue of the loop is sent inside the loop and again after it), and
    the two writes of the acceptance. *)
Example accepts_keys_sent :
  keys_sent 10 (perform false accepts) (store_of invited)
  = [room_key (VStr "7"); rooms_key (VNum 3); rooms_key (VNum 3); room_key (VStr "8");
     room_key (VStr "8"); rooms_key (VNum 3); room_key (VStr "8"); rooms_key (VNum 3);
     rooms_key (VNum 3); room_key (VStr "7")].
Proof. vm_compute. reflexivity. Qed.

Lemma accepts_apart_books :
  footprint false 10 (store_of invited) accepts ## footprint false 12 (store_of invited) books.
Proof.
  assert (listed (store_of invited) (VNum 3) = {[ room_key (VStr "8") ]}) as Hl.
  { unfold listed. replace (list_at _ _) with ["8"] by (vm_compute; reflexivity).
    cbn. set_solver. }
  unfold accepts, books, footprint. cbn [truthy negb andb]. rewrite Hl. set_solver.
Qed.

Lemma disjoint_interleaved_sequential_witness :
  interleaved 10 12 [L; R; R; L; L; R; L; L; L] (perform false accepts) (perform false books)
    (store_of invited)
  = sequential 10 12 (perform false accepts) (perform false books) (store_of invited).
Proof.
  apply (disjoint_interleaved_sequential false _ 10 12 accepts books (store_of invited)).
  - apply scene_reachable, invited_admissible.
  - apply accepts_apart_books.
Defined.

Lemma reachable_confined_witness :
  confined (footprint false 10 (store_of invited) accepts) 10 (perform false accepts)
    (store_of invited) ∧
  ∀ n k, k ∉ footprint false 10 (store_of invited) accepts →
    (turns 10 n (perform false accepts) (store_of invited)).2 !! k = store_of invited !! k.
Proof.
  apply (reachable_confined false 10 accepts (store_of invited)).
  apply scene_reachable, invited_admissible.
Defined.
