(* ===== verification/Apart.v ===== *)
(** * Apart: pools of handlers on disjoint keys

    The handlers of a pool, each within a set of keys of its own
    ([separate]), the sets pairwise disjoint ([apart]).  A turn of one
    handler changes neither what the others answer nor what is left to
    do: run to their ends after the turn, the handlers write what they
    would have written before it.  So a schedule that brings every
    handler to its end leaves the store of the sequential run
    ([disjoint_dispatch]) and the answers of that run
    ([disjoint_dispatch_said]), and the order of the sequential run
    does not matter ([finish_Permutation]). *)

From stdpp Require Import strings gmap.
From S2P Require Import Prelude Redis Prog Interleave Pool Footprint.

#[local] Open Scope list_scope.

(** Every handler of the pool run to its end, in the order of the pool. *)
Definition finish (hs : pool) (s : store) : store :=
  foldl (λ s' h, (run (clock h) (rest h) s').2) s hs.

(** Key sets that are pairwise disjoint. *)
Fixpoint apart (Ks : list (gset key)) : Prop :=
  match Ks with
  | [] => True
  | K :: Ks' => Forall (λ K', K ## K') Ks' ∧ apart Ks'
  end.

(** Each handler of the pool within the key set at its position. *)
Definition separate (Ks : list (gset key)) (hs : pool) (s : store) : Prop :=
  Forall2 (λ K h, confined K (clock h) (rest h) s) Ks hs.

(** What each handler of the pool answers when it runs alone from
    [s], and what the handlers answer when they run one after the
    other, in the order of the pool. *)
Definition answers (hs : pool) (s : store) : list (outcome unit) :=
  (λ h, (run (clock h) (rest h) s).1) <$> hs.

Fixpoint in_order (hs : pool) (s : store) : list (outcome unit) :=
  match hs with
  | [] => []
  | h :: hs' => (run (clock h) (rest h) s).1 :: in_order hs' (run (clock h) (rest h) s).2
  end.

(** What a handler at its end has answered. *)
Definition said (h : handler) : outcome unit := (run (clock h) (rest h) ∅).1.

#[export] Instance apart_dec Ks : Decision (apart Ks).
Proof. induction Ks as [|K Ks IH]; cbn [apart]; apply _. Defined.

Section pools.
Implicit Types (K : gset key) (Ks : list (gset key)) (hs : pool) (h : handler) (s : store).

Lemma apart_lookup Ks i j K K' :
  apart Ks → i ≠ j → Ks !! i = Some K → Ks !! j = Some K' → K ## K'.
Proof.
  revert i j. induction Ks as [|K0 Ks IH]; intros i j HKs Hne Hi Hj; [done|].
  destruct HKs as [H0 HKs]. destruct i as [|i], j as [|j]; simplify_eq/=.
  - by apply (proj1 (Forall_lookup _ _) H0 j).
  - symmetry. by apply (proj1 (Forall_lookup _ _) H0 i).
  - apply (IH i j); auto.
Qed.

(** Handlers stay within their keys when the store changes elsewhere. *)
Lemma separate_frame K Ks hs s s' :
  Forall (λ K', K ## K') Ks → (∀ k, k ∉ K → s' !! k = s !! k) →
  separate Ks hs s → separate Ks hs s'.
Proof.
  unfold separate. intros HK Hs. induction 1 as [|K' h Ks hs Hh _ IH]; [constructor|].
  apply Forall_cons in HK as [HK' HK]. constructor; [|by apply IH].
  apply (confined_agree K' _ _ s); [done|]. apply agree_frame. intros k Hk. apply Hs.
  set_solver.
Qed.

Lemma finish_at_end hs s : Forall at_end hs → finish hs s = s.
Proof.
  induction 1 as [|h hs Hh _ IH]; [done|]. cbn [finish foldl].
  by rewrite (run_finished _ _ s s) by done.
Qed.

Lemma wake_S i h hs s : wake (S i) (h :: hs) s = (h :: (wake i hs s).1, (wake i hs s).2).
Proof.
  unfold wake. cbn [lookup list_lookup]. destruct (hs !! i) as [h'|]; [|done].
  by destruct (advance (clock h') (rest h') s).
Qed.

(** What a turn changes is within the keys of the handler that takes it. *)
Lemma wake_frame Ks i hs s K k :
  separate Ks hs s → Ks !! i = Some K → k ∉ K → (wake i hs s).2 !! k = s !! k.
Proof.
  intros Hhs HK Hk. unfold wake. destruct (hs !! i) as [h|] eqn:Hh; [|done].
  pose proof (Forall2_lookup_lr _ _ _ _ _ _ Hhs HK Hh) as Hc. cbn beta in Hc.
  pose proof (local_frame K _ s k (advance_local K _ _ s Hc) Hk) as Hf.
  unfold advance_op in Hf. cbn [fst] in Hf. by destruct (advance (clock h) (rest h) s).
Qed.

(** A turn leaves every handler within its keys. *)
Lemma wake_separate Ks i hs s :
  apart Ks → separate Ks hs s → separate Ks (wake i hs s).1 (wake i hs s).2.
Proof.
  intros HKs Hhs. apply Forall2_same_length_lookup.
  split; [by rewrite wake_length; eapply Forall2_length|]. intros j K h' HK.
  rewrite wake_lookup. destruct (decide (i = j)) as [->|Hne].
  - destruct (hs !! j) as [h|] eqn:Hh; [|done]. intros [= <-]. cbn [clock rest].
    pose proof (Forall2_lookup_lr _ _ _ _ _ _ Hhs HK Hh) as Hc. cbn beta in Hc.
    apply advance_confined in Hc. unfold wake. rewrite Hh.
    by destruct (advance (clock h) (rest h) s).
  - intros Hh. pose proof (Forall2_lookup_lr _ _ _ _ _ _ Hhs HK Hh) as Hc. cbn beta in Hc.
    apply (confined_agree K _ _ s); [done|]. apply agree_frame. intros k Hk.
    destruct (Ks !! i) as [Ki|] eqn:HKi.
    + apply (wake_frame Ks i hs s Ki); [done..|]. pose proof (apart_lookup Ks i j Ki K).
      set_solver.
    + unfold wake. apply lookup_ge_None in HKi.
      by rewrite (proj2 (lookup_ge_None hs i)) by by rewrite <- (Forall2_length _ _ _ Hhs).
Qed.

(** A turn of a handler of the pool moves across the run of a handler
    on other keys. *)
Lemma wake_run_comm K Ks i h hs s :
  confined K (clock h) (rest h) s → separate Ks hs s → Forall (λ K', K ## K') Ks →
  wake i hs (run (clock h) (rest h) s).2
  = ((wake i hs s).1, (run (clock h) (rest h) (wake i hs s).2).2).
Proof.
  intros Hh Hhs HK. unfold wake. destruct (hs !! i) as [hi|] eqn:Hi; [|done].
  destruct (Forall2_lookup_r _ _ _ _ _ Hhs Hi) as (Ki & HKi & Hc).
  destruct (local_comm K Ki (run_op (clock h) (rest h)) (advance_op (clock hi) (rest hi)) s)
    as (Hp & _ & Hs); [by apply run_local|by apply advance_local| |].
  { by apply (proj1 (Forall_lookup _ _) HK i). }
  unfold run_op, advance_op in *. cbn [fst snd] in *.
  destruct (advance (clock hi) (rest hi) (run _ _ s).2) as [p1 s1].
  destruct (advance (clock hi) (rest hi) s) as [p2 s2]. cbn [fst snd] in *. by subst.
Qed.

(** What is left to do is left the same by a turn: the handlers run to
    their ends after it write what they would have written before. *)
Lemma wake_finish Ks i hs s :
  apart Ks → separate Ks hs s → finish (wake i hs s).1 (wake i hs s).2 = finish hs s.
Proof.
  revert Ks i s. induction hs as [|h hs IH]; intros Ks i s HKs Hhs; [done|].
  apply Forall2_cons_inv_r in Hhs as (K & Ks' & Hh & Hhs & ->). destruct HKs as [HK HKs].
  destruct i as [|i].
  - unfold wake. cbn [lookup list_lookup]. pose proof (run_advance (clock h) (rest h) s) as Hrun.
    destruct (advance (clock h) (rest h) s) as [p s']. cbn [fst snd] in *.
    change (<[0:=?x]> (h :: hs)) with (x :: hs). cbn [finish foldl clock rest].
    by rewrite Hrun.
  - rewrite wake_S. cbn [fst snd finish foldl].
    pose proof (wake_run_comm K Ks' i h hs s Hh Hhs HK) as Hcomm.
    apply (f_equal (λ x, finish x.1 x.2)) in Hcomm. cbn [fst snd] in Hcomm.
    unfold finish in Hcomm, IH. rewrite <- Hcomm. apply (IH Ks'); [done|].
    apply (separate_frame K Ks' hs s); [done| |done]. intros k Hk.
    by apply (local_frame K (run_op (clock h) (rest h)) s), Hk; apply run_local.
Qed.

Lemma dispatch_finish Ks ts hs s :
  apart Ks → separate Ks hs s → finish (dispatch ts hs s).1 (dispatch ts hs s).2 = finish hs s.
Proof.
  intros HKs. revert hs s. induction ts as [|i ts IH]; intros hs s Hhs; [done|].
  cbn [dispatch]. pose proof (wake_finish Ks i hs s HKs Hhs) as Hf.
  pose proof (wake_separate Ks i hs s HKs Hhs) as Hsep.
  destruct (wake i hs s) as [hs' s']. cbn [fst snd] in *. by rewrite IH.
Qed.

(** Handlers on pairwise disjoint keys, each at its end after the
    schedule: the store is the one they leave when they run one after
    the other. *)
Lemma disjoint_dispatch Ks ts hs s :
  apart Ks → separate Ks hs s → Forall at_end (dispatch ts hs s).1 →
  (dispatch ts hs s).2 = finish hs s.
Proof.
  intros HKs Hhs Hend. by rewrite <- (dispatch_finish Ks ts hs s), finish_at_end.
Qed.

(** ** The answers of handlers on disjoint keys *)

(** A handler answers the same when the store changes outside its
    keys. *)
Lemma answers_frame K Ks hs s s' :
  Forall (λ K', K ## K') Ks → (∀ k, k ∉ K → s' !! k = s !! k) →
  separate Ks hs s → answers hs s' = answers hs s.
Proof.
  unfold separate, answers. intros HK Hs. induction 1 as [|K' h Ks hs Hh _ IH]; [done|].
  apply Forall_cons in HK as [HK' HK]. cbn [fmap list_fmap]. rewrite IH by done. f_equal.
  apply (run_local K' _ _ s Hh s'), agree_frame. intros k Hk. apply Hs. set_solver.
Qed.

(** One after the other, the handlers answer what each answers alone. *)
Lemma in_order_answers Ks hs s : apart Ks → separate Ks hs s → in_order hs s = answers hs s.
Proof.
  revert Ks s. induction hs as [|h hs IH]; intros Ks s HKs Hhs; [done|].
  apply Forall2_cons_inv_r in Hhs as (K & Ks' & Hh & Hhs & ->). destruct HKs as [HK HKs].
  cbn [in_order answers fmap list_fmap]. f_equal.
  assert (∀ k, k ∉ K → (run (clock h) (rest h) s).2 !! k = s !! k) as Hs.
  { intros k Hk. by apply (local_frame K (run_op (clock h) (rest h)) s), Hk; apply run_local. }
  rewrite (IH Ks') by (by try apply (separate_frame K Ks' hs s)).
  by apply (answers_frame K Ks').
Qed.

(** A turn changes no answer. *)
Lemma wake_answers Ks i hs s :
  apart Ks → separate Ks hs s → answers (wake i hs s).1 (wake i hs s).2 = answers hs s.
Proof.
  intros HKs Hhs. apply list_eq. intros j. unfold answers. rewrite !list_lookup_fmap, wake_lookup.
  destruct (hs !! j) as [h|] eqn:Hh; [|by destruct (decide (i = j))].
  destruct (Forall2_lookup_r _ _ _ _ _ Hhs Hh) as (K & HK & Hc).
  destruct (decide (i = j)) as [->|Hne]; cbn [fmap option_fmap option_map clock rest]; f_equal.
  - unfold wake. rewrite Hh. pose proof (run_advance (clock h) (rest h) s) as Hrun.
    destruct (advance (clock h) (rest h) s) as [p s']. cbn [fst snd] in *. by rewrite Hrun.
  - apply (run_local K _ _ s Hc), agree_frame. intros k Hk.
    destruct (Ks !! i) as [Ki|] eqn:HKi.
    + apply (wake_frame Ks i hs s Ki); [done..|]. pose proof (apart_lookup Ks i j Ki K).
      set_solver.
    + unfold wake. apply lookup_ge_None in HKi.
      by rewrite (proj2 (lookup_ge_None hs i)) by by rewrite <- (Forall2_length _ _ _ Hhs).
Qed.

Lemma dispatch_answers Ks ts hs s :
  apart Ks → separate Ks hs s → answers (dispatch ts hs s).1 (dispatch ts hs s).2 = answers hs s.
Proof.
  intros HKs. revert hs s. induction ts as [|i ts IH]; intros hs s Hhs; [done|].
  cbn [dispatch]. pose proof (wake_answers Ks i hs s HKs Hhs) as Hf.
  pose proof (wake_separate Ks i hs s HKs Hhs) as Hsep.
  destruct (wake i hs s) as [hs' s']. cbn [fst snd] in *. by rewrite IH.
Qed.

Lemma answers_at_end hs s : Forall at_end hs → answers hs s = said <$> hs.
Proof.
  intros Hhs. unfold answers. apply Forall_fmap_ext_1. eapply Forall_impl; [done|].
  intros h Hh. unfold said. by rewrite (run_finished _ _ ∅ s) by done.
Qed.

(** Handlers on pairwise disjoint keys, each at its end after the
    schedule, have answered what they answer one after the other. *)
Lemma disjoint_dispatch_said Ks ts hs s :
  apart Ks → separate Ks hs s → Forall at_end (dispatch ts hs s).1 →
  said <$> (dispatch ts hs s).1 = in_order hs s.
Proof.
  intros HKs Hhs Hend.
  by rewrite <- (answers_at_end _ (dispatch ts hs s).2), (dispatch_answers Ks),
    (in_order_answers Ks).
Qed.

(** ** The order of handlers on disjoint keys *)

Lemma apart_Permutation Ks Ks' : Ks ≡ₚ Ks' → apart Ks → apart Ks'.
Proof.
  induction 1 as [|K Ks Ks' HP IH|K K' Ks|Ks Ks' Ks'' _ IH1 _ IH2]; cbn [apart]; [done| | |auto].
  - intros [HK HKs]. split; [by rewrite <- HP|by apply IH].
  - intros [[HK HK']%Forall_cons [HKs Hl]]. split_and!; [|done..].
    constructor; [by symmetry|done].
Qed.

#[export] Instance apart_proper : Proper ((≡ₚ) ==> iff) apart.
Proof. intros Ks Ks' HP. split; apply apart_Permutation; [done|by symmetry]. Qed.

(** Handlers listed with their keys. *)
Lemma separate_zoned (ps : list (gset key * handler)) s :
  separate ps.*1 ps.*2 s ↔ Forall (λ p, confined p.1 (clock p.2) (rest p.2) s) ps.
Proof.
  unfold separate. induction ps as [|p ps IH]; cbn [fmap list_fmap]; [by split; constructor|].
  by rewrite Forall2_cons, Forall_cons, IH.
Qed.

(** Handlers on pairwise disjoint keys write the same in any order. *)
Lemma finish_Permutation (ps ps' : list (gset key * handler)) s :
  ps ≡ₚ ps' → apart ps.*1 → separate ps.*1 ps.*2 s → finish ps.*2 s = finish ps'.*2 s.
Proof.
  intros HP. revert s.
  induction HP as [|[K h] ps ps' HP IH|[K h] [K' h'] ps|ps ps' ps'' HP IH1 _ IH2];
    intros s HKs Hps; [done| | |].
  - destruct HKs as [HK HKs]. apply Forall2_cons in Hps as [Hh Hps]. cbn [fmap list_fmap finish foldl snd].
    apply IH; [done|]. apply (separate_frame K _ _ s); [done| |done]. intros k Hk.
    by apply (local_frame K (run_op (clock h) (rest h)) s), Hk; apply run_local.
  - destruct HKs as [[HK _]%Forall_cons _].
    apply Forall2_cons in Hps as [Hh' [Hh _]%Forall2_cons]. cbn [fst snd] in *.
    cbn [fmap list_fmap finish foldl snd]. f_equal.
    by apply (sequential_comm K' K _ _ (rest h') (rest h) s).
  - rewrite IH1 by done. apply IH2.
    + by rewrite <- HP.
    + apply separate_zoned. apply separate_zoned in Hps. by rewrite <- HP.
Qed.

End pools.
