(* ===== verification/Serial.v ===== *)
(** * Serial: requests that touch different keys serialize

    Requests of the service whose keys ([Keys]) are pairwise disjoint,
    received on a store the service can be in, leave, whatever the
    turns their handlers take, the store they leave when they are
    served one after the other, with the answers of that run
    ([disjoint_dispatch_play]), in any order
    ([disjoint_play_any_order]).  The last section runs requests whose
    keys meet. *)

From stdpp Require Import strings gmap.
From S2P Require Import Prelude JsArray JsValue Redis Room Json Prog Service Model.
From S2P Require Import Invariant Refine LeaveMany Reach Scene.
From S2P Require Import Interleave Typing Progress Pool Footprint Keys Apart.
Import RoomService.

#[local] Open Scope string_scope.
#[local] Open Scope list_scope.

(** ** The requests of the service on disjoint keys *)

Section service.
Context (allowJoinMultipleRooms : bool) `{!JSON.Codec}.
Implicit Types (s : store) (d : db) (ts : list nat) (qs : script) (q : request).

#[local] Abbreviation inv := (inv allowJoinMultipleRooms).
#[local] Abbreviation perform := (perform allowJoinMultipleRooms).
#[local] Abbreviation accept := (accept allowJoinMultipleRooms).
#[local] Abbreviation play := (play allowJoinMultipleRooms).
#[local] Abbreviation reachable := (reachable allowJoinMultipleRooms).

(** The keys of the requests of a script, read on the store they are
    received on. *)
Definition footprints qs s : list (gset key) :=
  (λ '(now, q), footprint allowJoinMultipleRooms now s q) <$> qs.

(** What the requests of a script are answered when they are served
    one after the other. *)
Fixpoint replies qs s : list (outcome unit) :=
  match qs with
  | [] => []
  | (now, q) :: qs' =>
      (run now (perform q) s).1 :: replies qs' (run now (perform q) s).2
  end.

Lemma in_order_accept qs s : in_order (accept qs) s = replies qs s.
Proof.
  revert s. induction qs as [|[now q] qs IH]; intros s; [done|].
  cbn [Pool.accept fmap list_fmap in_order replies clock rest]. f_equal. apply IH.
Qed.

Lemma finish_accept qs s : finish (accept qs) s = play qs s.
Proof.
  unfold finish, Pool.accept, Reach.play. revert s.
  induction qs as [|[now q] qs IH]; intros s; [done|]. apply IH.
Qed.

Lemma accept_separate qs s d :
  represents s d → inv d → separate (footprints qs s) (accept qs) s.
Proof.
  intros Hr Hi. unfold separate, footprints, Pool.accept. apply Forall2_fmap, Forall_Forall2_diag.
  apply Forall_forall. intros [now q] _. by apply (perform_confined _ now s d).
Qed.

(** C17: requests on pairwise disjoint keys, received on a store the
    service can be in, are served as if one after the other, whatever
    the turns their handlers take at the store, provided each gets
    the six turns that bring it to its end: the store is the one the
    sequential run leaves, and every handler has answered what the
    sequential run answers. *)
Theorem disjoint_dispatch_play ts qs s :
  reachable s → apart (footprints qs s) → fair_to (accept qs) 6 ts →
  (dispatch ts (accept qs) s).2 = play qs s ∧
  said <$> (dispatch ts (accept qs) s).1 = replies qs s.
Proof.
  intros (d & Hr & Hi)%reachable_consistent HKs Hts.
  pose proof (accept_separate qs s d Hr Hi) as Hqs.
  pose proof (fair_at_end allowJoinMultipleRooms ts qs s Hts) as Hend.
  rewrite <- finish_accept, <- in_order_accept. split.
  - by apply (disjoint_dispatch (footprints qs s)).
  - by apply (disjoint_dispatch_said (footprints qs s)).
Qed.

(** Each request of a script with its keys and its handler. *)
Lemma zone_fst qs s :
  ((λ '(now, q), (footprint allowJoinMultipleRooms now s q, Handler now (perform q))) <$> qs).*1
  = footprints qs s.
Proof. rewrite <- list_fmap_compose. apply list_fmap_ext. by intros _ [now q] _. Qed.

Lemma zone_snd qs s :
  ((λ '(now, q), (footprint allowJoinMultipleRooms now s q, Handler now (perform q))) <$> qs).*2
  = accept qs.
Proof. rewrite <- list_fmap_compose. apply list_fmap_ext. by intros _ [now q] _. Qed.

(** C20: requests on pairwise disjoint keys can be served in any order:
    every permutation of the script leaves the same store. *)
Theorem disjoint_play_any_order qs qs' s :
  reachable s → apart (footprints qs s) → qs ≡ₚ qs' → play qs s = play qs' s.
Proof.
  intros (d & Hr & Hi)%reachable_consistent HKs HP.
  rewrite <- !finish_accept, <- (zone_snd qs s), <- (zone_snd qs' s).
  apply finish_Permutation; [by apply fmap_Permutation|by rewrite zone_fst|].
  rewrite zone_fst, zone_snd. by apply (accept_separate qs s d).
Qed.

(** Requests on pairwise disjoint keys lead from a store the
    service can be in to a store it can be in, whatever the turns of
    their handlers. *)
Theorem disjoint_dispatch_reachable ts qs s :
  reachable s → admissible allowJoinMultipleRooms qs s = true →
  apart (footprints qs s) → fair_to (accept qs) 6 ts →
  reachable (dispatch ts (accept qs) s).2.
Proof.
  intros Hs Hqs HKs Hts. pose proof Hs as (d & Hr & Hi)%reachable_consistent.
  rewrite (disjoint_dispatch (footprints qs s)), finish_accept;
    [by apply play_reachable|done|by apply (accept_separate qs s d)|by apply fair_at_end].
Qed.

End service.

(** Scripts whose keys are apart by their names. *)
Ltac apart_by_keys :=
  cbv [footprints]; cbn [apart footprint fmap list_fmap]; repeat split; repeat constructor;
  set_solver.

(** ** On concrete stores

    On the store where user 1 has booked the public room ["7"], user 2
    asks to join it and user 3 books a room at time 9; their handlers
    take turns. *)

#[local] Open Scope Z_scope.

Definition join_and_book : script :=
  [(8, Join (VNum 2) (VStr "7")); (9, Book (VNum 3) true)].

Definition in_turn : list nat := [0; 1; 0; 1; 0; 1; 0; 1; 0; 1; 0; 1]%nat.

Lemma join_and_book_apart : apart (footprints false join_and_book (store_of booked)).
Proof. apart_by_keys. Qed.

Lemma disjoint_dispatch_play_witness :
  (dispatch in_turn (accept false join_and_book) (store_of booked)).2
  = play false join_and_book (store_of booked) ∧
  said <$> (dispatch in_turn (accept false join_and_book) (store_of booked)).1
  = replies false join_and_book (store_of booked).
Proof.
  apply (disjoint_dispatch_play false in_turn join_and_book (store_of booked)).
  - apply scene_reachable, booked_admissible.
  - apply join_and_book_apart.
  - intros [|[|i]] Hi; [vm_compute; lia..|simpl in Hi; lia].
Defined.

Lemma disjoint_play_any_order_witness :
  play false join_and_book (store_of booked) = play false (reverse join_and_book) (store_of booked).
Proof.
  apply (disjoint_play_any_order false join_and_book (reverse join_and_book) (store_of booked)).
  - apply scene_reachable, booked_admissible.
  - apply join_and_book_apart.
  - symmetry. apply reverse_Permutation.
Defined.

Lemma disjoint_dispatch_reachable_witness :
  reachable false (dispatch in_turn (accept false join_and_book) (store_of booked)).2.
Proof.
  apply (disjoint_dispatch_reachable false in_turn join_and_book (store_of booked)).
  - apply scene_reachable, booked_admissible.
  - vm_compute. reflexivity.
  - apply join_and_book_apart.
  - intros [|[|i]] Hi; [vm_compute; lia..|simpl in Hi; lia].
Defined.

(** ** Requests whose keys meet

    The races of [Race] are between requests whose keys meet:
    two joins of one room meet at the room; two bookings of one user,
    though of two rooms, at the list of the user. *)
Example races_meet :
  room_key (VStr "7") ∈ footprint false 8 (store_of booked) (Join (VNum 2) (VStr "7"))
                        ∩ footprint false 9 (store_of booked) (Join (VNum 3) (VStr "7"))
  ∧ rooms_key (VNum 1) ∈ footprint false 7 ∅ (Book (VNum 1) true)
                         ∩ footprint false 8 ∅ (Book (VNum 1) true).
Proof. split; cbn [footprint]; set_solver. Qed.

(** User 4 is connected; user 3, owner and only member of room ["8"],
    invites user 4 to it and, at the same time, accepts the invitation
    to room ["7"]. *)
Definition crowded : script := invited ++ [(10, Connect (VNum 4) "k4")].
Definition invites4 : request := Invite (VNum 3) (VNum 4) (VStr "8").

(** The two requests name different rooms, and meet at room ["8"], which
    the acceptance empties. *)
Example accepts_meets_invites4 :
  room_key (VStr "8") ∈ footprint false 11 (store_of crowded) accepts
                        ∩ footprint false 12 (store_of crowded) invites4.
Proof.
  assert (listed (store_of crowded) (VNum 3) = {[ room_key (VStr "8") ]}) as Hl.
  { unfold listed. replace (list_at _ _) with ["8"] by (vm_compute; reflexivity).
    cbn. set_solver. }
  unfold accepts, invites4, footprint. cbn [truthy negb andb]. rewrite Hl. set_solver.
Qed.

(** The invitation reads room ["8"], the acceptance runs to its end
    and deletes the room, the invitation writes the room back: both
    succeed, user 3 is a member of rooms ["7"] and ["8"] under the
    single-room policy, and is listed in room ["7"] only. *)
Example accept_race_revives_room :
  let '(a, b, s) :=
    interleaved 11 12 [R; L; L; L; L; L; L; R] (perform false accepts) (perform false invites4)
      (store_of crowded) in
  a = Ok tt ∧ b = Ok tt
  ∧ (run 13 (get (VStr "7")) s).1 = Ok (mkRoom "7" true (VNum 1) [VNum 1; VNum 3] [] [])
  ∧ (run 13 (get (VStr "8")) s).1 = Ok (mkRoom "8" false (VNum 3) [VNum 3] [VNum 4] [])
  ∧ list_at s (rooms_key (VNum 3)) = ["7"].
Proof. vm_compute. done. Qed.

(** Served one after the other, the invitation finds no room. *)
Example accept_then_invite :
  let '(a, b, s) :=
    sequential 11 12 (perform false accepts) (perform false invites4) (store_of crowded) in
  a = Ok tt ∧ b = Err (WsException "Room does not exist!")
  ∧ (run 13 (get (VStr "8")) s).1 = Err (WsException "Room does not exist!").
Proof. vm_compute. done. Qed.
