(* ===== verification/OverlapSerial.v ===== *)
(** * OverlapSerial: messages of the gateway on disjoint keys

    The messages the gateway has received and not answered yet, each
    at the [await] of its handler, ask requests of the coordinator
    ([asks]); a message that arrives and passes the interceptors does
    ([arrive_asks]).  Under every order of the turns the store behind
    the gateway is the one the methods of these requests leave in the
    pool ([overlap_store_requests]): a handler writes to the store
    through its method only.  When the keys of the requests are
    pairwise disjoint, the order in which the store answers the
    handlers does not show: every message is answered, and the store
    behind the gateway is the one the requests leave when they are
    served one after the other ([overlap_disjoint_serial]).  That
    theorem composes the pool behind the gateway ([Overlap]) with the
    footprints of the requests ([Serial]); the handlers of the gateway
    and the requests of [Reach] are the same programs up to [≡], which
    the footprint respects. *)

From stdpp Require Import strings gmap.
From S2P Require Import Prelude JsArray JsValue Redis Room Json Prog Service Reach Scene.
From S2P Require Import Interleave Typing Progress Pool Socket Gateway GatewaySpec Equiv.
From S2P Require Import Overlap OverlapStore Footprint Keys Apart Serial.
Import TextChatGateway.

#[local] Open Scope string_scope.
#[local] Open Scope list_scope.
#[local] Open Scope nat_scope.

Section asks.
Context (allowJoinMultipleRooms : bool) `{!JSON.Codec}.
Context {E : Type} {services : Services E}.

(** The message [o] on its way asks the request [x.2] at time [x.1]. *)
Definition asks (o : option (pending E)) (x : Z * request) : Prop :=
  ∃ ctx client m,
    o = Some (Pending ctx x.1 (awaits allowJoinMultipleRooms client m)) ∧
    request_of client m = Some x.2.

End asks.

(** ** Programs that send the same requests have the same footprint *)

Section same_keys.
Context {A : Type}.
Implicit Types (p q : prog A) (s : store) (K : gset key).

Lemma keys_sent_same now p q s : p ≡ q → keys_sent now p s = keys_sent now q s.
Proof.
  intros Hpq. revert s. induction Hpq as [a|e|c k k' _ IH|cs k k' _ IH|k k' _ IH]; intros s;
    cbn [keys_sent]; [done|done| | |apply IH].
  - destruct (apply_command c s) as [s' r]. f_equal. by destruct r.
  - destruct (exec_pipeline cs s) as [s' rs]. by rewrite IH.
Qed.

#[export] Instance confined_proper K now : Proper ((≡) ==> (=) ==> iff) (confined (A:=A) K now).
Proof. intros p q Hpq s ? <-. unfold confined. by rewrite (keys_sent_same now p q s). Qed.

End same_keys.

Lemma finished_bind_false {A B : Type} now (p : prog A) (f : A → prog B) :
  finished now p = false → finished now (bind p f) = false.
Proof. induction p as [a|e|c k IH|cs k IH|k IH]; cbn [bind finished]; try done. apply IH. Qed.

Lemma turns_of_turns (ts : list nat) : turns_of (Turn <$> ts) = ts.
Proof. induction ts as [|n ts IH]; [done|]. unfold turns_of in *. cbn. by rewrite IH. Qed.

(** Pools whose handlers send the same requests at the same times. *)
Definition alike (h h' : handler) : Prop := clock h = clock h' ∧ rest h ≡ rest h'.

Lemma finish_alike hs hs' s : Forall2 alike hs hs' → finish hs s = finish hs' s.
Proof.
  intros Hhs. revert s. induction Hhs as [|h h' hs hs' [Hc Hr] _ IH]; intros s; [done|].
  cbn [finish foldl]. rewrite Hc, Hr. apply IH.
Qed.

Lemma separate_alike Ks hs hs' s :
  Forall2 alike hs hs' → separate Ks hs' s → separate Ks hs s.
Proof.
  unfold separate. intros Hhs Hsep. revert hs Hhs.
  induction Hsep as [|K h' Ks hs' Hh _ IH]; intros hs Hhs.
  - apply Forall2_nil_inv_r in Hhs as ->. constructor.
  - apply Forall2_cons_inv_r in Hhs as (h & hs0 & [Hc Hr] & Hhs & ->).
    constructor; [by rewrite Hc, Hr|by apply IH].
Qed.

(** Handlers that send the same requests take the same turns. *)
Lemma wake_alike n hs hs' s :
  Forall2 alike hs hs' →
  Forall2 alike (wake n hs s).1 (wake n hs' s).1 ∧ (wake n hs s).2 = (wake n hs' s).2.
Proof.
  intros Hhs. unfold wake. destruct (hs !! n) as [h|] eqn:Hn.
  - destruct (Forall2_lookup_l _ _ _ _ _ Hhs Hn) as (h' & -> & Hc & Hr).
    destruct (advance_proper (clock h) _ _ Hr s s eq_refl) as [Hp Hs]. rewrite <- Hc.
    destruct (advance (clock h) (rest h) s) as [p s1].
    destruct (advance (clock h) (rest h') s) as [p' s1']. cbn [fst snd] in *.
    split; [|done]. by apply Forall2_insert.
  - rewrite (proj2 (lookup_ge_None hs' n)); [done|].
    rewrite <- (Forall2_length _ _ _ Hhs). by apply lookup_ge_None.
Qed.

Lemma dispatch_alike ts hs hs' s :
  Forall2 alike hs hs' → (dispatch ts hs s).2 = (dispatch ts hs' s).2.
Proof.
  revert hs hs' s. induction ts as [|n ts IH]; intros hs hs' s Hhs; [done|].
  cbn [dispatch]. destruct (wake_alike n hs hs' s Hhs) as [Hhs' Hs].
  destruct (wake n hs s) as [hs1 s1]. destruct (wake n hs' s) as [hs1' s1'].
  cbn [fst snd] in *. subst s1'. by apply IH.
Qed.

(** ** The messages in flight *)

Section gateway.
Context (allowJoinMultipleRooms : bool) `{!JSON.Codec}.
Context {E : Type} {services : Services E} {binding : Interceptors E}.
Implicit Types (o : option (pending E)) (hs : list (option (pending E))) (w : world E).
Implicit Types (qs : script) (ts : list nat).

#[local] Abbreviation asks := (asks (E:=E) allowJoinMultipleRooms).
#[local] Abbreviation accept := (accept allowJoinMultipleRooms).
#[local] Abbreviation perform := (perform allowJoinMultipleRooms).
#[local] Abbreviation overlap := (overlap (E:=E) allowJoinMultipleRooms).

(** A message that asks a request is not a private message: what its
    handler does after the method writes nothing to the store. *)
Lemma asks_calm o x : asks o x → calm o.
Proof.
  intros (ctx & client & m & -> & Hq). apply awaits_calm. by destruct m.
Qed.

(** The handler that stands for the message in the pool is the handler
    of the request. *)
Lemma asks_alike o x : asks o x → alike (forget o) (Handler x.1 (perform x.2)).
Proof.
  intros (ctx & client & m & -> & Hq). split; [done|]. by apply awaits_perform.
Qed.

Lemma asks_forget hs qs : Forall2 asks hs qs → Forall2 alike (forget <$> hs) (accept qs).
Proof.
  intros Hhs. unfold Pool.accept. apply Forall2_fmap.
  eapply Forall2_impl; [done|]. intros o [now q] Ho. by apply (asks_alike o (now, q)).
Qed.

(** Every method starts with a request to the store. *)
Lemma perform_waits now (q : request) : finished now (perform q) = false.
Proof.
  destruct q; cbn [Reach.perform]; unfold void; rewrite finished_bind_false; try done;
    unfold RoomService.book, RoomService.join, RoomService.singleRoomGuard, RoomService.kick,
      RoomService.respondInvitation;
    repeat case_match; done.
Qed.

Lemma asks_needs o x : asks o x → needs 6 o.
Proof.
  intros (ctx & client & m & -> & Hq). split; [|apply awaits_within]. cbn [time remainder].
  by rewrite <- finished_void, (awaits_perform _ client m x.2 Hq), perform_waits.
Qed.

(** A message that arrives and passes the interceptors asks the
    request of its handler, for the user they have bound to the
    socket. *)
Lemma arrive_asks now client m w ctx w' q :
  pass (interceptors (endpoint_of allowJoinMultipleRooms now m))
    (ExecutionContext.mk client None) w = (Some ctx, w') →
  request_of (ExecutionContext.client ctx) m = Some q →
  (arrive allowJoinMultipleRooms now client (Message m) w).2 = w'
  ∧ asks (arrive allowJoinMultipleRooms now client (Message m) w).1 (now, q).
Proof.
  intros Hpass Hq. cbn [Overlap.arrive]. rewrite Hpass. unfold start. cbn [time remainder].
  rewrite <- finished_void, (awaits_perform _ _ m q Hq), perform_waits.
  split; [done|]. by eexists ctx, _, m.
Qed.

Lemma asks_stands_for hs qs : Forall2 asks hs qs → Forall2 stands_for hs (forget <$> hs).
Proof.
  intros Hhs. apply Forall2_fmap_r, Forall_Forall2_diag, Forall_forall. intros o Ho.
  destruct (proj1 (list_elem_of_lookup _ _) Ho) as [n Hn].
  destruct (Forall2_lookup_l _ _ _ _ _ Hhs Hn) as (x & _ & Hx).
  pose proof (asks_calm o x Hx). by destruct Hx as (? & ? & ? & -> & _).
Qed.

(** C27: behind the gateway the store sees the requests of the
    coordinator and nothing else.  The messages on their way are
    handlers of the gateway, each cut at its call of the coordinator
    ([awaits]), and [qs] are the requests these calls make
    ([request_of]).  Whatever the store holds and in whatever order it
    answers the handlers, the store behind the gateway is the store the
    methods of the coordinator ([perform]) leave when they take the
    same turns in the pool: nothing a handler does before or after its
    call, on the sockets or in the exception filter, writes to the
    store. *)
Theorem overlap_store_requests ts hs qs w :
  Forall2 asks hs qs →
  kv (overlap (Turn <$> ts) hs w).2 = (dispatch ts (accept qs) (kv w)).2.
Proof.
  intros Hhs. rewrite (overlap_dispatch _ ts hs (forget <$> hs) w) by by eapply asks_stands_for.
  by apply dispatch_alike, asks_forget.
Qed.

(** The handlers that stand for the messages come to their ends under
    a schedule that is fair to the requests. *)
Lemma asks_at_end ts hs qs s :
  Forall2 asks hs qs → fair_to (accept qs) 6 ts →
  Forall at_end (dispatch ts (forget <$> hs) s).1.
Proof.
  intros Hhs Hts. apply dispatch_at_end. intros i h Hi. exists 6.
  destruct (Forall2_lookup_l _ _ _ _ _ (asks_forget hs qs Hhs) Hi) as (h' & Hi' & _ & Hr).
  split.
  - rewrite Hr. destruct (accept_lookup _ qs i h' Hi') as [q ->]. apply perform_within.
  - apply Hts. by eapply lookup_lt_Some.
Qed.

(** C28: the messages in flight ask requests whose keys are pairwise
    disjoint, on a store the service can be in.  However the store
    orders its answers to the handlers, once each has had its six
    turns the store behind the gateway is the one the requests leave
    when they are served one after the other, and every message is
    answered. *)
Theorem overlap_disjoint_serial ts hs qs w :
  Forall2 asks hs qs → reachable allowJoinMultipleRooms (kv w) →
  apart (footprints allowJoinMultipleRooms qs (kv w)) → fair_to (accept qs) 6 ts →
  kv (overlap (Turn <$> ts) hs w).2 = play allowJoinMultipleRooms qs (kv w) ∧
  ∀ n, n < length hs → (overlap (Turn <$> ts) hs w).1 !! n = Some None.
Proof.
  intros Hhs Hw HKs Hts. pose proof Hw as (d & Hr & Hi)%reachable_consistent. split.
  - rewrite (overlap_dispatch _ ts hs (forget <$> hs) w).
    + rewrite (disjoint_dispatch (footprints allowJoinMultipleRooms qs (kv w)));
        [|done| |by eapply asks_at_end].
      * by rewrite (finish_alike _ _ _ (asks_forget hs qs Hhs)), finish_accept.
      * eapply separate_alike; [by apply asks_forget|by eapply accept_separate].
    + by eapply asks_stands_for.
  - intros n Hn. destruct (lookup_lt_is_Some_2 hs n Hn) as [o Ho].
    destruct (Forall2_lookup_l _ _ _ _ _ Hhs Ho) as (x & _ & Hx).
    apply (overlap_answered _ _ hs w n 6 o); [done|by eapply asks_needs|].
    rewrite turns_of_turns. apply Hts. unfold Pool.accept.
    by rewrite length_fmap, <- (Forall2_length _ _ _ Hhs).
Qed.

End gateway.

(** ** On a concrete world

    The sockets of users 1 and 2 send [create_room] at times 7 and 8;
    the store answers the two handlers in turn. *)

#[local] Open Scope Z_scope.

Definition two_users_create : list (option (pending unit)) :=
  [Some (Pending (ExecutionContext.mk alice (Some ListenEvent.CreateRoom)) 7
           (awaits (services := no_services) false alice CreateRoom));
   Some (Pending (ExecutionContext.mk bob (Some ListenEvent.CreateRoom)) 8
           (awaits (services := no_services) false bob CreateRoom))].

Definition two_books : script := [(7, Book (VNum 1) false); (8, Book (VNum 2) false)].

Lemma overlap_disjoint_serial_witness :
  kv (overlap (services := no_services) (binding := session) false
        (Turn <$> in_turn) two_users_create (world_of [])).2
  = play false two_books (kv (world_of [])) ∧
  ∀ n, (n < length two_users_create)%nat →
    (overlap (services := no_services) (binding := session) false
       (Turn <$> in_turn) two_users_create (world_of [])).1 !! n = Some None.
Proof.
  apply (overlap_disjoint_serial (services := no_services) (binding := session) false
           in_turn two_users_create two_books (world_of [])).
  - repeat constructor; eexists _, _, CreateRoom; by split.
  - apply reach_empty.
  - unfold two_books. apart_by_keys.
  - intros [|[|i]] Hi; [vm_compute; lia..|simpl in Hi; lia].
Defined.

(** The same two messages, the first answered before the second is
    served, on a store that holds a room already. *)
Lemma overlap_store_requests_witness :
  kv (overlap (services := no_services) (binding := session) false
        (Turn <$> [0; 0; 1; 0; 1]%nat) two_users_create (world_of booked)).2
  = (dispatch [0; 0; 1; 0; 1]%nat (accept false two_books) (kv (world_of booked))).2.
Proof.
  apply (overlap_store_requests (services := no_services) (binding := session) false
           [0; 0; 1; 0; 1]%nat two_users_create two_books (world_of booked)).
  repeat constructor; eexists _, _, CreateRoom; by split.
Defined.

(** Both users own a room afterwards. *)
Example two_users_created :
  let s := kv (overlap (services := no_services) (binding := session) false
                 (Turn <$> in_turn) two_users_create (world_of [])).2 in
  list_at s (key_of CacheNamespace.UId2RIds (VNum 1)) = ["7"%string]
  ∧ list_at s (key_of CacheNamespace.UId2RIds (VNum 2)) = ["8"%string].
Proof. vm_compute. done. Qed.
